(* ===== verification/_CoqProject ===== *)
-Q . S2P
Prelude.v
Codec.v
Schema.v
SchemaSpec.v
EventBus.v
EventBusSpec.v
EventBusTermination.v
Room.v
RoomSpec.v
RoomActor.v
RoomProps.v
Manager.v
ManagerSpec.v
ManagerLife.v
ManagerActor.v
ManagerProps.v
Session.v
Socket.v
Gateway.v
GatewaySpec.v
Handlers.v
App.v
GatewayProps.v
AppProps.v
ConnProps.v
RunProps.v
HandlersProps.v
