(* ===== verification/Prelude.v ===== *)
(** * PartyX: a verification library for the go-partyx game server framework

    PartyX is a framework for multiplayer servers. A client opens a WebSocket,
    authenticates, and sends binary frames; the gateway turns them into requests
    to global handlers or to the rooms the client is in; rooms are actors that
    publish events on a topic bus, and connections subscribe to topics.

    ** The parts and the files that model them

    - This file: what the other files share. Go values, errors, the monad [M] of
      stateful code that emits effects and may panic, [recover], the random
      order of a Go map ([GoRange]), and the proof tools: [TraceRel] lifts a
      relation between states and effects over the monad, the hint database [go]
      proves it by following the code.
    - Codec.v, Schema.v: package protocol. Codec.v has the read and write
      primitives of the generated code, [Encode], [Decode] and the typed handler
      pipeline [Call] (codec.go). Schema.v has a module per message
      (schema.go) with its [Marshal] and [Unmarshal] (schema_gen.go).
      SchemaSpec.v gives each message its encoding as a pure function and proves
      [WireSpec], the interface through which the rest uses the codec.
    - EventBus.v, EventBusSpec.v, EventBusTermination.v: package eventbus.
      [Bus.step_call] is one atomic step of [EventBus.Subscribe] or
      [Unsubscribe] (an access to the sync.Map, a critical section of a topic);
      [Bus.Subscribe] and [Bus.Unsubscribe] run the steps alone,
      [Bus.interleaving] runs many calls in any order; [Bus.Publish] is a
      snapshot and one recovered delivery per subscriber.
    - Room.v, RoomSpec.v, RoomActor.v, RoomProps.v: room/room.go and the module
      type of room/module.go. [Room.t] is the state the actor's goroutine owns.
      A method that submits a closure to the actor is [Room.do_] applied to
      [X_closure]; what the method does after the closure follows it. Module
      hooks, handlers and ticks are parameters that yield the calls they make on
      the room ([Room.action]). RoomActor.v interleaves the closures of all
      callers with ticks and timers: [RoomActor.step], from the room's birth on
      ([RoomActor.newborn]).
    - Manager.v, ManagerSpec.v, ManagerLife.v, ManagerActor.v, ManagerProps.v:
      room/manager.go.
      The manager uses rooms and room types through the classes [AnyRoom] and
      [AnyModule] (the interfaces of room/module.go); [AnyRoomSpec] and
      [AnyModuleSpec] are what it relies on, and the rooms of Room.v discharge
      them. Rooms are pointers into a heap, as a room outlives its removal from
      the map. An operation of Manager.v runs alone; ManagerActor.v cuts the
      calls at their critical sections, room calls and publications and
      interleaves any number of them: [ManagerActor.step]. ManagerLife.v says what
      no operation and no room undoes: [lasting].
    - Session.v: packages session and command. Socket.v: what the gateway sets
      on a WebSocket and writes to it. Gateway.v: package gateway: client.go with
      a turn of each of its loops ([ReadLoop_frame], [handleLoop_turn],
      [WriteLoop_turn]), dispatcher.go, and gateway.go with the construction and
      [Run] and [shutdown], a step at a time ([Run_turn], [shutdown_turn]), so that
      the rest of the server goes on in between. GatewaySpec.v has the closed forms of its operations.
    - Handlers.v: internal/handlers and lobby. App.v: the application, with
      [Config] and [New] of app.go, the registration of handlers and room types
      of handle.go and app.go, devauth.go, the builder of room/module.go and the
      fluent one of room.go ([RoomBuilder]).
    - GatewayProps.v, ConnProps.v, RunProps.v, AppProps.v, HandlersProps.v: the
      theorems about the gateway, the wire of its connections, the end of [Run],
      the application, and the built-in methods. ConnProps.v has the steps of a
      whole server, [server_step], and of one with [Run] around it, [run_step].

    ** How the state corresponds

    A struct is a record with the fields of the source; the fields that only
    synchronise (mutexes, the inbox channel) have no counterpart, but for the wait
    group of the read loops, which is the set of those that run ([reading], with
    [arriving] for the connections not added yet): the critical sections and closures are the units that run without
    interruption. A topic of the bus and a room are reached through pointers and
    so live in heaps; the other objects have a single owner. A timer is a handle:
    [Room.timers] are those the runtime has armed, [Room.emptyTimer] the one the
    field holds. What a component does outside of itself is an effect of its
    trace, in order: publications, the start of the removal ([EGoOnEmpty]), the
    entry of user code ([EHook]), logged panics, fatal runtime errors
    ([EFatal]). The gateway replays the publications of the manager on the bus.
    What the environment decides is an argument: the time, a new uuid, a frame
    read, whether a write succeeds, the case a select goes on with, what ends
    the select of [Run].

    ** What the theorems show

    - The wire format (SchemaSpec.v): every message that fits the wire is read
      back as written whatever follows it; what any [Unmarshal] returns is in
      range and can be written again, and a client frame has one encoding;
      [Call] runs the handler on the request the client encoded.
    - The bus (EventBusSpec.v): alone, its calls refine a finite map from topics
      to subscribers without empty topics; a publication reaches every accepting
      subscriber although others panic; concurrently, a subscription is in force
      when [Subscribe] returns and stays so unless another call unsubscribes the
      same subscriber of the same topic.
      EventBusTermination.v: the retry of [Subscribe] cannot livelock.
    - Rooms (RoomProps.v): what Join, JoinReplace, HandleMessage, SendTo and
      BroadcastExcept do on every branch; the invariants [player_inv] (an index
      of players under the cap) and [timer_inv] (at most one armed timer, the
      one in the field) under every interleaving; when the removal starts.
    - The manager (ManagerProps.v): [wf], the consistency of rooms and records,
      in every state that interleaved calls can reach; the contracts of JoinRoom, Create, Remove and DispatchRoomMessage.
    - The gateway (GatewayProps.v): no access before authentication, one reply
      per request after the handler's effects with the documented code, the bound
      of the send queue, the cleanup of a disconnect. ConnProps.v: a connection
      writes its frames in order and once whatever the server does, a close drains
      the queue and ends. RunProps.v: [Run] unwinds the server under every
      schedule of the loops that go on, as far as it waits for them.
    - The application: [New] and [Register] on every branch, one owner per opcode
      (AppProps.v); room.create is all or nothing (HandlersProps.v).
    - Where the code does not do what it says, the theorem states what it does:
      [replace_race_breaks_exclusion] and [failed_replace_loses_record] (the
      records of a Replace type), [full_rejoin_breaks_reject],
      [unsubscribe_drops_subscription], [zero_grace_removes_live_room],
      [onleave_panic_leaks], [oninit_toggle_is_fatal], [refused_rejoin_strands_member],
      [bare_unsubscribe_strands_player], [late_join_strands_player],
      [unauthenticated_kept_alive], [lobby_list_crashes], [long_name_panics] (a case
      of [create_is_all_or_nothing]), [personal_topic_is_open], and in [New_spec]
      the ping period.

    ** Bounds and fuel

    [Subscribe] and [Unsubscribe] run alone take 3 and 4 steps, which is the fuel
    [Gateway.bus_Subscribe] and [bus_Unsubscribe] give them ([bus_refines_map]
    shows that they return); under interference [n] calls take at most
    n (4 n + 4) steps ([calls_terminate]). [ManagerActor.finish] runs the sections
    of a call with fuel; [ManagerActor.alone_run] finds how much a call needs, and
    that it is then the operation of Manager.v. [WriteLoop] is given the turns the
    environment grants it; closed, it needs one per frame and two more, ticks of
    the ping timer apart ([close_drains_queue]). [shutdown_turn] waits for the read
    loops one look at a time, as often as the schedule gives it one
    ([Run_unwinds]). Every other definition is structurally recursive.
    Lengths on the wire are 16 bits: the writers panic above 65535, and
    [uint16_of_len] wraps, which is why the cap of a room bounds its players
    only below 65536, as every cap that comes from a uint16 is. A theorem that
    needs a value to fit the wire says [valid], [nameable] or [is_id].

    ** What is not modelled, and why

    - The bodies of net/http, gin and gorilla/websocket: the HTTP server, the
      upgrade and the socket are behind the arguments of [Run_turn], [register]
      and the loops; that [shutdown] first stops the HTTP server is not seen, so
      connections may come in at any time. The route of the gateway is recorded, not served.
    - Blocking: a hook that calls a method which submits to its own actor
      deadlocks in the code; hooks here make only the calls documented for them.
      A closure accepted by the inbox while [Shutdown] cancels the room may run
      although its caller already gave up; here it is skipped.
    - Finer interleavings: a call of a room is one step of ManagerActor.v (its
      closures interleave in RoomActor.v, a room at a time), and a turn of a
      connection's loop, the handler of a request or the cleanup of a disconnect
      included, is one step of the server. The goroutine of [EGoOnEmpty], which calls [Manager.Remove], is an
      effect and its run is a call like any other.
    - Logging, apart from panics and the warning of DevAuth; the getters of App,
      which are its fields; the tools directory, the examples and the generated
      clients. *)

From Stdlib Require Export Lia.
From Stdlib Require Strings.Byte.
From stdpp Require Export base tactics option list numbers strings pretty gmap fin_maps.

(** ** Go values

    A Go [string] is a Rocq [string] (a sequence of bytes), a [[]byte] is a list
    of bytes, an unsigned machine integer is an [N] whose wrap-around is written
    out where the code truncates, an [int] used as a length or an offset is a
    [nat], and a [time.Duration] is a [Z] of nanoseconds. *)

Declare Scope go_scope.
Delimit Scope go_scope with go.

Abbreviation bytes := (list Byte.byte).

(** [%q] of a string whose characters need no escape. *)
Definition quoted (s : string) : string :=
  let quote := String (Ascii.ascii_of_nat 34) EmptyString in quote +:+ s +:+ quote.

#[export] Instance byte_eq_dec : EqDecision Byte.byte := Byte.byte_eq_dec.

(** ** Errors

    [errors.New] values compared by identity are the constructors of
    [sentinel]; the rest of the error values the code builds are told apart by
    the code that inspects them ([gateway.errorCode]): a [*protocol.Error], an
    anonymous [errors.New] value, and a wrapped error ([fmt.Errorf] with
    [%w], which game handlers may return). *)

Inductive sentinel :=
  | ErrRoomNotFound
  | ErrRoomFull
  | ErrRoomClosed
  | ErrAlreadyInRoomOfType
  | ErrNotInRoom
  | ErrAmbiguousRoom.

#[export] Instance sentinel_eq_dec : EqDecision sentinel.
Proof. solve_decision. Defined.

Inductive error :=
  | ErrSentinel (s : sentinel)
  | ErrNew (msg : string)
  | ErrProtocol (code : Z) (msg : string)
  | ErrWrap (msg : string) (inner : error).

#[export] Instance error_eq_dec : EqDecision error.
Proof. solve_decision. Defined.

(** [protocol.NewError]. *)
Definition NewError (code : Z) (message : string) : error := ErrProtocol code message.

(** ** Outcomes: a Go expression returns or panics *)

Inductive outcome (A : Type) : Type :=
  | Ret (a : A)
  | Panic (msg : string).
Arguments Ret {A} a.
Arguments Panic {A} msg.

#[export] Instance outcome_ret : MRet outcome := λ A a, Ret a.
#[export] Instance outcome_bind : MBind outcome := λ A B k m,
  match m with Ret a => k a | Panic s => Panic s end.

Definition is_panic {A} (o : outcome A) : bool :=
  match o with Ret _ => false | Panic _ => true end.

(** ** Results: the [(value, error)] pair of a Go function

    The code never reads the value of a pair whose error is not nil, so a pair
    is one or the other. *)

Inductive result (A : Type) : Type :=
  | Ok (a : A)
  | Err (e : error).
Arguments Ok {A} a.
Arguments Err {A} e.

#[export] Instance result_ret : MRet result := λ A a, Ok a.
#[export] Instance result_bind : MBind result := λ A B k m,
  match m with Ok a => k a | Err e => Err e end.

(** ** Stateful code: state, panics and a trace of effects

    [M W E A] is a Go function over the state [W]: it ends with a value or a
    panic, the state it leaves (also when it panics: what was written before the
    panic stays written) and the effects it had on the outside, in order. *)

Definition M (W E A : Type) : Type := W → outcome A * W * list E.

Definition value {W E A} (r : outcome A * W * list E) : outcome A := r.1.1.
Definition final {W E A} (r : outcome A * W * list E) : W := r.1.2.
Definition effects {W E A} (r : outcome A * W * list E) : list E := r.2.

#[export] Instance M_ret {W E} : MRet (M W E) := λ A a w, (Ret a, w, []).
#[export] Instance M_bind {W E} : MBind (M W E) := λ A B k m w,
  match m w with
  | (Ret a, w1, es1) => let '(r, w2, es2) := k a w1 in (r, w2, es1 ++ es2)
  | (Panic s, w1, es1) => (Panic s, w1, es1)
  end.

Section primitives.
Context {W E : Type}.

Definition get : M W E W := λ w, (Ret w, w, []).
Definition gets {A} (f : W → A) : M W E A := λ w, (Ret (f w), w, []).
Definition modify (f : W → W) : M W E unit := λ w, (Ret tt, f w, []).
Definition emit (e : E) : M W E unit := λ w, (Ret tt, w, [e]).
Definition go_panic {A} (msg : string) : M W E A := λ w, (Panic msg, w, []).
Definition lift_outcome {A} (o : outcome A) : M W E A := λ w, (o, w, []).
Definition when (b : bool) (m : M W E unit) : M W E unit :=
  if b then m else mret tt.

Fixpoint for_each {A} (f : A → M W E unit) (l : list A) : M W E unit :=
  match l with
  | [] => mret tt
  | a :: l => f a ;; for_each f l
  end.
End primitives.

(** [defer func() { if r := recover(); r != nil { log } }()] around [m]: a panic
    stops [m] where it is and is logged. *)
Definition recover {W E} (log : string → E) (m : M W E unit) : M W E unit := λ w,
  match m w with
  | (Ret _, w, es) => (Ret tt, w, es)
  | (Panic msg, w, es) => (Ret tt, w, es ++ [log msg])
  end.

(** [zoom] runs code of the first component of a state that pairs it with the
    captured variables of a closure. *)
Definition zoom {W L E A} (m : M W E A) : M (W * L) E A := λ wl,
  let '(r, w, es) := m wl.1 in (r, (w, wl.2), es).

(** ** Iteration over a Go map

    Go leaves the order of [for k, v := range m] unspecified. [GoRange] is one
    such order, any; what is proved holds for all of them. *)

Class GoRange := {
  range : ∀ {K V : Type} `{Countable K}, gmap K V → list (K * V);
  range_perm : ∀ {K V : Type} `{Countable K} (m : gmap K V), range m ≡ₚ map_to_list m
}.

(** The order the witnesses evaluate. *)
#[export] Instance key_order : GoRange | 100 := {
  range := λ K V _ _ m, map_to_list m;
  range_perm := λ K V _ _ m, reflexivity _
}.

Definition uint16_of_len (n : nat) : N := (N.of_nat n `mod` 65536)%N.

(** ** Lemmas *)

Section range_lemmas.
Context `{GoRange} {K V : Type} `{Countable K}.
Implicit Types (m : gmap K V).

Lemma elem_of_range m k v : (k, v) ∈ range m ↔ m !! k = Some v.
Proof. rewrite range_perm. apply elem_of_map_to_list. Qed.

Lemma length_range m : length (range m) = size m.
Proof. rewrite range_perm. apply length_map_to_list. Qed.

Lemma NoDup_range m : NoDup (range m).
Proof. rewrite range_perm. apply NoDup_map_to_list. Qed.

Lemma NoDup_range_keys m : NoDup (range m).*1.
Proof. rewrite range_perm. apply NoDup_fst_map_to_list. Qed.

Lemma range_empty : range (∅ : gmap K V) = [].
Proof. apply Permutation_nil_r. rewrite range_perm. by rewrite map_to_list_empty. Qed.
End range_lemmas.

Lemma uint16_of_len_small n : (N.of_nat n < 65536)%N → uint16_of_len n = N.of_nat n.
Proof. apply N.mod_small. Qed.

Lemma uint16_of_len_bound n : (uint16_of_len n < 65536)%N.
Proof. apply N.mod_lt. lia. Qed.

(** ** Running [M]

    Equations for the runs of the combinators, collected in [go_run]. *)

Section runs.
Context {W E : Type}.

Lemma bind_value {A B} (m : M W E A) (k : A → M W E B) a w w1 es1 :
  m w = (Ret a, w1, es1) →
  (m ≫= k) w = (value (k a w1), final (k a w1), es1 ++ effects (k a w1)).
Proof.
  intros Hm. unfold mbind, M_bind, value, final, effects. rewrite Hm. by destruct (k a w1) as [[]].
Qed.

Lemma bind_panic {A B} (m : M W E A) (k : A → M W E B) msg w w1 es1 :
  m w = (Panic msg, w1, es1) → (m ≫= k) w = (Panic msg, w1, es1).
Proof. intros Hm. unfold mbind, M_bind. by rewrite Hm. Qed.

Lemma bind_get {B} (k : W → M W E B) w : (get ≫= k) w = k w w.
Proof. unfold mbind, M_bind, get. by destruct (k w w) as [[]]. Qed.

Lemma bind_ret {A B} (a : A) (k : A → M W E B) w : (mret a ≫= k) w = k a w.
Proof. unfold mbind, M_bind, mret, M_ret. by destruct (k a w) as [[]]. Qed.

Lemma bind_modify {B} f (k : unit → M W E B) w : (modify f ≫= k) w = k tt (f w).
Proof. unfold mbind, M_bind, modify. by destruct (k tt (f w)) as [[]]. Qed.

Lemma bind_lift {A B} (o : outcome A) (k : A → M W E B) w :
  (lift_outcome o ≫= k) w = match o with Ret a => k a w | Panic s => (Panic s, w, []) end.
Proof.
  unfold mbind, M_bind, lift_outcome. destruct o as [a|s]; [|done]. by destruct (k a w) as [[]].
Qed.

Lemma bind_emit {B} e (k : unit → M W E B) w :
  (emit e ≫= k) w = (value (k tt w), final (k tt w), e :: effects (k tt w)).
Proof. by rewrite (bind_value (emit e) k tt w w [e]). Qed.

Lemma run_eta {A} (r : outcome A * W * list E) : r = (value r, final r, effects r).
Proof. by destruct r as [[]]. Qed.

Lemma for_each_ext {A} (f g : A → M W E unit) l w :
  (∀ a w, f a w = g a w) → for_each f l w = for_each g l w.
Proof.
  intros Hfg. revert w. induction l as [|a l IH]; intros w; [done|]. simpl.
  unfold mbind, M_bind. rewrite Hfg. destruct (g a w) as [[[[]|s] w'] es]; [|done]. by rewrite IH.
Qed.

(** Running the closure on the captured variables or alone. *)
Lemma zoom_run {L A} (m : M W E A) (w : W) (l : L) :
  zoom m (w, l) = (value (m w), (final (m w), l), effects (m w)).
Proof. unfold zoom, value, final, effects. simpl. by destruct (m w) as [[]]. Qed.

Lemma recover_value log (m : M W E unit) w : value (recover log m w) = Ret tt.
Proof. unfold recover, value. by destruct (m w) as [[[]]]. Qed.

Lemma recover_final log (m : M W E unit) w : final (recover log m w) = final (m w).
Proof. unfold recover, final. by destruct (m w) as [[[]]]. Qed.
End runs.

(** ** Equal behaviour

    Two terms of [M] are equivalent when they behave the same on every state; the
    monad laws hold up to it. *)

#[export] Instance M_equiv {W E A} : Equiv (M W E A) := pointwise_relation W eq.

#[export] Instance M_equivalence {W E A} : Equivalence (≡@{M W E A}).
Proof. split; [by intros m w|by intros m m' H w|intros m1 m2 m3 H1 H2 w; by rewrite H1]. Qed.

#[export] Instance M_bind_proper {W E A B} :
  Proper (pointwise_relation A (≡) ==> (≡) ==> (≡)) (mbind (M := M W E) (A := A) (B := B)).
Proof.
  intros k k' Hk m m' Hm w. unfold mbind, M_bind. rewrite <- (Hm w).
  destruct (m w) as [[[a|s] w1] es1]; [|done]. by rewrite <- (Hk a w1).
Qed.

Section laws.
Context {W E : Type}.

Lemma M_ret_l {A B} (a : A) (k : A → M W E B) : mret a ≫= k ≡ k a.
Proof. intros w. apply bind_ret. Qed.

Lemma M_ret_r {A} (m : M W E A) : m ≫= mret ≡ m.
Proof.
  intros w. unfold mbind, M_bind, mret, M_ret.
  destruct (m w) as [[[a|s] w1] es1]; [by rewrite app_nil_r|done].
Qed.

Lemma M_assoc {A B C} (m : M W E A) (k : A → M W E B) (l : B → M W E C) :
  (m ≫= k) ≫= l ≡ m ≫= λ a, k a ≫= l.
Proof.
  intros w. unfold mbind, M_bind. destruct (m w) as [[[a|s] w1] es1]; [|done].
  destruct (k a w1) as [[[b|s] w2] es2]; [|done].
  destruct (l b w2) as [[o w3] es3]. by rewrite app_assoc.
Qed.

Lemma M_get {B} (k : W → M W E B) (l : M W E B) :
  (∀ w, k w w = l w) → get ≫= k ≡ l.
Proof. intros Hk w. by rewrite bind_get. Qed.

(** Equivalent continuations. *)
Lemma M_bind_ext {A B} (m : M W E A) (k k' : A → M W E B) :
  (∀ a, k a ≡ k' a) → m ≫= k ≡ m ≫= k'.
Proof. intros Hk. by apply M_bind_proper. Qed.
End laws.

(** ** Reasoning about [M]: relations on traces

    [steps R m] says that [R] relates the state [m] starts from, the effects it
    has and the state it leaves, however it ends. For a [TraceRel] (a relation
    closed under doing nothing and under sequencing) it composes along the
    structure of [m]; the lemmas are in the database [go], which [go_steps]
    drives. *)

Class TraceRel {W E} (R : W → list E → W → Prop) : Prop := {
  trace_nil w : R w [] w;
  trace_app w es w' es' w'' : R w es w' → R w' es' w'' → R w (es ++ es') w''
}.

Definition steps {W E A} (R : W → list E → W → Prop) (m : M W E A) : Prop :=
  ∀ w, R w (effects (m w)) (final (m w)).

Create HintDb go.

Section steps.
Context {W E : Type} (R : W → list E → W → Prop) `{!TraceRel R}.

Lemma steps_ret {A} (a : A) : steps R (mret a).
Proof. intros w. apply trace_nil. Qed.

Lemma steps_get : steps R get.
Proof. intros w. apply trace_nil. Qed.

Lemma steps_gets {A} (f : W → A) : steps R (gets f).
Proof. intros w. apply trace_nil. Qed.

Lemma steps_panic {A} msg : steps R (go_panic (A := A) msg).
Proof. intros w. apply trace_nil. Qed.

Lemma steps_lift {A} (o : outcome A) : steps R (lift_outcome o).
Proof. intros w. apply trace_nil. Qed.

Lemma steps_bind {A B} (m : M W E A) (k : A → M W E B) :
  steps R m → (∀ a, steps R (k a)) → steps R (m ≫= k).
Proof.
  intros Hm Hk w. specialize (Hm w). unfold mbind, M_bind, effects, final in *.
  destruct (m w) as [[[a|s] w1] es1]; [|done].
  specialize (Hk a w1). unfold effects, final in Hk.
  destruct (k a w1) as [[o w2] es2]. by eapply trace_app.
Qed.

Lemma steps_when b (m : M W E unit) : steps R m → steps R (when b m).
Proof. destruct b; [done|]. intros _. apply steps_ret. Qed.

Lemma steps_if {A} (b : bool) (m1 m2 : M W E A) :
  steps R m1 → steps R m2 → steps R (if b then m1 else m2).
Proof. by destruct b. Qed.

Lemma steps_for_each {A} (f : A → M W E unit) l :
  (∀ a, a ∈ l → steps R (f a)) → steps R (for_each f l).
Proof.
  induction l as [|a l IH]; intros Hf; [apply steps_ret|].
  apply steps_bind; [apply Hf; left|].
  intros _. apply IH. intros b Hb. apply Hf. by right.
Qed.

Lemma steps_recover log (m : M W E unit) :
  (∀ w msg, R w [log msg] w) → steps R m → steps R (recover log m).
Proof.
  intros Hlog Hm w. specialize (Hm w). unfold recover, effects, final in *.
  destruct (m w) as [[[a|s] w1] es1]; [done|]. eapply trace_app; [done|apply Hlog].
Qed.
End steps.

#[export] Hint Resolve steps_ret steps_get steps_gets steps_panic steps_lift
  steps_bind steps_when steps_if steps_for_each steps_recover : go.

#[export] Hint Extern 0 (TraceRel _) => typeclasses eauto : go.

(** A closure over captured variables, seen on the shared state alone. *)
Definition on_fst {W L E} (R : W → list E → W → Prop) : W * L → list E → W * L → Prop :=
  λ wl es wl', R wl.1 es wl'.1.

#[export] Instance on_fst_trace {W L E} (R : W → list E → W → Prop) `{!TraceRel R} :
  TraceRel (on_fst (L := L) R).
Proof.
  split; unfold on_fst.
  - intros w. apply trace_nil.
  - intros w es w' es' w''. apply trace_app.
Qed.

Lemma steps_zoom {W L E A} (R : W → list E → W → Prop) (m : M W E A) :
  steps R m → steps (on_fst (L := L) R) (zoom m).
Proof.
  intros Hm [w l]. specialize (Hm w). unfold on_fst, zoom, effects, final in *. simpl.
  by destruct (m w) as [[o w'] es].
Qed.
#[export] Hint Resolve steps_zoom : go.
