(* ===== verification/Codec.v ===== *)
(** * The arpack codec (protocol/schema_gen.go, protocol/codec.go)

    The statements the generated [Marshal] and [Unmarshal] methods of
    protocol/schema_gen.go are made of, as writers ([bytes → outcome bytes], a
    length over 65535 panics) and as a reader monad over the input and the
    running [offset]; the helpers of protocol/codec.go; and the interface
    [WireSpec] that every message type of Schema.v implements. *)

From S2P Require Import Prelude.

(** ** encoding/binary, little endian *)

(** [uint8(n)]: the low byte. *)
Definition uint8 (n : N) : Byte.byte := default Byte.x00 (Byte.of_N (n `mod` 256)).

(** The [k] bytes of [v], the low one first ([uint8(v)], [uint8(v >> 8)], ...). *)
Fixpoint put_le (k : nat) (v : N) : bytes :=
  match k with
  | O => []
  | S k => uint8 v :: put_le k (N.shiftr v 8)
  end.

(** [b0 | b1<<8 | b2<<16 | ...]. *)
Fixpoint get_le (bs : bytes) : N :=
  match bs with
  | [] => 0
  | b :: bs => N.lor (Byte.to_N b) (N.shiftl (get_le bs) 8)
  end.

Definition AppendUint16 (buf : bytes) (v : N) : bytes := buf ++ put_le 2 v.
Definition AppendUint32 (buf : bytes) (v : N) : bytes := buf ++ put_le 4 v.
Definition AppendUint64 (buf : bytes) (v : N) : bytes := buf ++ put_le 8 v.

Definition bytes_of_string (s : string) : bytes := String.list_byte_of_string s.
Definition string_of_bytes (bs : bytes) : string := String.string_of_list_byte bs.

(** ** Helpers of schema_gen.go *)

Definition arpackEnsureUint16Length (length : nat) (context : string) : outcome N :=
  if (65535 <? N.of_nat length)%N
  then Panic ("arpack: " +:+ context +:+ " exceeds uint16 limit")
  else Ret (uint16_of_len length).

Definition arpackStringEqualBytes (s : string) (data : bytes) : bool :=
  let s := bytes_of_string s in
  if negb (length s =? length data) then false
  else forallb (λ i, bool_decide (s !! i = data !! i)) (seq 0 (length s)).

(** ** Writers *)

(** [buf = AppendUint16(buf, arpackEnsureUint16Length(len(s), ...)); buf = append(buf, s...)] *)
Definition appendString (s : string) (field : string) (buf : bytes) : outcome bytes :=
  n ← arpackEnsureUint16Length (String.length s) ("string length for " +:+ field);
  mret (AppendUint16 buf n ++ bytes_of_string s).

(** [for _i := range s { buf = append(buf, s[_i]) }] *)
Fixpoint append_loop (s : bytes) (buf : bytes) : bytes :=
  match s with
  | [] => buf
  | b :: s => append_loop s (buf ++ [b])
  end.

Definition appendBytes (s : bytes) (field : string) (buf : bytes) : outcome bytes :=
  n ← arpackEnsureUint16Length (length s) ("slice length for " +:+ field);
  mret (append_loop s (AppendUint16 buf n)).

(** [for _i := range s { buf = s[_i].Marshal(buf) }] *)
Fixpoint marshal_loop {T} (marshal : T → bytes → outcome bytes) (s : list T)
    (buf : bytes) : outcome bytes :=
  match s with
  | [] => mret buf
  | v :: s => buf ← marshal v buf; marshal_loop marshal s buf
  end.

Definition appendSlice {T} (marshal : T → bytes → outcome bytes) (s : list T)
    (field : string) (buf : bytes) : outcome bytes :=
  n ← arpackEnsureUint16Length (length s) ("slice length for " +:+ field);
  marshal_loop marshal s (AppendUint16 buf n).

(** ** Readers *)

(** The body of an [Unmarshal] over [data] at [offset]. *)
Definition Reader (A : Type) : Type := bytes → nat → result (A * nat).

#[export] Instance Reader_ret : MRet Reader := λ A a data offset, Ok (a, offset).
#[export] Instance Reader_bind : MBind Reader := λ A B k r data offset,
  match r data offset with
  | Ok (a, offset) => k a data offset
  | Err e => Err e
  end.

Definition errTooShort : error := ErrNew "arpack: buffer too short".

(** [if len(data) < offset+n { return 0, errors.New(...) }] *)
Definition need (n : nat) : Reader unit := λ data offset,
  if length data <? offset + n then Err errTooShort else Ok (tt, offset).

(** An expression over [data] and [offset], then [offset += n]. *)
Definition advance {A} (n : nat) (f : bytes → nat → A) : Reader A := λ data offset,
  Ok (f data offset, offset + n).

(** [m.F = data[offset]; offset += 1] behind its length check. *)
Definition getUint8 : Reader N :=
  need 1 ;; advance 1 (λ data offset, Byte.to_N (nth offset data Byte.x00)).

(** [m.F = binary.LittleEndian.UintK(data[offset:]); offset += k]. *)
Definition getUint (k : nat) : Reader N :=
  need k ;; advance k (λ data offset, get_le (take k (drop offset data))).

(** A string field of a zero message: the length prefix, the bounds check, and
    the assignment when the bytes differ from what the field holds. *)
Definition getString : Reader string :=
  slen ← getUint 2;
  need (N.to_nat slen) ;;
  advance (N.to_nat slen) (λ data offset,
    let bs := take (N.to_nat slen) (drop offset data) in
    if arpackStringEqualBytes "" bs then ""%string else string_of_bytes bs).

(** [for i := 0; i < n; i++ { m.F[i] = data[offset]; offset += 1 }] *)
Fixpoint copy_loop (n : nat) : Reader bytes :=
  match n with
  | O => mret []
  | S n =>
      b ← advance 1 (λ data offset, nth offset data Byte.x00);
      bs ← copy_loop n;
      mret (b :: bs)
  end.

(** [if offset > len(data) || n > (len(data)-offset)/1 { ... }] *)
Definition needSlice (n : nat) : Reader unit := λ data offset,
  if (length data <? offset) || (length data - offset <? n)
  then Err errTooShort else Ok (tt, offset).

Definition getBytes : Reader bytes :=
  slen ← getUint 2;
  needSlice (N.to_nat slen) ;;
  copy_loop (N.to_nat slen).

(** [n, err := m.F[i].Unmarshal(data[offset:]); offset += n] *)
Definition nested {T} (unmarshal : bytes → result (T * nat)) : Reader T := λ data offset,
  match unmarshal (drop offset data) with
  | Ok (v, n) => Ok (v, offset + n)
  | Err e => Err e
  end.

Fixpoint unmarshal_loop {T} (unmarshal : bytes → result (T * nat)) (n : nat) : Reader (list T) :=
  match n with
  | O => mret []
  | S n => v ← nested unmarshal; vs ← unmarshal_loop unmarshal n; mret (v :: vs)
  end.

Definition getSlice {T} (unmarshal : bytes → result (T * nat)) : Reader (list T) :=
  slen ← getUint 2;
  unmarshal_loop unmarshal (N.to_nat slen).

(** The frame of an [Unmarshal]: the minimum size first, then the fields from
    offset 0. *)
Definition unmarshalStruct {T} (min : nat) (name : string) (fields : Reader T)
    (data : bytes) : result (T * nat) :=
  if length data <? min then Err (ErrNew ("arpack: buffer too short for " +:+ name))
  else fields data 0.

(** ** protocol/codec.go *)

(** A [protocol.Marshaler] value. A nil interface is [None]. *)
Definition Marshaler : Type := bytes → outcome bytes.

(** The methods arpack generates for a struct. *)
Class Wire (T : Type) := {
  zero : T;
  marshal : T → bytes → outcome bytes;
  unmarshal : bytes → result (T * nat)
}.

Definition Encode (m : option Marshaler) : outcome bytes :=
  match m with
  | None => mret []
  | Some marshal => marshal []
  end.

Definition Decode {T} `{Wire T} (data : bytes) : result T :=
  if length data =? 0 then Ok zero
  else
    match unmarshal data with
    | Err e => Err e
    | Ok (v, _) => Ok v
    end.

(** [Call]: decode, validate, run [fn], return its response for encoding. A
    typed nil response ([Ok None]) is a nil [Marshaler]. [validate] is [None]
    when [Req] has no [Validate] method; [Error] is the text of an error. *)
Definition Call {Req Resp W E} `{Wire Req, Wire Resp}
    (Error : error → string) (validate : option (Req → option error)) (payload : bytes)
    (fn : Req → M W E (result (option Resp))) : M W E (result (option Marshaler)) :=
  match Decode payload with
  | Err _ => mret (Err (ErrProtocol 400 "invalid payload"))
  | Ok req =>
      match (match validate with Some v => v req | None => None end) with
      | Some err => mret (Err (ErrProtocol 400 (Error err)))
      | None =>
          r ← fn req;
          mret (match r with
                | Err err => Err err
                | Ok None => Ok None
                | Ok (Some resp) => Ok (Some (marshal resp))
                end)
      end
  end.

(** ** Lemmas on bytes and strings *)

Lemma byte_to_N_bound b : (Byte.to_N b < 256)%N.
Proof. pose proof (Byte.to_N_bounded b). lia. Qed.

Lemma to_N_uint8 n : Byte.to_N (uint8 n) = (n `mod` 256)%N.
Proof.
  unfold uint8. destruct (Byte.of_N (n `mod` 256)) as [b|] eqn:E; simpl.
  - by apply Byte.to_of_N.
  - apply Byte.of_N_None_iff in E. pose proof (N.mod_lt n 256). lia.
Qed.

Lemma uint8_to_N b : uint8 (Byte.to_N b) = b.
Proof.
  unfold uint8. rewrite N.mod_small by apply byte_to_N_bound. by rewrite Byte.of_to_N.
Qed.

Lemma lor_shiftl_8 b x : (b < 256)%N → N.lor b (N.shiftl x 8) = (b + 256 * x)%N.
Proof.
  intros Hb.
  assert (N.land b (N.shiftl x 8) = 0%N) as Hland.
  { apply N.bits_inj_0. intros i. rewrite N.land_spec. apply andb_false_iff.
    destruct (decide (i < 8)%N) as [?|?].
    - right. by apply N.shiftl_spec_low.
    - left. destruct (decide (b = 0)%N) as [->|?]; [apply N.bits_0|].
      apply N.bits_above_log2. apply N.lt_le_trans with 8%N; [|lia].
      apply N.log2_lt_pow2; [lia|]. by change (2 ^ 8)%N with 256%N. }
  rewrite <- N.lxor_lor, <- N.add_nocarry_lxor by done.
  rewrite N.shiftl_mul_pow2. change (2 ^ 8)%N with 256%N. lia.
Qed.

Lemma get_le_cons b bs : get_le (b :: bs) = (Byte.to_N b + 256 * get_le bs)%N.
Proof. simpl. apply lor_shiftl_8, byte_to_N_bound. Qed.

Lemma length_put_le k v : length (put_le k v) = k.
Proof. revert v. induction k; intros; simpl; auto. Qed.

Lemma get_put_le k v : (v < 256 ^ N.of_nat k)%N → get_le (put_le k v) = v.
Proof.
  revert v. induction k as [|k IH]; intros v Hv.
  - simpl in *. lia.
  - change (put_le (S k) v) with (uint8 v :: put_le k (N.shiftr v 8)).
    rewrite get_le_cons, to_N_uint8, IH.
    + rewrite N.shiftr_div_pow2. change (2 ^ 8)%N with 256%N.
      pose proof (N.div_mod v 256). lia.
    + rewrite N.shiftr_div_pow2. change (2 ^ 8)%N with 256%N.
      rewrite Nat2N.inj_succ, N.pow_succ_r' in Hv. apply N.Div0.div_lt_upper_bound. lia.
Qed.

Lemma put_get_le bs : put_le (length bs) (get_le bs) = bs.
Proof.
  induction bs as [|b bs IH]; [done|]. simpl length.
  change (put_le (S (length bs)) (get_le (b :: bs))) with
    (uint8 (get_le (b :: bs)) :: put_le (length bs) (N.shiftr (get_le (b :: bs)) 8)).
  rewrite get_le_cons. pose proof (byte_to_N_bound b).
  assert (((Byte.to_N b + 256 * get_le bs) `mod` 256 = Byte.to_N b)%N) as Hmod
    by (symmetry; apply N.mod_unique with (get_le bs); lia).
  assert (((Byte.to_N b + 256 * get_le bs) `div` 256 = get_le bs)%N) as Hdiv
    by (symmetry; apply N.div_unique with (Byte.to_N b); lia).
  rewrite N.shiftr_div_pow2. change (2 ^ 8)%N with 256%N. rewrite Hdiv, IH. f_equal.
  unfold uint8. by rewrite Hmod, Byte.of_to_N.
Qed.

Lemma get_le_bound bs : (get_le bs < 256 ^ N.of_nat (length bs))%N.
Proof.
  induction bs as [|b bs IH]; [simpl; lia|]. rewrite get_le_cons. simpl length.
  rewrite Nat2N.inj_succ, N.pow_succ_r'. pose proof (byte_to_N_bound b). lia.
Qed.

Lemma string_of_bytes_of_string s : string_of_bytes (bytes_of_string s) = s.
Proof. apply String.string_of_list_byte_of_string. Qed.

Lemma bytes_of_string_of_bytes bs : bytes_of_string (string_of_bytes bs) = bs.
Proof. apply String.list_byte_of_string_of_list_byte. Qed.

Lemma length_bytes_of_string s : length (bytes_of_string s) = String.length s.
Proof.
  unfold bytes_of_string, String.list_byte_of_string.
  induction s; simpl; [done|]. by f_equal.
Qed.

Lemma arpackStringEqualBytes_spec s data :
  arpackStringEqualBytes s data = true ↔ bytes_of_string s = data.
Proof.
  unfold arpackStringEqualBytes.
  destruct (Nat.eqb_spec (length (bytes_of_string s)) (length data)) as [Hl|Hl]; simpl.
  - rewrite forallb_forall. split.
    + intros Hall. apply list_eq_same_length with (length data); [done|done|].
      intros i x y Hi Hx Hy. specialize (Hall i).
      rewrite in_seq in Hall. specialize (Hall ltac:(lia)).
      apply bool_decide_eq_true in Hall. congruence.
    + intros -> i _. by apply bool_decide_eq_true.
  - split; [done|]. intros <-. done.
Qed.

(** ** Specification of writers *)

(** What a string, a byte slice and a slice of messages look like on the wire. *)
Definition encString (s : string) : bytes :=
  put_le 2 (N.of_nat (String.length s)) ++ bytes_of_string s.
Definition encBytes (s : bytes) : bytes := put_le 2 (N.of_nat (length s)) ++ s.
Definition encSlice {T} (enc : T → bytes) (s : list T) : bytes :=
  put_le 2 (N.of_nat (length s)) ++ concat (map enc s).

(** The lengths arpack can write. *)
Definition fitsLen (n : nat) : bool := (N.of_nat n <=? 65535)%N.
Definition fitsString (s : string) : bool := fitsLen (String.length s).

(** The range of an unsigned integer of [k] bytes. *)
Definition fitsUint (k : nat) (v : N) : bool := (v <? 256 ^ N.of_nat k)%N.

Lemma fitsLen_lt n : fitsLen n = true ↔ (N.of_nat n < 65536)%N.
Proof. unfold fitsLen. rewrite N.leb_le. lia. Qed.

Lemma arpackEnsure_eq n ctx :
  arpackEnsureUint16Length n ctx =
    if fitsLen n then Ret (N.of_nat n)
    else Panic ("arpack: " +:+ ctx +:+ " exceeds uint16 limit").
Proof.
  unfold arpackEnsureUint16Length, fitsLen.
  destruct (N.ltb_spec 65535 (N.of_nat n)), (N.leb_spec (N.of_nat n) 65535); try lia; [done|].
  rewrite uint16_of_len_small by lia. done.
Qed.

Lemma appendString_eq s field buf :
  appendString s field buf =
    if fitsString s then Ret (buf ++ encString s)
    else Panic ("arpack: " +:+ ("string length for " +:+ field) +:+ " exceeds uint16 limit").
Proof.
  unfold appendString, fitsString. rewrite arpackEnsure_eq.
  destruct (fitsLen _); [|done]. unfold AppendUint16, encString. simpl. by rewrite <- app_assoc.
Qed.

Lemma append_loop_eq s buf : append_loop s buf = buf ++ s.
Proof.
  revert buf. induction s as [|b s IH]; intros; simpl; [by rewrite app_nil_r|].
  by rewrite IH, <- app_assoc.
Qed.

Lemma appendBytes_eq s field buf :
  appendBytes s field buf =
    if fitsLen (length s) then Ret (buf ++ encBytes s)
    else Panic ("arpack: " +:+ ("slice length for " +:+ field) +:+ " exceeds uint16 limit").
Proof.
  unfold appendBytes. rewrite arpackEnsure_eq.
  destruct (fitsLen _); [|done]. simpl. unfold AppendUint16, encBytes.
  by rewrite append_loop_eq, <- app_assoc.
Qed.

Lemma marshal_loop_eq {T} (mar : T → bytes → outcome bytes) enc s buf :
  (∀ v buf, v ∈ s → mar v buf = Ret (buf ++ enc v)) →
  marshal_loop mar s buf = Ret (buf ++ concat (map enc s)).
Proof.
  revert buf. induction s as [|v s IH]; intros buf Hmar; simpl; [by rewrite app_nil_r|].
  rewrite Hmar by left. simpl. rewrite IH, <- app_assoc; [done|].
  intros v' buf' Hv. apply Hmar. by right.
Qed.

Lemma appendSlice_eq {T} (mar : T → bytes → outcome bytes) enc s field buf :
  fitsLen (length s) = true →
  (∀ v buf, v ∈ s → mar v buf = Ret (buf ++ enc v)) →
  appendSlice mar s field buf = Ret (buf ++ encSlice enc s).
Proof.
  intros Hlen Hmar. unfold appendSlice. rewrite arpackEnsure_eq, Hlen. simpl.
  rewrite (marshal_loop_eq _ enc) by done. unfold AppendUint16, encSlice.
  by rewrite <- app_assoc.
Qed.

(** ** Specification of readers *)

(** [reads r a bs]: standing before [bs], whatever surrounds it, [r] returns [a]
    and stands after it. *)
Definition reads {A} (r : Reader A) (a : A) (bs : bytes) : Prop :=
  ∀ pre rest, r (pre ++ bs ++ rest) (length pre) = Ok (a, length pre + length bs).

(** [parses u v bs]: [u] turns any input that starts with [bs] into [v] and
    reports that it consumed [bs]. *)
Definition parses {T} (u : bytes → result (T * nat)) (v : T) (bs : bytes) : Prop :=
  ∀ rest, u (bs ++ rest) = Ok (v, length bs).

Lemma reads_ret {A} (a : A) : reads (mret a) a [].
Proof. intros pre rest. simpl. by rewrite Nat.add_0_r. Qed.

Lemma reads_bind {A B} (r : Reader A) (k : A → Reader B) a b bs1 bs2 :
  reads r a bs1 → reads (k a) b bs2 → reads (r ≫= k) b (bs1 ++ bs2).
Proof.
  intros Hr Hk pre rest. unfold mbind, Reader_bind.
  rewrite <- (app_assoc bs1), Hr. specialize (Hk (pre ++ bs1) rest).
  rewrite length_app, <- app_assoc in Hk. rewrite Hk, length_app. do 2 f_equal. lia.
Qed.

Lemma reads_last {A B} (r : Reader A) (f : A → B) a bs :
  reads r a bs → reads (r ≫= λ x, mret (f x)) (f a) bs.
Proof.
  intros Hr. rewrite <- (app_nil_r bs). eapply reads_bind; [done|]. apply reads_ret.
Qed.

Lemma need_ok n (pre bs : bytes) :
  n ≤ length bs → need n (pre ++ bs) (length pre) = Ok (tt, length pre).
Proof.
  intros. unfold need. rewrite length_app.
  destruct (Nat.ltb_spec (length pre + length bs) (length pre + n)); [lia|done].
Qed.

Lemma drop_pre (pre bs : bytes) : drop (length pre) (pre ++ bs) = bs.
Proof. by rewrite drop_app_length. Qed.

Lemma reads_getUint8 v : fitsUint 1 v = true → reads getUint8 v (put_le 1 v).
Proof.
  intros Hv%N.ltb_lt pre rest. unfold getUint8, mbind, Reader_bind.
  rewrite need_ok by (rewrite length_app, length_put_le; lia). unfold advance.
  change (put_le 1 v) with [uint8 v]. simpl.
  rewrite app_nth2, Nat.sub_diag by lia. simpl. rewrite to_N_uint8, N.mod_small by done. done.
Qed.

Lemma reads_getUint k v : fitsUint k v = true → reads (getUint k) v (put_le k v).
Proof.
  intros Hv%N.ltb_lt pre rest. unfold getUint, mbind, Reader_bind.
  rewrite need_ok by (rewrite length_app, length_put_le; lia). unfold advance.
  rewrite drop_pre, length_put_le, take_app_length' by (by rewrite length_put_le).
  by rewrite get_put_le.
Qed.

Lemma reads_len n : fitsLen n = true → reads (getUint 2) (N.of_nat n) (put_le 2 (N.of_nat n)).
Proof. rewrite fitsLen_lt. intros. apply reads_getUint. by apply N.ltb_lt. Qed.

Lemma assign_string bs :
  (if arpackStringEqualBytes "" bs then ""%string else string_of_bytes bs) = string_of_bytes bs.
Proof.
  destruct (arpackStringEqualBytes "" bs) eqn:E; [|done].
  by apply arpackStringEqualBytes_spec in E as <-.
Qed.

Lemma reads_getString s : fitsString s = true → reads getString s (encString s).
Proof.
  intros Hs. unfold getString, encString. eapply reads_bind; [by apply reads_len|].
  intros pre rest. unfold mbind, Reader_bind. rewrite Nat2N.id.
  rewrite need_ok by (rewrite length_app, length_bytes_of_string; lia). unfold advance.
  rewrite drop_pre, assign_string, take_app_length' by (by rewrite length_bytes_of_string).
  by rewrite string_of_bytes_of_string, length_bytes_of_string.
Qed.

Lemma reads_copy_loop bs : reads (copy_loop (length bs)) bs bs.
Proof.
  induction bs as [|b bs IH]; [apply reads_ret|]. simpl copy_loop.
  change (b :: bs) with ([b] ++ bs) at 2. eapply (reads_bind _ _ b).
  - intros pre rest. unfold advance. simpl. rewrite app_nth2 by lia. by rewrite Nat.sub_diag.
  - apply reads_last. exact IH.
Qed.

Lemma reads_getBytes bs : fitsLen (length bs) = true → reads getBytes bs (encBytes bs).
Proof.
  intros Hbs. unfold getBytes, encBytes. eapply reads_bind; [by apply reads_len|].
  intros pre rest. unfold mbind, Reader_bind, needSlice. rewrite Nat2N.id, !length_app.
  destruct (Nat.ltb_spec (length pre + (length bs + length rest)) (length pre)); [lia|].
  destruct (Nat.ltb_spec (length pre + (length bs + length rest) - length pre) (length bs)); [lia|].
  apply reads_copy_loop.
Qed.

Lemma reads_nested {T} (u : bytes → result (T * nat)) v bs :
  parses u v bs → reads (nested u) v bs.
Proof. intros Hu pre rest. unfold nested. by rewrite drop_pre, Hu. Qed.

Lemma reads_unmarshal_loop {T} (u : bytes → result (T * nat)) enc s :
  (∀ v, v ∈ s → parses u v (enc v)) →
  reads (unmarshal_loop u (length s)) s (concat (map enc s)).
Proof.
  induction s as [|v s IH]; intros Hu; [apply reads_ret|]. simpl.
  eapply reads_bind; [apply reads_nested, Hu; by left|].
  apply reads_last. apply IH. intros v' Hv. apply Hu. by right.
Qed.

Lemma reads_getSlice {T} (u : bytes → result (T * nat)) enc s :
  fitsLen (length s) = true →
  (∀ v, v ∈ s → parses u v (enc v)) →
  reads (getSlice u) s (encSlice enc s).
Proof.
  intros Hs Hu. unfold getSlice, encSlice. eapply reads_bind; [by apply reads_len|].
  rewrite Nat2N.id. by apply reads_unmarshal_loop.
Qed.

Lemma parses_unmarshalStruct {T} min name (fields : Reader T) v bs :
  reads fields v bs → min ≤ length bs → parses (unmarshalStruct min name fields) v bs.
Proof.
  intros Hr Hmin rest. unfold unmarshalStruct. rewrite length_app.
  destruct (Nat.ltb_spec (length bs + length rest) min); [lia|].
  exact (Hr [] rest).
Qed.

(** [bounded r]: from inside the input [r] never moves past its end. *)
Definition bounded {A} (r : Reader A) : Prop :=
  ∀ data offset a offset', offset ≤ length data →
    r data offset = Ok (a, offset') → offset' ≤ length data.

Definition bounded_unmarshal {T} (u : bytes → result (T * nat)) : Prop :=
  ∀ data v n, u data = Ok (v, n) → n ≤ length data.

Lemma bounded_ret {A} (a : A) : bounded (mret a).
Proof. intros data o a' o' Ho [= _ <-]. done. Qed.

Lemma bounded_bind {A B} (r : Reader A) (k : A → Reader B) :
  bounded r → (∀ a, bounded (k a)) → bounded (r ≫= k).
Proof.
  intros Hr Hk data o b o' Ho Hrun. unfold mbind, Reader_bind in Hrun.
  destruct (r data o) as [[a o1]|e] eqn:E; [|done]. eapply Hk; [|done]. by eapply Hr.
Qed.

Lemma bounded_need_advance {A} k (f : bytes → nat → A) : bounded (need k ;; advance k f).
Proof.
  intros data o a o' Ho. unfold mbind, Reader_bind, need, advance.
  destruct (Nat.ltb_spec (length data) (o + k)); [done|]. intros [= _ <-]. done.
Qed.

Lemma bounded_getUint8 : bounded getUint8.
Proof. apply bounded_need_advance. Qed.

Lemma bounded_getUint k : bounded (getUint k).
Proof. apply bounded_need_advance. Qed.

Lemma bounded_getString : bounded getString.
Proof. apply bounded_bind; [apply bounded_getUint|]. intros. apply bounded_need_advance. Qed.

Lemma copy_loop_offset n data o : ∃ bs, copy_loop n data o = Ok (bs, o + n).
Proof.
  revert o. induction n as [|n IH]; intros; simpl; [eexists; by rewrite Nat.add_0_r|].
  unfold mbind, Reader_bind, advance. destruct (IH (o + 1)) as [bs ->]. eexists.
  unfold mret, Reader_ret. do 2 f_equal. lia.
Qed.

Lemma bounded_getBytes : bounded getBytes.
Proof.
  apply bounded_bind; [apply bounded_getUint|]. intros n data o a o' Ho.
  unfold mbind, Reader_bind, needSlice.
  destruct (Nat.ltb_spec (length data) o); [done|].
  destruct (Nat.ltb_spec (length data - o) (N.to_nat n)); [done|]. simpl.
  destruct (copy_loop_offset (N.to_nat n) data o) as [bs ->]. intros [= _ <-]. lia.
Qed.

Lemma bounded_nested {T} (u : bytes → result (T * nat)) :
  bounded_unmarshal u → bounded (nested u).
Proof.
  intros Hu data o a o' Ho. unfold nested.
  destruct (u (drop o data)) as [[v n]|e] eqn:E; [|done]. intros [= _ <-].
  apply Hu in E. rewrite length_drop in E. lia.
Qed.

Lemma bounded_getSlice {T} (u : bytes → result (T * nat)) :
  bounded_unmarshal u → bounded (getSlice u).
Proof.
  intros Hu. apply bounded_bind; [apply bounded_getUint|]. intros n.
  induction (N.to_nat n) as [|m IH]; simpl; [apply bounded_ret|].
  apply bounded_bind; [by apply bounded_nested|]. intros v.
  apply bounded_bind; [exact IH|]. intros vs. apply bounded_ret.
Qed.

Lemma bounded_unmarshalStruct {T} min name (fields : Reader T) :
  bounded fields → bounded_unmarshal (unmarshalStruct min name fields).
Proof.
  intros Hf data v n. unfold unmarshalStruct.
  destruct (length data <? min); [done|]. intros E. eapply Hf, E. lia.
Qed.

(** ** What an [Unmarshal] accepted *)

(** [data] between [offset] and [offset'] is [bs]. *)
Definition consumed (data : bytes) (offset offset' : nat) (bs : bytes) : Prop :=
  drop offset data = bs ++ drop offset' data ∧ offset' = offset + length bs.

Lemma consumed_trans data o1 o2 o3 bs1 bs2 :
  consumed data o1 o2 bs1 → consumed data o2 o3 bs2 → consumed data o1 o3 (bs1 ++ bs2).
Proof.
  intros [H1 ->] [H2 ->]. split.
  - by rewrite H1, H2, app_assoc.
  - rewrite length_app. lia.
Qed.

Lemma consumed_prefix data n bs : consumed data 0 n bs → bs = take n data.
Proof.
  intros [Hd ->]. rewrite drop_0 in Hd. rewrite Hd at 1. simpl.
  by rewrite take_app_length.
Qed.

Lemma need_inv n data o u o' :
  need n data o = Ok (u, o') → o' = o ∧ o + n ≤ length data.
Proof.
  unfold need. destruct (Nat.ltb_spec (length data) (o + n)); [done|]. by intros [= _ <-].
Qed.

Lemma consumed_take data o n :
  o + n ≤ length data → consumed data o (o + n) (take n (drop o data)).
Proof.
  intros Hn. split.
  - by rewrite <- drop_drop, take_drop.
  - rewrite length_take, length_drop. lia.
Qed.

Lemma getUint_inv k data o v o' :
  getUint k data o = Ok (v, o') → consumed data o o' (put_le k v) ∧ fitsUint k v = true.
Proof.
  unfold getUint, mbind, Reader_bind.
  destruct (need k data o) as [[u o1]|] eqn:E; [|done].
  apply need_inv in E as [-> Hn]. intros [= <- <-].
  assert (length (take k (drop o data)) = k) as Hk by (rewrite length_take, length_drop; lia).
  pose proof (put_get_le (take k (drop o data))) as Hput. rewrite Hk in Hput. rewrite Hput.
  split; [by apply consumed_take|]. apply N.ltb_lt.
  pose proof (get_le_bound (take k (drop o data))) as Hb. by rewrite Hk in Hb.
Qed.

Lemma getUint8_inv data o v o' :
  getUint8 data o = Ok (v, o') → consumed data o o' (put_le 1 v) ∧ fitsUint 1 v = true.
Proof.
  unfold getUint8, mbind, Reader_bind.
  destruct (need 1 data o) as [[u o1]|] eqn:E; [|done].
  apply need_inv in E as [-> Hn]. intros [= <- <-].
  destruct (drop o data) as [|b rest] eqn:Hd.
  { apply (f_equal length) in Hd. rewrite length_drop in Hd. simpl in Hd. lia. }
  assert (nth o data Byte.x00 = b) as ->.
  { rewrite <- (take_drop o data), Hd, app_nth2; rewrite length_take; [|lia].
    replace (o - o `min` length data) with 0 by lia. done. }
  split; [|apply N.ltb_lt, byte_to_N_bound].
  change (put_le 1 (Byte.to_N b)) with [uint8 (Byte.to_N b)]. rewrite uint8_to_N.
  split; [|done]. by rewrite Hd, <- drop_drop, Hd.
Qed.

Lemma fitsLen_of_uint16 v n : fitsUint 2 v = true → n = N.to_nat v → fitsLen n = true.
Proof. intros Hv%N.ltb_lt ->. apply fitsLen_lt. change (256 ^ N.of_nat 2)%N with 65536%N in Hv. lia. Qed.

Lemma getString_inv data o s o' :
  getString data o = Ok (s, o') → consumed data o o' (encString s) ∧ fitsString s = true.
Proof.
  unfold getString, mbind at 1, Reader_bind at 1.
  destruct (getUint 2 data o) as [[n o1]|] eqn:E; [|done].
  apply getUint_inv in E as [Hc Hn]. unfold mbind, Reader_bind.
  destruct (need (N.to_nat n) data o1) as [[u o2]|] eqn:E; [|done].
  apply need_inv in E as [-> Hb]. unfold advance. rewrite assign_string. intros [= <- <-].
  set (bs := take (N.to_nat n) (drop o1 data)).
  assert (length bs = N.to_nat n) as Hl by (unfold bs; rewrite length_take, length_drop; lia).
  assert (String.length (string_of_bytes bs) = N.to_nat n) as Hs
    by (by rewrite <- length_bytes_of_string, bytes_of_string_of_bytes).
  split; [|unfold fitsString; by eapply fitsLen_of_uint16].
  unfold encString. rewrite Hs, N2Nat.id, bytes_of_string_of_bytes.
  eapply consumed_trans; [done|]. by apply consumed_take.
Qed.

Lemma copy_loop_take n data o :
  o + n ≤ length data → copy_loop n data o = Ok (take n (drop o data), o + n).
Proof.
  revert o. induction n as [|n IH]; intros o Ho; simpl.
  { by rewrite take_0, Nat.add_0_r. }
  unfold mbind, Reader_bind, advance. rewrite IH by lia. unfold mret, Reader_ret.
  do 2 f_equal; [|lia].
  destruct (drop o data) as [|b rest] eqn:Hd.
  { apply (f_equal length) in Hd. rewrite length_drop in Hd. simpl in Hd. lia. }
  simpl. f_equal.
  - rewrite <- (take_drop o data), Hd, app_nth2; rewrite length_take; [|lia].
    by replace (o - o `min` length data) with 0 by lia.
  - by rewrite <- drop_drop, Hd.
Qed.

Lemma getBytes_inv data o bs o' :
  getBytes data o = Ok (bs, o') → consumed data o o' (encBytes bs) ∧ fitsLen (length bs) = true.
Proof.
  unfold getBytes, mbind at 1, Reader_bind at 1.
  destruct (getUint 2 data o) as [[n o1]|] eqn:E; [|done].
  apply getUint_inv in E as [Hc Hn]. unfold mbind, Reader_bind, needSlice.
  destruct (Nat.ltb_spec (length data) o1); [done|].
  destruct (Nat.ltb_spec (length data - o1) (N.to_nat n)); [done|]. simpl.
  rewrite copy_loop_take by lia. intros [= <- <-].
  assert (length (take (N.to_nat n) (drop o1 data)) = N.to_nat n) as Hl
    by (rewrite length_take, length_drop; lia).
  split; [|by eapply fitsLen_of_uint16].
  unfold encBytes. rewrite Hl, N2Nat.id.
  eapply consumed_trans; [done|]. apply consumed_take. lia.
Qed.

Create HintDb wire.
#[export] Hint Resolve bounded_ret bounded_getUint8 bounded_getUint bounded_getString
  bounded_getBytes bounded_getSlice bounded_nested bounded_unmarshalStruct
  reads_ret reads_getUint8 reads_getUint reads_getString reads_getBytes reads_getSlice : wire.
#[export] Hint Extern 1 (bounded (_ ≫= _)) => apply bounded_bind; [|intros ?] : wire.

(** ** The contract of a message type

    [enc] is the encoding as a pure function, [valid] says that the message
    holds what its Go type can hold (integers in range) and what arpack can
    write (lengths up to 65535). *)

Class WireSpec (T : Type) `{Wire T} := {
  enc : T → bytes;
  valid : T → bool;
  marshal_enc : ∀ v buf, valid v → marshal v buf = Ret (buf ++ enc v);
  unmarshal_enc : ∀ v, valid v → parses unmarshal v (enc v);
  unmarshal_bounded : bounded_unmarshal (unmarshal (T := T));
  enc_nonempty : ∀ v, enc v ≠ []
}.

#[export] Hint Resolve marshal_enc unmarshal_enc unmarshal_bounded : wire.

Section wire_facts.
Context {T : Type} `{WireSpec T}.
Implicit Types (v : T).

Lemma Encode_enc v : valid v → Encode (Some (marshal v)) = Ret (enc v).
Proof. intros Hv. simpl. by rewrite marshal_enc. Qed.

Lemma unmarshal_whole v : valid v → unmarshal (enc v) = Ok (v, length (enc v)).
Proof.
  intros Hv. pose proof (unmarshal_enc v Hv []) as Hu. by rewrite app_nil_r in Hu.
Qed.

Lemma Decode_enc v : valid v → Decode (enc v) = Ok v.
Proof.
  intros Hv. unfold Decode. destruct (Nat.eqb_spec (length (enc v)) 0) as [E|_].
  - by apply nil_length_inv, enc_nonempty in E.
  - by rewrite unmarshal_whole.
Qed.
End wire_facts.

(** Closes [valid] goals given as conjunctions of boolean tests. *)
Ltac destruct_valid :=
  repeat match goal with
  | H : Is_true (_ && _) |- _ => apply andb_prop_elim in H as [??]
  | H : Is_true ?b |- _ => lazymatch type of H with
      | Is_true _ => apply Is_true_eq_true in H end
  end.
