(* ===== verification/Schema.v ===== *)
(** * The wire schema (protocol/schema.go, protocol/schema_gen.go)

    One module per message type: the struct, its zero value, and the [Marshal]
    and [Unmarshal] that arpack generated for it, field by field in the order of
    the source. An [Unmarshal] is modelled on a zero receiver: every call of
    this program decodes into a message it has just allocated ([new(T)] in
    [Decode], [var msg] in the read loop, [make] for the elements of a slice). *)

From S2P Require Import Prelude Codec.

(** ** Constants of schema.go *)

Definition MessagePing : N := 0.
Definition MessageAuth : N := 1.
Definition MessageSubscribe : N := 2.
Definition MessageUnsubscribe : N := 3.
Definition MessageRequest : N := 4.
Definition MessageResponse : N := 5.
Definition MessageError : N := 6.
Definition MessageEvent : N := 7.

Definition MethodRoomCreate : N := 1.
Definition MethodRoomJoin : N := 2.
Definition MethodRoomLeave : N := 3.
Definition MethodLobbyList : N := 4.

Definition EventPlayerJoined : N := 1.
Definition EventPlayerLeft : N := 2.
Definition EventRoomKicked : N := 3.
Definition EventRoomCreated : N := 4.
Definition EventRoomRemoved : N := 5.

Definition SingletonAllow : N := 0.
Definition SingletonReject : N := 1.
Definition SingletonReplace : N := 2.

(** ** Messages *)

Module ClientMessage.
Record t := mk {
  Type_ : N; ID : N; Op : N; Token : string; Channel : string; Payload : bytes
}.

Definition Marshal (m : t) (buf : bytes) : outcome bytes :=
  let buf := buf ++ [uint8 m.(Type_)] in
  let buf := AppendUint32 buf m.(ID) in
  let buf := AppendUint16 buf m.(Op) in
  buf ← appendString m.(Token) "Token" buf;
  buf ← appendString m.(Channel) "Channel" buf;
  appendBytes m.(Payload) "Payload" buf.

Definition Unmarshal : bytes → result (t * nat) :=
  unmarshalStruct 13 "ClientMessage" (
    ty ← getUint8; id ← getUint 4; op ← getUint 2;
    token ← getString; channel ← getString; payload ← getBytes;
    mret (mk ty id op token channel payload)).

#[export] Instance wire : Wire t :=
  { zero := mk 0 0 0 "" "" []; marshal := Marshal; unmarshal := Unmarshal }.
End ClientMessage.

Module ServerMessage.
Record t := mk {
  Type_ : N; ID : N; Code : N; Op : N; Channel : string; Error : string; Payload : bytes
}.

Definition Marshal (m : t) (buf : bytes) : outcome bytes :=
  let buf := buf ++ [uint8 m.(Type_)] in
  let buf := AppendUint32 buf m.(ID) in
  let buf := AppendUint16 buf m.(Code) in
  let buf := AppendUint16 buf m.(Op) in
  buf ← appendString m.(Channel) "Channel" buf;
  buf ← appendString m.(Error) "Error" buf;
  appendBytes m.(Payload) "Payload" buf.

Definition Unmarshal : bytes → result (t * nat) :=
  unmarshalStruct 15 "ServerMessage" (
    ty ← getUint8; id ← getUint 4; code ← getUint 2; op ← getUint 2;
    channel ← getString; err ← getString; payload ← getBytes;
    mret (mk ty id code op channel err payload)).

#[export] Instance wire : Wire t :=
  { zero := mk 0 0 0 0 "" "" []; marshal := Marshal; unmarshal := Unmarshal }.
End ServerMessage.

Module AuthResult.
Record t := mk { SessionID : string; UserID : string }.

Definition Marshal (m : t) (buf : bytes) : outcome bytes :=
  buf ← appendString m.(SessionID) "SessionID" buf;
  appendString m.(UserID) "UserID" buf.

Definition Unmarshal : bytes → result (t * nat) :=
  unmarshalStruct 4 "AuthResult" (
    sessionID ← getString; userID ← getString; mret (mk sessionID userID)).

#[export] Instance wire : Wire t :=
  { zero := mk "" ""; marshal := Marshal; unmarshal := Unmarshal }.
End AuthResult.

Module CreateOption.
Record t := mk { Key : string; Value : string }.

Definition Marshal (m : t) (buf : bytes) : outcome bytes :=
  buf ← appendString m.(Key) "Key" buf;
  appendString m.(Value) "Value" buf.

Definition Unmarshal : bytes → result (t * nat) :=
  unmarshalStruct 4 "CreateOption" (
    key ← getString; v ← getString; mret (mk key v)).

#[export] Instance wire : Wire t :=
  { zero := mk "" ""; marshal := Marshal; unmarshal := Unmarshal }.
End CreateOption.

Module CreateRoomRequest.
Record t := mk {
  Name : string; Type_ : string; MaxPlayers : N; SingletonMode : N;
  Options : list CreateOption.t
}.

Definition Marshal (m : t) (buf : bytes) : outcome bytes :=
  buf ← appendString m.(Name) "Name" buf;
  buf ← appendString m.(Type_) "Type" buf;
  let buf := AppendUint16 buf m.(MaxPlayers) in
  let buf := buf ++ [uint8 m.(SingletonMode)] in
  appendSlice CreateOption.Marshal m.(Options) "Options" buf.

Definition Unmarshal : bytes → result (t * nat) :=
  unmarshalStruct 9 "CreateRoomRequest" (
    name ← getString; ty ← getString; maxPlayers ← getUint 2; mode ← getUint8;
    options ← getSlice CreateOption.Unmarshal;
    mret (mk name ty maxPlayers mode options)).

#[export] Instance wire : Wire t :=
  { zero := mk "" "" 0 0 []; marshal := Marshal; unmarshal := Unmarshal }.
End CreateRoomRequest.

Module JoinRoomRequest.
Record t := mk { RoomID : string }.

Definition Marshal (m : t) (buf : bytes) : outcome bytes :=
  appendString m.(RoomID) "RoomID" buf.

Definition Unmarshal : bytes → result (t * nat) :=
  unmarshalStruct 2 "JoinRoomRequest" (roomID ← getString; mret (mk roomID)).

#[export] Instance wire : Wire t :=
  { zero := mk ""; marshal := Marshal; unmarshal := Unmarshal }.
End JoinRoomRequest.

Module LeaveRoomRequest.
Record t := mk { RoomID : string }.

Definition Marshal (m : t) (buf : bytes) : outcome bytes :=
  appendString m.(RoomID) "RoomID" buf.

Definition Unmarshal : bytes → result (t * nat) :=
  unmarshalStruct 2 "LeaveRoomRequest" (roomID ← getString; mret (mk roomID)).

#[export] Instance wire : Wire t :=
  { zero := mk ""; marshal := Marshal; unmarshal := Unmarshal }.
End LeaveRoomRequest.

Module RoomInfo.
Record t := mk {
  ID : string; Name : string; Type_ : string; MaxPlayers : N; PlayerCount : N;
  IsOpen : bool; SingletonMode : N
}.

(** [if m.IsOpen { b |= 1 << 0 }] *)
Definition boolByte (isOpen : bool) : N := if isOpen then N.lor 0 (N.shiftl 1 0) else 0.

Definition Marshal (m : t) (buf : bytes) : outcome bytes :=
  buf ← appendString m.(ID) "ID" buf;
  buf ← appendString m.(Name) "Name" buf;
  buf ← appendString m.(Type_) "Type" buf;
  let buf := AppendUint16 buf m.(MaxPlayers) in
  let buf := AppendUint16 buf m.(PlayerCount) in
  let buf := buf ++ [uint8 (boolByte m.(IsOpen))] in
  let buf := buf ++ [uint8 m.(SingletonMode)] in
  mret buf.

Definition Unmarshal : bytes → result (t * nat) :=
  unmarshalStruct 12 "RoomInfo" (
    id ← getString; name ← getString; ty ← getString;
    maxPlayers ← getUint 2; playerCount ← getUint 2; b ← getUint8; mode ← getUint8;
    mret (mk id name ty maxPlayers playerCount
             (negb (N.land b (N.shiftl 1 0) =? 0)%N) mode)).

#[export] Instance wire : Wire t :=
  { zero := mk "" "" "" 0 0 false 0; marshal := Marshal; unmarshal := Unmarshal }.
End RoomInfo.

Module RoomList.
Record t := mk { Rooms : list RoomInfo.t }.

Definition Marshal (m : t) (buf : bytes) : outcome bytes :=
  appendSlice RoomInfo.Marshal m.(Rooms) "Rooms" buf.

Definition Unmarshal : bytes → result (t * nat) :=
  unmarshalStruct 2 "RoomList" (rooms ← getSlice RoomInfo.Unmarshal; mret (mk rooms)).

#[export] Instance wire : Wire t :=
  { zero := mk []; marshal := Marshal; unmarshal := Unmarshal }.
End RoomList.

Module PlayerJoined.
Record t := mk { PlayerID : N; UserID : string }.

Definition Marshal (m : t) (buf : bytes) : outcome bytes :=
  let buf := AppendUint64 buf m.(PlayerID) in
  appendString m.(UserID) "UserID" buf.

Definition Unmarshal : bytes → result (t * nat) :=
  unmarshalStruct 10 "PlayerJoined" (
    playerID ← getUint 8; userID ← getString; mret (mk playerID userID)).

#[export] Instance wire : Wire t :=
  { zero := mk 0 ""; marshal := Marshal; unmarshal := Unmarshal }.
End PlayerJoined.

Module PlayerLeft.
Record t := mk { PlayerID : N }.

Definition Marshal (m : t) (buf : bytes) : outcome bytes :=
  let buf := AppendUint64 buf m.(PlayerID) in
  mret buf.

Definition Unmarshal : bytes → result (t * nat) :=
  unmarshalStruct 8 "PlayerLeft" (playerID ← getUint 8; mret (mk playerID)).

#[export] Instance wire : Wire t :=
  { zero := mk 0; marshal := Marshal; unmarshal := Unmarshal }.
End PlayerLeft.

Module Kicked.
Record t := mk { Reason : string; RoomID : string }.

Definition Marshal (m : t) (buf : bytes) : outcome bytes :=
  buf ← appendString m.(Reason) "Reason" buf;
  appendString m.(RoomID) "RoomID" buf.

Definition Unmarshal : bytes → result (t * nat) :=
  unmarshalStruct 4 "Kicked" (
    reason ← getString; roomID ← getString; mret (mk reason roomID)).

#[export] Instance wire : Wire t :=
  { zero := mk "" ""; marshal := Marshal; unmarshal := Unmarshal }.
End Kicked.

Module RoomRemoved.
Record t := mk { ID : string }.

Definition Marshal (m : t) (buf : bytes) : outcome bytes :=
  appendString m.(ID) "ID" buf.

Definition Unmarshal : bytes → result (t * nat) :=
  unmarshalStruct 2 "RoomRemoved" (id ← getString; mret (mk id)).

#[export] Instance wire : Wire t :=
  { zero := mk ""; marshal := Marshal; unmarshal := Unmarshal }.
End RoomRemoved.

(** Instances of the modules, visible without importing them. *)
#[export] Existing Instances ClientMessage.wire ServerMessage.wire AuthResult.wire
  CreateOption.wire CreateRoomRequest.wire JoinRoomRequest.wire LeaveRoomRequest.wire
  RoomInfo.wire RoomList.wire PlayerJoined.wire PlayerLeft.wire Kicked.wire RoomRemoved.wire.
