(* ===== verification/SchemaSpec.v ===== *)
(** * The wire format of the schema

    The encoding of every message of Schema.v as a pure function, what makes a
    message [valid] (its integers in range, its lengths writable), and the
    instance of [WireSpec] that the generated code of the message satisfies: it
    writes the encoding, reads it back whatever follows, and never reports more
    bytes than the input has. *)

From S2P Require Import Prelude Codec Schema.

(** ** Encodings *)

Definition enc_ClientMessage (m : ClientMessage.t) : bytes :=
  put_le 1 m.(ClientMessage.Type_) ++ put_le 4 m.(ClientMessage.ID) ++
  put_le 2 m.(ClientMessage.Op) ++ encString m.(ClientMessage.Token) ++
  encString m.(ClientMessage.Channel) ++ encBytes m.(ClientMessage.Payload).

Definition valid_ClientMessage (m : ClientMessage.t) : bool :=
  fitsUint 1 m.(ClientMessage.Type_) && fitsUint 4 m.(ClientMessage.ID) &&
  fitsUint 2 m.(ClientMessage.Op) && fitsString m.(ClientMessage.Token) &&
  fitsString m.(ClientMessage.Channel) && fitsLen (length m.(ClientMessage.Payload)).

Definition enc_ServerMessage (m : ServerMessage.t) : bytes :=
  put_le 1 m.(ServerMessage.Type_) ++ put_le 4 m.(ServerMessage.ID) ++
  put_le 2 m.(ServerMessage.Code) ++ put_le 2 m.(ServerMessage.Op) ++
  encString m.(ServerMessage.Channel) ++ encString m.(ServerMessage.Error) ++
  encBytes m.(ServerMessage.Payload).

(** The lengths a server message must respect to be written at all. *)
Definition fits_ServerMessage (m : ServerMessage.t) : bool :=
  fitsString m.(ServerMessage.Channel) && fitsString m.(ServerMessage.Error) &&
  fitsLen (length m.(ServerMessage.Payload)).

Definition valid_ServerMessage (m : ServerMessage.t) : bool :=
  fitsUint 1 m.(ServerMessage.Type_) && fitsUint 4 m.(ServerMessage.ID) &&
  fitsUint 2 m.(ServerMessage.Code) && fitsUint 2 m.(ServerMessage.Op) &&
  fitsString m.(ServerMessage.Channel) && fitsString m.(ServerMessage.Error) &&
  fitsLen (length m.(ServerMessage.Payload)).

Definition enc_AuthResult (m : AuthResult.t) : bytes :=
  encString m.(AuthResult.SessionID) ++ encString m.(AuthResult.UserID).
Definition valid_AuthResult (m : AuthResult.t) : bool :=
  fitsString m.(AuthResult.SessionID) && fitsString m.(AuthResult.UserID).

Definition enc_CreateOption (m : CreateOption.t) : bytes :=
  encString m.(CreateOption.Key) ++ encString m.(CreateOption.Value).
Definition valid_CreateOption (m : CreateOption.t) : bool :=
  fitsString m.(CreateOption.Key) && fitsString m.(CreateOption.Value).

Definition enc_CreateRoomRequest (m : CreateRoomRequest.t) : bytes :=
  encString m.(CreateRoomRequest.Name) ++ encString m.(CreateRoomRequest.Type_) ++
  put_le 2 m.(CreateRoomRequest.MaxPlayers) ++ put_le 1 m.(CreateRoomRequest.SingletonMode) ++
  encSlice enc_CreateOption m.(CreateRoomRequest.Options).
Definition valid_CreateRoomRequest (m : CreateRoomRequest.t) : bool :=
  fitsString m.(CreateRoomRequest.Name) && fitsString m.(CreateRoomRequest.Type_) &&
  fitsUint 2 m.(CreateRoomRequest.MaxPlayers) && fitsUint 1 m.(CreateRoomRequest.SingletonMode) &&
  fitsLen (length m.(CreateRoomRequest.Options)) &&
  forallb valid_CreateOption m.(CreateRoomRequest.Options).

Definition enc_RoomInfo (m : RoomInfo.t) : bytes :=
  encString m.(RoomInfo.ID) ++ encString m.(RoomInfo.Name) ++ encString m.(RoomInfo.Type_) ++
  put_le 2 m.(RoomInfo.MaxPlayers) ++ put_le 2 m.(RoomInfo.PlayerCount) ++
  put_le 1 (if m.(RoomInfo.IsOpen) then 1 else 0) ++ put_le 1 m.(RoomInfo.SingletonMode).
Definition fits_RoomInfo (m : RoomInfo.t) : bool :=
  fitsString m.(RoomInfo.ID) && fitsString m.(RoomInfo.Name) && fitsString m.(RoomInfo.Type_).
Definition valid_RoomInfo (m : RoomInfo.t) : bool :=
  fitsString m.(RoomInfo.ID) && fitsString m.(RoomInfo.Name) && fitsString m.(RoomInfo.Type_) &&
  fitsUint 2 m.(RoomInfo.MaxPlayers) &&
  fitsUint 2 m.(RoomInfo.PlayerCount) && fitsUint 1 m.(RoomInfo.SingletonMode).

Definition enc_RoomList (m : RoomList.t) : bytes := encSlice enc_RoomInfo m.(RoomList.Rooms).
Definition valid_RoomList (m : RoomList.t) : bool :=
  fitsLen (length m.(RoomList.Rooms)) && forallb valid_RoomInfo m.(RoomList.Rooms).

Definition enc_PlayerJoined (m : PlayerJoined.t) : bytes :=
  put_le 8 m.(PlayerJoined.PlayerID) ++ encString m.(PlayerJoined.UserID).
Definition valid_PlayerJoined (m : PlayerJoined.t) : bool :=
  fitsUint 8 m.(PlayerJoined.PlayerID) && fitsString m.(PlayerJoined.UserID).

Definition enc_Kicked (m : Kicked.t) : bytes :=
  encString m.(Kicked.Reason) ++ encString m.(Kicked.RoomID).
Definition valid_Kicked (m : Kicked.t) : bool :=
  fitsString m.(Kicked.Reason) && fitsString m.(Kicked.RoomID).

(** ** Lengths *)

Lemma length_encString s : length (encString s) = 2 + String.length s.
Proof. unfold encString. by rewrite length_app, length_put_le, length_bytes_of_string. Qed.

Lemma length_encBytes bs : length (encBytes bs) = 2 + length bs.
Proof. unfold encBytes. by rewrite length_app, length_put_le. Qed.

Lemma length_encSlice {T} (e : T → bytes) l :
  length (encSlice e l) = 2 + sum_list (map (λ v, length (e v)) l).
Proof.
  unfold encSlice. rewrite length_app, length_put_le. f_equal.
  induction l as [|v l IH]; [done|]. simpl. by rewrite length_app, IH.
Qed.

Create Rewrite HintDb wire_length.
#[export] Hint Rewrite @length_app length_put_le length_encString length_encBytes
  @length_encSlice @length_cons @length_nil : wire_length.

(** ** Tactics: a generated method against its encoding *)

(** Runs a [Marshal] on fields that fit. *)
Ltac solve_marshal :=
  simpl;
  repeat first
    [ rewrite appendString_eq
    | rewrite appendBytes_eq
    | match goal with H : fitsString _ = true |- _ => rewrite H; clear H end
    | match goal with H : fitsLen _ = true |- _ => rewrite H; clear H end
    | progress unfold mbind, outcome_bind, mret, outcome_ret, AppendUint16, AppendUint32,
        AppendUint64 ];
  rewrite <- ?app_assoc; simpl; try done.

(** Runs an [Unmarshal] over an encoding, field by field. *)
Ltac solve_parses :=
  apply parses_unmarshalStruct;
    [ repeat (eapply reads_bind; [by eauto with wire|]);
      eapply reads_last; by eauto with wire
    | autorewrite with wire_length; lia ].

Ltac solve_bounded := unfold unmarshal; apply bounded_unmarshalStruct; auto 20 with wire.

Ltac solve_nonempty :=
  let E := fresh in
  intros ? E; apply (f_equal length) in E; revert E;
  autorewrite with wire_length; simpl; lia.

(** ** The instances *)

#[local] Opaque put_le encString encBytes encSlice.

Lemma elem_of_forallb {T} (f : T → bool) l v : forallb f l = true → v ∈ l → f v.
Proof.
  rewrite forallb_forall. intros Hl Hv. apply Is_true_eq_left, Hl. by apply list_elem_of_In.
Qed.

(** Proves [WireSpec] for a message without nested messages: [def] and [val] are
    its encoding and its validity, [mar] its [Marshal]. *)
Ltac solve_wire_spec def val mar :=
  refine {| enc := def; valid := val |};
  [ intros [] buf Hv; unfold val, def in *; unfold marshal; simpl in Hv |- *;
    destruct_valid; unfold mar; solve_marshal
  | intros [] Hv; unfold val, def in *; simpl in Hv |- *; destruct_valid; solve_parses
  | solve_bounded
  | unfold def; solve_nonempty ].

#[export] Instance ClientMessage_spec : WireSpec ClientMessage.t.
Proof. solve_wire_spec enc_ClientMessage valid_ClientMessage ClientMessage.Marshal. Defined.

#[export] Instance ServerMessage_spec : WireSpec ServerMessage.t.
Proof. solve_wire_spec enc_ServerMessage valid_ServerMessage ServerMessage.Marshal. Defined.

#[export] Instance AuthResult_spec : WireSpec AuthResult.t.
Proof. solve_wire_spec enc_AuthResult valid_AuthResult AuthResult.Marshal. Defined.

#[export] Instance CreateOption_spec : WireSpec CreateOption.t.
Proof. solve_wire_spec enc_CreateOption valid_CreateOption CreateOption.Marshal. Defined.

#[export] Instance JoinRoomRequest_spec : WireSpec JoinRoomRequest.t.
Proof.
  refine {| enc := λ m, encString m.(JoinRoomRequest.RoomID);
            valid := λ m, fitsString m.(JoinRoomRequest.RoomID) |}.
  - intros [] buf Hv. simpl in *. destruct_valid. unfold JoinRoomRequest.Marshal. solve_marshal.
  - intros [] Hv. simpl in *. destruct_valid. solve_parses.
  - solve_bounded.
  - solve_nonempty.
Defined.

#[export] Instance LeaveRoomRequest_spec : WireSpec LeaveRoomRequest.t.
Proof.
  refine {| enc := λ m, encString m.(LeaveRoomRequest.RoomID);
            valid := λ m, fitsString m.(LeaveRoomRequest.RoomID) |}.
  - intros [] buf Hv. simpl in *. destruct_valid. unfold LeaveRoomRequest.Marshal. solve_marshal.
  - intros [] Hv. simpl in *. destruct_valid. solve_parses.
  - solve_bounded.
  - solve_nonempty.
Defined.

#[export] Instance RoomRemoved_spec : WireSpec RoomRemoved.t.
Proof.
  refine {| enc := λ m, encString m.(RoomRemoved.ID);
            valid := λ m, fitsString m.(RoomRemoved.ID) |}.
  - intros [] buf Hv. simpl in *. destruct_valid. unfold RoomRemoved.Marshal. solve_marshal.
  - intros [] Hv. simpl in *. destruct_valid. solve_parses.
  - solve_bounded.
  - solve_nonempty.
Defined.

#[export] Instance PlayerJoined_spec : WireSpec PlayerJoined.t.
Proof. solve_wire_spec enc_PlayerJoined valid_PlayerJoined PlayerJoined.Marshal. Defined.

#[export] Instance PlayerLeft_spec : WireSpec PlayerLeft.t.
Proof.
  refine {| enc := λ m, put_le 8 m.(PlayerLeft.PlayerID);
            valid := λ m, fitsUint 8 m.(PlayerLeft.PlayerID) |}.
  - done.
  - intros [] Hv. simpl in *. destruct_valid. solve_parses.
  - solve_bounded.
  - solve_nonempty.
Defined.

#[export] Instance Kicked_spec : WireSpec Kicked.t.
Proof. solve_wire_spec enc_Kicked valid_Kicked Kicked.Marshal. Defined.

(** The open flag: one byte, of which [Unmarshal] reads bit 0. *)
Lemma isOpen_bit b :
  negb (N.land (if b : bool then 1 else 0) (N.shiftl 1 0) =? 0)%N = b.
Proof. by destruct b. Qed.

#[export] Instance RoomInfo_spec : WireSpec RoomInfo.t.
Proof.
  refine {| enc := enc_RoomInfo; valid := valid_RoomInfo |}.
  - intros [? ? ? ? ? isOpen ?] buf Hv. unfold valid_RoomInfo, enc_RoomInfo in *.
    simpl in *. destruct_valid. unfold RoomInfo.Marshal. solve_marshal.
  - intros [? ? ? ? ? isOpen ?] Hv. unfold valid_RoomInfo, enc_RoomInfo in *.
    simpl in *. destruct_valid.
    assert (fitsUint 1 (if isOpen then 1 else 0) = true) by by destruct isOpen.
    rewrite <- (isOpen_bit isOpen) at 1. solve_parses.
  - solve_bounded.
  - unfold enc_RoomInfo. solve_nonempty.
Defined.

(** Messages that nest others use the instance of the element type. *)

#[export] Instance CreateRoomRequest_spec : WireSpec CreateRoomRequest.t.
Proof.
  refine {| enc := enc_CreateRoomRequest; valid := valid_CreateRoomRequest |}.
  - intros [] buf Hv. unfold valid_CreateRoomRequest, enc_CreateRoomRequest in *.
    simpl in *. destruct_valid. unfold CreateRoomRequest.Marshal.
    solve_marshal. rewrite (appendSlice_eq _ enc_CreateOption).
    + by rewrite <- !app_assoc.
    + done.
    + intros v b Hin. refine (marshal_enc (T := CreateOption.t) v b _). by eapply elem_of_forallb.
  - intros [] Hv. unfold valid_CreateRoomRequest, enc_CreateRoomRequest in *.
    simpl in *. destruct_valid.
    assert (∀ v, v ∈ Options → parses CreateOption.Unmarshal v (enc_CreateOption v)).
    { intros v Hin. refine (unmarshal_enc (T := CreateOption.t) v _). by eapply elem_of_forallb. }
    solve_parses.
  - pose proof (unmarshal_bounded (T := CreateOption.t) : bounded_unmarshal CreateOption.Unmarshal).
    solve_bounded.
  - unfold enc_CreateRoomRequest. solve_nonempty.
Defined.

#[export] Instance RoomList_spec : WireSpec RoomList.t.
Proof.
  refine {| enc := enc_RoomList; valid := valid_RoomList |}.
  - intros [] buf Hv. unfold valid_RoomList, enc_RoomList in *. simpl in *. destruct_valid.
    unfold RoomList.Marshal. apply appendSlice_eq; [done|].
    intros v b Hin. refine (marshal_enc (T := RoomInfo.t) v b _). by eapply elem_of_forallb.
  - intros [] Hv. unfold valid_RoomList, enc_RoomList in *. simpl in *. destruct_valid.
    assert (∀ v, v ∈ Rooms → parses RoomInfo.Unmarshal v (enc_RoomInfo v)).
    { intros v Hin. refine (unmarshal_enc (T := RoomInfo.t) v _). by eapply elem_of_forallb. }
    solve_parses.
  - pose proof (unmarshal_bounded (T := RoomInfo.t) : bounded_unmarshal RoomInfo.Unmarshal).
    solve_bounded.
  - unfold enc_RoomList. solve_nonempty.
Defined.

(** ** Properties of the wire format *)

Lemma reader_bind_inv {A B} (r : Reader A) (k : A → Reader B) data o b o' :
  (r ≫= k) data o = Ok (b, o') →
  ∃ a o1, r data o = Ok (a, o1) ∧ k a data o1 = Ok (b, o').
Proof.
  unfold mbind, Reader_bind. destruct (r data o) as [[a o1]|]; [|done]. eauto.
Qed.

(** Takes a successful run of fields apart, the field that was read first first. *)
Ltac invert_fields :=
  repeat match goal with
  | H : (_ ≫= _) _ _ = Ok _ |- _ =>
      let a := fresh "v" in let o := fresh "o" in let E := fresh "E" in
      apply reader_bind_inv in H as (a & o & E & H);
      first [ apply getUint8_inv in E as [? ?] | apply getUint_inv in E as [? ?]
            | apply getString_inv in E as [? ?] | apply getBytes_inv in E as [? ?] ]
  end.

Ltac chain_consumed :=
  repeat first [ eassumption | eapply consumed_trans; [eassumption|] ].

Lemma ClientMessage_Unmarshal_inv data m n :
  ClientMessage.Unmarshal data = Ok (m, n) →
  valid m ∧ consumed data 0 n (enc m).
Proof.
  unfold ClientMessage.Unmarshal, unmarshalStruct. destruct (length data <? 13); [done|].
  intros H. invert_fields. injection H as <- <-. split.
  - unfold valid; simpl. unfold valid_ClientMessage; simpl.
    repeat match goal with H : _ = true |- _ => rewrite H; clear H end. done.
  - unfold enc; simpl. unfold enc_ClientMessage; simpl. chain_consumed.
Qed.

(** What a reader and a writer of a type owe each other: an [ok] message is
    written, and read back whatever follows it with the number of its bytes; no
    input makes the reader report more bytes than it has. *)
Definition codec_ok {T} (ok : T → bool) (write : T → bytes → outcome bytes)
    (read : bytes → result (T * nat)) : Prop :=
  (∀ v rest, ok v → ∃ bs, write v [] = Ret bs ∧ read (bs ++ rest) = Ok (v, length bs)) ∧
  (∀ data v n, read data = Ok (v, n) → n ≤ length data).

Lemma spec_codec_ok T `{WireSpec T} : codec_ok valid (marshal (T := T)) unmarshal.
Proof.
  split; [|exact unmarshal_bounded]. intros v rest Hv. exists (enc v).
  split; [exact (marshal_enc v [] Hv)|exact (unmarshal_enc v Hv rest)].
Qed.

(** What a reader can return. *)
Definition produces {A} (P : A → bool) (r : Reader A) : Prop :=
  ∀ data o a o', r data o = Ok (a, o') → P a = true.

Lemma produces_ret {A} (P : A → bool) a : P a = true → produces P (mret a).
Proof. by intros Ha data o a' o' [= <- <-]. Qed.

Lemma produces_bind {A B} (P : A → bool) (Q : B → bool) (r : Reader A) k :
  produces P r → (∀ a, P a = true → produces Q (k a)) → produces Q (r ≫= k).
Proof. intros Hr Hk data o b o' (a & o1 & Ha & Hb)%reader_bind_inv. eapply Hk; [by eapply Hr|done]. Qed.

Lemma produces_Uint k : produces (fitsUint k) (getUint k).
Proof. by intros data o v o' [_ ?]%getUint_inv. Qed.

Lemma produces_Uint8 : produces (fitsUint 1) getUint8.
Proof. by intros data o v o' [_ ?]%getUint8_inv. Qed.

Lemma produces_String : produces fitsString getString.
Proof. by intros data o s o' [_ ?]%getString_inv. Qed.

Lemma produces_Bytes : produces (λ bs, fitsLen (length bs)) getBytes.
Proof. by intros data o bs o' [_ ?]%getBytes_inv. Qed.

Definition returns {T} (P : T → bool) (read : bytes → result (T * nat)) : Prop :=
  ∀ data v n, read data = Ok (v, n) → P v = true.

Lemma produces_loop {T} (P : T → bool) u n :
  returns P u → produces (λ l, (length l =? n) && forallb P l) (unmarshal_loop u n).
Proof.
  intros Hu. induction n as [|n IH]; [by apply produces_ret|]. cbn [unmarshal_loop].
  apply (produces_bind P).
  - intros data o v o' Hv. unfold nested in Hv. destruct (u (drop o data)) as [[v' m]|] eqn:E; [|done].
    injection Hv as -> _. by eapply Hu.
  - intros v Hv. eapply produces_bind; [exact IH|]. intros vs Hvs. apply produces_ret. simpl. by rewrite Hv.
Qed.

Lemma produces_Slice {T} (P : T → bool) u :
  returns P u → produces (λ l, fitsLen (length l) && forallb P l) (getSlice u).
Proof.
  intros Hu. apply (produces_bind (fitsUint 2)); [apply produces_Uint|]. intros n Hn data o l o' Hl.
  apply (produces_loop P u _ Hu) in Hl. apply andb_prop in Hl as [Hlen%Nat.eqb_eq Hl].
  rewrite Hl, andb_true_r, fitsLen_lt, Hlen, N2Nat.id. by apply N.ltb_lt in Hn.
Qed.

Lemma returns_struct {T} (P : T → bool) min name fields :
  produces P fields → returns P (unmarshalStruct min name fields).
Proof. intros Hf data v n. unfold unmarshalStruct. destruct (length data <? min); [done|]. apply Hf. Qed.

(** Field by field: what each one checked is what the message needs. *)
Ltac solve_returns val :=
  apply returns_struct;
  repeat (eapply produces_bind;
    [first [apply produces_Uint8 | apply produces_Uint | apply produces_String | apply produces_Bytes
           | apply produces_Slice; eassumption] | intros ? ?]);
  apply produces_ret; try unfold val; cbn in *;
  repeat match goal with
  | H : _ && _ = true |- _ => apply andb_prop in H as [? ?]
  | H : ?b = true |- context [?b] => rewrite H
  end; reflexivity.

(** Every value an [Unmarshal] returns is [ok], and is itself written and read back. *)
Definition typed {T} (ok : T → bool) (write : T → bytes → outcome bytes)
    (read : bytes → result (T * nat)) : Prop :=
  ∀ data v n, read data = Ok (v, n) →
    ok v = true ∧ ∃ bs, write v [] = Ret bs ∧ read bs = Ok (v, length bs).

Lemma returns_typed T `{WireSpec T} : returns valid (unmarshal (T := T)) → typed valid (marshal (T := T)) unmarshal.
Proof.
  intros Hr data v n Hv. pose proof (Hr data v n Hv) as Hok. split; [done|].
  apply Is_true_eq_left in Hok. exists (enc v). split; [exact (marshal_enc v [] Hok)|].
  pose proof (unmarshal_enc v Hok []) as Hread. by rewrite app_nil_r in Hread.
Qed.

(** The wire format of client frames is canonical. *)
Lemma ClientMessage_canonical (data : bytes) (m : ClientMessage.t) (n : nat) :
  ClientMessage.Unmarshal data = Ok (m, n) →
  n ≤ length data ∧ ClientMessage.Marshal m [] = Ret (take n data).
Proof.
  intros H. split; [by eapply (unmarshal_bounded (T := ClientMessage.t))|].
  apply ClientMessage_Unmarshal_inv in H as [Hv Hc].
  rewrite <- (consumed_prefix _ _ _ Hc). exact (marshal_enc m [] Hv).
Qed.

Lemma CreateOption_returns : returns valid_CreateOption CreateOption.Unmarshal.
Proof. solve_returns valid_CreateOption. Qed.

Lemma CreateRoomRequest_returns : returns valid_CreateRoomRequest CreateRoomRequest.Unmarshal.
Proof. pose proof CreateOption_returns. solve_returns valid_CreateRoomRequest. Qed.

(** The request a handler decodes from a payload, an empty one included. *)
Lemma Decode_CreateRoomRequest payload (req : CreateRoomRequest.t) : Decode payload = Ok req → valid req.
Proof.
  unfold Decode. destruct (length payload =? 0); [by intros [= <-]|].
  destruct (unmarshal payload) as [[v n]|e] eqn:Hu; [|done]. intros [= ->].
  apply Is_true_eq_left. by eapply CreateRoomRequest_returns.
Qed.

Ltac solve_typed T val read :=
  let H := fresh in
  assert (returns val read) as H by solve_returns val; exact (returns_typed T H).

(** C26: what comes off the wire is well typed. Whatever bytes a peer sends, a
    message that an [Unmarshal] returns has every integer in the range of its Go
    type and every length within what arpack writes, nested slices included; so
    the server can write it again, without a panic, and reads back the same
    message. A client frame has one encoding: what was read of it is what is
    written again. *)
Theorem unmarshal_typed :
  typed valid ClientMessage.Marshal ClientMessage.Unmarshal ∧
  typed valid ServerMessage.Marshal ServerMessage.Unmarshal ∧
  typed valid AuthResult.Marshal AuthResult.Unmarshal ∧
  typed valid CreateRoomRequest.Marshal CreateRoomRequest.Unmarshal ∧
  typed valid CreateOption.Marshal CreateOption.Unmarshal ∧
  typed valid JoinRoomRequest.Marshal JoinRoomRequest.Unmarshal ∧
  typed valid LeaveRoomRequest.Marshal LeaveRoomRequest.Unmarshal ∧
  typed valid RoomInfo.Marshal RoomInfo.Unmarshal ∧
  typed valid RoomList.Marshal RoomList.Unmarshal ∧
  typed valid PlayerJoined.Marshal PlayerJoined.Unmarshal ∧
  typed valid PlayerLeft.Marshal PlayerLeft.Unmarshal ∧
  typed valid Kicked.Marshal Kicked.Unmarshal ∧
  typed valid RoomRemoved.Marshal RoomRemoved.Unmarshal ∧
  ∀ data m n, ClientMessage.Unmarshal data = Ok (m, n) →
    n ≤ length data ∧ ClientMessage.Marshal m [] = Ret (take n data).
Proof.
  pose proof CreateOption_returns as Hopt.
  assert (returns valid_RoomInfo RoomInfo.Unmarshal) as Hinfo by solve_returns valid_RoomInfo.
  split; [solve_typed ClientMessage.t valid_ClientMessage ClientMessage.Unmarshal|].
  split; [solve_typed ServerMessage.t valid_ServerMessage ServerMessage.Unmarshal|].
  split; [solve_typed AuthResult.t valid_AuthResult AuthResult.Unmarshal|].
  split; [exact (returns_typed CreateRoomRequest.t CreateRoomRequest_returns)|].
  split; [exact (returns_typed CreateOption.t Hopt)|].
  split; [solve_typed JoinRoomRequest.t (λ m, fitsString m.(JoinRoomRequest.RoomID)) JoinRoomRequest.Unmarshal|].
  split; [solve_typed LeaveRoomRequest.t (λ m, fitsString m.(LeaveRoomRequest.RoomID)) LeaveRoomRequest.Unmarshal|].
  split; [exact (returns_typed RoomInfo.t Hinfo)|].
  split; [solve_typed RoomList.t valid_RoomList RoomList.Unmarshal|].
  split; [solve_typed PlayerJoined.t valid_PlayerJoined PlayerJoined.Unmarshal|].
  split; [solve_typed PlayerLeft.t (λ m, fitsUint 8 m.(PlayerLeft.PlayerID)) PlayerLeft.Unmarshal|].
  split; [solve_typed Kicked.t valid_Kicked Kicked.Unmarshal|].
  split; [solve_typed RoomRemoved.t (λ m, fitsString m.(RoomRemoved.ID)) RoomRemoved.Unmarshal|].
  exact ClientMessage_canonical.
Qed.

(** C25: every message of the schema survives the wire. When its integers are in
    range and its lengths are ones arpack can write, [Marshal] returns bytes, and
    [Unmarshal] of any input that starts with them returns the message, nested
    slices in order, and reports exactly their number; and on hostile input no
    [Unmarshal] reports more bytes than it was given. *)
Theorem messages_roundtrip :
  codec_ok valid ClientMessage.Marshal ClientMessage.Unmarshal ∧
  codec_ok valid ServerMessage.Marshal ServerMessage.Unmarshal ∧
  codec_ok valid AuthResult.Marshal AuthResult.Unmarshal ∧
  codec_ok valid CreateRoomRequest.Marshal CreateRoomRequest.Unmarshal ∧
  codec_ok valid CreateOption.Marshal CreateOption.Unmarshal ∧
  codec_ok valid JoinRoomRequest.Marshal JoinRoomRequest.Unmarshal ∧
  codec_ok valid LeaveRoomRequest.Marshal LeaveRoomRequest.Unmarshal ∧
  codec_ok valid RoomInfo.Marshal RoomInfo.Unmarshal ∧
  codec_ok valid RoomList.Marshal RoomList.Unmarshal ∧
  codec_ok valid PlayerJoined.Marshal PlayerJoined.Unmarshal ∧
  codec_ok valid PlayerLeft.Marshal PlayerLeft.Unmarshal ∧
  codec_ok valid Kicked.Marshal Kicked.Unmarshal ∧
  codec_ok valid RoomRemoved.Marshal RoomRemoved.Unmarshal.
Proof.
  repeat match goal with |- @codec_ok ?T _ _ _ ∧ _ => split; [exact (spec_codec_ok T)|] end.
  exact (spec_codec_ok RoomRemoved.t).
Qed.

(** ** Frames and listings that do not fit *)

Lemma ServerMessage_fits (m : ServerMessage.t) (buf : bytes) :
  is_panic (ServerMessage.Marshal m buf) = negb (fits_ServerMessage m).
Proof.
  unfold ServerMessage.Marshal, fits_ServerMessage.
  rewrite appendString_eq. destruct (fitsString (ServerMessage.Channel m)); [|done].
  simpl. rewrite appendString_eq. destruct (fitsString (ServerMessage.Error m)); [|done].
  simpl. rewrite appendBytes_eq. by destruct (fitsLen _).
Qed.

Lemma RoomInfo_fits (m : RoomInfo.t) (buf : bytes) :
  is_panic (RoomInfo.Marshal m buf) =
  negb (fits_RoomInfo m).
Proof.
  unfold RoomInfo.Marshal, fits_RoomInfo.
  rewrite appendString_eq. destruct (fitsString (RoomInfo.ID m)); [|done].
  simpl. rewrite appendString_eq. destruct (fitsString (RoomInfo.Name m)); [|done].
  simpl. rewrite appendString_eq. by destruct (fitsString (RoomInfo.Type_ m)).
Qed.

Lemma RoomInfo_Marshal_length m buf out :
  RoomInfo.Marshal m buf = Ret out → length buf + 12 ≤ length out.
Proof.
  unfold RoomInfo.Marshal. rewrite appendString_eq. destruct (fitsString _); [|done]. simpl.
  rewrite appendString_eq. destruct (fitsString _); [|done]. simpl.
  rewrite appendString_eq. destruct (fitsString _); [|done]. simpl. intros [= <-].
  unfold AppendUint16. rewrite !length_app, !length_encString, !length_put_le. simpl. lia.
Qed.

Lemma RoomInfo_loop_length rooms buf out :
  marshal_loop RoomInfo.Marshal rooms buf = Ret out → length buf + 12 * length rooms ≤ length out.
Proof.
  revert buf. induction rooms as [|r rooms IH]; intros buf; simpl; [intros [= <-]; lia|].
  destruct (RoomInfo.Marshal r buf) as [buf1|] eqn:Hr; [|done]. simpl. intros Hout%IH.
  apply RoomInfo_Marshal_length in Hr. lia.
Qed.

(** A listing of 5462 rooms or more does not fit a payload. *)
Lemma RoomList_oversized rooms out :
  (5462 ≤ N.of_nat (length rooms))%N → RoomList.Marshal (RoomList.mk rooms) [] = Ret out → fitsLen (length out) = false.
Proof.
  intros Hn. unfold RoomList.Marshal, appendSlice. simpl. rewrite arpackEnsure_eq.
  destruct (fitsLen (length rooms)); [|done]. simpl. intros Hout%RoomInfo_loop_length.
  apply not_true_iff_false. rewrite fitsLen_lt. lia.
Qed.

(** C29: the typed handler pipeline, end to end: for a valid request that passes
    its validation, [Call] on the encoded request runs the handler on the very
    request the client built, with the handler's effects and state and no other,
    and the bytes of its response decode to that response. *)
Theorem Call_end_to_end {Req Resp W E} `{WireSpec Req, WireSpec Resp}
    (Error : error → string) (validate : option (Req → option error))
    (req : Req) (resp : Resp) (fn : Req → M W E (result (option Resp))) w w' es :
  valid req → valid resp →
  match validate with Some v => v req | None => None end = None →
  fn req w = (Ret (Ok (Some resp)), w', es) →
  ∃ payload m bs,
    Encode (Some (marshal req)) = Ret payload ∧
    Call Error validate payload fn w = (Ret (Ok (Some m)), w', es) ∧
    Encode (Some m) = Ret bs ∧ Decode bs = Ok resp.
Proof.
  intros Hreq Hresp Hval Hfn. exists (enc req), (marshal resp), (enc resp).
  split; [by apply Encode_enc|]. split; [|split; [by apply Encode_enc|by apply Decode_enc]].
  unfold Call. rewrite (Decode_enc req Hreq), Hval. unfold mbind, M_bind.
  rewrite Hfn. simpl. by rewrite app_nil_r.
Qed.

(** ** Witnesses *)

Definition sample_frame : bytes :=
  [Byte.x04; Byte.x07; Byte.x00; Byte.x00; Byte.x00; Byte.x02; Byte.x00; Byte.x00; Byte.x00;
   Byte.x00; Byte.x00; Byte.x01; Byte.x00; Byte.x41; Byte.x42].

Definition sample_decoded : ClientMessage.t :=
  ClientMessage.mk MessageRequest 7 MethodRoomJoin "" "" [Byte.x41].

Lemma unmarshal_typed_witness :
  14 ≤ length sample_frame ∧
  ClientMessage.Marshal sample_decoded [] = Ret (take 14 sample_frame).
Proof.
  destruct unmarshal_typed as (_ & _ & _ & _ & _ & _ & _ & _ & _ & _ & _ & _ & _ & H).
  apply (H sample_frame sample_decoded 14). reflexivity.
Defined.

(** The hypotheses can hold: nested options, and a listing with both flags. *)
Example sample_create_valid :
  valid (CreateRoomRequest.mk "arena" "duel" 2 SingletonReject
           [CreateOption.mk "map" "walls"; CreateOption.mk "map" "open"]) = true.
Proof. reflexivity. Qed.

Example sample_list_valid :
  valid (RoomList.mk [RoomInfo.mk "a_1" "a" "duel" 2 1 true SingletonReject;
                      RoomInfo.mk "b_2" "b" "chess" 0 0 false SingletonAllow]) = true.
Proof. reflexivity. Qed.

Lemma Call_end_to_end_witness :
  ∃ payload m bs,
    Encode (Some (marshal (JoinRoomRequest.mk "duel_1"))) = Ret payload ∧
    Call (Resp := RoomRemoved.t) (λ _, "error"%string) None payload
      (λ req, modify S ;; mret (Ok (Some (RoomRemoved.mk req.(JoinRoomRequest.RoomID))))) 0
      = (Ret (Ok (Some m)), 1, [] : list unit) ∧
    Encode (Some m) = Ret bs ∧ Decode bs = Ok (RoomRemoved.mk "duel_1").
Proof.
  apply (Call_end_to_end (λ _, "error"%string) None (JoinRoomRequest.mk "duel_1")
           (RoomRemoved.mk "duel_1")); [exact I|exact I|reflexivity|reflexivity].
Defined.
