(* ===== verification/EventBus.v ===== *)
(** * The event bus (eventbus/)

    Topic pub/sub. [topics] is the [sync.Map] from a topic name to a pointer;
    the pointers and the topics they point to are a heap of their own, because
    the code distinguishes topic instances ([v == t], [CompareAndDelete]).
    Every access to the map and every critical section of a topic is one atomic
    step of [step_call]; [Subscribe] and [Unsubscribe] are the sequential runs of
    those steps, and [interleaving] is their concurrent execution. *)

From S2P Require Import Prelude Codec.

(** ** eventbus/event.go *)

Module Event.
Record t := mk { Op : N; Payload : bytes }.
End Event.

Definition NewEvent (op : N) (msg : option Marshaler) : outcome Event.t :=
  payload ← Encode msg; mret (Event.mk op payload).

Definition NewEventBytes (op : N) (payload : bytes) : Event.t := Event.mk op payload.

(** ** eventbus/subscriber.go

    [Send] runs over the state [W] of the subscribers and may panic. *)

Class Subscriber (Sub W E : Type) := {
  sub_ID : Sub → N;
  sub_Send : Sub → string → Event.t → M W E unit
}.

(** ** eventbus/topic.go, eventbus/eventbus.go *)

Module Bus.

(** A topic is its subscribers by ID. *)
Abbreviation Topic Sub := (gmap N Sub).

Section eventbus.
Context {Sub : Type} (ID : Sub → N).

Record EventBus := mkBus {
  topics : gmap string nat;      (* name -> pointer *)
  heap : gmap nat (Topic Sub);         (* pointer -> topic *)
  next : nat                     (* the next free pointer *)
}.

Definition New : EventBus := mkBus ∅ ∅ 0.

(** [newTopic] allocates an empty topic. *)
Definition newTopic (b : EventBus) : nat * EventBus :=
  (b.(next), mkBus b.(topics) (<[b.(next) := ∅]> b.(heap)) (S b.(next))).

(** [getTopic]: [LoadOrStore(name, newTopic(...))]; the argument is allocated
    whether or not it is stored. *)
Definition getTopic (name : string) (b : EventBus) : nat * EventBus :=
  let '(fresh, b) := newTopic b in
  match b.(topics) !! name with
  | Some t => (t, b)
  | None => (fresh, mkBus (<[name := fresh]> b.(topics)) b.(heap) b.(next))
  end.

Definition add (t : nat) (sub : Sub) (b : EventBus) : EventBus :=
  mkBus b.(topics) (alter (insert (ID sub) sub) t b.(heap)) b.(next).

Definition remove (t : nat) (sub : Sub) (b : EventBus) : EventBus :=
  mkBus b.(topics) (alter (delete (ID sub)) t b.(heap)) b.(next).

Definition isEmpty (t : nat) (b : EventBus) : bool :=
  match b.(heap) !! t with
  | Some subs => size subs =? 0
  | None => true
  end.

Definition CompareAndDelete (name : string) (t : nat) (b : EventBus) : EventBus :=
  if decide (b.(topics) !! name = Some t)
  then mkBus (delete name b.(topics)) b.(heap) b.(next)
  else b.

(** *** Calls as sequences of atomic steps

    The program counter of a running [Subscribe] or [Unsubscribe], with the
    topic pointer it holds. *)
Inductive pc :=
  | SubGet                 (* t := b.getTopic(topic) *)
  | SubAdd (t : nat)       (* t.add(sub) *)
  | SubCheck (t : nat)     (* v, ok := Load(topic); ok && v == t *)
  | SubUndo (t : nat)      (* t.remove(sub), then around the loop *)
  | UnsubLoad              (* v, ok := Load(topic) *)
  | UnsubRemove (t : nat)  (* t.remove(sub) *)
  | UnsubTest (t : nat)    (* t.isEmpty() *)
  | UnsubDelete (t : nat)  (* CompareAndDelete(topic, t) *)
  | Returned.

Record call := mkCall { c_topic : string; c_sub : Sub; c_pc : pc }.

Definition goto (c : call) (p : pc) : call := mkCall c.(c_topic) c.(c_sub) p.

Definition step_call (c : call) (b : EventBus) : call * EventBus :=
  match c.(c_pc) with
  | SubGet => let '(t, b) := getTopic c.(c_topic) b in (goto c (SubAdd t), b)
  | SubAdd t => (goto c (SubCheck t), add t c.(c_sub) b)
  | SubCheck t =>
      (goto c (if decide (b.(topics) !! c.(c_topic) = Some t) then Returned else SubUndo t), b)
  | SubUndo t => (goto c SubGet, remove t c.(c_sub) b)
  | UnsubLoad =>
      (goto c (match b.(topics) !! c.(c_topic) with
               | None => Returned
               | Some t => UnsubRemove t
               end), b)
  | UnsubRemove t => (goto c (UnsubTest t), remove t c.(c_sub) b)
  | UnsubTest t => (goto c (if isEmpty t b then UnsubDelete t else Returned), b)
  | UnsubDelete t => (goto c Returned, CompareAndDelete c.(c_topic) t b)
  | Returned => (c, b)
  end.

(** *** Sequential execution: one call runs to its end *)

Fixpoint run (fuel : nat) (c : call) (b : EventBus) : option EventBus :=
  match c.(c_pc), fuel with
  | Returned, _ => Some b
  | _, O => None
  | _, S fuel => let '(c, b) := step_call c b in run fuel c b
  end.

Definition Subscribe (fuel : nat) (topic : string) (sub : Sub) : EventBus → option EventBus :=
  run fuel (mkCall topic sub SubGet).

Definition Unsubscribe (fuel : nat) (topic : string) (sub : Sub) : EventBus → option EventBus :=
  run fuel (mkCall topic sub UnsubLoad).

(** *** Concurrent execution: any call makes the next step *)

Definition config : Type := list call * EventBus.

Definition step_at (i : nat) (cfg : config) : config :=
  match cfg.1 !! i with
  | None => cfg
  | Some c => let '(c, b) := step_call c cfg.2 in (<[i := c]> cfg.1, b)
  end.

Inductive interleaving : config → config → Prop :=
  | interleaving_refl cfg : interleaving cfg cfg
  | interleaving_step cfg cfg' i :
      interleaving cfg cfg' → interleaving cfg (step_at i cfg').

(** A schedule: which call steps next. *)
Definition run_schedule (schedule : list nat) (cfg : config) : config :=
  fold_left (λ cfg i, step_at i cfg) schedule cfg.

(** *** Publish *)

(** The subscribers a publication to [name] finds. *)
Definition subscribers (b : EventBus) (name : string) : Topic Sub :=
  match b.(topics) !! name with
  | Some t => default ∅ (b.(heap) !! t)
  | None => ∅
  end.

Context {W E : Type} (Send : Sub → string → Event.t → M W E unit).
(** [t.logger.Error("eventbus: subscriber panicked", ...)] *)
Context (logPanic : Sub → string → string → E).
Context `{GoRange}.

Definition deliver (topic : string) (event : Event.t) (sub : Sub) : M W E unit :=
  recover (logPanic sub topic) (Send sub topic event).

(** [send]: a snapshot of the subscribers, then one delivery each. *)
Definition send (subs : Topic Sub) (topic : string) (event : Event.t) : M W E unit :=
  for_each (deliver topic event) (range subs).*2.

Definition Publish (b : EventBus) (topic : string) (event : Event.t) : M W E unit :=
  match b.(topics) !! topic with
  | Some t => send (default ∅ (b.(heap) !! t)) topic event
  | None => mret tt
  end.
End eventbus.

Arguments EventBus Sub : clear implicits.
Arguments call Sub : clear implicits.
Arguments config Sub : clear implicits.
End Bus.
