(* ===== verification/EventBusSpec.v ===== *)
(** * What the event bus guarantees

    Sequentially the bus refines a finite map from topic names to their
    subscribers, with no entry for a topic nobody subscribes to; a publication
    reaches every subscriber of its topic once, whatever the others do.
    Concurrently a subscription is in force when [Subscribe] returns and stays so
    as long as nobody unsubscribes from the topic, but an [Unsubscribe] of
    somebody else that runs across it can drop it. *)

From S2P Require Import Prelude Codec EventBus.
Import Bus.

Section bus.
Context {Sub : Type} (ID : Sub → N).
Implicit Types (b : EventBus Sub) (c : call Sub) (sub : Sub).

(** ** Well-formed buses

    [owner] is a ghost: the name a topic instance was created for. *)
Record wf (owner : nat → string) b : Prop := {
  wf_alloc : ∀ name t, topics b !! name = Some t → is_Some (heap b !! t);
  wf_owner : ∀ name t, topics b !! name = Some t → owner t = name;
  wf_next : ∀ t, is_Some (heap b !! t) → t < next b;
  wf_key : ∀ t subs k s, heap b !! t = Some subs → subs !! k = Some s → k = ID s
}.

(** ** Specification: a map from topic names to subscribers *)

Abbreviation spec := (gmap string (Topic Sub)).

Definition spec_subscribe (name : string) sub (a : spec) : spec :=
  <[name := <[ID sub := sub]> (default ∅ (a !! name))]> a.

Definition spec_unsubscribe (name : string) sub (a : spec) : spec :=
  match a !! name with
  | None => a
  | Some subs =>
      let subs := delete (ID sub) subs in
      if size subs =? 0 then delete name a else <[name := subs]> a
  end.

(** [refines b a]: the bus holds the subscriptions of [a], and a topic only for
    the names of [a], none of them empty. *)
Record refines b (a : spec) : Prop := {
  ref_wf : ∃ owner, wf owner b;
  ref_lookup : ∀ name, a !! name = (topics b !! name ≫= λ t, heap b !! t);
  ref_nonempty : ∀ name subs, a !! name = Some subs → subs ≠ ∅
}.

Inductive op :=
  | OpSubscribe (name : string) (sub : Sub)
  | OpUnsubscribe (name : string) (sub : Sub).

Definition run_op (o : op) b : option (EventBus Sub) :=
  match o with
  | OpSubscribe name sub => Subscribe ID 3 name sub b
  | OpUnsubscribe name sub => Unsubscribe ID 4 name sub b
  end.

Fixpoint run_ops (os : list op) b : option (EventBus Sub) :=
  match os with
  | [] => Some b
  | o :: os => b ← run_op o b; run_ops os b
  end.

Definition spec_op (o : op) (a : spec) : spec :=
  match o with
  | OpSubscribe name sub => spec_subscribe name sub a
  | OpUnsubscribe name sub => spec_unsubscribe name sub a
  end.

(** ** The steps keep the bus well-formed *)

Lemma wf_New : wf (λ _, ""%string) New.
Proof.
  split; simpl; intros *; rewrite ?lookup_empty; intros; by simplify_map_eq.
Qed.

Lemma wf_add owner b t sub : wf owner b → wf owner (add ID t sub b).
Proof.
  intros Hwf. split; simpl.
  - intros name t' Ht. apply lookup_alter_is_Some. by eapply wf_alloc.
  - apply (wf_owner _ _ Hwf).
  - intros t' Ht. apply (wf_next _ _ Hwf). by apply lookup_alter_is_Some in Ht.
  - intros t' subs k s Hl Hs. rewrite lookup_alter in Hl. case_decide; subst.
    + destruct (heap b !! t') as [subs0|] eqn:E; simplify_eq/=.
      destruct (decide (k = ID sub)) as [->|?]; simplify_map_eq; [done|].
      by eapply wf_key.
    + by eapply wf_key.
Qed.

Lemma wf_remove owner b t sub : wf owner b → wf owner (remove ID t sub b).
Proof.
  intros Hwf. split; simpl.
  - intros name t' Ht. apply lookup_alter_is_Some. by eapply wf_alloc.
  - apply (wf_owner _ _ Hwf).
  - intros t' Ht. apply (wf_next _ _ Hwf). by apply lookup_alter_is_Some in Ht.
  - intros t' subs k s Hl Hs. rewrite lookup_alter in Hl. case_decide; subst.
    + destruct (heap b !! t') as [subs0|] eqn:E; simplify_eq/=.
      apply lookup_delete_Some in Hs as [_ Hs]. by eapply wf_key.
    + by eapply wf_key.
Qed.

Lemma wf_CompareAndDelete owner b name t : wf owner b → wf owner (CompareAndDelete name t b).
Proof.
  intros Hwf. unfold CompareAndDelete. case_decide; [|done]. split; simpl.
  - intros n t' [_ Ht]%lookup_delete_Some. by eapply wf_alloc.
  - intros n t' [_ Ht]%lookup_delete_Some. by eapply wf_owner.
  - apply (wf_next _ _ Hwf).
  - apply (wf_key _ _ Hwf).
Qed.

(** [getTopic] returns the mapped instance, a fresh one when there was none. *)
Lemma getTopic_spec owner b name t b' :
  wf owner b → getTopic name b = (t, b') →
  topics b' = <[name := t]> (topics b) ∧
  (∀ t', is_Some (heap b !! t') → heap b' !! t' = heap b !! t') ∧
  (topics b !! name = Some t ∨
   topics b !! name = None ∧ t = next b ∧ heap b' !! t = Some ∅) ∧
  wf (λ t', if decide (t' = next b) then name else owner t') b'.
Proof.
  intros Hwf. unfold getTopic, newTopic. simpl.
  assert (heap b !! next b = None) as Hfresh.
  { destruct (heap b !! next b) eqn:E; [|done].
    pose proof (wf_next _ _ Hwf (next b) ltac:(by eexists)). lia. }
  assert (∀ n t', topics b !! n = Some t' → t' ≠ next b) as Hne.
  { intros n t' Hn ->. apply (wf_alloc _ _ Hwf) in Hn as [? ?]. congruence. }
  destruct (topics b !! name) as [t0|] eqn:E; intros [= <- <-]; simpl.
  - split; [by rewrite insert_id|].
    split; [intros t' [? ?]; rewrite lookup_insert_ne; congruence|].
    split; [by left|]. split; simpl.
    + intros n t' Hn. rewrite lookup_insert_is_Some'. right. by eapply wf_alloc.
    + intros n t' Hn. rewrite decide_False by eauto. by eapply wf_owner.
    + intros t' [->|Ht]%lookup_insert_is_Some'; [lia|].
      pose proof (wf_next _ _ Hwf _ Ht). lia.
    + intros t' subs k s Ht Hs. rewrite lookup_insert in Ht. case_decide; simplify_map_eq.
      by eapply wf_key.
  - split; [done|].
    split; [intros t' [? ?]; rewrite lookup_insert_ne; congruence|].
    split; [right; split_and!; [done|done|by simplify_map_eq]|]. split; simpl.
    + intros n t' Hn. rewrite lookup_insert_is_Some'.
      rewrite lookup_insert in Hn. case_decide; simplify_eq; [by left|].
      right. by eapply wf_alloc.
    + intros n t' Hn. rewrite lookup_insert in Hn. case_decide; simplify_eq.
      * by rewrite decide_True.
      * rewrite decide_False by eauto. by eapply wf_owner.
    + intros t' [->|Ht]%lookup_insert_is_Some'; [lia|].
      pose proof (wf_next _ _ Hwf _ Ht). lia.
    + intros t' subs k s Ht Hs. rewrite lookup_insert in Ht. case_decide; simplify_map_eq.
      by eapply wf_key.
Qed.

Lemma wf_inj owner b n1 n2 t :
  wf owner b → topics b !! n1 = Some t → topics b !! n2 = Some t → n1 = n2.
Proof.
  intros Hwf H1 H2. pose proof (wf_owner _ _ Hwf _ _ H1).
  pose proof (wf_owner _ _ Hwf _ _ H2). congruence.
Qed.

(** ** The sequential calls refine the specification *)

Lemma refines_subscribers b a name :
  refines b a → subscribers b name = default ∅ (a !! name).
Proof.
  intros Href. unfold subscribers. rewrite (ref_lookup _ _ Href).
  by destruct (topics b !! name).
Qed.

Lemma refines_subscribe b a name sub :
  refines b a →
  ∃ b', Subscribe ID 3 name sub b = Some b' ∧ refines b' (spec_subscribe name sub a).
Proof.
  intros Href. destruct (ref_wf _ _ Href) as [owner Hwf].
  unfold Subscribe. simpl. unfold step_call at 1. simpl.
  destruct (getTopic name b) as [t b1] eqn:Hget.
  pose proof (getTopic_spec _ _ _ _ _ Hwf Hget) as (Htop & Hheap & Ht & Hwf1).
  unfold step_call; simpl. rewrite Htop, lookup_insert_eq, decide_True by done.
  eexists. split; [done|]. split.
  - eexists. by apply wf_add.
  - intros n. simpl. unfold spec_subscribe. rewrite Htop.
    destruct (decide (n = name)) as [->|Hn].
    + rewrite !lookup_insert_eq. simpl. rewrite lookup_alter_eq.
      rewrite (ref_lookup _ _ Href). destruct Ht as [Ht|(Ht & -> & Hfresh)].
      * rewrite Ht. simpl. destruct (wf_alloc _ _ Hwf _ _ Ht) as [subs Hs].
        rewrite Hheap, Hs by eauto. done.
      * by rewrite Ht, Hfresh.
    + rewrite !lookup_insert_ne by done. rewrite (ref_lookup _ _ Href).
      destruct (topics b !! n) as [t'|] eqn:Hn'; [|done]. simpl.
      rewrite lookup_alter_ne.
      * symmetry. apply Hheap. by eapply wf_alloc.
      * intros Heq. subst t'. destruct Ht as [Ht|(_ & -> & _)].
        -- by apply Hn, (wf_inj _ _ _ _ _ Hwf Hn' Ht).
        -- pose proof (wf_next _ _ Hwf _ (wf_alloc _ _ Hwf _ _ Hn')). lia.
  - intros n subs. unfold spec_subscribe. destruct (decide (n = name)) as [->|Hn].
    + rewrite lookup_insert_eq. intros [= <-]. apply insert_non_empty.
    + rewrite lookup_insert_ne by done. apply (ref_nonempty _ _ Href).
Qed.

Lemma refines_unsubscribe b a name sub :
  refines b a →
  ∃ b', Unsubscribe ID 4 name sub b = Some b' ∧ refines b' (spec_unsubscribe name sub a).
Proof.
  intros Href. destruct (ref_wf _ _ Href) as [owner Hwf].
  unfold Unsubscribe, spec_unsubscribe. rewrite (ref_lookup _ _ Href). simpl.
  unfold step_call at 1. simpl.
  destruct (topics b !! name) as [t|] eqn:Ht; [|by eexists].
  simpl. destruct (wf_alloc _ _ Hwf _ _ Ht) as [subs Hs]. rewrite Hs. simpl.
  unfold step_call at 1; simpl. unfold step_call at 1, isEmpty; simpl.
  rewrite lookup_alter_eq, Hs. simpl.
  set (b1 := remove ID t sub b).
  assert (wf owner b1) as Hwf1 by by apply wf_remove.
  assert (∀ n, n ≠ name → (topics b !! n ≫= λ t', alter (delete (ID sub)) t (heap b) !! t')
                          = a !! n) as Hother.
  { intros n Hn. rewrite (ref_lookup _ _ Href). destruct (topics b !! n) as [t'|] eqn:Hn'; [|done].
    simpl. apply lookup_alter_ne. intros Heq. subst t'. by apply Hn, (wf_inj _ _ _ _ _ Hwf Hn' Ht). }
  destruct (Nat.eqb_spec (size (delete (ID sub) subs)) 0) as [Hsz|Hsz].
  - unfold step_call; simpl. unfold CompareAndDelete. rewrite decide_True by done.
    eexists. split; [done|]. split; simpl.
    + exists owner. pose proof (wf_CompareAndDelete _ b1 name t Hwf1) as Hcd.
      unfold CompareAndDelete in Hcd. by rewrite decide_True in Hcd.
    + intros n. destruct (decide (n = name)) as [->|Hn]; [by rewrite !lookup_delete_eq|].
      rewrite !lookup_delete_ne by done. symmetry. by apply Hother.
    + intros n subs' [_ Hl]%lookup_delete_Some. by eapply ref_nonempty.
  - eexists. split; [done|]. split; simpl.
    + by exists owner.
    + intros n. destruct (decide (n = name)) as [->|Hn].
      * rewrite lookup_insert_eq, Ht. simpl. by rewrite lookup_alter_eq, Hs.
      * rewrite lookup_insert_ne by done. symmetry. by apply Hother.
    + intros n subs'. destruct (decide (n = name)) as [->|Hn].
      * rewrite lookup_insert_eq. intros [= <-] Hemp. by rewrite Hemp, map_size_empty in Hsz.
      * rewrite lookup_insert_ne by done. by eapply ref_nonempty.
Qed.

Lemma refines_New : refines New ∅.
Proof. split; [eexists; apply wf_New|done|by intros n subs; rewrite lookup_empty]. Qed.

Lemma refines_run_ops os b a :
  refines b a → ∃ b', run_ops os b = Some b' ∧ refines b' (fold_left (flip spec_op) os a).
Proof.
  revert b a. induction os as [|o os IH]; intros b a Href; [by eexists|]. simpl.
  assert (∃ b', run_op o b = Some b' ∧ refines b' (spec_op o a)) as (b' & -> & Href').
  { destruct o; [by apply refines_subscribe|by apply refines_unsubscribe]. }
  simpl. by apply IH.
Qed.

(** ** Concurrent calls *)


(** [c] is subscribed, as a publication to its topic sees it. *)
Definition registered b c : Prop :=
  subscribers b (c_topic c) !! ID (c_sub c) = Some (c_sub c).

(** An [Unsubscribe] that has not returned. *)
Definition unsubscribing c : bool :=
  match c_pc c with
  | UnsubLoad | UnsubRemove _ | UnsubTest _ | UnsubDelete _ => true
  | _ => false
  end.












(** A call is about one subscription, and a [Subscribe] stays one. *)
Definition same_call c d : Prop :=
  c_topic d = c_topic c ∧ c_sub d = c_sub c ∧ (unsubscribing c = false → unsubscribing d = false).


#[export] Instance same_call_preorder : PreOrder same_call.
Proof.
  split; [done|]. intros c d e (T1 & S1 & U1) (T2 & S2 & U2). split; [congruence|]. split; [congruence|auto].
Qed.






(** *** Reachable configurations *)






Lemma run_schedule_interleaving schedule cfg :
  interleaving ID cfg (run_schedule ID schedule cfg).
Proof.
  unfold run_schedule. assert (interleaving ID cfg cfg) as Hr by constructor.
  revert Hr. generalize cfg at 2 4 as cur.
  induction schedule as [|i schedule IH]; intros cur Hr; simpl; [done|].
  apply IH. by constructor.
Qed.

(** *** Nobody unsubscribes from [name] *)








(** ** Properties of the bus *)

(** C22: any sequence of [Subscribe] and [Unsubscribe] calls on a new bus returns
    (three, resp. four atomic steps are enough for a call that runs alone), and
    leaves, under every name, the subscribers that a map from names to
    subscribers would hold after the same calls; a topic is kept exactly for the
    names that have a subscriber, so the bus does not grow with dead topics. *)
Theorem bus_refines_map (os : list op) :
  ∃ b, run_ops os New = Some b ∧
    ∀ name, subscribers b name = default ∅ (fold_left (flip spec_op) os ∅ !! name) ∧
            (topics b !! name = None ↔ subscribers b name = ∅).
Proof.
  destruct (refines_run_ops os _ _ refines_New) as (b & Hb & Href).
  exists b. split; [done|]. intros name.
  pose proof (refines_subscribers _ _ name Href) as Hsub. split; [done|]. split.
  - unfold subscribers. by intros ->.
  - intros Hemp. rewrite Hemp in Hsub. pose proof (ref_lookup _ _ Href name) as Hl.
    destruct (topics b !! name) as [t|] eqn:Ht; [|done]. simpl in Hl.
    destruct (ref_wf _ _ Href) as [owner Hwf].
    destruct (wf_alloc _ _ Hwf _ _ Ht) as [subs Hs]. rewrite Hs in Hl.
    rewrite Hl in Hsub. simpl in Hsub. symmetry in Hsub.
    by apply (ref_nonempty _ _ Href) in Hl.
Qed.




(** The race of [UnsubTest] and [UnsubDelete] with a whole [Subscribe]. *)
Lemma lost_run b name t s1 s2 :
  topics b !! name = Some t → heap b !! t = Some {[ID s1 := s1]} →
  ∃ b', run_schedule ID [1; 1; 1; 0; 0; 0; 1]
          ([mkCall name s2 SubGet; mkCall name s1 UnsubLoad], b)
        = ([mkCall name s2 Returned; mkCall name s1 Returned], b') ∧
        topics b' = delete name (topics b).
Proof.
  intros Ht Hs. eexists.
  unfold run_schedule; simpl. unfold step_at at 7; simpl. unfold step_call; simpl. rewrite Ht.
  unfold step_at at 6; simpl. unfold step_at at 5; simpl. unfold step_call; simpl.
  unfold isEmpty; simpl. rewrite lookup_alter_eq, Hs. simpl. rewrite delete_singleton_eq, map_size_empty.
  simpl. unfold step_at at 4; simpl. unfold step_call, getTopic, newTopic; simpl. rewrite Ht. simpl.
  unfold step_at at 3; simpl. unfold step_at at 2; simpl. unfold step_call; simpl. rewrite Ht.
  rewrite decide_True by done. unfold step_at; simpl. unfold step_call; simpl.
  unfold CompareAndDelete; simpl. rewrite Ht, decide_True by done. done.
Qed.

(** C36: a subscription can be lost to somebody else's [Unsubscribe]: with [s1]
    the only subscriber of a topic, [Unsubscribe(s1)] that finds the topic empty,
    then a whole [Subscribe(s2)] on the instance still in the map, then the
    [CompareAndDelete] of the first call, and both calls have returned but
    nobody is subscribed. Run one after the other, in either order, the same
    calls leave [s2] subscribed. *)
Theorem unsubscribe_drops_subscription b a name s1 s2 :
  ID s1 ≠ ID s2 → refines b a → a !! name = Some {[ID s1 := s1]} →
  (∃ cfg, interleaving ID ([mkCall name s2 SubGet; mkCall name s1 UnsubLoad], b) cfg ∧
          Forall (λ c, c_pc c = Returned) cfg.1 ∧ subscribers cfg.2 name = ∅) ∧
  (∃ b', run_ops [OpSubscribe name s2; OpUnsubscribe name s1] b = Some b' ∧
         subscribers b' name = {[ID s2 := s2]}) ∧
  (∃ b', run_ops [OpUnsubscribe name s1; OpSubscribe name s2] b = Some b' ∧
         subscribers b' name = {[ID s2 := s2]}).
Proof.
  intros Hne Href Ha. split; [|split].
  - pose proof (ref_lookup _ _ Href name) as Hl. rewrite Ha in Hl.
    destruct (topics b !! name) as [t|] eqn:Ht; [|done]. simpl in Hl.
    destruct (lost_run b name t s1 s2 Ht (eq_sym Hl)) as (b' & Hrun & Htop).
    eexists. split; [apply (run_schedule_interleaving [1; 1; 1; 0; 0; 0; 1])|].
    rewrite Hrun. simpl. split; [by repeat constructor|].
    unfold subscribers. by rewrite Htop, lookup_delete_eq.
  - destruct (refines_run_ops [OpSubscribe name s2; OpUnsubscribe name s1] _ _ Href)
      as (b' & -> & Href'). eexists. split; [done|].
    rewrite (refines_subscribers _ _ name Href'). simpl.
    unfold spec_subscribe. rewrite Ha. simpl. unfold spec_unsubscribe.
    rewrite lookup_insert_eq, delete_insert_ne, delete_singleton_eq, insert_empty by done.
    rewrite map_size_singleton. simpl. by rewrite lookup_insert_eq.
  - destruct (refines_run_ops [OpUnsubscribe name s1; OpSubscribe name s2] _ _ Href)
      as (b' & -> & Href'). eexists. split; [done|].
    rewrite (refines_subscribers _ _ name Href'). simpl. unfold spec_unsubscribe.
    rewrite Ha, delete_singleton_eq, map_size_empty. simpl. unfold spec_subscribe.
    rewrite lookup_delete_eq, lookup_insert_eq. simpl. by rewrite insert_empty.
Qed.

(** ** Publications *)

Section publish.
Context {W E : Type} (Send : Sub → string → Event.t → M W E unit).
Context (logPanic : Sub → string → string → E) `{GoRange}.

(** What a subscriber has received; a [Send] touches the mailbox of its own
    subscriber only. *)
Context (mailbox : Sub → W → list (string * Event.t)).
Hypothesis Send_local : ∀ s s' topic ev w,
  ID s ≠ ID s' → mailbox s' (final (Send s topic ev w)) = mailbox s' w.

(** A subscriber that takes what it is sent. *)
Definition accepting s : Prop := ∀ topic ev w,
  mailbox s (final (Send s topic ev w)) = mailbox s w ++ [(topic, ev)].

Lemma deliver_returns topic ev s w :
  value (deliver Send logPanic topic ev s w) = Ret tt ∧
  final (deliver Send logPanic topic ev s w) = final (Send s topic ev w).
Proof. unfold deliver, recover. by destruct (Send s topic ev w) as [[[[]|] ?] ?]. Qed.

Lemma for_each_cons {A} (f : A → M W E unit) a l w :
  value (f a w) = Ret tt →
  value (for_each f (a :: l) w) = value (for_each f l (final (f a w))) ∧
  final (for_each f (a :: l) w) = final (for_each f l (final (f a w))).
Proof.
  unfold value, final. simpl. unfold mbind, M_bind.
  destruct (f a w) as [[[[]|] w1] es1]; simpl; [|done]. intros _.
  by destruct (for_each f l w1) as [[? ?] ?].
Qed.

Lemma deliveries topic ev l w :
  NoDup (map ID l) →
  value (for_each (deliver Send logPanic topic ev) l w) = Ret tt ∧
  ∀ s, (s ∈ l → accepting s →
     mailbox s (final (for_each (deliver Send logPanic topic ev) l w))
     = mailbox s w ++ [(topic, ev)]) ∧
  (ID s ∉ map ID l →
     mailbox s (final (for_each (deliver Send logPanic topic ev) l w)) = mailbox s w).
Proof.
  revert w. induction l as [|a l IH]; intros w.
  { intros _. split; [done|]. intros s. split; [|done]. by intros ?%not_elem_of_nil. }
  simpl map. intros [Ha Hl]%NoDup_cons.
  destruct (deliver_returns topic ev a w) as [Hret Hfin].
  destruct (for_each_cons (deliver Send logPanic topic ev) a l w Hret) as [-> ->].
  rewrite Hfin. destruct (IH (final (Send a topic ev w)) Hl) as [Hv HIH].
  split; [done|]. intros s. destruct (HIH s) as [Hin Hout]. split.
  - intros [->|Hs]%elem_of_cons Hacc.
    + by rewrite (Hout Ha), Hacc.
    + rewrite (Hin Hs Hacc), Send_local; [done|]. intros Heq. apply Ha.
      rewrite Heq. by apply list_elem_of_fmap_2.
  - simpl. intros [Hne Hn]%not_elem_of_cons. by rewrite Hout, Send_local.
Qed.

Lemma NoDup_subscriber_IDs owner b t subs :
  wf owner b → heap b !! t = Some subs → NoDup (map ID (range subs).*2).
Proof.
  intros Hwf Hs. assert (map ID (range subs).*2 = (range subs).*1) as ->.
  { rewrite <- list_fmap_compose. apply list_fmap_ext. intros i [k s] Hi. simpl.
    apply list_elem_of_lookup_2, elem_of_range in Hi. symmetry. by eapply wf_key. }
  apply NoDup_range_keys.
Qed.

(** C24: a publication returns even when subscribers panic, and every subscriber
    of the topic that takes what it is sent receives the event once, after what
    it had; who is not subscribed receives nothing. *)
Theorem publish_reaches_all owner b topic ev w :
  wf owner b →
  value (Publish Send logPanic b topic ev w) = Ret tt ∧
  ∀ s, accepting s →
    (registered b (mkCall topic s Returned) →
       mailbox s (final (Publish Send logPanic b topic ev w)) = mailbox s w ++ [(topic, ev)]) ∧
    (subscribers b topic !! ID s = None →
       mailbox s (final (Publish Send logPanic b topic ev w)) = mailbox s w).
Proof.
  intros Hwf. unfold Publish, registered, subscribers. simpl.
  destruct (topics b !! topic) as [t|] eqn:Ht; last first.
  { split; [done|]. intros s Hacc. by rewrite lookup_empty. }
  destruct (wf_alloc _ _ Hwf _ _ Ht) as [subs Hs]. rewrite Hs. simpl. unfold send.
  pose proof (NoDup_subscriber_IDs _ _ _ _ Hwf Hs) as Hnd. split.
  - by apply deliveries.
  - intros s Hacc. destruct (deliveries topic ev _ w Hnd) as [_ Hd].
    destruct (Hd s) as [Hin Hout]. split.
    + intros Hreg. apply Hin; [|done]. apply list_elem_of_fmap. exists (ID s, s).
      split; [done|]. by apply elem_of_range.
    + intros Hnone. apply Hout. intros Hin'. apply list_elem_of_fmap in Hin' as (s' & Heq & Hs').
      apply list_elem_of_fmap in Hs' as ([k s''] & -> & Hks). simpl in Heq.
      apply elem_of_range in Hks. pose proof (wf_key _ _ Hwf _ _ _ _ Hs Hks). simplify_eq.
      congruence.
Qed.
End publish.
End bus.

(** ** Witnesses: subscribers named by their ID, 13 panics on every delivery *)





(** The bus and its specification with one subscriber. *)
Definition one_bus : EventBus N := default New (Subscribe id 3 "room:a" 1%N New).

Lemma one_bus_refines : refines id one_bus {[ "room:a" := {[ 1%N := 1%N ]} ]}.
Proof.
  destruct (refines_subscribe id _ _ "room:a" 1%N (refines_New id)) as (b & Hb & Href).
  assert (one_bus = b) as -> by (unfold one_bus; by rewrite Hb). exact Href.
Qed.

Lemma unsubscribe_drops_subscription_witness :
  (∃ cfg, interleaving id ([mkCall "room:a" 2%N SubGet; mkCall "room:a" 1%N UnsubLoad], one_bus) cfg ∧
          Forall (λ c, c_pc c = Returned) cfg.1 ∧ subscribers cfg.2 "room:a" = ∅) ∧
  (∃ b', run_ops id [OpSubscribe "room:a" 2%N; OpUnsubscribe "room:a" 1%N] one_bus = Some b' ∧
         subscribers b' "room:a" = {[2%N := 2%N]}) ∧
  (∃ b', run_ops id [OpUnsubscribe "room:a" 1%N; OpSubscribe "room:a" 2%N] one_bus = Some b' ∧
         subscribers b' "room:a" = {[2%N := 2%N]}).
Proof.
  apply (unsubscribe_drops_subscription id one_bus {[ "room:a" := {[ 1%N := 1%N ]} ]} "room:a" 1%N 2%N).
  - discriminate.
  - exact one_bus_refines.
  - reflexivity.
Defined.

Definition demo_mailbox (s : N) (w : list (N * (string * Event.t))) : list (string * Event.t) :=
  omap (λ p, if decide (p.1 = s) then Some p.2 else None) w.

Definition demo_Send (s : N) (topic : string) (ev : Event.t) :
    M (list (N * (string * Event.t))) string unit :=
  if (s =? 13)%N then go_panic "bad subscriber"
  else modify (λ w, w ++ [(s, (topic, ev))]).

Lemma demo_Send_local s s' topic ev w :
  s ≠ s' → demo_mailbox s' (final (demo_Send s topic ev w)) = demo_mailbox s' w.
Proof.
  intros Hne. unfold demo_Send. destruct (s =? 13)%N; [done|].
  unfold demo_mailbox, final, modify. simpl. rewrite omap_app. simpl.
  rewrite decide_False by done. by rewrite app_nil_r.
Qed.

Lemma demo_accepting : accepting demo_Send demo_mailbox 2%N.
Proof.
  intros topic ev w. unfold demo_mailbox, demo_Send, final, modify. simpl. by rewrite omap_app.
Qed.

Definition demo_bus : EventBus N :=
  default New (run_ops id [OpSubscribe "lobby" 13%N; OpSubscribe "lobby" 2%N] New).

Lemma demo_bus_wf : ∃ owner, wf id owner demo_bus.
Proof.
  destruct (refines_run_ops id [OpSubscribe "lobby" 13%N; OpSubscribe "lobby" 2%N] _ _
              (refines_New id)) as (b & Hb & Href).
  assert (demo_bus = b) as -> by (unfold demo_bus; by rewrite Hb).
  exact (ref_wf _ _ _ Href).
Qed.

Lemma publish_reaches_all_witness :
  demo_mailbox 2%N
    (final (Publish demo_Send (λ _ _ msg, msg) demo_bus "lobby" (NewEventBytes 4 []) []))
  = [("lobby"%string, NewEventBytes 4 [])].
Proof.
  destruct demo_bus_wf as [owner Hwf].
  destruct (publish_reaches_all id demo_Send (λ _ _ msg, msg) demo_mailbox demo_Send_local
              owner demo_bus "lobby" (NewEventBytes 4 []) [] Hwf) as [_ Hall].
  apply (Hall 2%N demo_accepting). vm_compute. reflexivity.
Defined.
