(* ===== verification/EventBusTermination.v ===== *)
(** * The calls of the event bus come to an end

    [Subscribe] loops: it starts again when its topic was deleted between the
    [add] and the check. A bound on its steps under every schedule, by a measure
    that every step of a running call decreases: only a deletion sends
    subscribers around the loop, and an [Unsubscribe] deletes once. *)

From S2P Require Import Prelude Codec EventBus.
Import Bus.

Section termination.
Context {Sub : Type} (ID : Sub → N).
Implicit Types (b : EventBus Sub) (c d : call Sub) (calls : list (call Sub)) (cfg : config Sub).

(** ** The measure *)

(** The call holds the instance that is mapped under its name. *)
Definition current b c (t : nat) : Prop := topics b !! c_topic c = Some t.
#[local] Instance current_dec b c t : Decision (current b c t).
Proof. unfold current. apply _. Defined.

(** The steps left to a call; [n] calls may have to go around once more for each
    deletion to come. *)
Definition weight (n : nat) b c : nat :=
  match c_pc c with
  | SubGet => 3
  | SubAdd t => if decide (current b c t) then 2 else 6
  | SubCheck t => if decide (current b c t) then 1 else 5
  | SubUndo t => 4
  | UnsubLoad => 4 + 4 * n
  | UnsubRemove t => 3 + 4 * n
  | UnsubTest t => 2 + 4 * n
  | UnsubDelete t => 1 + 4 * n
  | Returned => 0
  end.

Definition work (n : nat) cfg : nat := sum_list (weight n cfg.2 <$> cfg.1).

Lemma weight_returned n b c : weight n b c = 0 ↔ c_pc c = Returned.
Proof. unfold weight. destruct (c_pc c); repeat case_decide; split; (lia || done). Qed.

(** What a step may do to the map of topics. *)
Lemma weight_kept n b b' d :
  (∀ name t, topics b !! name = Some t → topics b' !! name = Some t) → weight n b' d ≤ weight n b d.
Proof.
  intros Htop. unfold weight. destruct (c_pc d) as [|t|t|t| |t|t|t|]; try done.
  all: unfold current; do 2 case_decide; try lia; exfalso; eauto.
Qed.

Lemma weight_any n b b' d : weight n b' d ≤ weight n b d + 4.
Proof. unfold weight. destruct (c_pc d); repeat case_decide; lia. Qed.

(** A step that does not delete; a deletion pays for the subscribers it sends
    around the loop. *)
Lemma step_weight n b c c' b' :
  c_pc c ≠ Returned → step_call ID c b = (c', b') →
  (weight n b' c' < weight n b c ∧ ∀ d, weight n b' d ≤ weight n b d) ∨
  (weight n b' c' + 4 * n < weight n b c ∧ ∀ d, weight n b' d ≤ weight n b d + 4).
Proof.
  intros Hpc Hstep. unfold step_call in Hstep.
  destruct (c_pc c) as [|t|t|t| |t|t|t|] eqn:Hc; try done.
  - left. unfold getTopic, newTopic in Hstep. cbn in Hstep.
    destruct (topics b !! c_topic c) as [t|] eqn:Ht; injection Hstep as <- <-.
    + unfold weight at 1 2. rewrite Hc. cbn. unfold current. cbn. rewrite decide_True by done.
      split; [lia|]. intros d. by apply weight_kept.
    + unfold weight at 1 2. rewrite Hc. cbn. unfold current. cbn.
      rewrite decide_True by by rewrite lookup_insert_eq.
      split; [lia|]. intros d. apply weight_kept. cbn. intros name t' Hn.
      rewrite lookup_insert_ne; [done|]. intros <-. congruence.
  - left. injection Hstep as <- <-. unfold weight at 1 2. rewrite Hc. cbn. unfold current. cbn.
    split; [repeat case_decide; first [lia | done]|]. intros d. by apply weight_kept.
  - left. injection Hstep as <- <-. unfold weight at 1 2. rewrite Hc. unfold current.
    split; [repeat case_decide; cbn; first [lia | done]|]. intros d. by apply weight_kept.
  - left. injection Hstep as <- <-. unfold weight at 1 2. rewrite Hc. cbn.
    split; [lia|]. intros d. by apply weight_kept.
  - left. injection Hstep as <- <-. unfold weight at 1 2. rewrite Hc.
    split; [destruct (topics b !! c_topic c); cbn; lia|]. intros d. by apply weight_kept.
  - left. injection Hstep as <- <-. unfold weight at 1 2. rewrite Hc. cbn.
    split; [lia|]. intros d. by apply weight_kept.
  - left. injection Hstep as <- <-. unfold weight at 1 2. rewrite Hc.
    split; [destruct (isEmpty t b); cbn; lia|]. intros d. by apply weight_kept.
  - right. injection Hstep as <- <-. unfold weight at 1 2. rewrite Hc. cbn.
    split; [lia|]. intros d. apply weight_any.
Qed.

(** ** Schedules *)

(** A step of a call that has not returned. *)
Definition running (i : nat) cfg : bool :=
  match cfg.1 !! i with
  | Some c => bool_decide (weight 0 cfg.2 c ≠ 0)
  | None => false
  end.

Fixpoint steps_of (schedule : list nat) cfg : nat :=
  match schedule with
  | [] => 0
  | i :: schedule => (if running i cfg then 1 else 0) + steps_of schedule (step_at ID i cfg)
  end.

Lemma running_spec i cfg :
  running i cfg = true ↔ ∃ c, cfg.1 !! i = Some c ∧ c_pc c ≠ Returned.
Proof.
  unfold running. destruct (cfg.1 !! i) as [c|]; [|naive_solver].
  rewrite bool_decide_eq_true, weight_returned. naive_solver.
Qed.

Lemma step_idle i cfg : running i cfg = false → step_at ID i cfg = cfg.
Proof.
  intros Hr. unfold step_at. destruct (cfg.1 !! i) as [c|] eqn:Hi; [|done].
  destruct (decide (weight 0 cfg.2 c = 0)) as [Hc|Hc]; rewrite weight_returned in Hc.
  - unfold step_call. rewrite Hc. rewrite list_insert_id by done. by destruct cfg.
  - assert (running i cfg = true) by (apply running_spec; eauto). congruence.
Qed.

Lemma step_length i cfg : length (step_at ID i cfg).1 = length cfg.1.
Proof.
  unfold step_at. destruct (cfg.1 !! i) as [c|]; [|done].
  destruct (step_call ID c cfg.2). apply length_insert.
Qed.

Lemma sum_weights_le n b b' k calls :
  (∀ d, weight n b' d ≤ weight n b d + k) →
  sum_list (weight n b' <$> calls) ≤ sum_list (weight n b <$> calls) + k * length calls.
Proof.
  intros Hd. induction calls as [|d calls IH]; cbn; [lia|]. specialize (Hd d).
  change (sum_list_with id) with sum_list in *. lia.
Qed.

(** Every step of a running call decreases the work. *)
Lemma step_work n i cfg :
  length cfg.1 ≤ n → running i cfg = true → work n (step_at ID i cfg) < work n cfg.
Proof.
  intros Hn (c & Hi & Hc)%running_spec. unfold step_at, work. rewrite Hi.
  destruct (step_call ID c cfg.2) as [c' b'] eqn:Hstep. cbn [fst snd].
  pose proof (take_drop_middle cfg.1 i c Hi) as Hsplit.
  assert (i < length cfg.1) as Hlt by by eapply lookup_lt_Some.
  rewrite (insert_take_drop cfg.1 i c' Hlt). rewrite <- Hsplit at 3.
  rewrite !fmap_app, !fmap_cons, !sum_list_with_app. cbn.
  assert (length cfg.1 = length (take i cfg.1) + S (length (drop (S i) cfg.1))) as Hlen.
  { rewrite <- Hsplit at 1. by rewrite length_app. }
  destruct (step_weight n cfg.2 c c' b' Hc Hstep) as [[Hw Hd]|[Hw Hd]].
  - pose proof (sum_weights_le n cfg.2 b' 0 (take i cfg.1)) as H1.
    pose proof (sum_weights_le n cfg.2 b' 0 (drop (S i) cfg.1)) as H2.
    specialize (H1 ltac:(intros d; specialize (Hd d); lia)).
    specialize (H2 ltac:(intros d; specialize (Hd d); lia)). cbn in *. lia.
  - pose proof (sum_weights_le n cfg.2 b' 4 (take i cfg.1) Hd) as H1.
    pose proof (sum_weights_le n cfg.2 b' 4 (drop (S i) cfg.1) Hd) as H2. cbn in *. lia.
Qed.

Lemma work_bound n schedule cfg :
  length cfg.1 ≤ n → steps_of schedule cfg + work n (run_schedule ID schedule cfg) ≤ work n cfg.
Proof.
  revert cfg. induction schedule as [|i schedule IH]; intros cfg Hn; [done|].
  cbn [steps_of]. specialize (IH (step_at ID i cfg)). rewrite step_length in IH. specialize (IH Hn).
  change (run_schedule ID (i :: schedule) cfg) with (run_schedule ID schedule (step_at ID i cfg)).
  destruct (running i cfg) eqn:Hr; [pose proof (step_work n i cfg Hn Hr); lia|].
  rewrite (step_idle i cfg Hr) in IH |- *. lia.
Qed.

(** A round in which nothing runs finds every call it names returned. *)
Lemma steps_of_none schedule cfg :
  steps_of schedule cfg = 0 →
  run_schedule ID schedule cfg = cfg ∧ ∀ i, i ∈ schedule → running i cfg = false.
Proof.
  induction schedule as [|i schedule IH]; intros Hs; [split; [done|by intros i ?%not_elem_of_nil]|].
  cbn [steps_of] in Hs. destruct (running i cfg) eqn:Hr; [lia|]. rewrite (step_idle i cfg Hr) in Hs.
  destruct (IH Hs) as [Hrun Hall].
  change (run_schedule ID (i :: schedule) cfg) with (run_schedule ID schedule (step_at ID i cfg)).
  rewrite (step_idle i cfg Hr). split; [done|]. intros j [->|Hj]%elem_of_cons; auto.
Qed.

Lemma run_schedule_app s1 s2 cfg :
  run_schedule ID (s1 ++ s2) cfg = run_schedule ID s2 (run_schedule ID s1 cfg).
Proof. apply fold_left_app. Qed.

Lemma schedule_length schedule cfg : length (run_schedule ID schedule cfg).1 = length cfg.1.
Proof.
  revert cfg. induction schedule as [|i schedule IH]; intros cfg; [done|].
  change (run_schedule ID (i :: schedule) cfg) with (run_schedule ID schedule (step_at ID i cfg)).
  by rewrite IH, step_length.
Qed.

Definition all_returned cfg : Prop := ∀ i, running i cfg = false.

Lemma all_returned_stays schedule cfg : all_returned cfg → run_schedule ID schedule cfg = cfg.
Proof.
  intros Hall. induction schedule as [|i schedule IH]; [done|].
  change (run_schedule ID (i :: schedule) cfg) with (run_schedule ID schedule (step_at ID i cfg)).
  by rewrite step_idle.
Qed.

Lemma rounds_return n rounds cfg :
  length cfg.1 ≤ n → work n cfg < length rounds →
  Forall (λ r, ∀ i, i < length cfg.1 → i ∈ r) rounds →
  all_returned (run_schedule ID (concat rounds) cfg).
Proof.
  revert cfg. induction rounds as [|r rounds IH]; intros cfg Hn Hw Hall; [cbn in Hw; lia|].
  apply Forall_cons in Hall as [Hr Hall]. cbn [concat]. rewrite run_schedule_app.
  destruct (decide (steps_of r cfg = 0)) as [Hs|Hs].
  - destruct (steps_of_none r cfg Hs) as [Hrun Hidle]. rewrite Hrun.
    assert (all_returned cfg) as Hret; [|by rewrite all_returned_stays].
    intros i. destruct (decide (i < length cfg.1)) as [Hi|Hi]; [by apply Hidle, Hr|].
    unfold running. by rewrite lookup_ge_None_2 by lia.
  - pose proof (work_bound n r cfg Hn). apply IH; rewrite ?schedule_length; [done| |done].
    cbn in Hw. lia.
Qed.

(** The work of calls that have not begun. *)
Definition begun_not c : bool := match c_pc c with SubGet | UnsubLoad => true | _ => false end.

Lemma work_start n b calls :
  Forall begun_not calls → work n (calls, b) ≤ length calls * (4 * n + 4).
Proof.
  unfold work. cbn [fst snd]. intros Hall.
  induction Hall as [|c calls Hc _ IH]; [done|]. cbn.
  assert (weight n b c ≤ 4 * n + 4); [|cbn in *; lia].
  unfold weight. unfold begun_not in Hc. destruct (c_pc c); try done; lia.
Qed.

(** C21: the calls of the bus come to an end, however they interleave. Of [n]
    calls of Subscribe and Unsubscribe on any bus, whatever the schedule, at most
    n * (4 n + 4) steps are steps of calls that have not returned: no livelock,
    although Subscribe starts over when its topic is deleted under it. And when
    each of more than that many rounds gives every call a turn, in any order and
    as often as it likes, every call has returned. *)
Theorem calls_terminate calls b :
  Forall begun_not calls →
  let n := length calls in
  (∀ schedule, steps_of schedule (calls, b) ≤ n * (4 * n + 4)) ∧
  (∀ rounds, n * (4 * n + 4) < length rounds → Forall (λ r, ∀ i, i < n → i ∈ r) rounds →
     Forall (λ c, c_pc c = Returned) (run_schedule ID (concat rounds) (calls, b)).1).
Proof.
  intros Hst n. pose proof (work_start n b calls Hst) as Hw. fold n in Hw. split.
  - intros schedule. pose proof (work_bound n schedule (calls, b) ltac:(done)). lia.
  - intros rounds Hlen Hall.
    assert (all_returned (run_schedule ID (concat rounds) (calls, b))) as Hret.
    { apply (rounds_return n); [done|lia|exact Hall]. }
    apply Forall_lookup. intros i c Hi. specialize (Hret i). unfold running in Hret. rewrite Hi in Hret.
    apply bool_decide_eq_false in Hret. apply (weight_returned 0 (run_schedule ID (concat rounds) (calls, b)).2).
    lia.
Qed.
End termination.

(** ** Witness *)

(** Two subscribers and an [Unsubscribe] of a third, on a new bus. *)
Definition race_calls : list (call N) :=
  [mkCall "lobby" 1%N SubGet; mkCall "lobby" 2%N SubGet; mkCall "lobby" 3%N UnsubLoad].

Lemma calls_terminate_witness :
  Forall (λ c, c_pc c = Returned)
    (run_schedule id (concat (replicate 49 [2; 0; 1])) (race_calls, New)).1.
Proof.
  destruct (calls_terminate id race_calls New) as [_ Hrounds].
  - repeat constructor.
  - apply Hrounds; [cbn; lia|]. apply Forall_replicate. cbn. intros i Hi.
    destruct i as [|[|[|i]]]; [set_solver..|lia].
Defined.
