(* ===== verification/Room.v ===== *)
(** * Rooms (room/room.go, room/module.go, room/types.go)

    A room is an actor: its goroutine runs closures from the inbox one at a
    time. [Room.t] is the state the actor guards, together with the runtime's
    armed timers; a closure is a term of [M (Room.t S * L)] where [L] holds the
    variables the Go closure captures, so that what it assigned before a panic
    is visible to its caller; [do_] submits it. User code (module hooks, message
    handlers, ticks) is a parameter: a function of the room that yields the
    calls it makes on the room, in order ([action]), the last of which may be a
    panic. *)

From S2P Require Import Prelude Codec Schema EventBus.

(** ** room/types.go *)

Module Player.
Record t := mk { ID : N; UserID : string; JoinedAt : Z }.
End Player.

Module RoomConfig.
Record t := mk {
  Name : string; Type_ : string; MaxPlayers : N; SingletonMode : N;
  Options : gmap string string; EmptyGrace : Z
}.

Definition ApplyDefaults (c : t) : t :=
  if String.eqb c.(Name) ""
  then mk c.(Type_) c.(Type_) c.(MaxPlayers) c.(SingletonMode) c.(Options) c.(EmptyGrace)
  else c.
End RoomConfig.

(** [clientTopic] of room/manager.go: [strconv.FormatUint(clientID, 10)]. *)
Definition clientTopic (clientID : N) : string := "client:" +:+ pretty clientID.

(** ** Effects of a room on the outside *)

Inductive hook :=
  | HInit
  | HJoin (p : Player.t)
  | HLeave (p : Player.t)
  | HClose
  | HTick (dt : Z)
  | HMessage (op : N) (p : Player.t).

Inductive effect :=
  | EPublish (topic : string) (ev : Event.t)   (* bus.Publish(topic, ev) *)
  | EGoOnEmpty (id : string)                   (* go r.onEmpty(r.id) *)
  | EFatal (msg : string)                      (* a runtime error no recover stops *)
  | EHook (h : hook)                           (* user code is entered *)
  | ELog (what : string) (panic : string).     (* a recovered panic is logged *)

Module Room.
Section room.
Context {S : Type}.

(** [emptyTimer] is the handle of the timer field; [timers] are the timers the
    runtime still has armed ([time.AfterFunc] arms, [Stop] and expiry disarm);
    [onEmpty] says whether the callback is set; [closed] whether the room's
    context is canceled and its loop has returned. *)
Record t := mk {
  ID : string;
  config : RoomConfig.t;
  State : S;
  players : gmap N Player.t;
  isOpen : bool;
  emptyTimer : option nat;
  keepOnEmpty : bool;
  onEmpty : bool;
  closed : bool;
  timers : gset nat;
  nextTimer : nat
}.

Definition set_State (s : S) (r : t) : t :=
  mk r.(ID) r.(config) s r.(players) r.(isOpen) r.(emptyTimer) r.(keepOnEmpty) r.(onEmpty)
     r.(closed) r.(timers) r.(nextTimer).
Definition set_players (f : gmap N Player.t → gmap N Player.t) (r : t) : t :=
  mk r.(ID) r.(config) r.(State) (f r.(players)) r.(isOpen) r.(emptyTimer) r.(keepOnEmpty)
     r.(onEmpty) r.(closed) r.(timers) r.(nextTimer).
Definition set_isOpen (b : bool) (r : t) : t :=
  mk r.(ID) r.(config) r.(State) r.(players) b r.(emptyTimer) r.(keepOnEmpty) r.(onEmpty)
     r.(closed) r.(timers) r.(nextTimer).
Definition set_keepOnEmpty (b : bool) (r : t) : t :=
  mk r.(ID) r.(config) r.(State) r.(players) r.(isOpen) r.(emptyTimer) b r.(onEmpty)
     r.(closed) r.(timers) r.(nextTimer).
Definition set_closed (r : t) : t :=
  mk r.(ID) r.(config) r.(State) r.(players) r.(isOpen) r.(emptyTimer) r.(keepOnEmpty)
     r.(onEmpty) true r.(timers) r.(nextTimer).

(** [setOnEmpty]. *)
Definition setOnEmpty (r : t) : t :=
  mk r.(ID) r.(config) r.(State) r.(players) r.(isOpen) r.(emptyTimer) r.(keepOnEmpty) true
     r.(closed) r.(timers) r.(nextTimer).

(** [r.emptyTimer.Stop(); r.emptyTimer = nil] *)
Definition stop_timer (h : nat) (r : t) : t :=
  mk r.(ID) r.(config) r.(State) r.(players) r.(isOpen) None r.(keepOnEmpty) r.(onEmpty)
     r.(closed) (r.(timers) ∖ {[h]}) r.(nextTimer).

(** [r.emptyTimer = time.AfterFunc(...)] *)
Definition arm_timer (r : t) : t :=
  mk r.(ID) r.(config) r.(State) r.(players) r.(isOpen) (Some r.(nextTimer)) r.(keepOnEmpty)
     r.(onEmpty) r.(closed) ({[r.(nextTimer)]} ∪ r.(timers)) (Datatypes.S r.(nextTimer)).

(** The runtime fires the timer [h]: it is no longer armed. *)
Definition expire_timer (h : nat) (r : t) : t :=
  mk r.(ID) r.(config) r.(State) r.(players) r.(isOpen) r.(emptyTimer) r.(keepOnEmpty)
     r.(onEmpty) r.(closed) (r.(timers) ∖ {[h]}) r.(nextTimer).

(** ** User code *)

(** What hooks, handlers and ticks can do with the room they are given: write
    the game state and call the methods that are meant for the actor, or panic. *)
Inductive action :=
  | SetState (s : S)
  | CallSetKeepOnEmpty (keep : bool)
  | CallBroadcast (op : N) (msg : option Marshaler)
  | CallBroadcastBytes (op : N) (payload : bytes)
  | CallSend (p : Player.t) (op : N) (msg : option Marshaler)
  | CallSendTo (userIDs : list string) (op : N) (msg : option Marshaler)
  | CallBroadcastExcept (except : list string) (op : N) (msg : option Marshaler)
  | CallBroadcastFunc (op : N) (fn : Player.t → outcome (option Marshaler * bool))
  | CallPanic (msg : string).

Definition MessageHandler : Type :=
  bool (* ctx is done *) → t → Player.t → bytes → list action * result (option Marshaler).

(** [Module[S]] of room/module.go; [newState] may return nil ([Ret None]). *)
Record Module := mkModule {
  typ : string;
  mconfig : RoomConfig.t;
  newState : option (outcome (option S));
  onInit : option (t → list action);
  onJoin : option (t → Player.t → list action);
  onLeave : option (t → Player.t → list action);
  onClose : option (t → list action);
  tickRate : Z;
  onTick : option (t → Z → list action);
  handlers : gmap N MessageHandler
}.

Context `{GoRange}.

(** ** Direct accessors *)

Definition topic (r : t) : string := "room:" +:+ r.(ID).

Definition playerList (r : t) : list Player.t := (range r.(players)).*2.

Definition hasPlayer (clientID : N) (r : t) : bool :=
  match r.(players) !! clientID with Some _ => true | None => false end.

(** [for _, p := range r.players { if p.UserID == userID { return p, true } }] *)
Definition PlayerByUserID (userID : string) (r : t) : option Player.t :=
  find (λ p, String.eqb p.(Player.UserID) userID) (playerList r).

Definition roomInfo (r : t) : RoomInfo.t :=
  RoomInfo.mk r.(ID) r.(config).(RoomConfig.Name) r.(config).(RoomConfig.Type_)
    r.(config).(RoomConfig.MaxPlayers) (uint16_of_len (size r.(players))) r.(isOpen)
    r.(config).(RoomConfig.SingletonMode).

(** The accessors of hooks and handlers, on the state they run on. *)
Definition Options (r : t) : gmap string string := r.(config).(RoomConfig.Options).
Definition PlayerList (r : t) : list Player.t := playerList r.
Definition HasPlayerID (clientID : N) (r : t) : bool := hasPlayer clientID r.
Definition RoomInfo (r : t) : RoomInfo.t := roomInfo r.

(** ** Publishing *)

(** [r.bus.Publish(topic, ev)] where building [ev] may panic. *)
Definition publish (topic : string) (ev : outcome Event.t) : M t effect unit :=
  ev ← lift_outcome ev; emit (EPublish topic ev).

Definition Broadcast (op : N) (msg : option Marshaler) : M t effect unit :=
  r ← get; publish (topic r) (NewEvent op msg).

Definition BroadcastBytes (op : N) (payload : bytes) : M t effect unit :=
  r ← get; publish (topic r) (Ret (NewEventBytes op payload)).

Definition sendToUserIDs (userIDs : list string) (op : N) (msg : option Marshaler) : M t effect unit :=
  payload ← lift_outcome (Encode msg);
  let want : gset string := list_to_set userIDs in
  r ← get;
  for_each (λ p : Player.t,
    when (bool_decide (p.(Player.UserID) ∈ want))
      (publish (clientTopic p.(Player.ID)) (Ret (NewEventBytes op payload))))
    (playerList r).

Definition Send (p : Player.t) (op : N) (msg : option Marshaler) : M t effect unit :=
  sendToUserIDs [p.(Player.UserID)] op msg.

Definition SendTo (userIDs : list string) (op : N) (msg : option Marshaler) : M t effect unit :=
  sendToUserIDs userIDs op msg.

Definition BroadcastExcept (except : list string) (op : N) (msg : option Marshaler) :
    M t effect unit :=
  payload ← lift_outcome (Encode msg);
  let skip : gset string := list_to_set except in
  r ← get;
  for_each (λ p : Player.t,
    if bool_decide (p.(Player.UserID) ∈ skip) then mret tt
    else publish (clientTopic p.(Player.ID)) (Ret (NewEventBytes op payload)))
    (playerList r).

Definition BroadcastFunc (op : N) (fn : Player.t → outcome (option Marshaler * bool)) :
    M t effect unit :=
  r ← get;
  for_each (λ p : Player.t,
    '(msg, ok) ← lift_outcome (fn p);
    if negb ok then mret tt
    else publish (clientTopic p.(Player.ID)) (NewEvent op msg))
    (playerList r).

(** ** The removal of an emptied room *)

(** [go r.onEmpty(r.id)]; a [go] of a nil function is a fatal error. *)
Definition goOnEmpty : M t effect unit :=
  r ← get;
  emit (if r.(onEmpty) then EGoOnEmpty r.(ID) else EFatal "go of nil func value").

Definition cancelEmptyRemoval : M t effect unit :=
  r ← get;
  match r.(emptyTimer) with
  | Some h => modify (stop_timer h)
  | None => mret tt
  end.

Definition scheduleEmptyRemoval : M t effect unit :=
  r ← get;
  if r.(keepOnEmpty) then mret tt
  else
    cancelEmptyRemoval ;;
    if (r.(config).(RoomConfig.EmptyGrace) <=? 0)%Z then goOnEmpty
    else modify arm_timer.

Definition SetKeepOnEmpty (keep : bool) : M t effect unit :=
  r ← get;
  let wasKept := r.(keepOnEmpty) in
  modify (set_keepOnEmpty keep) ;;
  if keep then cancelEmptyRemoval
  else when (wasKept && (size r.(players) =? 0)) scheduleEmptyRemoval.

(** ** Running user code *)

Definition run_action (a : action) : M t effect unit :=
  match a with
  | SetState s => modify (set_State s)
  | CallSetKeepOnEmpty keep => SetKeepOnEmpty keep
  | CallBroadcast op msg => Broadcast op msg
  | CallBroadcastBytes op payload => BroadcastBytes op payload
  | CallSend p op msg => Send p op msg
  | CallSendTo userIDs op msg => SendTo userIDs op msg
  | CallBroadcastExcept except op msg => BroadcastExcept except op msg
  | CallBroadcastFunc op fn => BroadcastFunc op fn
  | CallPanic msg => go_panic msg
  end.

Definition run_hook (h : hook) (acts : list action) : M t effect unit :=
  emit (EHook h) ;; for_each run_action acts.

(** [if r.module.onJoin != nil { r.module.onJoin(r.ctx, r, p) }] *)
Definition callOnJoin (m : Module) (p : Player.t) : M t effect unit :=
  match m.(onJoin) with
  | Some f => r ← get; run_hook (HJoin p) (f r p)
  | None => mret tt
  end.

Definition callOnLeave (m : Module) (p : Player.t) : M t effect unit :=
  match m.(onLeave) with
  | Some f => r ← get; run_hook (HLeave p) (f r p)
  | None => mret tt
  end.

(** [safe]: a panic of [fn] is logged and swallowed. *)
Definition safe (what : string) (fn : M t effect unit) : M t effect unit :=
  recover (ELog what) fn.

(** ** The actor *)

(** [do]: after [Shutdown] the closure is skipped and [do] returns false; else
    the loop runs it under [safe], and a panic still releases the caller. *)
Definition do_ {L} (fn : M (t * L) effect unit) (l : L) : M t effect (bool * L) := λ r,
  if r.(closed) then (Ret (false, l), r, [])
  else
    let '(_, (r, l), es) := recover (ELog "inbox") fn (r, l) in
    (Ret (true, l), r, es).

(** A closure that captures nothing. *)
Definition do_unit (fn : M t effect unit) : M t effect bool :=
  '(executed, _) ← do_ (zoom fn) tt; mret executed.

(** Assignments to the captured variables. *)
Definition assign {L} (f : L → L) : M (t * L) effect unit := modify (λ rl, (rl.1, f rl.2)).

(** [r.config.MaxPlayers > 0 && uint16(len(r.players)) >= r.config.MaxPlayers] *)
Definition isFull (r : t) : bool :=
  (0 <? r.(config).(RoomConfig.MaxPlayers))%N &&
  (r.(config).(RoomConfig.MaxPlayers) <=? uint16_of_len (size r.(players)))%N.

(** The closure of [Join] over (joinErr, joined). *)
Definition Join_closure (m : Module) (now : Z) (clientID : N) (userID : string) :
    M (t * (option error * bool)) effect unit :=
  '(r, _) ← get;
  if negb r.(isOpen) then assign (λ l, (Some (ErrSentinel ErrRoomClosed), l.2))
  else if isFull r then assign (λ l, (Some (ErrSentinel ErrRoomFull), l.2))
  else if hasPlayer clientID r then mret tt
  else
    let p := Player.mk clientID userID now in
    zoom (modify (set_players (insert clientID p))) ;;
    zoom cancelEmptyRemoval ;;
    assign (λ l, (l.1, true)) ;;
    zoom (callOnJoin m p).

Definition Join (m : Module) (now : Z) (clientID : N) (userID : string) :
    M t effect (option error) :=
  '(executed, (joinErr, joined)) ← do_ (Join_closure m now clientID userID) (None, false);
  if negb executed then mret (Some (ErrSentinel ErrRoomClosed))
  else
    match joinErr with
    | Some e => mret (Some e)
    | None =>
        r ← get;
        when joined (publish (topic r)
          (NewEvent EventPlayerJoined (Some (PlayerJoined.Marshal (PlayerJoined.mk clientID userID))))) ;;
        mret None
    end.

(** The closure of [JoinReplace] over (joinErr, becameEmpty). *)
Definition JoinReplace_closure (m : Module) (now : Z) (oldClientID clientID : N)
    (userID : string) : M (t * (option error * bool)) effect unit :=
  '(r, _) ← get;
  if negb r.(isOpen) then assign (λ l, (Some (ErrSentinel ErrRoomClosed), l.2))
  else
    match r.(players) !! oldClientID with
    | Some old =>
        zoom (modify (set_players (delete oldClientID))) ;;
        zoom (callOnLeave m old)
    | None => mret tt
    end ;;
    '(r, _) ← get;
    if isFull r then
      assign (λ l, (Some (ErrSentinel ErrRoomFull),
                    (size r.(players) =? 0) && negb r.(keepOnEmpty)))
    else
      let p := Player.mk clientID userID now in
      zoom (modify (set_players (insert clientID p))) ;;
      zoom cancelEmptyRemoval ;;
      zoom (callOnJoin m p).

Definition JoinReplace (m : Module) (now : Z) (oldClientID clientID : N) (userID : string) :
    M t effect (option error) :=
  '(executed, (joinErr, becameEmpty)) ←
    do_ (JoinReplace_closure m now oldClientID clientID userID) (None, false);
  if negb executed then mret (Some (ErrSentinel ErrRoomClosed))
  else
    r ← get;
    match joinErr with
    | Some e => when (becameEmpty && r.(onEmpty)) goOnEmpty ;; mret (Some e)
    | None =>
        publish (topic r)
          (NewEvent EventPlayerLeft (Some (PlayerLeft.Marshal (PlayerLeft.mk oldClientID)))) ;;
        publish (topic r)
          (NewEvent EventPlayerJoined (Some (PlayerJoined.Marshal (PlayerJoined.mk clientID userID)))) ;;
        mret None
    end.

(** The closure of [Leave] over (empty, existed). *)
Definition Leave_closure (m : Module) (clientID : N) : M (t * (bool * bool)) effect unit :=
  '(r, _) ← get;
  match r.(players) !! clientID with
  | None => mret tt
  | Some p =>
      assign (λ l, (l.1, true)) ;;
      zoom (modify (set_players (delete clientID))) ;;
      zoom (callOnLeave m p) ;;
      '(r, _) ← get;
      assign (λ l, (size r.(players) =? 0, l.2))
  end.

(** [Leave] up to the point where it arms the removal; the result says whether
    it goes on to do so. *)
Definition Leave_first (m : Module) (clientID : N) : M t effect bool :=
  '(executed, (empty, existed)) ← do_ (Leave_closure m clientID) (false, false);
  if negb executed || negb existed then mret false
  else
    r ← get;
    publish (topic r)
      (NewEvent EventPlayerLeft (Some (PlayerLeft.Marshal (PlayerLeft.mk clientID)))) ;;
    mret (empty && r.(onEmpty)).

Definition Leave (m : Module) (clientID : N) : M t effect unit :=
  arm ← Leave_first m clientID;
  when arm (do_unit scheduleEmptyRemoval ;; mret tt).

(** The function of [time.AfterFunc] in [scheduleEmptyRemoval]. *)
Definition onEmptyTimer : M t effect unit :=
  do_unit (r ← get; when (negb r.(keepOnEmpty) && (size r.(players) =? 0)) goOnEmpty) ;;
  mret tt.

Definition Close : M t effect unit := do_unit (modify (set_isOpen false)) ;; mret tt.
Definition Open : M t effect unit := do_unit (modify (set_isOpen true)) ;; mret tt.

Definition IsOpen : M t effect bool :=
  '(_, open) ← do_ ('(r, _) ← get; assign (λ _, r.(isOpen))) false; mret open.

Definition Info : M t effect (result RoomInfo.t) :=
  '(executed, info) ← do_ ('(r, _) ← get; assign (λ _, roomInfo r)) (zero : RoomInfo.t);
  mret (if negb executed then Err (ErrSentinel ErrRoomClosed) else Ok info).

Definition Players : M t effect (list Player.t) :=
  '(_, out) ← do_ ('(r, _) ← get; assign (λ _, playerList r)) []; mret out.

Definition HasPlayer (clientID : N) : M t effect bool :=
  '(_, ok) ← do_ ('(r, _) ← get; assign (λ _, hasPlayer clientID r)) false; mret ok.

Definition HandlesOp (m : Module) (op : N) : bool :=
  match m.(handlers) !! op with Some _ => true | None => false end.

(** The call of the handler under its own [recover]: a panic becomes a 500. *)
Definition run_handler (h : option MessageHandler) (ctx : bool) (op : N) (p : Player.t)
    (payload : bytes) : M t effect (result (option Marshaler)) := λ r,
  match
    (match h with
     | None => go_panic "invalid memory address or nil pointer dereference"
     | Some h =>
         let '(acts, res) := h ctx r p payload in
         run_hook (HMessage op p) acts ;; mret res
     end) r
  with
  | (Ret res, r, es) => (Ret res, r, es)
  | (Panic msg, r, es) =>
      (Ret (Err (ErrProtocol 500 "internal error")), r, es ++ [ELog "message handler" msg])
  end.

(** The closure of [HandleMessage] over (resp, err). *)
Definition HandleMessage_closure (m : Module) (ctx : bool) (clientID op : N) (payload : bytes) :
    M (t * result (option Marshaler)) effect unit :=
  '(r, _) ← get;
  match r.(players) !! clientID with
  | None => assign (λ _, Err (ErrSentinel ErrNotInRoom))
  | Some p =>
      res ← zoom (run_handler (m.(handlers) !! op) ctx op p payload);
      assign (λ _, res)
  end.

Definition HandleMessage (m : Module) (ctx : bool) (clientID op : N) (payload : bytes) :
    M t effect (result (option Marshaler)) :=
  '(executed, res) ← do_ (HandleMessage_closure m ctx clientID op payload) (Ok None);
  mret (if negb executed then Err (ErrSentinel ErrRoomClosed) else res).

(** A tick of the game loop, when the loop has a ticker. *)
Definition tick (m : Module) (dt : Z) : M t effect unit :=
  match m.(onTick) with
  | Some f =>
      when (0 <? m.(tickRate))%Z (r ← get; safe "OnTick" (run_hook (HTick dt) (f r dt)))
  | None => mret tt
  end.

(** [Shutdown]: cancel the context and wait for the loop, whose deferred code
    cancels the removal timer and runs OnClose. *)
Definition Shutdown (m : Module) : M t effect unit :=
  r ← get;
  if r.(closed) then mret tt
  else
    modify set_closed ;;
    cancelEmptyRemoval ;;
    match m.(onClose) with
    | Some f => r ← get; safe "OnClose" (run_hook HClose (f r))
    | None => mret tt
    end.

(** [state := new(S); if module.newState != nil { ... }] *)
Definition initState (zeroS : S) (m : Module) : outcome S :=
  match m.(newState) with
  | None => Ret zeroS
  | Some f => s ← f; Ret (default zeroS s)
  end.

(** [module.onInit] on the room that is not shared yet, under [safe]. *)
Definition runOnInit (m : Module) (r : t) : M unit effect t := λ u,
  match m.(onInit) with
  | None => (Ret r, u, [])
  | Some f => let '(_, r, es) := safe "OnInit" (run_hook HInit (f r)) r in (Ret r, u, es)
  end.

(** [newRoom]; [zeroS] is the zero value of [S], [uuid] the string of
    [uuid.NewString]. A panic of the state factory is not recovered. *)
Definition newRoom (zeroS : S) (uuid : string) (config : RoomConfig.t) (m : Module) :
    M unit effect t :=
  state ← lift_outcome (initState zeroS m);
  runOnInit m
    (mk (config.(RoomConfig.Name) +:+ "_" +:+ uuid) config state ∅ true None false false
        false ∅ 0).
End room.
Arguments t S : clear implicits.
Arguments action S : clear implicits.
Arguments MessageHandler S : clear implicits.
Arguments Module S : clear implicits.

(** [plainModule]: a zero [Module[EmptyState]]. *)
Definition plainModule : Module unit :=
  mkModule "" (RoomConfig.mk "" "" 0 0 ∅ 0) None None None None None 0 None ∅.
End Room.
