(* ===== verification/RoomSpec.v ===== *)
(** * What a room promises (specification of [Room])

    The frame of user code (it cannot touch the players, the flags or the
    configuration), the invariants of the room, and the behaviour of each
    operation on every branch. *)

From S2P Require Import Prelude Codec Schema SchemaSpec EventBus Room.
Import Room.

(** ** Invariants *)

Section invariants.
Context {S : Type}.
Implicit Types (r : Room.t S).

(** At most one removal timer is armed and the field holds its handle; a kept
    room has none. *)
Record timer_inv r : Prop := {
  armed_is_held h : h ∈ timers r → emptyTimer r = Some h;
  held_is_old h : emptyTimer r = Some h → h < nextTimer r;
  kept_no_timer : keepOnEmpty r = true → emptyTimer r = None
}.

(** A player is filed under its client id, and a cap is respected. *)
Record player_inv r : Prop := {
  cap_is_uint16 : ((config r).(RoomConfig.MaxPlayers) < 65536)%N;
  filed_by_id k p : players r !! k = Some p → p.(Player.ID) = k;
  within_cap : (0 < (config r).(RoomConfig.MaxPlayers))%N →
    (N.of_nat (size (players r)) ≤ (config r).(RoomConfig.MaxPlayers))%N
}.

Definition room_inv r : Prop := timer_inv r ∧ player_inv r.

(** What user code leaves alone. *)
Record frame r r' : Prop := {
  frame_ID : ID r' = ID r;
  frame_config : config r' = config r;
  frame_players : players r' = players r;
  frame_isOpen : isOpen r' = isOpen r;
  frame_onEmpty : onEmpty r' = onEmpty r;
  frame_closed : closed r' = closed r
}.

#[export] Instance frame_preorder : PreOrder frame.
Proof.
  split.
  - by intros r.
  - intros r1 r2 r3 [] []. split; congruence.
Qed.

Definition removes (e : effect) : bool :=
  match e with EGoOnEmpty _ => true | _ => false end.
Definition fatal (e : effect) : bool :=
  match e with EFatal _ => true | _ => false end.

Definition has_grace r : Prop := (0 < (config r).(RoomConfig.EmptyGrace))%Z.
#[export] Instance has_grace_dec r : Decision (has_grace r).
Proof. unfold has_grace. apply _. Defined.

(** What user code may do to a room: nothing to its frame, its timers stay in
    order, no removal under a grace period, no fatal error once the callback
    is set. *)
Record hook_rel r (es : list effect) r' : Prop := {
  hr_frame : frame r r';
  hr_timer : timer_inv r → timer_inv r';
  hr_grace : has_grace r → Forall (λ e, removes e = false) es;
  hr_fatal : onEmpty r = true → Forall (λ e, fatal e = false) es
}.

#[export] Instance hook_rel_trace : TraceRel hook_rel.
Proof.
  split.
  - intros r. by split.
  - intros r es r' es' r'' [F1 T1 G1 X1] [F2 T2 G2 X2]. split.
    + by transitivity r'.
    + auto.
    + intros Hg. apply Forall_app; split; [auto|].
      apply G2. unfold has_grace in *. by rewrite (frame_config _ _ F1).
    + intros Ho. apply Forall_app; split; [auto|].
      apply X2. by rewrite (frame_onEmpty _ _ F1).
Qed.

Lemma player_inv_frame r r' : frame r r' → player_inv r → player_inv r'.
Proof.
  intros [_ Hc Hp _ _ _] [B K C]. split; rewrite ?Hc, ?Hp; auto.
Qed.

Lemma hook_rel_inv r es r' : hook_rel r es r' → room_inv r → room_inv r'.
Proof. intros [F T _ _] [HT HP]. split; [auto|by eapply player_inv_frame]. Qed.
End invariants.

(** ** The frame of user code *)

Section frame_lemmas.
Context {S : Type} `{GoRange}.
Implicit Types (r : Room.t S) (m : Module S).

Lemma hook_rel_emit r (e : effect) :
  removes e = false → fatal e = false → hook_rel r [e] r.
Proof. intros Hr Hf. split; [done|done|intros _|intros _]; by constructor. Qed.

Lemma steps_emit (e : effect) :
  removes e = false → fatal e = false → steps (hook_rel (S := S)) (emit e).
Proof. intros Hr Hf r. by apply hook_rel_emit. Qed.

Hint Resolve steps_emit : go.

Lemma steps_publish topic ev : steps (hook_rel (S := S)) (publish topic ev).
Proof. apply steps_bind; eauto with go. Qed.
Hint Resolve steps_publish : go.

Lemma steps_cancel : steps (hook_rel (S := S)) cancelEmptyRemoval.
Proof.
  intros r. unfold cancelEmptyRemoval, mbind, M_bind, get, effects, final. simpl.
  destruct (emptyTimer r) as [h|] eqn:Ht; simpl; [|by apply trace_nil].
  split; simpl; [done| |done|done].
  intros [A B C]. split; simpl; [|done|done].
  intros h' [Hin Hne]%elem_of_difference. destruct Hne. apply A in Hin. rewrite elem_of_singleton. congruence.
Qed.

(** After [cancelEmptyRemoval] nothing is armed. *)
Lemma cancel_final r :
  timer_inv r →
  emptyTimer (final (cancelEmptyRemoval r)) = None ∧ timers (final (cancelEmptyRemoval r)) = ∅.
Proof.
  intros [A B C]. unfold cancelEmptyRemoval, mbind, M_bind, get, final. simpl.
  destruct (emptyTimer r) as [h|] eqn:Ht; simpl.
  - split; [done|]. apply set_eq. intros x. split; [|set_solver].
    intros [Hin Hne]%elem_of_difference. destruct Hne. apply A in Hin. rewrite elem_of_singleton. congruence.
  - split; [done|]. apply set_eq. intros x. split; [|set_solver].
    intros Hin%A. done.
Qed.

Lemma cancel_effects r : cancelEmptyRemoval r = (Ret tt, final (cancelEmptyRemoval r), []).
Proof.
  unfold cancelEmptyRemoval, mbind, M_bind, get, final. simpl.
  by destruct (emptyTimer r).
Qed.

Lemma cancel_frame r : frame r (final (cancelEmptyRemoval r)).
Proof. apply (steps_cancel r). Qed.

Lemma cancel_kept r : keepOnEmpty (final (cancelEmptyRemoval r)) = keepOnEmpty r.
Proof.
  unfold cancelEmptyRemoval, mbind, M_bind, get, final. simpl. by destruct (emptyTimer r).
Qed.
End frame_lemmas.

(** ** User code *)

Section hooks.
Context {S : Type} `{GoRange}.
Implicit Types (r : Room.t S) (m : Module S).

Hint Resolve steps_emit steps_publish steps_cancel : go.

Lemma goOnEmpty_run r :
  goOnEmpty r =
  (Ret tt, r, [if onEmpty r then EGoOnEmpty (ID r) else EFatal "go of nil func value"]).
Proof. done. Qed.

Lemma go_on_empty_rel r :
  ¬ has_grace r → hook_rel r (effects (goOnEmpty r)) (final (goOnEmpty r)).
Proof.
  intros Hg. split; simpl; [done|done|done|].
  intros Ho. rewrite Ho. by constructor.
Qed.

Lemma arm_timer_inv r :
  timer_inv r → timers r = ∅ → keepOnEmpty r = false → timer_inv (arm_timer r).
Proof.
  intros [A B C] Ht Hk. split; simpl.
  - intros h. rewrite Ht, elem_of_union, elem_of_singleton. intros [->|[]%not_elem_of_empty]. done.
  - intros h [= <-]. lia.
  - congruence.
Qed.

(** [scheduleEmptyRemoval] on each branch. *)
Lemma schedule_run r :
  scheduleEmptyRemoval r =
  if keepOnEmpty r then (Ret tt, r, [])
  else
    let r1 := final (cancelEmptyRemoval r) in
    if decide (has_grace r) then (Ret tt, arm_timer r1, [])
    else (Ret tt, r1, [if onEmpty r then EGoOnEmpty (ID r) else EFatal "go of nil func value"]).
Proof.
  unfold scheduleEmptyRemoval. rewrite bind_get. destruct (keepOnEmpty r); [done|].
  erewrite bind_value by apply cancel_effects. simpl.
  pose proof (cancel_frame r) as [HID _ _ _ Ho _].
  case_decide as Hg; unfold has_grace in Hg.
  - destruct (Z.leb_spec (RoomConfig.EmptyGrace (config r)) 0); [lia|done].
  - destruct (Z.leb_spec (RoomConfig.EmptyGrace (config r)) 0); [|lia].
    rewrite goOnEmpty_run. cbn. by rewrite HID, Ho.
Qed.

Lemma steps_schedule : steps (hook_rel (S := S)) scheduleEmptyRemoval.
Proof.
  intros r. rewrite schedule_run. destruct (keepOnEmpty r) eqn:Hk; [by apply trace_nil|].
  pose proof (steps_cancel r) as [F T _ _].
  case_decide as Hg; cbn.
  - split; [|intros Hi|done|done].
    + transitivity (final (cancelEmptyRemoval r)); [done|by split].
    + apply arm_timer_inv; [auto|by apply cancel_final|by rewrite cancel_kept].
  - split; [done|done|done|]. intros ->. by constructor.
Qed.
Hint Resolve steps_schedule : go.

Lemma steps_SetKeepOnEmpty keep : steps (hook_rel (S := S)) (SetKeepOnEmpty keep).
Proof.
  intros r. unfold SetKeepOnEmpty. rewrite bind_get. unfold effects, final. rewrite bind_modify.
  set (r1 := set_keepOnEmpty keep r).
  assert (frame r r1) as F by by split.
  assert (has_grace r → has_grace r1) as Hg by done.
  destruct keep.
  - pose proof (steps_cancel r1) as [F1 T1 G1 X1]. split.
    + by transitivity r1.
    + intros [A B C].
      pose proof (cancel_final r) as Hc.
      unfold cancelEmptyRemoval, mbind, M_bind, get, final in *. simpl in *.
      destruct (emptyTimer r) as [h|] eqn:Ht; simpl.
      * split; simpl; [|done|done].
        intros h' [Hin Hne]%elem_of_difference. destruct Hne. apply A in Hin. rewrite elem_of_singleton. congruence.
      * split; simpl; [intros h ?%A; congruence|congruence|done].
    + auto.
    + auto.
  - assert (hook_rel r [] r1) as H1.
    { split; [done| |done|done]. intros [A B C]. split; simpl; [done|done|done]. }
    destruct (keepOnEmpty r && (size (players r) =? 0)); simpl; [|done].
    eapply (trace_app r []); [exact H1|apply steps_schedule].
Qed.
Hint Resolve steps_SetKeepOnEmpty : go.

Lemma steps_set_State s : steps (hook_rel (S := S)) (modify (set_State s)).
Proof. intros r. split; [by split| |by constructor|by constructor]. intros [A B C]. by split. Qed.
Hint Resolve steps_set_State : go.

Lemma steps_run_action (a : action S) : steps hook_rel (run_action a).
Proof.
  destruct a; simpl; unfold Broadcast, BroadcastBytes, Send, SendTo, sendToUserIDs,
    BroadcastExcept, BroadcastFunc;
    repeat first [progress eauto with go | apply steps_bind; [typeclasses eauto| |intros]
                 | apply steps_for_each; [typeclasses eauto|intros] | case_match].
Qed.
Hint Resolve steps_run_action : go.

Lemma steps_run_hook h (acts : list (action S)) : steps hook_rel (run_hook h acts).
Proof. apply steps_bind; eauto with go. Qed.
Hint Resolve steps_run_hook : go.

Lemma steps_callOnJoin m p : steps hook_rel (callOnJoin m p).
Proof. unfold callOnJoin. destruct (onJoin m); eauto with go. Qed.

Lemma steps_callOnLeave m p : steps hook_rel (callOnLeave m p).
Proof. unfold callOnLeave. destruct (onLeave m); eauto with go. Qed.

Lemma hook_rel_log what r msg : hook_rel r [ELog what msg] r.
Proof. by apply hook_rel_emit. Qed.

Lemma steps_safe what (fn : M (Room.t S) effect unit) :
  steps hook_rel fn → steps hook_rel (safe what fn).
Proof. intros Hf. apply steps_recover; [apply _| |done]. intros. apply hook_rel_log. Qed.
End hooks.

#[export] Hint Resolve steps_emit steps_publish steps_cancel steps_schedule steps_SetKeepOnEmpty
  steps_set_State steps_run_action steps_run_hook steps_callOnJoin steps_callOnLeave steps_safe : go.

(** ** Running closures on the actor *)

Section actor.
Context {S : Type} `{GoRange}.
Implicit Types (r : Room.t S) (m : Module S).

Lemma do_closed {L} (fn : M (Room.t S * L) effect unit) l r :
  closed r = true → do_ fn l r = (Ret (false, l), r, []).
Proof. unfold do_. by intros ->. Qed.

Lemma do_open {L} (fn : M (Room.t S * L) effect unit) l r :
  closed r = false →
  do_ fn l r = (Ret (true, (final (fn (r, l))).2), (final (fn (r, l))).1,
                effects (recover (ELog "inbox") fn (r, l))).
Proof.
  unfold do_. intros ->. unfold recover, final, effects.
  by destruct (fn (r, l)) as [[[a|msg] [r' l']] es].
Qed.

Lemma do_run {L} (fn : M (Room.t S * L) effect unit) l r r' l' :
  closed r = false → final (fn (r, l)) = (r', l') →
  do_ fn l r = (Ret (true, l'), r', effects (recover (ELog "inbox") fn (r, l))).
Proof. intros Hc Hf. by rewrite do_open, Hf. Qed.

Lemma recover_silent {W E} (log : string → E) (fn : M W E unit) w w' :
  fn w = (Ret tt, w', []) → effects (recover log fn w) = [].
Proof. unfold recover, effects. by intros ->. Qed.

Lemma recover_ext {W E} (log : string → E) (fn fn' : M W E unit) w w' :
  fn w = fn' w' → recover log fn w = recover log fn' w'.
Proof. unfold recover. by intros ->. Qed.

Lemma do_silent {L} (fn : M (Room.t S * L) effect unit) l r r' l' :
  closed r = false → fn (r, l) = (Ret tt, (r', l'), []) →
  do_ fn l r = (Ret (true, l'), r', []).
Proof.
  intros Hc Hf. erewrite do_run by (done || by unfold final; rewrite Hf).
  by erewrite recover_silent by done.
Qed.

(** Code run under [safe], as a closure that then does nothing. *)
Lemma recover_zoom {L} what (fn : M (Room.t S) effect unit) r (l : L) :
  effects (recover (ELog what) (zoom fn) (r, l)) = effects (safe what fn r).
Proof.
  unfold safe, recover, zoom, effects. simpl. by destruct (fn r) as [[[a|msg] r'] es].
Qed.

Lemma bind_zoom_silent {L A B} (fn : M (Room.t S) effect A) (k : A → M (Room.t S * L) effect B)
    a r r' l :
  fn r = (Ret a, r', []) → (zoom fn ≫= k) (r, l) = k a (r', l).
Proof.
  intros Hf. unfold mbind, M_bind, zoom. simpl. rewrite Hf. by destruct (k a (r', l)) as [[]].
Qed.

Lemma bind_assign {L B} f (k : unit → M (Room.t S * L) effect B) r l :
  (assign f ≫= k) (r, l) = k tt (r, f l).
Proof. unfold assign. by rewrite bind_modify. Qed.

Lemma steps_assign {L} (f : L → L) : steps (on_fst (hook_rel (S := S))) (assign f).
Proof. intros [r l]. apply (trace_nil (R := hook_rel)). Qed.

Lemma steps_do {L} (fn : M (Room.t S * L) effect unit) (l : L) :
  steps (on_fst hook_rel) fn → steps hook_rel (do_ fn l).
Proof.
  intros Hf r. destruct (closed r) eqn:Hc; [rewrite do_closed by done; by apply trace_nil|].
  rewrite do_open by done. unfold effects at 1, final at 1. cbn.
  assert (steps (on_fst hook_rel) (recover (ELog "inbox") fn)) as HR.
  { apply steps_recover; [apply _| |done]. intros [r0 l0] msg. apply hook_rel_log. }
  specialize (HR (r, l)). by rewrite recover_final in HR.
Qed.

Lemma NewEvent_enc {T} `{WireSpec T} op (v : T) :
  valid v → NewEvent op (Some (marshal v)) = Ret (Event.mk op (enc v)).
Proof. intros Hv. unfold NewEvent, Encode. by rewrite marshal_enc. Qed.

(** Publishing a well-formed message on a topic. *)
Lemma publish_enc {T} `{WireSpec T} topic op (v : T) r :
  valid v →
  publish topic (NewEvent op (Some (marshal v))) r =
    (Ret tt, r, [EPublish topic (Event.mk op (enc v))]).
Proof. intros Hv. unfold publish. rewrite NewEvent_enc by done. by rewrite bind_lift. Qed.

Lemma publish_joined topic c u r :
  valid (PlayerJoined.mk c u) →
  publish topic (NewEvent EventPlayerJoined (Some (PlayerJoined.Marshal (PlayerJoined.mk c u)))) r =
    (Ret tt, r, [EPublish topic (Event.mk EventPlayerJoined (enc (PlayerJoined.mk c u)))]).
Proof. exact (publish_enc topic EventPlayerJoined (PlayerJoined.mk c u) r). Qed.

Lemma publish_left topic c r :
  valid (PlayerLeft.mk c) →
  publish topic (NewEvent EventPlayerLeft (Some (PlayerLeft.Marshal (PlayerLeft.mk c)))) r =
    (Ret tt, r, [EPublish topic (Event.mk EventPlayerLeft (enc (PlayerLeft.mk c)))]).
Proof. exact (publish_enc topic EventPlayerLeft (PlayerLeft.mk c) r). Qed.
End actor.

#[export] Hint Resolve steps_assign steps_do : go.

Arguments NewEvent : simpl never.
Arguments publish : simpl never.
Arguments valid : simpl never.
Arguments enc : simpl never.

(** ** Join *)

Section join.
Context {S : Type} `{GoRange}.
Implicit Types (r : Room.t S) (m : Module S).

(** Removing a player keeps the invariants. *)
Lemma unseated_inv c r : room_inv r → room_inv (set_players (delete c) r).
Proof.
  intros [[A B C] [U K W]]. split; split; simpl; try done.
  - intros k p [_ Hk]%lookup_delete_Some. auto.
  - intros Hm. specialize (W Hm). rewrite map_size_delete. case_match; cbn [id]; lia.
Qed.

Definition refusal r : option error :=
  if closed r || negb (isOpen r) then Some (ErrSentinel ErrRoomClosed)
  else if isFull r then Some (ErrSentinel ErrRoomFull) else None.

(** The room with the player in, before OnJoin. *)
Definition seated (p : Player.t) r : Room.t S :=
  final (cancelEmptyRemoval (set_players (insert p.(Player.ID) p) r)).

Lemma isFull_bound r :
  player_inv r →
  isFull r = false ↔
  ((config r).(RoomConfig.MaxPlayers) = 0 ∨
   N.of_nat (size (players r)) < (config r).(RoomConfig.MaxPlayers))%N.
Proof.
  intros [B K C]. unfold isFull.
  destruct (N.ltb_spec 0 (config r).(RoomConfig.MaxPlayers)) as [Hm|Hm]; simpl.
  - specialize (C Hm). rewrite uint16_of_len_small by lia.
    rewrite N.leb_gt. lia.
  - split; [lia|done].
Qed.

Lemma seated_frame p r : frame (set_players (insert p.(Player.ID) p) r) (seated p r).
Proof. apply cancel_frame. Qed.

Lemma seated_inv p r :
  room_inv r → isFull r = false →
  room_inv (seated p r) ∧ emptyTimer (seated p r) = None ∧ timers (seated p r) = ∅.
Proof.
  intros [HT HP] Hfull.
  assert (timer_inv (set_players (insert p.(Player.ID) p) r)) as HT1.
  { destruct HT as [A B C]. by split. }
  split; [split|by apply cancel_final].
  - by apply steps_cancel.
  - eapply player_inv_frame; [apply seated_frame|].
    pose proof (proj1 (isFull_bound r HP) Hfull) as Hb.
    destruct HP as [B K C]. split; simpl; [done| |].
    + intros k q [[<- <-]|[_ Hq]]%lookup_insert_Some; [done|auto].
    + intros Hm. rewrite map_size_insert. case_match; simpl; lia.
Qed.

Lemma Join_closure_run m now c u r l :
  let p := Player.mk c u now in
  Join_closure m now c u (r, l) =
  if negb (isOpen r) then (Ret tt, (r, (Some (ErrSentinel ErrRoomClosed), l.2)), [])
  else if isFull r then (Ret tt, (r, (Some (ErrSentinel ErrRoomFull), l.2)), [])
  else if hasPlayer c r then (Ret tt, (r, l), [])
  else zoom (callOnJoin m p) (seated p r, (l.1, true)).
Proof.
  intros p. unfold Join_closure. rewrite bind_get.
  destruct (isOpen r); simpl; [|done]. destruct (isFull r); [done|].
  destruct (hasPlayer c r); [done|].
  erewrite bind_zoom_silent by done. erewrite bind_zoom_silent by apply cancel_effects.
  by rewrite bind_assign.
Qed.

(** [Join] on every branch. *)
Lemma Join_run m now c u r :
  valid (PlayerJoined.mk c u) →
  let p := Player.mk c u now in
  let h := safe "inbox" (callOnJoin m p) (seated p r) in
  Join m now c u r =
  match refusal r with
  | Some e => (Ret (Some e), r, [])
  | None =>
      if hasPlayer c r then (Ret None, r, [])
      else (Ret None, final h,
            effects h ++ [EPublish (topic r) (Event.mk EventPlayerJoined (enc (PlayerJoined.mk c u)))])
  end.
Proof.
  intros Hv p h. pose proof (Join_closure_run m now c u r (None, false)) as HJ. cbv zeta in HJ.
  unfold Join, refusal. destruct (closed r) eqn:Hc; simpl.
  { by erewrite bind_value by (by apply do_closed). }
  destruct (isOpen r), (isFull r), (hasPlayer c r); simpl in *;
    try by erewrite bind_value by (by apply do_silent).
  fold p in HJ. pose proof HJ as HF. rewrite zoom_run in HF.
  erewrite bind_value by (apply do_run; [done|by rewrite HF]).
  rewrite (recover_ext _ _ _ _ _ HJ), recover_zoom. fold h.
  assert (final h = final (callOnJoin m p (seated p r))) as <- by apply recover_final.
  assert (topic (final h) = topic r) as Ht.
  { unfold topic. f_equal. transitivity (ID (seated p r)).
    - apply frame_ID, (steps_safe "inbox" _ (steps_callOnJoin m p)).
    - apply (frame_ID _ _ (seated_frame p r)). }
  simpl. rewrite bind_get. erewrite bind_value by (by apply publish_joined).
  by rewrite Ht.
Qed.
End join.

(** ** JoinReplace and Leave *)

Section leave.
Context {S : Type} `{GoRange}.
Implicit Types (r : Room.t S) (m : Module S).

(** The player taken out and OnLeave run. *)
Definition unseat m (c : N) r : outcome unit * Room.t S * list effect :=
  match players r !! c with
  | Some p => callOnLeave m p (set_players (delete c) r)
  | None => (Ret tt, r, [])
  end.

Lemma unseat_rel m c r :
  hook_rel (set_players (delete c) r) (effects (unseat m c r)) (final (unseat m c r)).
Proof.
  unfold unseat. destruct (players r !! c) as [p|] eqn:Hc; [apply steps_callOnLeave|].
  split; [|by intros [A B C]|done|done].
  split; try done. simpl. by rewrite delete_id.
Qed.

Lemma unseat_inv m c r : room_inv r → room_inv (final (unseat m c r)).
Proof. intros Hr. eapply hook_rel_inv; [apply unseat_rel|by apply unseated_inv]. Qed.

Lemma unseat_players m c r : players (final (unseat m c r)) = delete c (players r).
Proof. apply (frame_players _ _ (hr_frame _ _ _ (unseat_rel m c r))). Qed.

Definition left_event c : Event.t := Event.mk EventPlayerLeft (enc (PlayerLeft.mk c)).
Definition joined_event c u : Event.t := Event.mk EventPlayerJoined (enc (PlayerJoined.mk c u)).

Lemma topic_frame r r' : frame r r' → topic r' = topic r.
Proof. intros F. unfold topic. by rewrite (frame_ID _ _ F). Qed.

Lemma frame_keeps_topic m c r : topic (final (unseat m c r)) = topic r.
Proof. apply (topic_frame _ _ (hr_frame _ _ _ (unseat_rel m c r))). Qed.

Lemma bind_zoom_value {L A B} (fn : M (Room.t S) effect A) (k : A → M (Room.t S * L) effect B)
    a r r' es l :
  fn r = (Ret a, r', es) →
  (zoom fn ≫= k) (r, l) =
    (value (k a (r', l)), final (k a (r', l)), es ++ effects (k a (r', l))).
Proof. intros Hf. apply bind_value. unfold zoom. simpl. by rewrite Hf. Qed.

Lemma bind_zoom_panic {L A B} (fn : M (Room.t S) effect A) (k : A → M (Room.t S * L) effect B)
    msg r r' es l :
  fn r = (Panic msg, r', es) → (zoom fn ≫= k) (r, l) = (Panic msg, (r', l), es).
Proof. intros Hf. apply bind_panic. unfold zoom. simpl. by rewrite Hf. Qed.

Lemma Leave_closure_run m c r l :
  let o := unseat m c r in
  Leave_closure m c (r, l) =
  match players r !! c with
  | None => (Ret tt, (r, l), [])
  | Some _ =>
      match value o with
      | Panic msg => (Panic msg, (final o, (l.1, true)), effects o)
      | Ret _ => (Ret tt, (final o, (size (players (final o)) =? 0, true)), effects o)
      end
  end.
Proof.
  intros o. subst o. unfold Leave_closure, unseat. rewrite bind_get.
  destruct (players r !! c) as [p|] eqn:Hc; [|done].
  rewrite bind_assign. erewrite bind_zoom_silent by done. simpl.
  destruct (callOnLeave m p (set_players (delete c) r)) as [[[[]|msg] r'] es] eqn:Ho; simpl.
  - erewrite bind_zoom_value by done. rewrite bind_get. cbn. by rewrite app_nil_r.
  - by erewrite bind_zoom_panic by done.
Qed.

Definition panic_log (what : string) {A} (o : outcome A) : list effect :=
  match o with Ret _ => [] | Panic msg => [ELog what msg] end.

Lemma panic_log_removes what {A} (o : outcome A) :
  Forall (λ e, removes e = false) (panic_log what o).
Proof. destruct o; by repeat constructor. Qed.

Lemma recover_effects {W} what (fn : M W effect unit) w o w' es :
  fn w = (o, w', es) → effects (recover (ELog what) fn w) = es ++ panic_log what o.
Proof. unfold recover, effects. intros ->. destruct o; simpl; by rewrite ?app_nil_r. Qed.

(** Whether the player that left leaves the room to be removed. *)
Definition leaves_empty m c r : bool :=
  match value (unseat m c r) with
  | Ret _ => (size (players (final (unseat m c r))) =? 0) && onEmpty r
  | Panic _ => false
  end.

(** The closure of [Leave] and the event it publishes. *)
Lemma Leave_first_run m c r :
  valid (PlayerLeft.mk c) →
  let h := unseat m c r in
  Leave_first m c r =
  if closed r then (Ret false, r, [])
  else
    match players r !! c with
    | None => (Ret false, r, [])
    | Some _ =>
        (Ret (leaves_empty m c r), final h,
         (effects h ++ panic_log "inbox" (value h)) ++ [EPublish (topic r) (left_event c)])
    end.
Proof.
  intros Hv h. unfold Leave_first. destruct (closed r) eqn:Hc.
  { by erewrite bind_value by (by apply do_closed). }
  pose proof (Leave_closure_run m c r (false, false)) as HL. cbv zeta in HL. fold h in HL.
  destruct (players r !! c) as [p|] eqn:Hp.
  2:{ by erewrite bind_value by (by apply do_silent). }
  assert (onEmpty (final h) = onEmpty r) as Hon
    by exact (frame_onEmpty _ _ (hr_frame _ _ _ (unseat_rel m c r))).
  assert (topic (final h) = topic r) as Ht by apply frame_keeps_topic.
  unfold leaves_empty. fold h. clearbody h.
  destruct h as [[[[]|msg] r'] es]; unfold final, value, effects in HL, Hon, Ht; simpl in *;
    (erewrite bind_value by (by apply do_run; [|rewrite HL]));
    rewrite (recover_effects _ _ _ _ _ _ HL); simpl; rewrite bind_get;
    erewrite bind_value by (by apply publish_left); cbn; by rewrite ?Hon, Ht.
Qed.

(** The second step of [Leave]. *)
Lemma do_schedule_run r :
  (do_unit scheduleEmptyRemoval ;; mret tt) r =
  if closed r then (Ret tt, r, [])
  else (Ret tt, final (scheduleEmptyRemoval r), effects (scheduleEmptyRemoval r)).
Proof.
  assert (value (scheduleEmptyRemoval r) = Ret tt) as Hs.
  { rewrite schedule_run. destruct (keepOnEmpty r); [done|]. by case_decide. }
  destruct (scheduleEmptyRemoval r) as [[o r'] es] eqn:Hr. cbn in Hs. subst o.
  unfold do_unit, do_, zoom, mbind, M_bind, mret, M_ret, recover. simpl.
  destruct (closed r); [done|]. rewrite Hr. cbn. by rewrite !app_nil_r.
Qed.

(** [Leave] on every branch; [h] is OnLeave on the room without the player. *)
Lemma Leave_run m c r :
  valid (PlayerLeft.mk c) →
  let h := unseat m c r in
  let s := if leaves_empty m c r then scheduleEmptyRemoval (final h)
           else (Ret tt, final h, []) in
  Leave m c r =
  if closed r then (Ret tt, r, [])
  else
    match players r !! c with
    | None => (Ret tt, r, [])
    | Some _ =>
        (Ret tt, final s,
         (effects h ++ panic_log "inbox" (value h)) ++ EPublish (topic r) (left_event c) :: effects s)
    end.
Proof.
  intros Hv h s. pose proof (Leave_first_run m c r Hv) as HF. cbv zeta in HF.
  unfold Leave. destruct (closed r) eqn:Hc.
  { by erewrite bind_value by done. }
  destruct (players r !! c) as [p|] eqn:Hp.
  2:{ by erewrite bind_value by done. }
  erewrite bind_value by done. fold h. subst s.
  assert (closed (final h) = false) as Hcl
    by exact (eq_trans (frame_closed _ _ (hr_frame _ _ _ (unseat_rel m c r))) Hc).
  destruct (leaves_empty m c r); simpl; [rewrite do_schedule_run, Hcl|]; cbn;
    by rewrite <- !app_assoc.
Qed.
End leave.

Section replace.
Context {S : Type} `{GoRange}.
Implicit Types (r : Room.t S) (m : Module S).

Lemma JoinReplace_closure_run m now old c u r l :
  let o := unseat m old r in
  let p := Player.mk c u now in
  let h := callOnJoin m p (seated p (final o)) in
  JoinReplace_closure m now old c u (r, l) =
  if negb (isOpen r) then (Ret tt, (r, (Some (ErrSentinel ErrRoomClosed), l.2)), [])
  else
    match value o with
    | Panic msg => (Panic msg, (final o, l), effects o)
    | Ret _ =>
        if isFull (final o) then
          (Ret tt, (final o, (Some (ErrSentinel ErrRoomFull),
             (size (players (final o)) =? 0) && negb (keepOnEmpty (final o)))), effects o)
        else (value h, (final h, l), effects o ++ effects h)
    end.
Proof.
  intros o p h. subst h. unfold JoinReplace_closure. rewrite bind_get.
  destruct (isOpen r) eqn:Hopen; simpl; [|done].
  set (first := match players r !! old with Some _ => _ | None => _ end).
  assert (first (r, l) = (value o, (final o, l), effects o)) as Hf.
  { subst first o. unfold unseat. destruct (players r !! old) as [q|]; [|done].
    erewrite bind_zoom_silent by done. apply zoom_run. }
  clearbody first o. destruct (value o) as [[]|msg].
  2:{ by erewrite bind_panic. }
  erewrite bind_value by done. rewrite bind_get.
  destruct (isFull (final o)); [by cbn; rewrite app_nil_r|].
  erewrite bind_zoom_silent by done. erewrite bind_zoom_silent by apply cancel_effects.
  by rewrite zoom_run.
Qed.

(** A full room holds somebody: the branch of [JoinReplace] that finds the room
    full and empty is dead. *)
Lemma full_not_empty r : player_inv r → isFull r = true → size (players r) ≠ 0.
Proof.
  intros HP Hf Hz. destruct (isFull_bound r HP) as [_ Hb]. rewrite Hz in Hb.
  destruct (decide ((config r).(RoomConfig.MaxPlayers) = 0)%N); rewrite Hb in Hf; [done|by left|done|lia].
Qed.

Lemma publish_swap {A} topic old c u (a : A) r :
  valid (PlayerLeft.mk old) → valid (PlayerJoined.mk c u) →
  (publish topic (NewEvent EventPlayerLeft (Some (PlayerLeft.Marshal (PlayerLeft.mk old)))) ;;
   publish topic (NewEvent EventPlayerJoined (Some (PlayerJoined.Marshal (PlayerJoined.mk c u)))) ;;
   mret a) r = (Ret a, r, [EPublish topic (left_event old); EPublish topic (joined_event c u)]).
Proof.
  intros Hl Hj. erewrite bind_value by (by apply publish_left).
  by erewrite bind_value by (by apply publish_joined).
Qed.

(** [JoinReplace] on every branch. *)
Lemma JoinReplace_run m now old c u r :
  room_inv r → valid (PlayerLeft.mk old) → valid (PlayerJoined.mk c u) →
  let o := unseat m old r in
  let p := Player.mk c u now in
  let h := safe "inbox" (callOnJoin m p) (seated p (final o)) in
  let swap := [EPublish (topic r) (left_event old); EPublish (topic r) (joined_event c u)] in
  JoinReplace m now old c u r =
  if closed r || negb (isOpen r) then (Ret (Some (ErrSentinel ErrRoomClosed)), r, [])
  else
    match value o with
    | Panic msg => (Ret None, final o, effects o ++ ELog "inbox" msg :: swap)
    | Ret _ =>
        if isFull (final o) then (Ret (Some (ErrSentinel ErrRoomFull)), final o, effects o)
        else (Ret None, final h, effects o ++ effects h ++ swap)
    end.
Proof.
  intros HI Hl Hj o p h swap.
  pose proof (JoinReplace_closure_run m now old c u r (None, false)) as HR. cbv zeta in HR.
  fold o p in HR. unfold JoinReplace. destruct (closed r) eqn:Hc; simpl.
  { by erewrite bind_value by (by apply do_closed). }
  destruct (isOpen r); simpl in *; [|by erewrite bind_value by (by apply do_silent)].
  assert (topic (final o) = topic r) as Ht by apply frame_keeps_topic.
  assert (player_inv (final o)) as HPo by apply unseat_inv, HI.
  destruct (value o) as [[]|msg] eqn:Ho.
  - destruct (isFull (final o)) eqn:Hf.
    + erewrite bind_value by (by apply do_run; [|rewrite HR]).
      rewrite (recover_effects _ _ _ _ _ _ HR). simpl. rewrite bind_get.
      pose proof (full_not_empty _ HPo Hf) as Hz.
      destruct (Nat.eqb_spec (size (players (final o))) 0); [done|]. cbn.
      by rewrite !app_nil_r.
    + assert (topic (final h) = topic r) as Hth.
      { rewrite <- Ht. transitivity (topic (seated p (final o))).
        - apply topic_frame, (steps_safe "inbox" _ (steps_callOnJoin m p)).
        - apply (topic_frame _ _ (seated_frame p (final o))). }
      assert (final (callOnJoin m p (seated p (final o))) = final h) as Hfin
        by (symmetry; apply recover_final).
      erewrite bind_value by (by apply do_run; [|rewrite HR]).
      rewrite (recover_effects _ _ _ _ _ _ HR). simpl. rewrite bind_get, Hfin, Hth.
      rewrite publish_swap by done. cbn.
      unfold h, safe. erewrite recover_effects by apply run_eta. by rewrite <- !app_assoc.
  - erewrite bind_value by (by apply do_run; [|rewrite HR]).
    rewrite (recover_effects _ _ _ _ _ _ HR). simpl. rewrite bind_get, Ht.
    rewrite publish_swap by done. cbn. by rewrite <- !app_assoc.
Qed.
End replace.

(** ** A new room *)

Section new.
Context {S : Type} `{GoRange}.
Implicit Types (r : Room.t S) (m : Module S).

Lemma newRoom_facts zeroS uuid config m u r es :
  (config.(RoomConfig.MaxPlayers) < 65536)%N →
  newRoom zeroS uuid config m u = (Ret r, u, es) →
  room_inv r ∧ Room.config r = config ∧ players r = ∅ ∧ closed r = false ∧ isOpen r = true ∧
  ID r = config.(RoomConfig.Name) +:+ "_" +:+ uuid.
Proof.
  intros Hm Hn. unfold newRoom in Hn. rewrite bind_lift in Hn.
  destruct (initState zeroS m) as [st|]; [|done].
  set (r0 := mk _ _ _ _ _ _ _ _ _ _ _) in Hn.
  assert (room_inv r0) as H0.
  { split; split; simpl; try done. intros _. rewrite map_size_empty. lia. }
  assert (room_inv r ∧ frame r0 r) as [Hr [HID Hc Hp Ho _ Hcl]]; [|by repeat split; try apply Hr].
  unfold runOnInit in Hn. destruct (onInit m) as [f|]; [|by simplify_eq].
  pose proof (steps_safe "OnInit" _ (steps_run_hook HInit (f r0)) r0) as Hs.
  destruct (safe "OnInit" (run_hook HInit (f r0)) r0) as [[o r'] es'].
  simplify_eq. split; [by eapply hook_rel_inv|apply Hs].
Qed.
End new.
