(* ===== verification/RoomActor.v ===== *)
(** * A room under interleaving (the actor as a step relation)

    Callers on other goroutines, the game loop and the runtime's timers all act
    on a room. [step] is one closure run by the actor or one move of the
    runtime; [Leave] is two of them (the code submits [scheduleEmptyRemoval] in
    a closure of its own), so another step may come in between. A timer that
    expires submits its check later. The rest of the operations are one closure
    each. *)

From S2P Require Import Prelude Codec Schema SchemaSpec EventBus Room RoomSpec.
Import Room.

(** What has been started and will still be submitted to the actor. *)
Inductive task :=
  | TSchedule   (* the second closure of a Leave *)
  | TTimer.     (* the check of an expired removal timer *)

Section actor.
Context {S : Type} `{GoRange} (m : Module S).
Implicit Types (r : Room.t S) (ts : list task).

Definition sys : Type := Room.t S * list task.

(** The state and the effects of a run, whatever its value. *)
Definition after {A} (c : M (Room.t S) effect A) ts r : sys := (final (c r), ts).

Inductive step : sys → list effect → sys → Prop :=
  | step_join now c u r ts :
      valid (PlayerJoined.mk c u) →
      step (r, ts) (effects (Join m now c u r)) (after (Join m now c u) ts r)
  | step_replace now old c u r ts :
      valid (PlayerLeft.mk old) → valid (PlayerJoined.mk c u) →
      step (r, ts) (effects (JoinReplace m now old c u r)) (after (JoinReplace m now old c u) ts r)
  | step_leave c b r ts :
      valid (PlayerLeft.mk c) →
      value (Leave_first m c r) = Ret b →
      step (r, ts) (effects (Leave_first m c r))
           (after (Leave_first m c) (if b then TSchedule :: ts else ts) r)
  | step_schedule r ts1 ts2 :
      step (r, ts1 ++ TSchedule :: ts2) (effects ((do_unit scheduleEmptyRemoval ;; mret tt) r))
           (after (do_unit scheduleEmptyRemoval ;; mret tt) (ts1 ++ ts2) r)
  | step_expire h r ts :
      h ∈ timers r →
      step (r, ts) [] (expire_timer h r, TTimer :: ts)
  | step_timer r ts1 ts2 :
      step (r, ts1 ++ TTimer :: ts2) (effects (onEmptyTimer r)) (after onEmptyTimer (ts1 ++ ts2) r)
  | step_close r ts : step (r, ts) (effects (Close r)) (after Close ts r)
  | step_open r ts : step (r, ts) (effects (Open r)) (after Open ts r)
  | step_message ctx c op payload r ts :
      step (r, ts) (effects (HandleMessage m ctx c op payload r))
           (after (HandleMessage m ctx c op payload) ts r)
  | step_tick dt r ts :
      closed r = false →
      step (r, ts) (effects (tick m dt r)) (after (tick m dt) ts r)
  | step_shutdown r ts : step (r, ts) (effects (Shutdown m r)) (after (Shutdown m) ts r).

(** A room from [newRoom] on, while nobody shares it: its loop runs already, so
    it may tick, and a timer that OnInit or a tick has armed may expire. *)
Inductive newborn : sys → Prop :=
  | nb_new zeroS uuid config r u es :
      (config.(RoomConfig.MaxPlayers) < 65536)%N →
      newRoom zeroS uuid config m u = (Ret r, u, es) →
      newborn (r, [])
  | nb_tick dt r ts : newborn (r, ts) → newborn (final (tick m dt r), ts)
  | nb_expire h r ts : newborn (r, ts) → h ∈ timers r → newborn (expire_timer h r, TTimer :: ts)
  | nb_timer r ts1 ts2 :
      newborn (r, ts1 ++ TTimer :: ts2) → newborn (final (onEmptyTimer r), ts1 ++ ts2).

(** A room as [Manager.Create] shares it: with the removal callback set. *)
Inductive reachable : sys → Prop :=
  | reach_new r ts : newborn (r, ts) → reachable (setOnEmpty r, ts)
  | reach_step s es s' : reachable s → step s es s' → reachable s'.

(** ** Every operation keeps the invariants *)

Lemma Join_inv now c u r :
  valid (PlayerJoined.mk c u) → room_inv r → room_inv (final (Join m now c u r)).
Proof.
  intros Hv Hr. rewrite Join_run by done. unfold refusal.
  destruct (closed r || negb (isOpen r)); [done|]. destruct (isFull r) eqn:Hf; [done|].
  destruct (hasPlayer c r); [done|]. cbn [final fst snd].
  eapply hook_rel_inv; [apply steps_safe, steps_callOnJoin|]. by apply seated_inv.
Qed.

Lemma JoinReplace_inv now old c u r :
  valid (PlayerLeft.mk old) → valid (PlayerJoined.mk c u) →
  room_inv r → room_inv (final (JoinReplace m now old c u r)).
Proof.
  intros Hl Hv Hr. rewrite JoinReplace_run by done.
  destruct (closed r || negb (isOpen r)); [done|].
  pose proof (unseat_inv m old r Hr) as Hu.
  destruct (value (unseat m old r)); [|done]. destruct (isFull _) eqn:Hf; [done|].
  eapply hook_rel_inv; [apply steps_safe, steps_callOnJoin|]. by apply seated_inv.
Qed.

Lemma Leave_first_inv c r :
  valid (PlayerLeft.mk c) → room_inv r → room_inv (final (Leave_first m c r)).
Proof.
  intros Hv Hr. rewrite Leave_first_run by done. destruct (closed r); [done|].
  destruct (players r !! c); [|done]. by apply unseat_inv.
Qed.

Lemma do_schedule_rel : steps (hook_rel (S := S)) (do_unit scheduleEmptyRemoval ;; mret tt).
Proof.
  intros r. rewrite do_schedule_run. destruct (closed r); [by apply trace_nil|].
  apply steps_schedule.
Qed.

Lemma run_handler_rel h ctx op p payload : steps (hook_rel (S := S)) (run_handler h ctx op p payload).
Proof.
  intros r. unfold run_handler.
  set (body := match h with None => _ | Some _ => _ end).
  assert (hook_rel r (effects (body r)) (final (body r))) as Hb.
  { subst body. destruct h as [h|]; [|by apply trace_nil].
    destruct (h ctx r p payload) as [acts res].
    apply (steps_bind _ (run_hook (HMessage op p) acts) (λ _, mret res)); by eauto with go. }
  clearbody body. destruct (body r) as [[[res|msg] r'] es]; [done|].
  eapply trace_app; [exact Hb|apply hook_rel_log].
Qed.

Lemma HandleMessage_rel ctx c op payload : steps (hook_rel (S := S)) (HandleMessage m ctx c op payload).
Proof.
  apply steps_bind; [typeclasses eauto| |intros [executed res]; apply steps_ret; apply _].
  apply steps_do. intros [r l]. unfold HandleMessage_closure. rewrite bind_get.
  destruct (players r !! c) as [p|]; [|apply steps_assign].
  apply (steps_bind (on_fst hook_rel)); [apply steps_zoom, run_handler_rel|].
  intros res. apply steps_assign.
Qed.

Lemma tick_rel dt : steps (hook_rel (S := S)) (tick m dt).
Proof. unfold tick. destruct (onTick m); eauto 10 with go. Qed.

Lemma onEmptyTimer_run r :
  onEmptyTimer r =
  (Ret tt, r,
   if closed r || keepOnEmpty r || negb (size (players r) =? 0) then []
   else [if onEmpty r then EGoOnEmpty (ID r) else EFatal "go of nil func value"]).
Proof.
  unfold onEmptyTimer, do_unit, do_, zoom, recover, mbind, M_bind, mret, M_ret, get, goOnEmpty, emit.
  simpl. destruct (closed r); [done|]. simpl.
  destruct (keepOnEmpty r), (size (players r) =? 0); done.
Qed.

Lemma Close_run b r :
  (do_unit (modify (set_isOpen b)) ;; mret tt) r =
  (Ret tt, if closed r then r else set_isOpen b r, []).
Proof.
  unfold do_unit, do_, zoom, recover, mbind, M_bind, mret, M_ret, modify. by destruct (closed r).
Qed.

Lemma set_isOpen_inv b r : room_inv r → room_inv (set_isOpen b r).
Proof. intros [[A B C] [U K W]]. by split; split. Qed.

Lemma Shutdown_rel r :
  closed r = false →
  hook_rel (set_closed r) (effects (Shutdown m r)) (final (Shutdown m r)).
Proof.
  intros Hc. unfold Shutdown. rewrite bind_get, Hc. unfold effects, final. rewrite bind_modify.
  apply (steps_bind hook_rel); [apply steps_cancel|].
  intros _. destruct (onClose m); by eauto with go.
Qed.

Lemma Shutdown_inv r : room_inv r → room_inv (final (Shutdown m r)).
Proof.
  intros Hr. destruct (closed r) eqn:Hc.
  - unfold Shutdown. rewrite bind_get, Hc. done.
  - eapply hook_rel_inv; [by apply Shutdown_rel|]. destruct Hr as [[A B C] [U K W]]. by split; split.
Qed.

Lemma step_inv s es s' : step s es s' → room_inv s.1 → room_inv s'.1.
Proof.
  intros Hs Hr. destruct Hs; simpl in *.
  - by apply Join_inv.
  - by apply JoinReplace_inv.
  - by apply Leave_first_inv.
  - eapply hook_rel_inv; [apply do_schedule_rel|done].
  - destruct Hr as [[A B C] [U K W]]. split; [split|by split]; simpl; [|done|done].
    intros h' [Hin _]%elem_of_difference. auto.
  - by rewrite onEmptyTimer_run.
  - unfold Close. rewrite Close_run. cbn. destruct (closed r); [done|by apply set_isOpen_inv].
  - unfold Open. rewrite Close_run. cbn. destruct (closed r); [done|by apply set_isOpen_inv].
  - eapply hook_rel_inv; [apply HandleMessage_rel|done].
  - eapply hook_rel_inv; [apply tick_rel|done].
  - by apply Shutdown_inv.
Qed.

Lemma newborn_inv s : newborn s → room_inv s.1 ∧ closed s.1 = false.
Proof.
  induction 1 as [zeroS uuid config r u es Hm Hn|dt r ts _ [Hr Hc]|h r ts _ [Hr Hc] Hh|r ts1 ts2 _ [Hr Hc]]; simpl in *.
  - destruct (newRoom_facts zeroS uuid config m u r es Hm Hn) as (? & _ & _ & ? & _). done.
  - pose proof (tick_rel dt r) as Ht. split; [by eapply hook_rel_inv|].
    destruct Ht as [[_ _ _ _ _ Hcl] _ _ _]. congruence.
  - split; [|done]. by apply (step_inv _ _ _ (step_expire h r ts Hh)).
  - by rewrite onEmptyTimer_run.
Qed.

Lemma reachable_inv s : reachable s → room_inv s.1.
Proof.
  induction 1 as [r ts Hn|s es s' _ Hr Hs]; [|by eapply step_inv].
  destruct (newborn_inv _ Hn) as [[[A B C] [U K W]] _]. by split; split.
Qed.
End actor.

(** ** What every step but the timer's check respects

    A relation that holds for the moves of the actor's own bookkeeping, for
    events and logs, for the timers and for the module's code holds for every
    step, the check of an expired timer apart. *)

Section step_frame.
Context {S : Type} `{GoRange} (m : Module S).
Implicit Types (r : Room.t S).

(** A move of the player list or of the flags. *)
Record admin r r' : Prop := {
  admin_ID : ID r' = ID r;
  admin_config : config r' = config r;
  admin_keep : keepOnEmpty r' = keepOnEmpty r;
  admin_onEmpty : onEmpty r' = onEmpty r
}.

Context (R : Room.t S → list effect → Room.t S → Prop) `{!TraceRel R}.
Context (R_admin : ∀ r r', admin r r' → R r [] r').
Context (R_emit : ∀ r e, removes e = false → fatal e = false → R r [e] r).
Context (R_cancel : steps R cancelEmptyRemoval) (R_schedule : steps R scheduleEmptyRemoval).
Context (R_join : ∀ p, steps R (callOnJoin m p)) (R_leave : ∀ p, steps R (callOnLeave m p)).
Context (R_close : ∀ f r, onClose m = Some f → steps R (run_hook HClose (f r))).
Context (R_tick : ∀ f r dt, onTick m = Some f → steps R (run_hook (HTick dt) (f r dt))).
Context (R_handler : ∀ op ctx p payload, steps R (run_handler (handlers m !! op) ctx op p payload)).

Lemma R_log r what msg : R r [ELog what msg] r.
Proof using R_emit. by apply R_emit. Qed.

Lemma R_panic_log r what {A} (o : outcome A) : R r (panic_log what o) r.
Proof using R_emit TraceRel0. destruct o; [apply trace_nil|apply R_log]. Qed.

Lemma R_safe what fn : steps R fn → steps R (safe what fn).
Proof using R_emit TraceRel0. intros Hf. apply steps_recover; eauto using R_log. Qed.

Lemma R_seated p r : R r [] (seated p r).
Proof using R_admin R_cancel TraceRel0.
  unfold seated. set (r1 := set_players _ r). pose proof (R_cancel r1) as Hc.
  assert (effects (cancelEmptyRemoval r1) = []) as He by (by rewrite cancel_effects).
  rewrite He in Hc. apply (trace_app r [] r1 []); [by apply R_admin|exact Hc].
Qed.

Lemma R_unseat c r : R r (effects (unseat m c r)) (final (unseat m c r)).
Proof using R_admin R_leave TraceRel0.
  unfold unseat. destruct (players r !! c) as [p|]; [|apply trace_nil].
  eapply (trace_app r []); [|apply R_leave]. by apply R_admin.
Qed.

Lemma R_publish r topic ev : R r [EPublish topic ev] r.
Proof using R_emit. by apply R_emit. Qed.

Lemma R_Join now c u r :
  valid (PlayerJoined.mk c u) → R r (effects (Join m now c u r)) (final (Join m now c u r)).
Proof using R_admin R_cancel R_emit R_join TraceRel0.
  intros Hv. rewrite Join_run by done. destruct (refusal r); [apply trace_nil|].
  destruct (hasPlayer c r); [apply trace_nil|].
  eapply trace_app; [|apply R_publish].
  eapply (trace_app r []); [apply R_seated|]. apply R_safe, R_join.
Qed.

Lemma R_JoinReplace now old c u r :
  room_inv r → valid (PlayerLeft.mk old) → valid (PlayerJoined.mk c u) →
  R r (effects (JoinReplace m now old c u r)) (final (JoinReplace m now old c u r)).
Proof using R_admin R_cancel R_emit R_join R_leave TraceRel0.
  intros Hr Hl Hv. rewrite JoinReplace_run by done.
  destruct (closed r || negb (isOpen r)); [apply trace_nil|].
  set (swap := [_; _]). set (o := unseat m old r).
  assert (∀ r', R r' swap r') as Hswap.
  { intros r'. apply (trace_app (R := R) r' [_] r' [_]); apply R_publish. }
  pose proof (R_unseat old r) as Ho. fold o in Ho.
  destruct (value o); [destruct (isFull (final o)); [exact Ho|]|].
  - eapply trace_app; [exact Ho|]. eapply (trace_app (final o) []); [apply R_seated|].
    eapply trace_app; [apply R_safe, R_join|apply Hswap].
  - eapply trace_app; [exact Ho|]. eapply (trace_app (R := R) _ [_]); [apply R_log|apply Hswap].
Qed.

Lemma R_Leave_first c r :
  valid (PlayerLeft.mk c) → R r (effects (Leave_first m c r)) (final (Leave_first m c r)).
Proof using R_admin R_emit R_leave TraceRel0.
  intros Hv. rewrite Leave_first_run by done. destruct (closed r); [apply trace_nil|].
  destruct (players r !! c); [|apply trace_nil].
  eapply trace_app; [|apply R_publish]. eapply trace_app; [apply R_unseat|apply R_panic_log].
Qed.

Lemma R_HandleMessage ctx c op payload r :
  R r (effects (HandleMessage m ctx c op payload r)) (final (HandleMessage m ctx c op payload r)).
Proof using R_emit R_handler TraceRel0.
  unfold HandleMessage. apply (steps_bind R); [|intros [executed res]; by eauto with go].
  clear r. intros r. destruct (closed r) eqn:Hc; [rewrite do_closed by done; apply trace_nil|].
  rewrite do_open by done. unfold HandleMessage_closure.
  assert (∀ (f : result (option Marshaler) → result (option Marshaler)),
    steps (on_fst R) (assign f)) as Hassign.
  { intros f [r0 l0]. apply (trace_nil (R := R)). }
  assert (steps (on_fst (L := result (option Marshaler)) R) (recover (ELog "inbox")
    (HandleMessage_closure m ctx c op payload))) as Hs.
  { apply steps_recover; [apply _|intros [r0 l0] msg; apply R_log|].
    apply steps_bind; [apply _|apply steps_get; apply _|]. intros [r0 l0].
    destruct (players r0 !! c) as [p|]; [|apply Hassign].
    apply steps_bind; [apply _|apply steps_zoom, R_handler|]. intros res. apply Hassign. }
  specialize (Hs (r, Ok None)). by rewrite recover_final in Hs.
Qed.

Lemma R_Shutdown r : R r (effects (Shutdown m r)) (final (Shutdown m r)).
Proof using R_admin R_cancel R_close R_emit TraceRel0.
  unfold Shutdown. rewrite bind_get. destruct (closed r); [apply trace_nil|].
  apply steps_bind; [apply _|intros r'; by apply R_admin|]. intros _.
  apply steps_bind; [apply _|done|]. intros _. destruct (onClose m) as [f|] eqn:Hf; [|by eauto with go].
  apply steps_bind; [apply _|by eauto with go|]. intros r'. by apply R_safe, R_close.
Qed.

(** The check of an expired timer that removes the room. *)
Definition timer_removal r (es : list effect) r' : Prop :=
  r' = r ∧ es = effects (goOnEmpty r) ∧
  size (players r) = 0 ∧ keepOnEmpty r = false ∧ closed r = false.

Lemma step_frame s es s' :
  room_inv s.1 → step m s es s' → R s.1 es s'.1 ∨ timer_removal s.1 es s'.1.
Proof using All.
  intros Hr Hs. destruct Hs; simpl in *; try (left; by auto using R_Join, R_JoinReplace,
    R_Leave_first, R_HandleMessage, R_Shutdown).
  - left. rewrite do_schedule_run. destruct (closed r); [apply trace_nil|apply R_schedule].
  - left. by apply R_admin.
  - rewrite onEmptyTimer_run. cbn [final fst snd effects].
    destruct (closed r) eqn:Hc, (keepOnEmpty r) eqn:Hk, (Nat.eqb_spec (size (players r)) 0);
      simpl; try (left; apply trace_nil). by right.
  - left. unfold Close. rewrite Close_run. cbn. apply R_admin. by destruct (closed r).
  - left. unfold Open. rewrite Close_run. cbn. apply R_admin. by destruct (closed r).
  - left. unfold tick. destruct (onTick m) as [f|] eqn:Hf; [| by apply (steps_ret R)].
    apply steps_when; [apply _|]. apply steps_bind; [apply _|by apply (steps_get R)|].
    intros r'. by apply R_safe, R_tick.
Qed.
End step_frame.

(** ** Two such relations *)

Section relations.
Context {S : Type} `{GoRange}.
Implicit Types (r : Room.t S) (m : Module S).

(** Under a grace period nothing is removed, and nothing is fatal once the
    removal callback is set. *)
Record grace_rel r (es : list effect) r' : Prop := {
  gr_config : config r' = config r;
  gr_onEmpty : onEmpty r' = onEmpty r;
  gr_grace : has_grace r → Forall (λ e, removes e = false) es;
  gr_fatal : onEmpty r = true → Forall (λ e, fatal e = false) es
}.

#[export] Instance grace_rel_trace : TraceRel grace_rel.
Proof.
  split.
  - intros r. by split.
  - intros r es r' es' r'' [C1 O1 G1 F1] [C2 O2 G2 F2]. split; [congruence|congruence| |].
    + intros Hg. apply Forall_app; split; [auto|]. apply G2. unfold has_grace in *. by rewrite C1.
    + intros Ho. apply Forall_app; split; [auto|]. apply F2. by rewrite O1.
Qed.

Lemma hook_rel_grace r es r' : hook_rel r es r' → grace_rel r es r'.
Proof. intros [[] _ G F]. by split. Qed.

Lemma steps_hook_grace {A} (c : M (Room.t S) effect A) : steps hook_rel c → steps grace_rel c.
Proof. intros Hc r. apply hook_rel_grace, Hc. Qed.

Lemma step_grace m s es s' :
  room_inv s.1 → step m s es s' → grace_rel s.1 es s'.1 ∨ timer_removal s.1 es s'.1.
Proof.
  intros Hr Hs. apply (step_frame m); auto; try apply _; intros; try apply steps_hook_grace;
    eauto using run_handler_rel with go.
  - destruct H0. by split.
  - by apply hook_rel_grace, hook_rel_emit.
Qed.

(** A room keeps its identity. *)
Definition ident_rel r (es : list effect) r' : Prop := ID r' = ID r ∧ config r' = config r.

#[export] Instance ident_rel_trace : TraceRel ident_rel.
Proof. split; [done|]. intros r es r' es' r'' [] []. split; congruence. Qed.

Lemma hook_rel_ident r es r' : hook_rel r es r' → ident_rel r es r'.
Proof. by intros [[] _ _ _]. Qed.

Lemma steps_hook_ident {A} (c : M (Room.t S) effect A) : steps hook_rel c → steps ident_rel c.
Proof. intros Hc r. eapply hook_rel_ident, Hc. Qed.

Lemma step_ident m s es s' : room_inv s.1 → step m s es s' → ident_rel s.1 es s'.1.
Proof.
  intros Hr Hs. destruct (step_frame m ident_rel) with s es s' as [|(-> & _)]; auto; try apply _; intros;
    try apply steps_hook_ident; eauto using run_handler_rel with go.
  - by destruct H0.
  - done.
  - done.
Qed.

(** User code that leaves the auto-removal switch alone. *)
Definition quiet_action (a : action S) : Prop :=
  match a with CallSetKeepOnEmpty _ => False | _ => True end.

Record quiet_module m : Prop := {
  quiet_join f r p : onJoin m = Some f → Forall quiet_action (f r p);
  quiet_leave f r p : onLeave m = Some f → Forall quiet_action (f r p);
  quiet_close f r : onClose m = Some f → Forall quiet_action (f r);
  quiet_tick f r dt : onTick m = Some f → Forall quiet_action (f r dt);
  quiet_handler op h ctx r p payload :
    handlers m !! op = Some h → Forall quiet_action (h ctx r p payload).1
}.

(** What such code does. *)
Record quiet_rel r (es : list effect) r' : Prop := {
  qr_frame : frame r r';
  qr_keep : keepOnEmpty r' = keepOnEmpty r;
  qr_timer : emptyTimer r' = emptyTimer r;
  qr_timers : timers r' = timers r;
  qr_removes : Forall (λ e, removes e = false) es
}.

#[export] Instance quiet_rel_trace : TraceRel quiet_rel.
Proof.
  split.
  - intros r. split; [done|done|done|done|constructor].
  - intros r es r' es' r'' [F1 K1 T1 S1 R1] [F2 K2 T2 S2 R2].
    split; [by transitivity r'|congruence|congruence|congruence|by apply Forall_app].
Qed.

Lemma quiet_emit (e : effect) : removes e = false → steps quiet_rel (emit e).
Proof. intros He r. split; [done|done|done|done|by constructor]. Qed.

Lemma quiet_publish topic ev : steps quiet_rel (publish topic ev).
Proof. apply steps_bind; [apply _|by eauto with go|]. intros e. by apply quiet_emit. Qed.
Hint Resolve quiet_publish : go.

Lemma quiet_run_action a : quiet_action a → steps quiet_rel (run_action a).
Proof.
  destruct a; simpl; [|done|..]; intros _; unfold Broadcast, BroadcastBytes, Send, SendTo,
    sendToUserIDs, BroadcastExcept, BroadcastFunc;
    repeat first [progress eauto with go | apply steps_bind; [typeclasses eauto| |intros]
                 | apply steps_for_each; [typeclasses eauto|intros] | case_match].
  intros r. split; [by split|done|done|done|constructor].
Qed.

Lemma quiet_run_hook h acts : Forall quiet_action acts → steps quiet_rel (run_hook h acts).
Proof.
  intros Ha. apply steps_bind; [apply _|by apply quiet_emit|]. intros _.
  apply steps_for_each; [apply _|]. intros a Hin. apply quiet_run_action.
  by eapply Forall_forall in Ha.
Qed.

Lemma quiet_callOnJoin m p : quiet_module m → steps quiet_rel (callOnJoin m p).
Proof.
  intros Hq. unfold callOnJoin. destruct (onJoin m) as [f|] eqn:Hf; [|by eauto with go].
  apply steps_bind; [apply _|by eauto with go|]. intros r. apply quiet_run_hook. by eapply quiet_join.
Qed.

Lemma quiet_callOnLeave m p : quiet_module m → steps quiet_rel (callOnLeave m p).
Proof.
  intros Hq. unfold callOnLeave. destruct (onLeave m) as [f|] eqn:Hf; [|by eauto with go].
  apply steps_bind; [apply _|by eauto with go|]. intros r. apply quiet_run_hook. by eapply quiet_leave.
Qed.

Lemma quiet_run_handler m op ctx p payload :
  quiet_module m → steps quiet_rel (run_handler (handlers m !! op) ctx op p payload).
Proof.
  intros Hq r. unfold run_handler.
  set (body := match handlers m !! op with None => _ | Some _ => _ end).
  assert (quiet_rel r (effects (body r)) (final (body r))) as Hb.
  { subst body. destruct (handlers m !! op) as [h|] eqn:Hh; [|by apply trace_nil].
    pose proof (quiet_handler m Hq op h ctx r p payload Hh) as Ha.
    destruct (h ctx r p payload) as [acts res].
    apply (steps_bind _ (run_hook (HMessage op p) acts) (λ _, mret res)).
    - by apply quiet_run_hook.
    - intros _. by eauto with go. }
  clearbody body. destruct (body r) as [[[res|msg] r'] es]; [done|].
  eapply trace_app; [exact Hb|]. by apply quiet_emit.
Qed.

(** A room that is kept stays kept, and is not removed. *)
Definition kept_rel r (es : list effect) r' : Prop :=
  keepOnEmpty r = true → keepOnEmpty r' = true ∧ Forall (λ e, removes e = false) es.

#[export] Instance kept_rel_trace : TraceRel kept_rel.
Proof.
  split.
  - intros r Hk. by split.
  - intros r es r' es' r'' H1 H2 [Hk ?]%H1. destruct (H2 Hk). split; [done|by apply Forall_app].
Qed.

Lemma quiet_kept {A} (c : M (Room.t S) effect A) : steps quiet_rel c → steps kept_rel c.
Proof. intros Hc r Hk. destruct (Hc r) as [_ K _ _ R]. by rewrite K. Qed.

Lemma kept_cancel : steps (kept_rel) cancelEmptyRemoval.
Proof. intros r Hk. by rewrite (cancel_kept r), (cancel_effects r). Qed.

Lemma kept_schedule : steps (kept_rel) scheduleEmptyRemoval.
Proof. intros r Hk. rewrite schedule_run, Hk. by split. Qed.

Lemma step_kept m s es s' :
  quiet_module m → room_inv s.1 → step m s es s' →
  kept_rel s.1 es s'.1 ∨ timer_removal s.1 es s'.1.
Proof.
  intros Hq Hr Hs. apply (step_frame m); auto using kept_cancel, kept_schedule; try apply _; intros;
    try apply quiet_kept; auto using quiet_callOnJoin, quiet_callOnLeave, quiet_run_handler.
  - destruct H0. intros Hk. split; [congruence|done].
  - intros Hk. split; [done|by constructor].
  - apply quiet_run_hook. by eapply quiet_close.
  - apply quiet_run_hook. by eapply quiet_tick.
Qed.
End relations.
