(* ===== verification/RoomProps.v ===== *)
(** * The properties of a room

    The theorems about rooms, each with a witness where it has hypotheses: the
    operations of the player list on every branch, what interleavings preserve,
    when the room is removed, who receives a personal event. *)

From S2P Require Import Prelude Codec Schema SchemaSpec EventBus Room RoomSpec RoomActor.
Import Room.

Section props.
Context {S : Type} `{GoRange}.
Implicit Types (r : Room.t S) (m : Module S).

(** Several steps. *)
Inductive run m : sys → list effect → sys → Prop :=
  | run_nil s : run m s [] s
  | run_step s es s' es' s'' : step m s es s' → run m s' es' s'' → run m s (es ++ es') s''.

Lemma reachable_facts m s : reachable m s → room_inv s.1 ∧ onEmpty s.1 = true.
Proof.
  intros Hs. split; [by eapply reachable_inv|].
  induction Hs as [r ts Hn|s es s' Hs Ho Hst]; [done|].
  destruct (step_grace m s es s' (reachable_inv m s Hs) Hst) as [[_ Ho' _ _]|(-> & _)]; congruence.
Qed.

Lemma run_inv m s es s' : run m s es s' → room_inv s.1 → room_inv s'.1.
Proof. induction 1; eauto using step_inv. Qed.

(** C5: [Join] on every branch. A room that is shut down or closed to joins
    answers ErrRoomClosed, a full one ErrRoomFull, and neither changes nor
    publishes anything; the rejoin of a member succeeds and publishes nothing;
    otherwise the player is in under its id, no removal timer is left armed when
    OnJoin starts, a panic of OnJoin is swallowed, the caller sees success, and
    PlayerJoined is published on the room's topic after the hook's effects. *)
Theorem Join_spec m now c u r :
  room_inv r → valid (PlayerJoined.mk c u) →
  let p := Player.mk c u now in
  let h := safe "inbox" (callOnJoin m p) (seated p r) in
  let res := Join m now c u r in
  room_inv (final res) ∧
  if closed r || negb (isOpen r) then res = (Ret (Some (ErrSentinel ErrRoomClosed)), r, [])
  else if isFull r then res = (Ret (Some (ErrSentinel ErrRoomFull)), r, [])
  else if hasPlayer c r then res = (Ret None, r, [])
  else
    res = (Ret None, final h, effects h ++ [EPublish (topic r) (joined_event c u)]) ∧
    players (final res) = <[c := p]> (players r) ∧
    timers (seated p r) = ∅ ∧ emptyTimer (seated p r) = None.
Proof.
  intros Hr Hv p h res. split; [by apply Join_inv|]. unfold res.
  rewrite Join_run by done. unfold refusal.
  destruct (closed r || negb (isOpen r)); [done|].
  destruct (isFull r) eqn:Hf; [done|]. destruct (hasPlayer c r); [done|].
  destruct (seated_inv p r Hr Hf) as (_ & Ht & Hts). split; [done|]. split; [|done].
  cbn [final fst snd]. transitivity (players (seated p r)).
  - apply frame_players, (steps_safe "inbox" _ (steps_callOnJoin m p)).
  - apply (frame_players _ _ (seated_frame p r)).
Qed.

(** C6: in a running room that is open to joins, [JoinReplace] of a member whose
    OnLeave returns always succeeds, even if the room is full: the seat changes
    hands in one closure of the actor, and the events PlayerLeft and PlayerJoined
    are published in that order after the hooks. If moreover the code of the
    module leaves the auto-removal switch alone, no removal is started, although
    the room is empty in between when the old player was alone. *)
Theorem JoinReplace_spec m now old c u r q :
  room_inv r → valid (PlayerLeft.mk old) → valid (PlayerJoined.mk c u) →
  closed r = false → isOpen r = true → players r !! old = Some q →
  value (unseat m old r) = Ret tt →
  let res := JoinReplace m now old c u r in
  value res = Ret None ∧ room_inv (final res) ∧
  players (final res) = <[c := Player.mk c u now]> (delete old (players r)) ∧
  (∃ es, effects res =
     es ++ [EPublish (topic r) (left_event old); EPublish (topic r) (joined_event c u)]) ∧
  (quiet_module m → Forall (λ e, removes e = false) (effects res)).
Proof.
  intros Hr Hl Hv Hc Ho Hp Hu res. subst res.
  set (p := Player.mk c u now).
  assert (isFull (final (unseat m old r)) = false) as Hf.
  { apply isFull_bound; [by apply unseat_inv|].
    pose proof (unseat_rel m old r) as [[_ -> -> _ _ _] _ _ _]. simpl.
    rewrite map_size_delete_Some by done. destruct Hr as [_ [U K W]].
    assert (size (players r) ≠ 0) by (intros Hz; apply map_size_empty_iff in Hz; rewrite Hz in Hp; by rewrite lookup_empty in Hp).
    destruct (decide ((config r).(RoomConfig.MaxPlayers) = 0)%N); [by left|right].
    specialize (W ltac:(lia)). lia. }
  pose proof (JoinReplace_inv m now old c u r Hl Hv Hr) as Hinv. revert Hinv.
  rewrite JoinReplace_run by done. rewrite Hc, Ho, Hu, Hf. cbn [orb negb]. intros Hinv.
  split; [done|]. split; [done|]. split; [|split].
  - cbn [final fst snd]. transitivity (players (seated p (final (unseat m old r)))).
    + apply frame_players, (steps_safe "inbox" _ (steps_callOnJoin m p)).
    + rewrite (frame_players _ _ (seated_frame p _)). simpl. by rewrite unseat_players.
  - eexists. cbn [effects snd]. rewrite app_assoc. done.
  - intros Hq. cbn [effects snd]. apply Forall_app; split; [|apply Forall_app; split].
    + unfold unseat. rewrite Hp. apply quiet_callOnLeave, Hq.
    + unfold safe. erewrite recover_effects by apply run_eta. apply Forall_app; split.
      * apply quiet_callOnJoin, Hq.
      * apply panic_log_removes.
    + by repeat constructor.
Qed.

(** C10: the last player leaves a running room. If OnLeave returns and leaves the
    room unkept, the room goes with the player: without a grace period the leave
    itself starts the removal, after the PlayerLeft event; with one, exactly one
    timer is armed, and when it expires on the room as it is the removal starts.
    A kept room stays, and nothing is armed or started. And if OnLeave panics, the
    panic is logged and the event published, but no removal is armed or started
    after it: the empty room is forgotten. *)
Theorem last_leave_removes m c r p :
  room_inv r → valid (PlayerLeft.mk c) →
  closed r = false → onEmpty r = true → players r = {[c := p]} →
  let r1 := final (unseat m c r) in
  let res := Leave m c r in
  value res = Ret tt ∧ players (final res) = ∅ ∧
  match value (unseat m c r) with
  | Panic msg =>
      final res = r1 ∧
      effects res = effects (unseat m c r) ++ [ELog "inbox" msg; EPublish (topic r) (left_event c)]
  | Ret _ =>
      let es := effects (unseat m c r) ++ [EPublish (topic r) (left_event c)] in
      if keepOnEmpty r1 then final res = r1 ∧ effects res = es
      else if decide (has_grace r) then
        effects res = es ∧
        ∃ h, timers (final res) = {[h]} ∧
          effects (onEmptyTimer (expire_timer h (final res))) = [EGoOnEmpty (ID r)]
      else effects res = es ++ [EGoOnEmpty (ID r)]
  end.
Proof.
  intros Hr Hv Hc Ho Hp. cbv zeta.
  set (r1 := final (unseat m c r)).
  assert (players r1 = ∅) as Hp1.
  { unfold r1. rewrite unseat_players, Hp. apply delete_singleton_eq. }
  pose proof (unseat_rel m c r) as [[HID Hcf _ _ Ho1 Hc1] _ _ _]. fold r1 in HID, Hcf, Ho1, Hc1.
  simpl in HID, Hcf, Ho1, Hc1.
  assert (leaves_empty m c r = match value (unseat m c r) with Ret _ => true | Panic _ => false end) as Hle.
  { unfold leaves_empty. fold r1. by rewrite Hp1, map_size_empty, Ho. }
  assert (room_inv r1) as [Ht1 _] by by apply unseat_inv.
  rewrite Leave_run by done. rewrite Hc, Hp, lookup_singleton_eq, Hle.
  fold r1. destruct (value (unseat m c r)) as [[]|msg].
  2:{ cbn. split; [done|]. split; [done|]. split; [done|]. by rewrite <- app_assoc. }
  rewrite schedule_run. cbn [panic_log]. rewrite app_nil_r.
  destruct (keepOnEmpty r1) eqn:Hk; [done|].
  assert (has_grace r1 ↔ has_grace r) as Hg by (unfold has_grace; by rewrite Hcf).
  destruct (cancel_final r1 Ht1) as [_ Hts].
  pose proof (cancel_frame r1) as [HID2 _ Hp2 _ Ho2 Hc2].
  split; [done|]. split.
  - case_decide; cbn; [unfold arm_timer; simpl|]; congruence.
  - destruct (decide (has_grace r)), (decide (has_grace r1)); try tauto; cbn.
    + split; [done|]. exists (nextTimer (final (cancelEmptyRemoval r1))). split.
      * by rewrite Hts, (right_id_L ∅ (∪)).
      * rewrite onEmptyTimer_run. simpl.
        rewrite cancel_kept, Hk, Hp2, Hp1, Hc2, Hc1, Hc, Ho2, Ho1, Ho, HID2, HID. done.
    + by rewrite <- app_assoc, Ho1, Ho, HID.
Qed.

(** C7: whatever the interleaving of joins, replaces, leaves and their second
    halves, expiring timers, messages, ticks and the shutdown, a room keeps its
    cap and its player index, at most one removal timer is armed and a kept room
    has none; and no step is a fatal error of the runtime. *)
Theorem reachable_room_inv m s :
  reachable m s →
  room_inv s.1 ∧ ∀ es s', step m s es s' → Forall (λ e, fatal e = false) es.
Proof.
  intros Hs. destruct (reachable_facts m s Hs) as [Hr Ho]. split; [done|]. intros es s' Hst.
  destruct (step_grace m s es s' Hr Hst) as [[_ _ _ F]|(_ & -> & _)]; [auto|].
  rewrite goOnEmpty_run. cbn. rewrite Ho. by constructor.
Qed.

(** C8: with a grace period, a step that starts the removal of the room finds it
    empty, not kept and still running, and changes nothing. *)
Theorem grace_removes_only_empty_room m s es s' id :
  reachable m s → has_grace s.1 → step m s es s' → EGoOnEmpty id ∈ es →
  id = ID s.1 ∧ s'.1 = s.1 ∧ players s.1 = ∅ ∧ keepOnEmpty s.1 = false ∧ closed s.1 = false.
Proof.
  intros Hs Hg Hst Hin. destruct (reachable_facts m s Hs) as [Hr Ho].
  destruct (step_grace m s es s' Hr Hst) as [[_ _ G _]|(-> & -> & Hz & Hk & Hc)].
  - specialize (G Hg). rewrite Forall_forall in G. by specialize (G _ Hin).
  - rewrite goOnEmpty_run in Hin. cbn in Hin. rewrite Ho in Hin.
    apply list_elem_of_singleton in Hin as [= ->]. apply map_size_empty_iff in Hz. done.
Qed.

(** C9: if the module's code leaves the switch alone after OnInit, a kept room
    stays kept and no interleaving starts its removal. *)
Theorem kept_room_never_removed m s es s' :
  reachable m s → quiet_module m → keepOnEmpty s.1 = true → run m s es s' →
  keepOnEmpty s'.1 = true ∧ Forall (λ e, removes e = false) es.
Proof.
  intros Hs Hq Hk Hrun. apply reachable_facts in Hs as [Hr _].
  induction Hrun as [s|s es s' es' s'' Hst _ IH]; [by split|].
  destruct (step_kept m s es s' Hq Hr Hst) as [HK|(_ & _ & _ & ? & _)]; [|congruence].
  destruct (HK Hk) as [Hk' Hes]. destruct (IH (step_inv m s es s' Hst Hr) Hk').
  split; [done|by apply Forall_app].
Qed.

Lemma clientTopic_inj : Inj (=) (=) clientTopic.
Proof. intros j k Hjk. unfold clientTopic in Hjk. by simplify_eq. Qed.

Lemma for_each_publish (sel : Player.t → bool) ev (l : list Player.t) r :
  for_each (λ p : Player.t, if sel p then publish (clientTopic p.(Player.ID)) (Ret ev) else mret tt) l r =
  (Ret tt, r, (λ p, EPublish (clientTopic p.(Player.ID)) ev) <$> filter sel l).
Proof.
  induction l as [|p l IH]; [done|]. simpl for_each. rewrite filter_cons.
  destruct (sel p); simpl.
  - erewrite bind_value by done. by rewrite IH.
  - erewrite bind_value by done. by rewrite IH.
Qed.

Lemma filter_players (sel : Player.t → bool) ev (l : list (N * Player.t)) :
  (∀ k p, (k, p) ∈ l → p.(Player.ID) = k) →
  (λ p, EPublish (clientTopic p.(Player.ID)) ev) <$> filter sel l.*2 =
  (λ kp : N * Player.t, EPublish (clientTopic kp.1) ev) <$> filter (λ kp, sel kp.2) l.
Proof.
  induction l as [|[k p] l IH]; intros Hid; [done|]. simpl. rewrite !filter_cons. simpl.
  assert (p.(Player.ID) = k) as <- by (apply Hid; left).
  specialize (IH ltac:(intros; apply Hid; by right)).
  case_decide; [|exact IH]. rewrite !fmap_cons. f_equal. exact IH.
Qed.

(** The addressed players of the list are those of the map. *)
Lemma addressed (sel : Player.t → bool) ev r :
  player_inv r →
  (λ p, EPublish (clientTopic p.(Player.ID)) ev) <$> filter sel (playerList r) ≡ₚ
  (λ kp, EPublish (clientTopic kp.1) ev) <$>
    map_to_list (filter (λ kp : N * Player.t, sel kp.2) (players r)).
Proof.
  intros [U K W]. unfold playerList. rewrite filter_players.
  2:{ intros k p Hp%elem_of_range. by apply K. }
  apply fmap_Permutation. rewrite range_perm. apply NoDup_Permutation.
  - apply NoDup_filter, NoDup_map_to_list.
  - apply NoDup_map_to_list.
  - intros [k p]. rewrite list_elem_of_filter, !elem_of_map_to_list, map_lookup_filter_Some.
    by rewrite (comm (∧)).
Qed.

(** C27: a personal event reaches the connections it is addressed to and no
    other: [SendTo] publishes the payload once on the personal topic of every
    player whose user is listed, [BroadcastExcept] on that of every player whose
    user is not; distinct connections have distinct personal topics; the room
    does not change. *)
Theorem personal_events_exact r userIDs op msg payload :
  player_inv r → Encode msg = Ret payload →
  let to (sel : Player.t → bool) := (λ kp, EPublish (clientTopic kp.1) (Event.mk op payload)) <$>
    map_to_list (filter (λ kp : N * Player.t, sel kp.2) (players r)) in
  (∃ es, SendTo userIDs op msg r = (Ret tt, r, es) ∧
     es ≡ₚ to (λ p, bool_decide (p.(Player.UserID) ∈ userIDs))) ∧
  (∃ es, BroadcastExcept userIDs op msg r = (Ret tt, r, es) ∧
     es ≡ₚ to (λ p, bool_decide (p.(Player.UserID) ∉ userIDs))) ∧
  (∀ j k, clientTopic j = clientTopic k → j = k).
Proof.
  intros Hr He to. split; [|split; [|apply clientTopic_inj]].
  - eexists. split; [|by apply addressed].
    unfold SendTo, sendToUserIDs. rewrite He, bind_lift, bind_get.
    rewrite <- for_each_publish. apply for_each_ext. intros p w. unfold when.
    by rewrite (bool_decide_ext _ (p.(Player.UserID) ∈ userIDs)) by apply elem_of_list_to_set.
  - eexists. split; [|by apply addressed].
    unfold BroadcastExcept. rewrite He, bind_lift, bind_get.
    rewrite <- for_each_publish. apply for_each_ext. intros p w.
    rewrite (bool_decide_ext _ (p.(Player.UserID) ∈ userIDs)) by apply elem_of_list_to_set.
    rewrite bool_decide_not. by destruct (bool_decide _).
Qed.

(** The answer and the effects of a handler of the module. *)
Definition handled (a : outcome unit * Room.t S * list effect) (op : N) (p : Player.t)
    (answer : result (option Marshaler)) : result (option Marshaler) * list effect :=
  match value a with
  | Ret _ => (answer, EHook (HMessage op p) :: effects a)
  | Panic msg =>
      (Err (ErrProtocol 500 "internal error"),
       EHook (HMessage op p) :: effects a ++ [ELog "message handler" msg])
  end.

Lemma run_handler_run h ctx op p payload r acts answer :
  h ctx r p payload = (acts, answer) →
  let a := for_each run_action acts r in
  run_handler (Some h) ctx op p payload r =
  (Ret (handled a op p answer).1, final a, (handled a op p answer).2).
Proof.
  intros Ha a. unfold run_handler. rewrite Ha.
  assert (run_hook (HMessage op p) acts r = (value a, final a, EHook (HMessage op p) :: effects a))
    as Hrun by apply bind_emit.
  unfold handled. destruct (value a) as [[]|msg].
  - erewrite bind_value by exact Hrun. cbn. by rewrite app_nil_r.
  - by erewrite bind_panic by exact Hrun.
Qed.

(** C12: [HandleMessage] on every branch. A room that is shut down answers
    ErrRoomClosed and a client that is not in the room ErrNotInRoom, and no code
    of the module runs; otherwise the handler's answer is returned after what it
    did to the room; a panic of the handler answers 500 "internal error", keeps
    what was done before it, and never reaches the caller. No branch touches the
    player list. *)
Theorem HandleMessage_spec m ctx c op payload r (h : MessageHandler S) :
  handlers m !! op = Some h →
  let res := HandleMessage m ctx c op payload r in
  frame r (final res) ∧
  if closed r then res = (Ret (Err (ErrSentinel ErrRoomClosed)), r, [])
  else
    match players r !! c with
    | None => res = (Ret (Err (ErrSentinel ErrNotInRoom)), r, [])
    | Some p =>
        let '(acts, answer) := h ctx r p payload in
        let a := for_each run_action acts r in
        match value a with
        | Ret _ => res = (Ret answer, final a, EHook (HMessage op p) :: effects a)
        | Panic msg =>
            res = (Ret (Err (ErrProtocol 500 "internal error")), final a,
                   EHook (HMessage op p) :: effects a ++ [ELog "message handler" msg])
        end
    end.
Proof.
  intros Hh res. split; [apply HandleMessage_rel|]. subst res. unfold HandleMessage.
  destruct (closed r) eqn:Hc.
  { by erewrite bind_value by (by apply do_closed). }
  destruct (players r !! c) as [p|] eqn:Hp.
  2:{ erewrite bind_value; [|apply do_silent; [done|]]; [done|].
      unfold HandleMessage_closure. by rewrite bind_get, Hp. }
  destruct (h ctx r p payload) as [acts answer] eqn:Ha.
  pose proof (run_handler_run h ctx op p payload r acts answer Ha) as Hr. cbv zeta in Hr.
  assert (∀ l, HandleMessage_closure m ctx c op payload (r, l) =
    (Ret tt, (final (for_each run_action acts r), (handled (for_each run_action acts r) op p answer).1),
     (handled (for_each run_action acts r) op p answer).2)) as Hcl.
  { intros l. unfold HandleMessage_closure. rewrite bind_get, Hp. rewrite Hh.
    erewrite bind_zoom_value by exact Hr. cbn. by rewrite app_nil_r. }
  erewrite bind_value by (by apply do_run; [|rewrite Hcl]).
  rewrite (recover_effects _ _ _ _ _ _ (Hcl _)). cbn. rewrite !app_nil_r.
  unfold handled. by destruct (value _).
Qed.

(** A panic of OnLeave when the only player goes: [Leave] publishes
    PlayerLeft and returns, but the removal of the now empty room is never
    armed; [JoinReplace] reports success and publishes PlayerJoined for a player
    that is not in the room, which is left empty, without a pending removal. *)
Lemma onleave_panic_leaks m now c c' u r r1 p msg es :
  room_inv r → valid (PlayerLeft.mk c) → valid (PlayerJoined.mk c' u) →
  closed r = false → isOpen r = true → timers r = ∅ → players r = {[c := p]} →
  quiet_module m → unseat m c r = (Panic msg, r1, es) →
  players r1 = ∅ ∧ timers r1 = ∅ ∧ Forall (λ e, removes e = false) es ∧
  Leave m c r =
    (Ret tt, r1, es ++ [ELog "inbox" msg; EPublish (topic r) (left_event c)]) ∧
  JoinReplace m now c c' u r =
    (Ret None, r1, es ++ [ELog "inbox" msg; EPublish (topic r) (left_event c);
                          EPublish (topic r) (joined_event c' u)]).
Proof.
  intros Hr Hl Hj Hc Ho Ht Hp Hq Hu.
  assert (quiet_rel (set_players (delete c) r) es r1) as [F _ _ HT HR].
  { revert Hu. unfold unseat. rewrite Hp, lookup_singleton_eq. intros Hu.
    pose proof (quiet_callOnLeave m p Hq (set_players (delete c) r)) as HQ.
    by rewrite Hu in HQ. }
  split. { rewrite (frame_players _ _ F). simpl. rewrite Hp. apply delete_singleton_eq. }
  split. { by rewrite HT. }
  split; [done|]. split.
  - rewrite Leave_run by done. unfold leaves_empty.
    rewrite Hc, Hp, lookup_singleton_eq, Hu. cbn. by rewrite <- app_assoc.
  - rewrite JoinReplace_run by done. by rewrite Hc, Ho, Hu.
Qed.

(** An OnInit that turns the keep on and off again, in a room without a
    grace period, is a fatal error of the runtime: the removal callback is not
    set yet and [go] of a nil function is not a panic that [safe] recovers. *)
Lemma oninit_toggle_is_fatal m zeroS uuid config u :
  newState m = None →
  onInit m = Some (λ _, [CallSetKeepOnEmpty true; CallSetKeepOnEmpty false]) →
  (config.(RoomConfig.EmptyGrace) ≤ 0)%Z →
  effects (newRoom zeroS uuid config m u) = [EHook HInit; EFatal "go of nil func value"].
Proof.
  intros Hs Hi Hg. apply Z.leb_le in Hg.
  assert (∀ st, initState zeroS m = Ret st → newRoom zeroS uuid config m u =
    runOnInit m (mk (config.(RoomConfig.Name) +:+ "_" +:+ uuid) config st ∅ true None false false
      false ∅ 0) u) as Hn.
  { intros st Hst. unfold newRoom. by rewrite Hst, bind_lift. }
  rewrite (Hn zeroS) by by unfold initState; rewrite Hs.
  unfold runOnInit. rewrite Hi. unfold safe, recover, run_hook, for_each, run_action, SetKeepOnEmpty,
    scheduleEmptyRemoval, cancelEmptyRemoval, goOnEmpty, when, mbind, M_bind, get, modify, emit, mret, M_ret.
  cbn -[Z.leb]. rewrite map_size_empty. cbn -[Z.leb]. by rewrite Hg.
Qed.
End props.

(** ** Concrete rooms *)

Definition demo_config (max : N) (grace : Z) : RoomConfig.t :=
  RoomConfig.mk "duel" "duel" max 0 ∅ grace.

(** A fresh plain room, as [Manager.Create] shares it. *)
Definition demo_room (max : N) (grace : Z) : Room.t unit :=
  setOnEmpty (mk "duel_1" (demo_config max grace) tt ∅ true None false false false ∅ 0).

Definition alice : Player.t := Player.mk 1 "alice" 0.
Definition bob : Player.t := Player.mk 2 "bob" 0.

Lemma demo_reachable max grace : (max < 65536)%N → reachable plainModule (demo_room max grace, []).
Proof. intros Hm. apply reach_new. by apply (nb_new plainModule tt "1" (demo_config max grace) _ tt []). Qed.

Definition demo_joined (max : N) (grace : Z) : Room.t unit :=
  final (Join plainModule 0 1 "alice" (demo_room max grace)).

Lemma demo_joined_reachable max grace :
  (max < 65536)%N → reachable plainModule (demo_joined max grace, []).
Proof.
  intros Hm. eapply reach_step; [by apply (demo_reachable max grace)|]. by apply step_join.
Qed.

(** C33: without a grace period a live room is removed: a player that joins
    between the two closures of the last leave of another is in the room when
    the removal starts ([scheduleEmptyRemoval] does not look at the players). *)
Theorem zero_grace_removes_live_room :
  ∃ s es s', reachable plainModule s ∧ step plainModule s es s' ∧
    EGoOnEmpty (ID s.1) ∈ es ∧ players s'.1 = {[2 := bob]}%N ∧ closed s'.1 = false.
Proof.
  set (r1 := demo_joined 0 0).
  set (r2 := final (Leave_first plainModule 1 r1)).
  set (r3 := final (Join plainModule 0 2 "bob" r2)).
  exists (r3, [] ++ TSchedule :: []). eexists _, _. split; [|split; [apply step_schedule|]].
  - apply (reach_step plainModule (r2, [TSchedule])
      (effects (Join plainModule 0 2 "bob" r2))); [|by apply step_join].
    apply (reach_step plainModule (r1, []) (effects (Leave_first plainModule 1 r1))).
    + by apply demo_joined_reachable.
    + by apply (step_leave plainModule 1 true).
  - split; [left|]. by split.
Qed.

(** ** Witnesses *)

Lemma demo_inv max grace : (max < 65536)%N → room_inv (demo_room max grace).
Proof. intros Hm. apply (reachable_facts plainModule _ (demo_reachable max grace Hm)). Qed.

Lemma demo_joined_inv max grace : (max < 65536)%N → room_inv (demo_joined max grace).
Proof. intros Hm. apply (reachable_facts plainModule _ (demo_joined_reachable max grace Hm)). Qed.

(** Alice takes the only seat of the room. *)
Lemma Join_spec_witness :
  value (Join plainModule 0 1 "alice" (demo_room 1 0)) = Ret None ∧
  players (final (Join plainModule 0 1 "alice" (demo_room 1 0))) = {[1 := alice]}%N.
Proof.
  destruct (Join_spec plainModule 0 1 "alice" (demo_room 1 0)) as [_ [Hres [Hp _]]];
    [by apply demo_inv|done|]. split; [by rewrite Hres|exact Hp].
Defined.

(** Bob takes over her seat in the full room. *)
Lemma JoinReplace_spec_witness :
  isFull (demo_joined 1 0) = true ∧
  value (JoinReplace plainModule 0 1 2 "bob" (demo_joined 1 0)) = Ret None ∧
  players (final (JoinReplace plainModule 0 1 2 "bob" (demo_joined 1 0))) = {[2 := bob]}%N.
Proof.
  destruct (JoinReplace_spec plainModule 0 1 2 "bob" (demo_joined 1 0) alice)
    as (Hv & _ & Hp & _); [by apply demo_joined_inv|done|done|done|done|done|done|].
  split; [reflexivity|]. split; [exact Hv|exact Hp].
Defined.

(** She leaves a room with a grace period: its timer removes it. *)
Lemma last_leave_removes_witness :
  has_grace (demo_joined 1 5) ∧
  ∃ h, timers (final (Leave plainModule 1 (demo_joined 1 5))) = {[h]} ∧
    effects (onEmptyTimer (expire_timer h (final (Leave plainModule 1 (demo_joined 1 5))))) =
      [EGoOnEmpty "duel_1"].
Proof.
  split; [done|].
  destruct (last_leave_removes plainModule 1 (demo_joined 1 5) alice) as (_ & _ & H);
    [by apply demo_joined_inv|done|done|done|done|]. exact (proj2 H).
Defined.

Lemma reachable_room_inv_witness : room_inv (demo_joined 1 5).
Proof.
  apply (reachable_room_inv plainModule (demo_joined 1 5, [])). by apply demo_joined_reachable.
Defined.

(** The room with its timer expired: the check finds it empty. *)
Definition demo_expired : sys (S := unit) :=
  (expire_timer 0 (final ((do_unit scheduleEmptyRemoval ;; mret tt)
     (final (Leave_first plainModule 1 (demo_joined 1 5))))), [TTimer]).

Lemma demo_expired_reachable : reachable plainModule demo_expired.
Proof.
  apply (reach_step plainModule
    (final ((do_unit scheduleEmptyRemoval ;; mret tt)
       (final (Leave_first plainModule 1 (demo_joined 1 5)))), []) []).
  - apply (reach_step plainModule (final (Leave_first plainModule 1 (demo_joined 1 5)), [] ++ TSchedule :: [])
      (effects ((do_unit scheduleEmptyRemoval ;; mret tt)
         (final (Leave_first plainModule 1 (demo_joined 1 5)))))); [|apply step_schedule].
    apply (reach_step plainModule (demo_joined 1 5, [])
      (effects (Leave_first plainModule 1 (demo_joined 1 5)))).
    + by apply demo_joined_reachable.
    + by apply (step_leave plainModule 1 true).
  - apply (step_expire plainModule 0). vm_compute. done.
Qed.

Lemma grace_removes_only_empty_room_witness :
  effects (onEmptyTimer demo_expired.1) = [EGoOnEmpty "duel_1"] ∧ players demo_expired.1 = ∅.
Proof.
  split; [reflexivity|].
  apply (grace_removes_only_empty_room plainModule demo_expired
    (effects (onEmptyTimer demo_expired.1)) (after onEmptyTimer [] demo_expired.1) "duel_1").
  - apply demo_expired_reachable.
  - done.
  - apply (step_timer plainModule demo_expired.1 [] []).
  - left.
Defined.

(** A module whose OnInit keeps its rooms. *)
Definition keeper : Module unit :=
  mkModule "k" (demo_config 0 0) None (Some (λ _, [CallSetKeepOnEmpty true])) None None None 0 None ∅.

Definition kept_room : Room.t unit :=
  setOnEmpty (mk "duel_1" (demo_config 0 0) tt ∅ true None true false false ∅ 0).

Lemma keeper_quiet : quiet_module keeper.
Proof. by split. Qed.

Lemma kept_room_never_removed_witness :
  Forall (λ e, removes e = false) (effects (Join keeper 0 1 "alice" kept_room) ++ []).
Proof.
  apply (kept_room_never_removed keeper (kept_room, []) _
    (after (Join keeper 0 1 "alice") [] kept_room)).
  - apply reach_new. by apply (nb_new keeper tt "1" (demo_config 0 0) _ tt [EHook HInit]).
  - apply keeper_quiet.
  - reflexivity.
  - eapply run_step; [by apply step_join|apply run_nil].
Defined.

Lemma personal_events_exact_witness :
  ∃ es, SendTo ["alice"; "carol"] 200 None (demo_joined 0 0) = (Ret tt, demo_joined 0 0, es) ∧
    es ≡ₚ [EPublish "client:1" (Event.mk 200 [])].
Proof.
  destruct (personal_events_exact (demo_joined 0 0) ["alice"; "carol"] 200 None [])
    as [(es & Hes & Hp) _]; [by apply demo_joined_inv|done|].
  exists es. split; [exact Hes|exact Hp].
Defined.

(** A handler that panics after a write. *)
Definition crasher : Module nat :=
  mkModule "c" (demo_config 0 0) None None None None None 0 None
    {[200%N := λ _ _ _ _, ([SetState 1; CallPanic "boom"], Ok None)]}.

Definition crash_room : Room.t nat :=
  mk "duel_1" (demo_config 0 0) 0 {[1%N := alice]} true None false true false ∅ 0.

Lemma HandleMessage_spec_witness :
  value (HandleMessage crasher false 1 200 [] crash_room) =
    Ret (Err (ErrProtocol 500 "internal error")) ∧
  State (final (HandleMessage crasher false 1 200 [] crash_room)) = 1.
Proof.
  destruct (HandleMessage_spec crasher false 1 200 [] crash_room
    (λ _ _ _ _, ([SetState 1; CallPanic "boom"], Ok None))) as [_ Hres]; [reflexivity|].
  cbv zeta in Hres. simpl in Hres. by rewrite Hres.
Defined.

(** An OnLeave that panics. *)
Definition slammer : Module unit :=
  mkModule "s" (demo_config 0 0) None None None (Some (λ _ _, [CallPanic "slam"])) None 0 None ∅.

Lemma slammer_quiet : quiet_module slammer.
Proof. split; simpl; try done. intros f r p [= <-]. by repeat constructor. Qed.

Lemma onleave_panic_leaks_witness :
  JoinReplace slammer 0 1 2 "bob" (demo_joined 0 0) =
  (Ret None, set_players (delete 1%N) (demo_joined 0 0),
   [EHook (HLeave alice); ELog "inbox" "slam"; EPublish "room:duel_1" (left_event 1);
    EPublish "room:duel_1" (joined_event 2 "bob")]).
Proof.
  apply (onleave_panic_leaks slammer 0 1 2 "bob" (demo_joined 0 0)
    (set_players (delete 1%N) (demo_joined 0 0)) alice "slam" [EHook (HLeave alice)]).
  - by apply demo_joined_inv.
  - done.
  - done.
  - done.
  - done.
  - reflexivity.
  - reflexivity.
  - apply slammer_quiet.
  - reflexivity.
Defined.

Definition toggler : Module unit :=
  mkModule "t" (demo_config 0 0) None
    (Some (λ _, [CallSetKeepOnEmpty true; CallSetKeepOnEmpty false])) None None None 0 None ∅.

Lemma oninit_toggle_is_fatal_witness :
  effects (newRoom tt "1" (demo_config 0 0) toggler tt) =
    [EHook HInit; EFatal "go of nil func value"].
Proof. apply (oninit_toggle_is_fatal toggler); [reflexivity|reflexivity|done]. Defined.
