(* ===== verification/Manager.v ===== *)
(** * The room manager (room/manager.go) and the interfaces it uses (room/module.go)

    The manager owns the rooms and the room types. It sees a room through
    [AnyRoom] and a room type through [AnyModule], the two interfaces of
    room/module.go; [any_room] and [any_module] are the implementations, a room
    of any game state together with its module. Rooms are shared by pointer: the
    manager's map holds pointers into [heap], and a room that was taken out of
    the map lives on for whoever holds its pointer. *)

From S2P Require Import Prelude Codec Schema EventBus Room.

(** ** The interfaces *)

Class AnyRoom (R : Type) := {
  room_ID : R → string;
  room_Config : R → RoomConfig.t;
  room_Info : M R effect (result RoomInfo.t);
  room_Join : Z → N → string → M R effect (option error);
  room_JoinReplace : Z → N → N → string → M R effect (option error);
  room_Leave : N → M R effect unit;
  room_Close : M R effect unit;
  room_Open : M R effect unit;
  room_IsOpen : M R effect bool;
  room_SetKeepOnEmpty : bool → M R effect unit;
  room_Shutdown : M R effect unit;
  room_HandlesOp : N → R → bool;
  room_HandleMessage : bool → N → N → bytes → M R effect (result (option Marshaler));
  room_setOnEmpty : R → R
}.

Class AnyModule (Mo R : Type) := {
  RoomType : Mo → string;
  BaseConfig : Mo → RoomConfig.t;
  module_Create : Mo → string → RoomConfig.t → M unit effect R;
  Ops : Mo → list N
}.

(** ** The implementations *)

(** A module of some game state, with the zero value of the state. *)
Record AnyMod : Type := anyMod {
  am_S : Type; am_zero : am_S; am_module : Room.Module am_S
}.

(** A room of some game state, with the module it runs. *)
Record Any : Type := any { any_mod : AnyMod; any_room : Room.t (am_S any_mod) }.

(** Code of the room's actor, seen on the room behind the interface. *)
Definition on_any {A} (f : ∀ a : AnyMod, M (Room.t (am_S a)) effect A) : M Any effect A := λ r,
  let '(o, r', es) := f (any_mod r) (any_room r) in (o, any (any_mod r) r', es).

(** [Create] of module.go: the room [newRoom] builds. *)
Definition any_Create `{GoRange} (a : AnyMod) (uuid : string) (config : RoomConfig.t) :
    M unit effect Any :=
  r ← Room.newRoom (am_zero a) uuid config (am_module a); mret (any a r).

#[export] Instance any_AnyRoom `{GoRange} : AnyRoom Any := {
  room_ID r := Room.ID (any_room r);
  room_Config r := Room.config (any_room r);
  room_Info := on_any (λ _, Room.Info);
  room_Join now c u := on_any (λ a, Room.Join (am_module a) now c u);
  room_JoinReplace now old c u := on_any (λ a, Room.JoinReplace (am_module a) now old c u);
  room_Leave c := on_any (λ a, Room.Leave (am_module a) c);
  room_Close := on_any (λ _, Room.Close);
  room_Open := on_any (λ _, Room.Open);
  room_IsOpen := on_any (λ _, Room.IsOpen);
  room_SetKeepOnEmpty keep := on_any (λ _, Room.SetKeepOnEmpty keep);
  room_Shutdown := on_any (λ a, Room.Shutdown (am_module a));
  room_HandlesOp op r := Room.HandlesOp (am_module (any_mod r)) op;
  room_HandleMessage ctx c op payload :=
    on_any (λ a, Room.HandleMessage (am_module a) ctx c op payload);
  room_setOnEmpty r := any (any_mod r) (Room.setOnEmpty (any_room r))
}.

#[export] Instance any_AnyModule `{GoRange} : AnyModule AnyMod Any := {
  RoomType a := Room.typ (am_module a);
  BaseConfig a := Room.mconfig (am_module a);
  module_Create := any_Create;
  Ops a := (range (Room.handlers (am_module a))).*1
}.

Definition plainModule : AnyMod := anyMod unit tt Room.plainModule.

(** ** The manager *)

Module Manager.

Record sessionInfo := mkSession { RoomID : string; ClientID : N }.

#[export] Instance sessionInfo_eq_dec : EqDecision sessionInfo.
Proof. solve_decision. Defined.

Abbreviation sessions := (gmap string sessionInfo).      (* roomType -> session *)

Section manager.
Context {R Mo : Type}.

Record t := mk {
  rooms : gmap string nat;                   (* id -> pointer *)
  userSessions : gmap string sessions;       (* userID -> roomType -> session *)
  modules : gmap string Mo;
  opTypes : gmap N string;
  heap : gmap nat R;                         (* pointer -> room *)
  next : nat
}.

Definition NewManager : t := mk ∅ ∅ ∅ ∅ ∅ 0.

Definition set_rooms (f : gmap string nat → gmap string nat) (m : t) : t :=
  mk (f m.(rooms)) m.(userSessions) m.(modules) m.(opTypes) m.(heap) m.(next).
Definition set_userSessions (f : gmap string sessions → gmap string sessions) (m : t) : t :=
  mk m.(rooms) (f m.(userSessions)) m.(modules) m.(opTypes) m.(heap) m.(next).
Definition set_modules (f : gmap string Mo → gmap string Mo) (m : t) : t :=
  mk m.(rooms) m.(userSessions) (f m.(modules)) m.(opTypes) m.(heap) m.(next).
Definition set_opTypes (f : gmap N string → gmap N string) (m : t) : t :=
  mk m.(rooms) m.(userSessions) m.(modules) (f m.(opTypes)) m.(heap) m.(next).
Definition set_heap (f : gmap nat R → gmap nat R) (m : t) : t :=
  mk m.(rooms) m.(userSessions) m.(modules) m.(opTypes) (f m.(heap)) m.(next).

(** A new room is allocated. *)
Definition alloc (r : R) : M t effect nat := λ m,
  (Ret m.(next),
   mk m.(rooms) m.(userSessions) m.(modules) m.(opTypes) (<[m.(next) := r]> m.(heap))
      (S m.(next)), []).

(** A method call on the room at [p]. *)
Definition call {A} (p : nat) (op : M R effect A) : M t effect A := λ m,
  match m.(heap) !! p with
  | Some r => let '(a, r', es) := op r in (a, set_heap (insert p r') m, es)
  | None => (Panic "invalid memory address or nil pointer dereference", m, [])
  end.

(** A field of the room at [p]. *)
Definition peek {A} (p : nat) (f : R → A) : M t effect A := λ m,
  match m.(heap) !! p with
  | Some r => (Ret (f r), m, [])
  | None => (Panic "invalid memory address or nil pointer dereference", m, [])
  end.

Definition publish (topic : string) (ev : outcome Event.t) : M t effect unit :=
  ev ← lift_outcome ev; emit (EPublish topic ev).

Context `{!AnyRoom R} `{!AnyModule Mo R} `{GoRange} (plainModule : Mo).

(** ** Room types *)

(** The loop over [mod.Ops()]. *)
Definition claim (typ : string) (op : N) : M t effect unit :=
  m ← get;
  match m.(opTypes) !! op with
  | Some owner => go_panic ("room: opcode " +:+ pretty op +:+ " claimed by both " +:+ quoted owner +:+ " and " +:+ quoted typ)
  | None => modify (set_opTypes (insert op typ))
  end.

Definition RegisterModule (md : Mo) : M t effect unit :=
  m ← get;
  let typ := RoomType md in
  if String.eqb typ "" then go_panic "room: module type is required"
  else
    match m.(modules) !! typ with
    | Some _ => go_panic ("room: module type " +:+ quoted typ +:+ " already registered")
    | None =>
        for_each (claim typ) (Ops md) ;;
        modify (set_modules (insert typ md))
    end.

Definition OpType (op : N) (m : t) : option string := m.(opTypes) !! op.

(** ** Creating, finding and removing rooms *)

(** The configuration of a room of a registered type. *)
Definition overrideConfig (base config : RoomConfig.t) : RoomConfig.t :=
  RoomConfig.ApplyDefaults (RoomConfig.mk
    (if String.eqb config.(RoomConfig.Name) "" then base.(RoomConfig.Name) else config.(RoomConfig.Name))
    config.(RoomConfig.Type_)
    (if (config.(RoomConfig.MaxPlayers) =? 0)%N then base.(RoomConfig.MaxPlayers)
     else config.(RoomConfig.MaxPlayers))
    base.(RoomConfig.SingletonMode)
    (if 0 <? size config.(RoomConfig.Options) then config.(RoomConfig.Options)
     else base.(RoomConfig.Options))
    base.(RoomConfig.EmptyGrace)).

(** [module_Create] runs before the room is shared: its state is its own. *)
Definition build (md : Mo) (uuid : string) (config : RoomConfig.t) : M t effect R := λ m,
  let '(r, _, es) := module_Create md uuid config tt in (r, m, es).

(** [m.rooms[r.ID()] = r] under the lock. *)
Definition list_room (r : R) : M t effect nat :=
  p ← alloc r;
  modify (set_rooms (insert (room_ID r) p)) ;;
  mret p.

Definition announceCreated (p : nat) : M t effect unit :=
  info ← call p room_Info;
  match info with
  | Ok info => publish "lobby" (NewEvent EventRoomCreated (Some (RoomInfo.Marshal info)))
  | Err _ => mret tt
  end.

Definition Create (uuid : string) (config : RoomConfig.t) : M t effect nat :=
  m ← get;
  r ← (match m.(modules) !! config.(RoomConfig.Type_) with
       | Some md => build md uuid (overrideConfig (BaseConfig md) config)
       | None => build plainModule uuid (RoomConfig.ApplyDefaults config)
       end);
  p ← list_room (room_setOnEmpty r);
  announceCreated p ;;
  mret p.

Definition Find (id : string) (m : t) : option nat := m.(rooms) !! id.

(** [List]: the snapshot of the map, then [Info] of each room. *)
Fixpoint infos (ps : list nat) : M t effect (list RoomInfo.t) :=
  match ps with
  | [] => mret []
  | p :: ps =>
      info ← call p room_Info;
      rest ← infos ps;
      mret (match info with Ok info => info :: rest | Err _ => rest end)
  end.

Definition List : M t effect (list RoomInfo.t) := m ← get; infos (range m.(rooms)).*2.

(** [delete(sessions, typ)], and the user's map with its last record. *)
Definition dropSession (userID typ : string) (us : gmap string sessions) : gmap string sessions :=
  let ss := delete typ (default ∅ (us !! userID)) in
  if size ss =? 0 then delete userID us else <[userID := ss]> us.

Definition cleanupSessionType (roomType roomID : string) (us : gmap string sessions) :
    gmap string sessions :=
  foldl (λ us '(userID, ss),
    foldl (λ us '(typ, sess),
      if String.eqb typ roomType && String.eqb sess.(RoomID) roomID
      then dropSession userID typ us else us)
      us (range ss))
    us (range us).

(** [Remove] under the lock, and after it. *)
Definition Remove_locked (id : string) : M t effect (option nat) :=
  m ← get;
  match m.(rooms) !! id with
  | None => mret None
  | Some p =>
      modify (set_rooms (delete id)) ;;
      roomType ← peek p (λ r, (room_Config r).(RoomConfig.Type_));
      modify (set_userSessions (cleanupSessionType roomType id)) ;;
      mret (Some p)
  end.

Definition announceRemoved (id : string) : M t effect unit :=
  publish "lobby" (NewEvent EventRoomRemoved (Some (RoomRemoved.Marshal (RoomRemoved.mk id)))).

Definition Remove (id : string) : M t effect unit :=
  room ← Remove_locked id;
  match room with
  | None => mret tt
  | Some p => call p room_Shutdown ;; announceRemoved id
  end.

(** [ShutdownAll] under the lock: the rooms to shut down. *)
Definition ShutdownAll_locked : M t effect (list nat) :=
  m ← get;
  let rs := (range m.(rooms)).*2 in
  modify (set_rooms (λ _, ∅)) ;;
  modify (set_userSessions (λ _, ∅)) ;;
  mret rs.

Definition ShutdownAll : M t effect unit :=
  rs ← ShutdownAll_locked; for_each (λ p, call p room_Shutdown) rs.

(** ** Joining and leaving *)

(** [m.userSessions[userID][roomType]]; a missing inner map reads as empty. *)
Definition sessionOf (userID roomType : string) (m : t) : option sessionInfo :=
  default ∅ (m.(userSessions) !! userID) !! roomType.

Definition record (userID roomType : string) (s : sessionInfo) (m : t) : t :=
  set_userSessions (λ us, <[userID := <[roomType := s]> (default ∅ (us !! userID))]> us) m.

(** What [JoinRoom] knows when it releases the lock: the room, its mode and
    type, and the session it replaces. *)
Record plan := mkPlan {
  plan_room : nat; plan_mode : N; plan_type : string; plan_replaced : option sessionInfo
}.

(** [JoinRoom] under the lock. *)
Definition JoinRoom_locked (userID : string) (clientID : N) (roomID : string) :
    M t effect (result plan) :=
  m ← get;
  match m.(rooms) !! roomID with
  | None => mret (Err (ErrSentinel ErrRoomNotFound))
  | Some p =>
      config ← peek p room_Config;
      let mode := config.(RoomConfig.SingletonMode) in
      let roomType := config.(RoomConfig.Type_) in
      if (mode =? SingletonAllow)%N then mret (Ok (mkPlan p mode roomType None))
      else
        let oldSess := sessionOf userID roomType m in
        let other := match oldSess with
                     | Some s => negb (bool_decide (s = mkSession roomID clientID))
                     | None => false
                     end in
        if other && (mode =? SingletonReject)%N then mret (Err (ErrSentinel ErrAlreadyInRoomOfType))
        else
          let replaced := if other && (mode =? SingletonReplace)%N then oldSess else None in
          modify (record userID roomType (mkSession roomID clientID)) ;;
          mret (Ok (mkPlan p mode roomType replaced))
  end.

Definition kick (clientID : N) (roomID : string) : M t effect unit :=
  publish (clientTopic clientID)
    (NewEvent EventRoomKicked (Some (Kicked.Marshal (Kicked.mk "replaced" roomID)))).

(** The join itself, outside the lock. *)
Definition JoinRoom_enter (now : Z) (userID : string) (clientID : N) (roomID : string) (pl : plan) :
    M t effect (option error) :=
  match pl.(plan_replaced) with
  | Some s =>
      if String.eqb s.(RoomID) roomID then
        joinErr ← call pl.(plan_room) (room_JoinReplace now s.(ClientID) clientID userID);
        when (bool_decide (joinErr = None)) (kick s.(ClientID) roomID) ;;
        mret joinErr
      else
        joinErr ← call pl.(plan_room) (room_Join now clientID userID);
        when (bool_decide (joinErr = None))
          (m ← get;
           match Find s.(RoomID) m with
           | Some old => call old (room_Leave s.(ClientID))
           | None => mret tt
           end ;;
           kick s.(ClientID) roomID) ;;
        mret joinErr
  | None => call pl.(plan_room) (room_Join now clientID userID)
  end.

(** The rollback of a failed join. *)
Definition rollback (userID roomType : string) (clientID : N) (m : t) : t :=
  match sessionOf userID roomType m with
  | Some cur => if (cur.(ClientID) =? clientID)%N
                then set_userSessions (dropSession userID roomType) m else m
  | None => m
  end.

Definition JoinRoom (now : Z) (userID : string) (clientID : N) (roomID : string) :
    M t effect (result RoomInfo.t) :=
  pl ← JoinRoom_locked userID clientID roomID;
  match pl with
  | Err e => mret (Err e)
  | Ok pl =>
      joinErr ← JoinRoom_enter now userID clientID roomID pl;
      match joinErr with
      | Some e =>
          when (negb (pl.(plan_mode) =? SingletonAllow)%N)
            (modify (rollback userID pl.(plan_type) clientID)) ;;
          mret (Err e)
      | None =>
          info ← call pl.(plan_room) room_Info;
          mret (match info with
                | Ok info => Ok info
                | Err _ => Err (ErrSentinel ErrRoomNotFound)
                end)
      end
  end.

(** [LeaveRoom] under the lock: the room to leave. *)
Definition LeaveRoom_locked (userID : string) (clientID : N) (roomID : string) :
    M t effect (option nat) :=
  m ← get;
  match m.(rooms) !! roomID with
  | None => mret None
  | Some p =>
      config ← peek p room_Config;
      let roomType := config.(RoomConfig.Type_) in
      when (negb (config.(RoomConfig.SingletonMode) =? SingletonAllow)%N)
        (match sessionOf userID roomType m with
         | Some sess =>
             when (bool_decide (sess = mkSession roomID clientID))
               (modify (set_userSessions (dropSession userID roomType)))
         | None => mret tt
         end) ;;
      mret (Some p)
  end.

Definition LeaveRoom (userID : string) (clientID : N) (roomID : string) : M t effect unit :=
  room ← LeaveRoom_locked userID clientID roomID;
  match room with
  | None => mret tt
  | Some p => call p (room_Leave clientID)
  end.

(** ** Routing *)

(** The rooms of the client that are of the opcode's type, in order. *)
Fixpoint matches (typ : string) (ids : list string) : M t effect (list nat) :=
  match ids with
  | [] => mret []
  | id :: ids =>
      m ← get;
      here ← (match m.(rooms) !! id with
              | Some p => config ← peek p room_Config;
                          mret (if String.eqb config.(RoomConfig.Type_) typ then [p] else [])
              | None => mret []
              end);
      rest ← matches typ ids;
      mret (here ++ rest)
  end.

(** [None] is the unhandled opcode. *)
Definition DispatchRoomMessage (ctx : bool) (clientID op : N) (payload : bytes)
    (clientRoomIDs : list string) : M t effect (option (result (option Marshaler))) :=
  m ← get;
  match OpType op m with
  | None => mret None
  | Some typ =>
      ps ← matches typ clientRoomIDs;
      match ps with
      | [] => mret (Some (Err (ErrSentinel ErrNotInRoom)))
      | [p] => res ← call p (room_HandleMessage ctx clientID op payload); mret (Some res)
      | _ => mret (Some (Err (ErrSentinel ErrAmbiguousRoom)))
      end
  end.
End manager.
Arguments t R Mo : clear implicits.
End Manager.
