(* ===== verification/ManagerSpec.v ===== *)
(** * What the manager relies on and maintains (specification of [Manager])

    [AnyRoomSpec] and [AnyModuleSpec] state what a room and a room type promise
    to the manager; [any_AnyRoomSpec] and [any_AnyModuleSpec] discharge them for
    the rooms of [Room]. The invariant [wf] of the manager is proved against the
    interface only. *)

From S2P Require Import Prelude Codec Schema SchemaSpec EventBus Room RoomSpec RoomActor Manager.

(** ** The contract of the interfaces *)

(** A player the wire can announce: the id is 64-bit and the name's length fits. *)
Definition nameable (c : N) (u : string) : Prop := valid (PlayerJoined.mk c u).
Definition is_id (c : N) : Prop := valid (PlayerLeft.mk c).

(** What the manager's theorems see of a room. *)
Class AnyRoomView (R : Type) := {
  room_ok : R → Prop;
  members : R → gset N;
  alive : R → bool;
  info : R → RoomInfo.t
}.

(** An operation keeps the identity of the room and its invariant. *)
Definition stable {R A} `{!AnyRoom R, !AnyRoomView R} (op : M R effect A) : Prop :=
  ∀ r, room_ok r → room_ID (final (op r)) = room_ID r ∧
       room_Config (final (op r)) = room_Config r ∧ room_ok (final (op r)).

Class AnyRoomSpec (R : Type) `{!AnyRoom R, !AnyRoomView R} : Prop := {
  Join_stable now c u : nameable c u → stable (room_Join now c u);
  JoinReplace_stable now old c u : is_id old → nameable c u → stable (room_JoinReplace now old c u);
  Leave_stable c : is_id c → stable (room_Leave c);
  Shutdown_stable : stable room_Shutdown;
  HandleMessage_stable ctx c op payload : stable (room_HandleMessage ctx c op payload);

  Info_law r :
    room_Info r = (Ret (if alive r then Ok (info r) else Err (ErrSentinel ErrRoomClosed)), r, []);
  Info_ID r : (info r).(RoomInfo.ID) = room_ID r;
  Join_law now c u r :
    room_ok r → nameable c u →
    (∃ e, room_Join now c u r = (Ret (Some e), r, [])) ∨
    (value (room_Join now c u r) = Ret None ∧ alive r = true ∧
     alive (final (room_Join now c u r)) = true ∧
     members (final (room_Join now c u r)) = {[c]} ∪ members r);
  JoinReplace_law now old c u r :
    room_ok r → is_id old → nameable c u → ∃ o, value (room_JoinReplace now old c u r) = Ret o;
  Leave_law c r :
    room_ok r → is_id c →
    value (room_Leave c r) = Ret tt ∧ alive (final (room_Leave c r)) = alive r ∧
    members (final (room_Leave c r)) = if alive r then members r ∖ {[c]} else members r;
  Shutdown_law r :
    value (room_Shutdown r) = Ret tt ∧ alive (final (room_Shutdown r)) = false;
  HandleMessage_law ctx c op payload r :
    ∃ o, value (room_HandleMessage ctx c op payload r) = Ret o;
  setOnEmpty_law r :
    room_ok r → room_ok (room_setOnEmpty r) ∧ room_ID (room_setOnEmpty r) = room_ID r ∧
    room_Config (room_setOnEmpty r) = room_Config r ∧ members (room_setOnEmpty r) = members r ∧
    alive (room_setOnEmpty r) = alive r;

  (** A room that is shut down stays as it is, whatever is called. *)
  dead_law r :
    alive r = false →
    (∀ now c u, final (room_Join now c u r) = r) ∧
    (∀ now old c u, final (room_JoinReplace now old c u r) = r) ∧
    (∀ c, final (room_Leave c r) = r) ∧ final (room_Shutdown r) = r ∧
    ∀ ctx c op payload, final (room_HandleMessage ctx c op payload r) = r
}.

Class AnyModuleSpec (Mo R : Type) `{!AnyRoom R, !AnyModule Mo R, !AnyRoomView R} : Prop := {
  Create_law md uuid config u r es :
    (config.(RoomConfig.MaxPlayers) < 65536)%N →
    module_Create md uuid config u = (Ret r, u, es) →
    room_ok r ∧ room_Config r = config ∧ members r = ∅ ∧ alive r = true ∧
    room_ID r = config.(RoomConfig.Name) +:+ "_" +:+ uuid
}.

(** ** The rooms of [Room] keep it *)

Section implementation.
Context `{GoRange}.

Lemma on_any_run {A} (f : ∀ a : AnyMod, M (Room.t (am_S a)) effect A) r :
  on_any f r = (value (f _ (any_room r)), any (any_mod r) (final (f _ (any_room r))),
                effects (f _ (any_room r))).
Proof. unfold on_any, value, final, effects. by destruct (f _ (any_room r)) as [[]]. Qed.

#[export] Instance any_AnyRoomView : AnyRoomView Any := {
  room_ok r := room_inv (any_room r);
  members r := dom (Room.players (any_room r));
  alive r := negb (Room.closed (any_room r));
  info r := Room.roomInfo (any_room r)
}.

Lemma any_stable {A} (f : ∀ a : AnyMod, M (Room.t (am_S a)) effect A) :
  (∀ a r, room_inv r → room_inv (final (f a r)) ∧ ident_rel r (effects (f a r)) (final (f a r))) →
  stable (on_any f).
Proof.
  intros Hf r Hr. rewrite on_any_run. simpl.
  destruct (Hf _ _ Hr) as [Hi [HID Hc]]. done.
Qed.

Lemma hook_stable {S A} (f : M (Room.t S) effect A) r :
  steps hook_rel f → room_inv r → room_inv (final (f r)) ∧ ident_rel r (effects (f r)) (final (f r)).
Proof.
  intros Hf Hr. split; [by eapply hook_rel_inv|]. by eapply hook_rel_ident.
Qed.

Lemma Leave_ident {S} (m : Room.Module S) c r :
  is_id c → room_inv r →
  room_inv (final (Room.Leave m c r)) ∧ ident_rel r (effects (Room.Leave m c r)) (final (Room.Leave m c r)).
Proof.
  intros Hc Hr. pose proof (unseat_inv m c r Hr) as Hu.
  rewrite Leave_run by done. destruct (Room.closed r); [by split|].
  destruct (Room.players r !! c); [|by split].
  pose proof (hr_frame _ _ _ (unseat_rel m c r)) as [HID Hcf _ _ _ _]. simpl in HID, Hcf.
  destruct (leaves_empty m c r); [|done].
  destruct (hook_stable Room.scheduleEmptyRemoval _ steps_schedule Hu) as [Hi [HID' Hcf']].
  split; [done|]. split; cbn; congruence.
Qed.

Lemma players_frame {S} (r r' : Room.t S) : frame r r' → Room.players r' = Room.players r.
Proof. by intros []. Qed.

Lemma any_Join_law {S} (m : Room.Module S) now c u r :
  room_inv r → nameable c u →
  (∃ e, Room.Join m now c u r = (Ret (Some e), r, [])) ∨
  (value (Room.Join m now c u r) = Ret None ∧ Room.closed r = false ∧
   Room.closed (final (Room.Join m now c u r)) = false ∧
   dom (Room.players (final (Room.Join m now c u r))) = {[c]} ∪ dom (Room.players r)).
Proof.
  intros Hr Hv. rewrite Join_run by done. unfold refusal.
  destruct (Room.closed r) eqn:Hc; simpl; [left; by eexists|].
  destruct (Room.isOpen r); simpl; [|left; by eexists].
  destruct (Room.isFull r) eqn:Hf; [left; by eexists|]. right. split; [by destruct (Room.hasPlayer c r)|].
  split; [done|]. unfold Room.hasPlayer. destruct (Room.players r !! c) as [q|] eqn:Hp; simpl.
  - split; [done|]. apply set_eq. intros k. rewrite elem_of_union, elem_of_singleton.
    assert (c ∈ dom (Room.players r)) by by eapply elem_of_dom_2.
    split; [by right|]. by intros [->|].
  - set (p := Player.mk c u now).
    pose proof (steps_safe "inbox" _ (steps_callOnJoin m p) (seated p r)) as [[_ _ Hpl _ _ Hcl] _ _ _].
    pose proof (seated_frame p r) as [_ _ Hpl' _ _ Hcl']. simpl in Hpl', Hcl'.
    split; [exact (eq_trans Hcl (eq_trans Hcl' Hc))|].
    transitivity (dom (<[c := p]> (Room.players r))); [|apply dom_insert_L].
    f_equal. exact (eq_trans Hpl Hpl').
Qed.

Lemma any_Leave_law {S} (m : Room.Module S) c r :
  room_inv r → is_id c →
  value (Room.Leave m c r) = Ret tt ∧ Room.closed (final (Room.Leave m c r)) = Room.closed r ∧
  dom (Room.players (final (Room.Leave m c r))) =
    if negb (Room.closed r) then dom (Room.players r) ∖ {[c]} else dom (Room.players r).
Proof.
  intros Hr Hv. rewrite Leave_run by done. destruct (Room.closed r) eqn:Hc; [done|].
  destruct (Room.players r !! c) as [p|] eqn:Hp; simpl.
  2:{ split; [done|]. split; [done|]. apply set_eq. intros k.
      rewrite elem_of_difference, elem_of_singleton. apply not_elem_of_dom in Hp.
      split; [|by intros []]. intros Hk. split; [done|]. by intros ->. }
  split; [done|]. pose proof (unseat_rel m c r) as [[_ _ Hpl _ _ Hcl] _ _ _]. simpl in Hpl, Hcl.
  assert (Room.closed (final (unseat m c r)) = false ∧
    dom (Room.players (final (unseat m c r))) = dom (Room.players r) ∖ {[c]}) as [H1 H2].
  { split; [congruence|]. by rewrite Hpl, dom_delete_L. }
  destruct (leaves_empty m c r); [|done].
  pose proof (steps_schedule (final (unseat m c r))) as [[_ _ Hpl' _ _ Hcl'] _ _ _].
  cbn. split; [congruence|]. by rewrite Hpl'.
Qed.

Lemma any_Info_law {S} (r : Room.t S) :
  Room.Info r = (Ret (if negb (Room.closed r) then Ok (Room.roomInfo r)
                      else Err (ErrSentinel ErrRoomClosed)), r, []).
Proof.
  unfold Room.Info. destruct (Room.closed r) eqn:Hc; simpl.
  - by erewrite bind_value by (by apply do_closed).
  - by erewrite bind_value by (by apply do_silent).
Qed.

Lemma any_Shutdown_law {S} (m : Room.Module S) r :
  value (Room.Shutdown m r) = Ret tt ∧ Room.closed (final (Room.Shutdown m r)) = true.
Proof.
  destruct (Room.closed r) eqn:Hc.
  { unfold Room.Shutdown. by rewrite bind_get, Hc. }
  split.
  - unfold Room.Shutdown. rewrite bind_get, Hc, bind_modify.
    erewrite bind_value by apply cancel_effects. cbn.
    destruct (Room.onClose m); [|done]. rewrite bind_get. apply recover_value.
  - pose proof (Shutdown_rel m r Hc) as [[_ _ _ _ _ Hcl] _ _ _]. done.
Qed.

(** A closure that is submitted to a room that is shut down does not run. *)
Lemma any_dead_law {S} (m : Room.Module S) r :
  Room.closed r = true →
  (∀ now c u, final (Room.Join m now c u r) = r) ∧
  (∀ now old c u, final (Room.JoinReplace m now old c u r) = r) ∧
  (∀ c, final (Room.Leave m c r) = r) ∧ final (Room.Shutdown m r) = r ∧
  ∀ ctx c op payload, final (Room.HandleMessage m ctx c op payload r) = r.
Proof.
  intros Hc. repeat split; intros.
  - unfold Room.Join. by erewrite bind_value by (by apply do_closed).
  - unfold Room.JoinReplace. by erewrite bind_value by (by apply do_closed).
  - unfold Room.Leave, Room.Leave_first.
    erewrite bind_value; [|by erewrite bind_value by (by apply do_closed)]. done.
  - unfold Room.Shutdown. by rewrite bind_get, Hc.
  - unfold Room.HandleMessage. by erewrite bind_value by (by apply do_closed).
Qed.

#[export] Instance any_AnyRoomSpec : AnyRoomSpec Any.
Proof.
  split.
  - intros now c u Hv. apply any_stable. intros a r Hr. split; [by apply Join_inv|].
    by apply (step_ident (am_module a) (r, []) _ _ Hr (step_join _ now c u r [] Hv)).
  - intros now old c u Hl Hv. apply any_stable. intros a r Hr. split; [by apply JoinReplace_inv|].
    by apply (step_ident (am_module a) (r, []) _ _ Hr (step_replace _ now old c u r [] Hl Hv)).
  - intros c Hc. apply any_stable. intros a r Hr. by apply Leave_ident.
  - apply any_stable. intros a r Hr. split; [by apply Shutdown_inv|].
    by apply (step_ident (am_module a) (r, []) _ _ Hr (step_shutdown _ r [])).
  - intros ctx c op payload. apply any_stable. intros a r Hr. apply hook_stable; [|done].
    apply HandleMessage_rel.
  - intros [a r]. simpl. rewrite on_any_run. simpl. rewrite any_Info_law. cbn. by destruct (Room.closed r).
  - done.
  - intros now c u [a r] Hr Hv. simpl in *. rewrite on_any_run. simpl.
    destruct (any_Join_law (am_module a) now c u r Hr Hv) as [[e He]|(Hj & Hc & Hc' & Hd)].
    + left. exists e. by rewrite He.
    + right. rewrite Hc. cbn. by rewrite Hc'.
  - intros now old c u [a r] Hr Hl Hv. simpl in *. rewrite on_any_run. simpl.
    rewrite JoinReplace_run by done. destruct (_ || _); [by eexists|].
    destruct (value (unseat _ _ _)); [destruct (Room.isFull _)|]; by eexists.
  - intros c [a r] Hr Hc. simpl in *. rewrite on_any_run. simpl.
    destruct (any_Leave_law (am_module a) c r Hr Hc) as (? & -> & ?). done.
  - intros [a r]. simpl. rewrite on_any_run. simpl.
    destruct (any_Shutdown_law (am_module a) r) as [? ->]. done.
  - intros ctx c op payload [a r]. simpl. rewrite on_any_run. simpl.
    unfold Room.HandleMessage. destruct (Room.closed r) eqn:Hc.
    + erewrite bind_value by (by apply do_closed). by eexists.
    + erewrite bind_value by (by apply do_open). simpl. by eexists.
  - intros [a r] [[A B C] [U K W]]. simpl. by split; [split; split|].
  - intros [a r] Hc. apply negb_false_iff in Hc. simpl in *.
    destruct (any_dead_law (am_module a) r Hc) as (H1 & H2 & H3 & H4 & H5).
    repeat split; intros; rewrite on_any_run; cbn; by rewrite ?H1, ?H2, ?H3, ?H4, ?H5.
Qed.

#[export] Instance any_AnyModuleSpec : AnyModuleSpec AnyMod Any.
Proof.
  split. intros md uuid config u r es Hm Hn. simpl in Hn. unfold any_Create in Hn.
  destruct (Room.newRoom (am_zero md) uuid config (am_module md) u) as [[o u'] es'] eqn:Hr.
  destruct o as [r0|msg].
  2:{ by erewrite bind_panic in Hn by done. }
  erewrite bind_value in Hn by done. cbn in Hn. simplify_eq.
  destruct (newRoom_facts _ _ _ _ _ _ _ Hm Hr) as (? & ? & Hp & Hc & _ & ?). simpl.
  by rewrite Hp, Hc, dom_empty_L.
Qed.
End implementation.

(** ** The session records *)

Section sessions.
Import Manager.
Implicit Types (us : gmap string sessions).

Definition session_at us (u typ : string) : option sessionInfo := default ∅ (us !! u) !! typ.

Lemma session_at_record us u typ s u' typ' :
  session_at (<[u := <[typ := s]> (default ∅ (us !! u))]> us) u' typ' =
  if decide (u = u' ∧ typ = typ') then Some s else session_at us u' typ'.
Proof.
  unfold session_at. destruct (decide (u = u')) as [<-|Hu].
  - rewrite lookup_insert_eq. simpl. destruct (decide (typ = typ')) as [<-|Ht].
    + rewrite lookup_insert_eq. by rewrite decide_True.
    + rewrite lookup_insert_ne by done. rewrite decide_False by tauto. done.
  - rewrite lookup_insert_ne by done. rewrite decide_False by tauto. done.
Qed.

Lemma session_at_drop us u typ u' typ' :
  session_at (dropSession u typ us) u' typ' =
  if decide (u = u' ∧ typ = typ') then None else session_at us u' typ'.
Proof.
  unfold session_at, dropSession. set (ss := delete typ _).
  assert (default ∅ ((if size ss =? 0 then delete u us else <[u := ss]> us) !! u) = ss) as Hss.
  { destruct (Nat.eqb_spec (size ss) 0) as [Hz|]; [|by rewrite lookup_insert_eq].
    rewrite lookup_delete_eq. simpl. symmetry. by apply map_size_empty_iff. }
  destruct (decide (u = u')) as [<-|Hu].
  - rewrite Hss. unfold ss. destruct (decide (typ = typ')) as [<-|Ht].
    + rewrite lookup_delete_eq. by rewrite decide_True.
    + rewrite lookup_delete_ne by done. rewrite decide_False by tauto. done.
  - rewrite decide_False by tauto.
    destruct (size ss =? 0); [by rewrite lookup_delete_ne|by rewrite lookup_insert_ne].
Qed.

(** No user has an empty map of records. *)
Definition no_empty us : Prop := ∀ u, us !! u ≠ Some ∅.

Lemma no_empty_drop us u typ : no_empty us → no_empty (dropSession u typ us).
Proof.
  intros Hne u'. unfold dropSession. set (ss := delete typ _).
  destruct (Nat.eqb_spec (size ss) 0) as [Hz|Hz].
  - destruct (decide (u = u')) as [<-|]; [by rewrite lookup_delete_eq|].
    rewrite lookup_delete_ne by done. apply Hne.
  - destruct (decide (u = u')) as [<-|].
    + rewrite lookup_insert_eq. intros [= He]. rewrite He, map_size_empty in Hz. done.
    + rewrite lookup_insert_ne by done. apply Hne.
Qed.

Lemma no_empty_record us u typ s :
  no_empty us → no_empty (<[u := <[typ := s]> (default ∅ (us !! u))]> us).
Proof.
  intros Hne u'. destruct (decide (u = u')) as [<-|].
  - rewrite lookup_insert_eq. intros [= He]. by apply insert_non_empty in He.
  - rewrite lookup_insert_ne by done. apply Hne.
Qed.

(** The inner loop of [cleanupSessionType], on the records of one user. *)
Definition cleanup_user (roomType roomID u : string) us (l : list (string * sessionInfo)) :=
  foldl (λ us '(typ, sess),
    if String.eqb typ roomType && String.eqb sess.(RoomID) roomID
    then dropSession u typ us else us) us l.

Lemma cleanup_user_cons roomType roomID u us typ s l :
  cleanup_user roomType roomID u us ((typ, s) :: l) =
  cleanup_user roomType roomID u
    (if String.eqb typ roomType && String.eqb s.(RoomID) roomID then dropSession u typ us else us) l.
Proof. done. Qed.

Lemma cleanup_user_at roomType roomID u us l u' typ' :
  session_at (cleanup_user roomType roomID u us l) u' typ' =
  if decide (u = u' ∧ typ' = roomType ∧ Exists (λ ts, ts.1 = typ' ∧ ts.2.(RoomID) = roomID) l)
  then None else session_at us u' typ'.
Proof.
  revert us. induction l as [|[typ s] l IH]; intros us.
  { rewrite decide_False; [done|]. intros (_ & _ & He). by apply Exists_nil in He. }
  rewrite cleanup_user_cons, IH. clear IH.
  destruct (String.eqb_spec typ roomType) as [Ht|Ht],
    (String.eqb_spec s.(RoomID) roomID) as [Hr|Hr]; simpl;
    rewrite ?session_at_drop; repeat case_decide; try done; exfalso;
    rewrite Exists_cons in *; simpl in *;
    destruct (decide (u = u')), (decide (typ = typ')), (decide (typ' = roomType));
    subst; first [tauto | congruence].
Qed.

Lemma no_empty_cleanup_user roomType roomID u us l :
  no_empty us → no_empty (cleanup_user roomType roomID u us l).
Proof.
  revert us. induction l as [|[typ s] l IH]; intros us Hne; [done|].
  rewrite cleanup_user_cons. apply IH. destruct (_ && _); [by apply no_empty_drop|done].
Qed.
End sessions.

Section cleanup.
Context `{GoRange}.
Import Manager.
Implicit Types (us : gmap string sessions).

Definition cleanup_loop (roomType roomID : string) us (l : list (string * sessions)) :=
  foldl (λ us '(u, ss), cleanup_user roomType roomID u us (range ss)) us l.

Lemma cleanup_loop_cons roomType roomID us u ss l :
  cleanup_loop roomType roomID us ((u, ss) :: l) =
  cleanup_loop roomType roomID (cleanup_user roomType roomID u us (range ss)) l.
Proof. done. Qed.

Lemma exists_range (P : sessionInfo → Prop) typ (ss : sessions) :
  Exists (λ ts, ts.1 = typ ∧ P ts.2) (range ss) ↔ ∃ s, ss !! typ = Some s ∧ P s.
Proof.
  rewrite Exists_exists. split.
  - intros ([typ' s] & Hin & Ht & HP). simpl in *. subst typ'. exists s.
    split; [by apply elem_of_range|done].
  - intros (s & Hs & HP). exists (typ, s). split; [by apply elem_of_range|done].
Qed.

Lemma cleanup_loop_at roomType roomID us l u' typ' :
  session_at (cleanup_loop roomType roomID us l) u' typ' =
  if decide (typ' = roomType ∧
     Exists (λ uss, uss.1 = u' ∧
       Exists (λ ts, ts.1 = typ' ∧ ts.2.(RoomID) = roomID) (range uss.2)) l)
  then None else session_at us u' typ'.
Proof.
  revert us. induction l as [|[u ss] l IH]; intros us.
  { rewrite decide_False; [done|]. intros [_ He]. by apply Exists_nil in He. }
  rewrite cleanup_loop_cons, IH, cleanup_user_at.
  repeat case_decide; try done; exfalso; rewrite Exists_cons in *; simpl in *; tauto.
Qed.

(** [cleanupSessionType] drops exactly the records of the type that are of the
    room. *)
Lemma cleanup_at roomType roomID us u typ :
  session_at (cleanupSessionType roomType roomID us) u typ =
  match session_at us u typ with
  | Some s => if decide (typ = roomType ∧ s.(RoomID) = roomID) then None else Some s
  | None => None
  end.
Proof.
  change (cleanupSessionType roomType roomID us) with (cleanup_loop roomType roomID us (range us)).
  rewrite cleanup_loop_at.
  assert (Exists (λ uss, uss.1 = u ∧
      Exists (λ ts, ts.1 = typ ∧ ts.2.(RoomID) = roomID) (range uss.2)) (range us) ↔
    ∃ s, session_at us u typ = Some s ∧ s.(RoomID) = roomID) as HE.
  { rewrite Exists_exists. unfold session_at. split.
    - intros ([u' ss] & Hin & Hu & He). simpl in *. subst u'. apply elem_of_range in Hin.
      apply (exists_range (λ s, s.(RoomID) = roomID)) in He. by rewrite Hin.
    - intros (s & Hs & HP). destruct (us !! u) as [ss|] eqn:Hu; [|simpl in Hs; by rewrite lookup_empty in Hs].
      exists (u, ss). split; [by apply elem_of_range|]. split; [done|].
      apply (exists_range (λ s, s.(RoomID) = roomID)). eauto. }
  destruct (session_at us u typ) as [s|] eqn:Hs.
  - repeat case_decide; try done; exfalso.
    + destruct H0 as [-> (s' & [= <-] & ?)%HE]. tauto.
    + destruct H1 as [-> ?]. apply H0. split; [done|]. apply HE. eauto.
  - by case_decide.
Qed.

Lemma no_empty_cleanup roomType roomID us :
  no_empty us → no_empty (cleanupSessionType roomType roomID us).
Proof.
  change (cleanupSessionType roomType roomID us) with (cleanup_loop roomType roomID us (range us)).
  generalize (range us). intros l. revert us. induction l as [|[u ss] l IH]; intros us Hne; [done|].
  rewrite cleanup_loop_cons. by apply IH, no_empty_cleanup_user.
Qed.
End cleanup.

(** ** The invariant of the manager *)

Section manager.
Context {R Mo : Type} `{!AnyRoom R, !AnyRoomView R, !AnyRoomSpec R}.
Context `{!AnyModule Mo R, !AnyModuleSpec Mo R, GoRange} (plain : Mo).
Import Manager.
Implicit Types (m : t R Mo).

(** The cap of a room type is a uint16. *)
Definition module_ok (md : Mo) : Prop := ((BaseConfig md).(RoomConfig.MaxPlayers) < 65536)%N.

(** The listed rooms are allocated under their own id; every room allocated
    keeps the room invariant; a record names a listed room of its type, whose
    type is not unrestricted; no user has an empty map of records. *)
Record wf m : Prop := {
  wf_listed id p : rooms m !! id = Some p → ∃ r, heap m !! p = Some r ∧ room_ID r = id;
  wf_heap p r : heap m !! p = Some r → room_ok r ∧ p < next m;
  wf_record u typ s : session_at (userSessions m) u typ = Some s →
    is_id s.(ClientID) ∧
    ∃ p r, rooms m !! s.(RoomID) = Some p ∧ heap m !! p = Some r ∧
      (room_Config r).(RoomConfig.Type_) = typ ∧ (room_Config r).(RoomConfig.SingletonMode) ≠ SingletonAllow;
  wf_no_empty : no_empty (userSessions m);
  wf_modules typ md : modules m !! typ = Some md → module_ok md
}.

Lemma sessionOf_record u typ s m u' typ' :
  sessionOf u' typ' (record u typ s m) =
  if decide (u = u' ∧ typ = typ') then Some s else sessionOf u' typ' m.
Proof. apply session_at_record. Qed.

Lemma sessionOf_drop u typ m u' typ' :
  sessionOf u' typ' (set_userSessions (dropSession u typ) m) =
  if decide (u = u' ∧ typ = typ') then None else sessionOf u' typ' m.
Proof. apply session_at_drop. Qed.

Definition keeps m (es : list effect) m' : Prop := wf m → wf m'.
#[export] Instance keeps_trace : TraceRel keeps.
Proof. split; unfold keeps; auto. Qed.

Lemma call_run {A} p (op : M R effect A) m r :
  heap m !! p = Some r →
  call p op m = (value (op r), set_heap (insert p (final (op r))) m, effects (op r)).
Proof. unfold call. intros ->. unfold value, final, effects. by destruct (op r) as [[]]. Qed.

Lemma set_heap_same m p r : heap m !! p = Some r → set_heap (insert p r) m = m.
Proof. intros Hp. unfold set_heap. rewrite insert_id by done. by destruct m. Qed.

Lemma call_Info_run p m r :
  heap m !! p = Some r →
  call p room_Info m =
    (Ret (if alive r then Ok (info r) else Err (ErrSentinel ErrRoomClosed)), m, []).
Proof.
  intros Hp. rewrite (call_run p room_Info m r Hp), Info_law. cbn. f_equal. f_equal.
  unfold set_heap. rewrite insert_id by done. by destruct m.
Qed.

Lemma peek_run {A} p (f : R → A) m r : heap m !! p = Some r → peek p f m = (Ret (f r), m, []).
Proof. unfold peek. by intros ->. Qed.

(** A room replaced by one of the same identity: every pointer keeps its own. *)
Lemma heap_update m p r r' :
  heap m !! p = Some r → room_ID r' = room_ID r → room_Config r' = room_Config r →
  ∀ q x, heap m !! q = Some x →
  ∃ y, <[p := r']> (heap m) !! q = Some y ∧ room_ID y = room_ID x ∧ room_Config y = room_Config x.
Proof.
  intros Hp HID Hcfg q x Hq. destruct (decide (p = q)) as [<-|].
  - rewrite lookup_insert_eq. exists r'. split; [done|]. split; congruence.
  - rewrite lookup_insert_ne by done. eauto.
Qed.

Lemma keeps_call {A} p (op : M R effect A) : stable op → steps keeps (call p op).
Proof.
  intros Hop m Hm. destruct (heap m !! p) as [r|] eqn:Hp.
  2:{ unfold call. by rewrite Hp. }
  rewrite (call_run p op m r Hp). destruct Hm as [L HH C N MO].
  destruct (HH p r Hp) as [Hok Hlt]. destruct (Hop r Hok) as (HID & Hcfg & Hok').
  set (r' := final (op r)) in *. split; simpl; [| | |done|done].
  - intros id q Hq. destruct (L id q Hq) as (x & Hx & Hid).
    destruct (heap_update m p r r' Hp HID Hcfg q x Hx) as (y & Hy & HIDy & _).
    exists y. split; [done|congruence].
  - intros q x. destruct (decide (p = q)) as [<-|]; [|by rewrite lookup_insert_ne; auto].
    rewrite lookup_insert_eq. by intros [= <-].
  - intros u typ s Hs. destruct (C u typ s Hs) as (Hid & q & x & Hq & Hx & Ht & Hmode).
    destruct (heap_update m p r r' Hp HID Hcfg q x Hx) as (y & Hy & _ & Hcfgy).
    split; [done|]. exists q, y. rewrite Hcfgy. done.
Qed.

Lemma keeps_publish topic ev : steps keeps (publish (R := R) (Mo := Mo) topic ev).
Proof. apply steps_bind; [apply _|by eauto with go|]. intros e m Hm. exact Hm. Qed.

Lemma keeps_drop m u typ : wf m → wf (set_userSessions (dropSession u typ) m).
Proof.
  intros [L HH C N MO]. split; simpl; [done|done| |by apply no_empty_drop|done].
  intros u' typ' s. rewrite session_at_drop. case_decide; [done|]. apply C.
Qed.

Lemma keeps_rollback m u typ c : wf m → wf (rollback u typ c m).
Proof.
  intros Hm. unfold rollback. destruct (sessionOf u typ m); [|done].
  destruct (_ =? _)%N; [by apply keeps_drop|done].
Qed.

(** [JoinRoom] under the lock, on every branch. *)
Lemma JoinRoom_locked_run u c id m p r :
  rooms m !! id = Some p → heap m !! p = Some r →
  let mode := (room_Config r).(RoomConfig.SingletonMode) in
  let typ := (room_Config r).(RoomConfig.Type_) in
  let mine := mkSession id c in
  JoinRoom_locked u c id m =
  if (mode =? SingletonAllow)%N then (Ret (Ok (mkPlan p mode typ None)), m, [])
  else
    match sessionOf u typ m with
    | Some s =>
        if decide (s = mine) then
          (Ret (Ok (mkPlan p mode typ None)), record u typ mine m, [])
        else if (mode =? SingletonReject)%N then
          (Ret (Err (ErrSentinel ErrAlreadyInRoomOfType)), m, [])
        else
          (Ret (Ok (mkPlan p mode typ (if (mode =? SingletonReplace)%N then Some s else None))),
           record u typ mine m, [])
    | None => (Ret (Ok (mkPlan p mode typ None)), record u typ mine m, [])
    end.
Proof.
  intros Hp Hr mode typ mine. unfold JoinRoom_locked. rewrite bind_get, Hp.
  erewrite bind_value by by apply peek_run. fold mode typ.
  destruct (mode =? SingletonAllow)%N; [done|].
  destruct (sessionOf u typ m) as [s|]; [|done]. fold mine.
  destruct (decide (s = mine)) as [->|Hs].
  - rewrite bool_decide_true by done. simpl. done.
  - rewrite bool_decide_false by done. simpl.
    destruct (mode =? SingletonReject)%N eqn:E1, (mode =? SingletonReplace)%N eqn:E2; done.
Qed.

Lemma wf_recorded m u typ id c p r :
  wf m → rooms m !! id = Some p → heap m !! p = Some r →
  (room_Config r).(RoomConfig.SingletonMode) ≠ SingletonAllow → (room_Config r).(RoomConfig.Type_) = typ →
  is_id c → wf (record u typ (mkSession id c) m).
Proof.
  intros [L HH C N MO] Hp Hr Hmode Ht Hc. split; simpl; [done|done| |by apply no_empty_record|done].
  intros u' typ' s. rewrite session_at_record. case_decide as Hd; [|apply C].
  intros [= <-]. destruct Hd as [<- <-]. simpl. eauto 10.
Qed.

Lemma nameable_id c u : nameable c u → is_id c.
Proof. unfold nameable, is_id, valid. simpl. unfold valid_PlayerJoined. intros H1. by apply andb_prop_elim in H1 as [? _]. Qed.

(** Under the lock the map of rooms and the rooms themselves do not change; a
    plan names the listed room, and what it replaces was recorded. *)
Lemma JoinRoom_locked_facts u c id m :
  wf m → is_id c →
  ∃ res m', JoinRoom_locked u c id m = (Ret res, m', []) ∧ wf m' ∧
    rooms m' = rooms m ∧ heap m' = heap m ∧ modules m' = modules m ∧ next m' = next m ∧
    match res with
    | Ok pl => rooms m !! id = Some (plan_room pl) ∧
        ∀ s, plan_replaced pl = Some s → sessionOf u (plan_type pl) m = Some s
    | Err _ => m' = m
    end.
Proof.
  intros Hm Hc. destruct (rooms m !! id) as [p|] eqn:Hp.
  2:{ unfold JoinRoom_locked. rewrite bind_get, Hp. by eexists _, _. }
  destruct (wf_listed _ Hm id p Hp) as (r & Hr & _).
  pose proof (JoinRoom_locked_run u c id m p r Hp Hr) as Hrun. cbv zeta in Hrun. rewrite Hrun.
  set (cfg := room_Config r). set (typ := cfg.(RoomConfig.Type_)).
  destruct (cfg.(RoomConfig.SingletonMode) =? SingletonAllow)%N eqn:Hmode.
  { eexists _, _. split; [done|]. simpl. done. }
  apply N.eqb_neq in Hmode.
  assert (wf (record u typ (mkSession id c) m)) as Hrec by by eapply wf_recorded.
  destruct (sessionOf u typ m) as [s|] eqn:Hs; [|by eexists _, _].
  destruct (decide (s = mkSession id c)); [by eexists _, _|].
  destruct (cfg.(RoomConfig.SingletonMode) =? SingletonReject)%N; [by eexists _, _|].
  eexists _, _. split; [done|]. split; [done|]. do 4 (split; [done|]). split; [done|].
  cbn [plan_replaced plan_type]. intros s0.
  destruct (_ =? SingletonReplace)%N; [|done]. intros [= <-]. exact Hs.
Qed.

Lemma keeps_enter now u c id pl :
  nameable c u → (∀ s, plan_replaced pl = Some s → is_id s.(ClientID)) →
  steps keeps (JoinRoom_enter (Mo := Mo) now u c id pl).
Proof.
  intros Hn Hids. unfold JoinRoom_enter, kick.
  destruct (plan_replaced pl) as [s|]; [|by apply keeps_call, Join_stable].
  specialize (Hids s eq_refl).
  assert (steps keeps (kick (R := R) (Mo := Mo) s.(ClientID) id)) as Hk by apply keeps_publish.
  destruct (String.eqb _ _).
  - apply steps_bind; [apply _|by apply keeps_call, JoinReplace_stable|]. intros e.
    apply steps_bind; [apply _|by eauto with go|]. intros _. by eauto with go.
  - apply steps_bind; [apply _|by apply keeps_call, Join_stable|]. intros e.
    apply steps_bind; [apply _| |by eauto with go].
    apply steps_when; [apply _|]. apply steps_bind; [apply _|by eauto with go|]. intros m.
    apply steps_bind; [apply _| |done]. destruct (Find _ m); [|by eauto with go].
    by apply keeps_call, Leave_stable.
Qed.

Lemma Info_stable : stable (R := R) room_Info.
Proof. intros r Hr. rewrite Info_law. done. Qed.

Lemma keeps_JoinRoom now u c id :
  nameable c u → steps keeps (JoinRoom (Mo := Mo) now u c id).
Proof.
  intros Hn m Hm. pose proof (nameable_id c u Hn) as Hc.
  destruct (JoinRoom_locked_facts u c id m Hm Hc) as (res & m1 & Hrun & Hm1 & _ & _ & _ & _ & Hres).
  unfold JoinRoom. erewrite bind_value by done. cbn [final fst snd].
  revert m1 Hrun Hm1 Hres. destruct res as [pl|e]; intros m1 Hrun Hm1 Hres; [|done].
  destruct Hres as [_ Hrep].
  match goal with |- wf (final (?k m1)) => assert (steps keeps k) as Hk; [|by apply Hk] end.
  apply steps_bind; [apply _|apply keeps_enter; [done|]|].
  - intros s Hs%Hrep. apply (wf_record _ Hm _ _ _ Hs).
  - intros [e|].
    + apply steps_bind; [apply _| |by eauto with go].
      apply steps_when; [apply _|]. intros m2 Hm2. by apply keeps_rollback.
    + apply steps_bind; [apply _|apply keeps_call, Info_stable|]. intros i. by eauto with go.
Qed.

Lemma keeps_peek {A} p (f : R → A) : steps keeps (peek (Mo := Mo) p f).
Proof. intros m Hm. unfold peek. by destruct (heap m !! p). Qed.

Lemma keeps_LeaveRoom_locked u c id : steps keeps (LeaveRoom_locked (R := R) (Mo := Mo) u c id).
Proof.
  unfold LeaveRoom_locked. apply steps_bind; [apply _|by eauto with go|]. intros m.
  destruct (rooms m !! id) as [p|]; [|by eauto with go].
  apply steps_bind; [apply _|apply keeps_peek|].
  intros cfg. apply steps_bind; [apply _| |intros _; by eauto with go].
  apply steps_when; [apply _|]. destruct (sessionOf _ _ _); [|by eauto with go].
  apply steps_when; [apply _|]. intros m' Hm'. by apply keeps_drop.
Qed.

(** [LeaveRoom] under the lock touches the records only. *)
Lemma LeaveRoom_locked_run u c id p m r :
  rooms m !! id = Some p → heap m !! p = Some r →
  ∃ m', LeaveRoom_locked u c id m = (Ret (Some p), m', []) ∧
    rooms m' = rooms m ∧ heap m' = heap m.
Proof.
  intros Hp Hr. unfold LeaveRoom_locked. rewrite bind_get, Hp.
  rewrite (bind_value _ _ _ _ _ _ (peek_run p room_Config m r Hr)). cbn [final fst snd].
  destruct (negb _); simpl; [|by eexists].
  destruct (sessionOf _ _ _); [|by eexists]. destruct (bool_decide _); by eexists.
Qed.

Lemma LeaveRoom_locked_none u c id m :
  rooms m !! id = None → LeaveRoom_locked u c id m = (Ret None, m, []).
Proof. intros Hp. unfold LeaveRoom_locked. by rewrite bind_get, Hp. Qed.

Lemma keeps_LeaveRoom u c id : is_id c → steps keeps (LeaveRoom (Mo := Mo) u c id).
Proof.
  intros Hc. apply steps_bind; [apply _|apply keeps_LeaveRoom_locked|].
  intros [p|]; [by apply keeps_call, Leave_stable|by eauto with go].
Qed.

Lemma Remove_locked_run id m p r :
  rooms m !! id = Some p → heap m !! p = Some r →
  Remove_locked id m =
  (Ret (Some p),
   set_userSessions (cleanupSessionType (room_Config r).(RoomConfig.Type_) id) (set_rooms (delete id) m), []).
Proof.
  intros Hp Hr. unfold Remove_locked. rewrite bind_get, Hp, bind_modify.
  by erewrite bind_value by by apply peek_run.
Qed.

Lemma announceRemoved_run id m :
  valid (RoomRemoved.mk id) →
  announceRemoved id m =
  (Ret tt, m, [EPublish "lobby" (Event.mk EventRoomRemoved (enc (RoomRemoved.mk id)))]).
Proof.
  intros Hv. unfold announceRemoved, publish.
  pose proof (NewEvent_enc EventRoomRemoved (RoomRemoved.mk id) Hv) as Hev.
  change (marshal (RoomRemoved.mk id)) with (RoomRemoved.Marshal (RoomRemoved.mk id)) in Hev.
  by rewrite Hev, bind_lift.
Qed.

Lemma wf_Remove_locked id m : wf m → wf (final (Remove_locked id m)).
Proof.
  intros Hm. destruct (rooms m !! id) as [p|] eqn:Hp.
  2:{ unfold Remove_locked. by rewrite bind_get, Hp. }
  destruct (wf_listed _ Hm id p Hp) as (r & Hr & Hid). rewrite (Remove_locked_run id m p r Hp Hr).
  destruct Hm as [L HH C N MO]. split; simpl; [|done| |by apply no_empty_cleanup|done].
  - intros id' q [_ Hq]%lookup_delete_Some. by apply L.
  - intros u typ s. rewrite cleanup_at.
    destruct (session_at (userSessions m) u typ) as [s'|] eqn:Hs; [|done].
    case_decide as Hd; [done|]. intros [= ->].
    destruct (C u typ s Hs) as (Hc & q & x & Hq & Hx & Ht & Hmode). split; [done|]. exists q, x.
    split; [|done]. apply lookup_delete_Some. split; [|done].
    intros ->. rewrite Hp in Hq. simplify_eq. tauto.
Qed.

Lemma keeps_Remove id : steps keeps (Remove (Mo := Mo) id).
Proof.
  apply steps_bind; [apply _|intros m Hm; by apply wf_Remove_locked|]. intros [p|]; [|by eauto with go].
  apply steps_bind; [apply _|apply keeps_call, Shutdown_stable|]. intros _. apply keeps_publish.
Qed.

Lemma keeps_ShutdownAll_locked : steps keeps (ShutdownAll_locked (R := R) (Mo := Mo)).
Proof.
  intros m [L HH C N MO]. split; simpl; [done|done| | |done].
  - intros u typ s. unfold session_at. by rewrite lookup_empty.
  - intros u. by rewrite lookup_empty.
Qed.

Lemma keeps_ShutdownAll : steps keeps (ShutdownAll (R := R) (Mo := Mo)).
Proof.
  apply steps_bind; [apply _|apply keeps_ShutdownAll_locked|]. intros ps.
  apply (steps_for_each keeps). intros p _. apply keeps_call, Shutdown_stable.
Qed.

(** Every room that was listed is shut down, and nothing is listed any more. *)
Lemma Shutdowns_run ps m :
  (∀ p, p ∈ ps → is_Some (heap m !! p)) →
  let res := for_each (λ p, call p room_Shutdown) ps m in
  value res = Ret tt ∧ rooms (final res) = rooms m ∧ userSessions (final res) = userSessions m ∧
  (∀ p, is_Some (heap m !! p) → is_Some (heap (final res) !! p)) ∧
  ∀ p r, heap (final res) !! p = Some r →
    p ∈ ps ∨ (∃ r0, heap m !! p = Some r0 ∧ alive r0 = false) → alive r = false.
Proof.
  revert m. induction ps as [|p ps IH]; intros m Hps; cbv zeta.
  { repeat (split; [done|]). intros p r Hr [Hin%not_elem_of_nil|(r0 & Hr0 & Ha)]; [done|]. cbn in Hr. congruence. }
  destruct (Hps p) as [r Hr]; [by left|]. destruct (Shutdown_law r) as [Hv Ha].
  pose proof (call_run p room_Shutdown m r Hr) as Hrun. rewrite Hv in Hrun.
  cbn [for_each]. rewrite (bind_value _ _ _ _ _ _ Hrun). cbn [value final effects fst snd].
  set (m1 := set_heap _ _).
  assert (heap m1 = <[p := final (room_Shutdown r)]> (heap m)) as Hh by done.
  destruct (IH m1) as (H1 & H2 & H3 & H4 & H5).
  { intros q Hq. rewrite Hh. destruct (decide (p = q)) as [->|Hne]; [by rewrite lookup_insert_eq|].
    rewrite lookup_insert_ne by done. apply Hps. by right. }
  split; [exact H1|]. split; [exact H2|]. split; [exact H3|]. split.
  - intros q Hq. apply H4. rewrite Hh. destruct (decide (p = q)) as [->|Hne].
    + by rewrite lookup_insert_eq.
    + by rewrite lookup_insert_ne.
  - intros q r' Hr' Hq. apply (H5 q r' Hr'). destruct (decide (p = q)) as [->|Hne].
    + right. exists (final (room_Shutdown r)). split; [by rewrite Hh, lookup_insert_eq|done].
    + destruct Hq as [[->|Hin]%elem_of_cons|(r0 & Hr0 & Ha0)]; [done|by left|].
      right. exists r0. by rewrite Hh, lookup_insert_ne.
Qed.

Lemma ShutdownAll_run m : wf m →
  let res := ShutdownAll m in
  value res = Ret tt ∧ rooms (final res) = ∅ ∧ userSessions (final res) = ∅ ∧
  ∀ id p, rooms m !! id = Some p → ∃ r, heap (final res) !! p = Some r ∧ alive r = false.
Proof.
  intros Hm res. unfold res, ShutdownAll.
  assert (∃ m1, ShutdownAll_locked m = (Ret (range (rooms m)).*2, m1, []) ∧ heap m1 = heap m ∧
    rooms m1 = ∅ ∧ userSessions m1 = ∅) as (m1 & Hl & Hh & Hro & Hus) by by eexists.
  rewrite (bind_value _ _ _ _ _ _ Hl). cbn [value final effects fst snd].
  assert (∀ p, p ∈ (range (rooms m)).*2 ↔ ∃ id, rooms m !! id = Some p) as Hps.
  { intros p. rewrite list_elem_of_fmap. split.
    - intros ([id p'] & -> & Hin%elem_of_range). by exists id.
    - intros (id & Hid). exists (id, p). split; [done|]. by apply elem_of_range. }
  destruct (Shutdowns_run (range (rooms m)).*2 m1) as (H1 & H2 & H3 & H4 & H5).
  { intros p (id & Hid)%Hps. rewrite Hh. destruct (wf_listed _ Hm id p Hid) as (r & Hr & _). by eexists. }
  split; [exact H1|]. split; [by etrans|]. split; [by etrans|].
  intros id p Hid. destruct (wf_listed _ Hm id p Hid) as (r & Hr & _).
  destruct (H4 p) as [r' Hr']; [rewrite Hh; by eexists|]. exists r'. split; [exact Hr'|].
  apply (H5 p r' Hr'). left. apply Hps. by exists id.
Qed.

Lemma keeps_matches typ ids : steps keeps (matches (R := R) (Mo := Mo) typ ids).
Proof.
  induction ids as [|id ids IH]; [by apply steps_ret, _|]. simpl.
  apply steps_bind; [apply _|by eauto with go|]. intros m.
  apply steps_bind; [apply _| |intros here; apply steps_bind; [apply _|done|by eauto with go]].
  destruct (rooms m !! id) as [p|]; [|by eauto with go].
  apply steps_bind; [apply _| |by eauto with go].
  intros m' Hm'. unfold peek. by destruct (heap m' !! p).
Qed.

Lemma keeps_Dispatch ctx c op payload ids :
  steps keeps (DispatchRoomMessage (Mo := Mo) ctx c op payload ids).
Proof.
  unfold DispatchRoomMessage. apply steps_bind; [apply _|by eauto with go|]. intros m.
  destruct (OpType op m); [|by eauto with go].
  apply steps_bind; [apply _|apply keeps_matches|]. intros [|p [|q ps]]; try by eauto with go.
  apply steps_bind; [apply _|apply keeps_call, HandleMessage_stable|by eauto with go].
Qed.

Lemma keeps_infos ps : steps keeps (infos (R := R) (Mo := Mo) ps).
Proof.
  induction ps as [|p ps IH]; [by apply steps_ret, _|]. simpl.
  apply steps_bind; [apply _|apply keeps_call, Info_stable|]. intros i.
  apply steps_bind; [apply _|done|by eauto with go].
Qed.

Lemma keeps_List : steps keeps (List (R := R) (Mo := Mo)).
Proof. apply steps_bind; [apply _|by eauto with go|intros; apply keeps_infos]. Qed.

Lemma keeps_RegisterModule md : module_ok md → steps keeps (RegisterModule (R := R) (Mo := Mo) md).
Proof.
  intros Hmd.
  unfold RegisterModule. apply steps_bind; [apply _|by eauto with go|]. intros m.
  destruct (String.eqb _ _); [by eauto with go|].
  destruct (modules m !! _); [by eauto with go|].
  apply steps_bind; [apply _| |].
  - apply steps_for_each; [apply _|]. intros op _. apply steps_bind; [apply _|by eauto with go|].
    intros m'. destruct (opTypes m' !! op); [by eauto with go|].
    intros m2 [L HH C N MO]. by split.
  - intros _ m2 [L HH C N MO]. split; simpl; [done|done|done|done|].
    intros typ md' [[_ <-]|[_ Hmd']]%lookup_insert_Some; [done|by eapply MO].
Qed.

(** ** Create *)

(** The configuration and the room type a room is built from. *)
Definition effective m (config : RoomConfig.t) : Mo * RoomConfig.t :=
  match modules m !! config.(RoomConfig.Type_) with
  | Some md => (md, overrideConfig (BaseConfig md) config)
  | None => (plain, RoomConfig.ApplyDefaults config)
  end.

(** The manager with the new room listed. *)
Definition listed (r : R) m : t R Mo :=
  mk (<[room_ID r := next m]> (rooms m)) (userSessions m) (modules m) (opTypes m)
     (<[next m := r]> (heap m)) (S (next m)).

Lemma list_room_run r m : list_room r m = (Ret (next m), listed r m, []).
Proof. done. Qed.

Lemma announceCreated_run p m r :
  heap m !! p = Some r →
  announceCreated p m =
  (if alive r then
     match NewEvent EventRoomCreated (Some (RoomInfo.Marshal (info r))) with
     | Ret ev => (Ret tt, m, [EPublish "lobby" ev])
     | Panic msg => (Panic msg, m, [])
     end
   else (Ret tt, m, [])).
Proof.
  intros Hp. unfold announceCreated. rewrite (bind_value _ _ _ _ _ _ (call_Info_run p m r Hp)).
  cbn [final fst snd]. unfold publish. destruct (alive r); [|done].
  by destruct (NewEvent EventRoomCreated _).
Qed.

Lemma Create_run uuid config m r u es :
  module_Create (effective m config).1 uuid (effective m config).2 tt = (Ret r, u, es) →
  Create plain uuid config m =
  (if alive (room_setOnEmpty r) then
     match NewEvent EventRoomCreated (Some (RoomInfo.Marshal (info (room_setOnEmpty r)))) with
     | Ret ev => (Ret (next m), listed (room_setOnEmpty r) m, es ++ [EPublish "lobby" ev])
     | Panic msg => (Panic msg, listed (room_setOnEmpty r) m, es)
     end
   else (Ret (next m), listed (room_setOnEmpty r) m, es)).
Proof.
  intros Hc. unfold Create. rewrite bind_get.
  assert ((match modules m !! config.(RoomConfig.Type_) with
    | Some md => build md uuid (overrideConfig (BaseConfig md) config)
    | None => build plain uuid (RoomConfig.ApplyDefaults config) end) m = (Ret r, m, es)) as Hb.
  { unfold effective in Hc. destruct (modules m !! _); unfold build; simpl in Hc; by rewrite Hc. }
  erewrite bind_value by exact Hb. cbn [final fst snd].
  set (r1 := room_setOnEmpty r).
  erewrite bind_value by apply list_room_run. cbn [final fst snd].
  pose proof (announceCreated_run (next m) (listed r1 m) r1 (lookup_insert_eq _ _ _)) as Han.
  destruct (alive r1); [destruct (NewEvent _ _) as [ev|msg]|].
  - rewrite (bind_value _ _ _ _ _ _ Han). done.
  - rewrite (bind_panic _ _ _ _ _ _ Han). cbn. by rewrite app_nil_r.
  - rewrite (bind_value _ _ _ _ _ _ Han). cbn. by rewrite app_nil_r.
Qed.

Lemma effective_ok m config :
  wf m → ((config).(RoomConfig.MaxPlayers) < 65536)%N →
  ((effective m config).2.(RoomConfig.MaxPlayers) < 65536)%N.
Proof.
  intros Hm Hc. unfold effective, overrideConfig, RoomConfig.ApplyDefaults.
  destruct (modules m !! _) as [md|] eqn:Hmd; simpl; case_match; simpl; try done;
    pose proof (wf_modules _ Hm _ _ Hmd); by destruct (_ =? 0)%N.
Qed.

(** No listed room ends in this uuid: uuid.NewString does not repeat itself. *)
Definition fresh (uuid : string) m : Prop := ∀ name, rooms m !! (name +:+ "_" +:+ uuid) = None.

Lemma wf_listed_new m r :
  wf m → rooms m !! room_ID r = None → room_ok r → wf (listed r m).
Proof.
  intros [L HH C N MO] Hf Hr.
  assert (heap m !! next m = None) as Hn.
  { destruct (heap m !! next m) as [x|] eqn:Hx; [|done]. destruct (HH _ _ Hx). lia. }
  split; simpl; [| | |done|done].
  - intros id p [[<- <-]|[_ Hp]]%lookup_insert_Some; [rewrite lookup_insert_eq; eauto|].
    destruct (L id p Hp) as (x & Hx & Hid). exists x. split; [|done].
    by rewrite lookup_insert_ne by congruence.
  - intros p x [[<- <-]|[_ Hx]]%lookup_insert_Some; [split; [done|lia]|].
    destruct (HH p x Hx). split; [done|lia].
  - intros u typ s Hs. destruct (C u typ s Hs) as (Hc & p & x & Hp & Hx & Hrest).
    split; [done|]. exists p, x. rewrite !lookup_insert_ne by congruence. done.
Qed.

Lemma keeps_Create uuid config m :
  wf m → (config.(RoomConfig.MaxPlayers) < 65536)%N → fresh uuid m →
  wf (final (Create plain uuid config m)).
Proof.
  intros Hm Hc Hf.
  destruct (module_Create (effective m config).1 uuid (effective m config).2 tt) as [[[r|msg] []] es] eqn:Hcr.
  - rewrite (Create_run uuid config m r tt es Hcr).
    destruct (Create_law _ _ _ _ _ _ (effective_ok m config Hm Hc) Hcr) as (Hr & _ & _ & _ & HID).
    destruct (setOnEmpty_law r Hr) as (Hr1 & HID1 & _).
    assert (wf (listed (room_setOnEmpty r) m)) as Hw.
    { apply wf_listed_new; [done| |done]. rewrite HID1, HID. apply Hf. }
    destruct (alive _); [|done]. by destruct (NewEvent _ _).
  - unfold Create. rewrite bind_get.
    assert ((match modules m !! config.(RoomConfig.Type_) with
      | Some md => build md uuid (overrideConfig (BaseConfig md) config)
      | None => build plain uuid (RoomConfig.ApplyDefaults config) end) m = (Panic msg, m, es)) as Hb.
    { unfold effective in Hcr. destruct (modules m !! _); unfold build; simpl in Hcr; by rewrite Hcr. }
    by erewrite bind_panic by exact Hb.
Qed.

(** The part of [JoinRoom] after the lock when nothing is replaced. *)
Lemma JoinRoom_plain now u c id m p r m1 mode typ :
  JoinRoom_locked u c id m = (Ret (Ok (mkPlan p mode typ None)), m1, []) →
  heap m1 !! p = Some r → room_ok r → nameable c u →
  (∃ e, room_Join now c u r = (Ret (Some e), r, []) ∧
   JoinRoom now u c id m =
     (Ret (Err e), if (mode =? SingletonAllow)%N then m1 else rollback u typ c m1, [])) ∨
  (let r' := final (room_Join now c u r) in
   value (room_Join now c u r) = Ret None ∧ alive r' = true ∧ members r' = {[c]} ∪ members r ∧
   JoinRoom now u c id m =
     (Ret (Ok (info r')), set_heap (insert p r') m1, effects (room_Join now c u r))).
Proof.
  intros Hl Hp Hok Hn. unfold JoinRoom. erewrite bind_value by exact Hl. cbn [final fst snd app].
  unfold JoinRoom_enter. cbn [plan_replaced plan_room plan_mode plan_type].
  destruct (Join_law now c u r Hok Hn) as [[e He]|(Hj & _ & Ha & Hm)].
  - left. exists e. split; [done|].
    erewrite bind_value by (rewrite (call_run p _ m1 r Hp), He; done).
    cbn [final fst snd]. rewrite (set_heap_same m1 p r Hp).
    destruct (mode =? SingletonAllow)%N; done.
  - right. cbv zeta. split; [done|]. split; [done|]. split; [done|].
    erewrite bind_value by (rewrite (call_run p _ m1 r Hp), Hj; done).
    cbn [final fst snd]. erewrite bind_value by (apply call_Info_run, lookup_insert_eq).
    rewrite Ha. cbn. by rewrite app_nil_r.
Qed.

(** ** A join of a room nobody is recorded in *)

Lemma kick_run c id m :
  valid (Kicked.mk "replaced" id) →
  kick c id m = (Ret tt, m, [EPublish (clientTopic c) (Event.mk EventRoomKicked (enc (Kicked.mk "replaced" id)))]).
Proof.
  intros Hv. unfold kick, publish.
  pose proof (NewEvent_enc EventRoomKicked (Kicked.mk "replaced" id) Hv) as Hev.
  change (marshal (Kicked.mk "replaced" id)) with (Kicked.Marshal (Kicked.mk "replaced" id)) in Hev.
  by rewrite Hev, bind_lift.
Qed.

(** Taking the replaced client out of another room leaves the room at [p]. *)
Lemma leave_replaced id s p r m :
  wf m → is_id s.(ClientID) → valid (Kicked.mk "replaced" id) →
  rooms m !! id = Some p → heap m !! p = Some r → s.(RoomID) ≠ id →
  ∃ m' es, (m ← get;
            match Find s.(RoomID) m with
            | Some old => call old (room_Leave s.(ClientID))
            | None => mret tt
            end ;;
            kick s.(ClientID) id) m = (Ret tt, m', es) ∧
    rooms m' = rooms m ∧ heap m' !! p = Some r.
Proof.
  intros Hm Hc Hv Hp Hr Hne. rewrite bind_get. unfold Find.
  destruct (rooms m !! s.(RoomID)) as [q|] eqn:Hq.
  - destruct (wf_listed _ Hm _ q Hq) as (old & Hold & Hid). destruct (wf_heap _ Hm q old Hold) as [Hok _].
    destruct (wf_listed _ Hm _ p Hp) as (r0 & Hr0 & Hid0).
    erewrite bind_value by (rewrite (call_run q _ m old Hold); by rewrite (proj1 (Leave_law _ _ Hok Hc))).
    cbn [final fst snd]. rewrite kick_run by done. eexists _, _. split; [done|]. split; [done|].
    simpl. rewrite lookup_insert_ne; [done|]. intros ->. congruence.
  - rewrite bind_ret. rewrite kick_run by done. by eexists _, _.
Qed.

Lemma rooms_rollback u typ c m : rooms (rollback u typ c m) = rooms m.
Proof. unfold rollback. destruct (sessionOf u typ m); [|done]. by destruct (_ =? _)%N. Qed.

Lemma JoinRoom_enter_new now u c id pl m r :
  wf m → nameable c u → valid (Kicked.mk "replaced" id) →
  rooms m !! id = Some (plan_room pl) → heap m !! plan_room pl = Some r →
  (∀ s, plan_replaced pl = Some s → s.(RoomID) ≠ id ∧ is_id s.(ClientID)) →
  (∃ e, JoinRoom_enter now u c id pl m = (Ret (Some e), m, [])) ∨
  ∃ m' es r', JoinRoom_enter now u c id pl m = (Ret None, m', es) ∧ rooms m' = rooms m ∧
    heap m' !! plan_room pl = Some r' ∧ alive r' = true ∧ members r' = {[c]} ∪ members r.
Proof.
  intros Hm Hn Hv Hp Hr Hrep. destruct (wf_heap _ Hm _ r Hr) as [Hok _].
  pose proof (call_run (plan_room pl) (room_Join now c u) m r Hr) as Hcall.
  destruct (Join_law now c u r Hok Hn) as [[e He]|(Hj & _ & Ha & Hmem)].
  - left. exists e. rewrite He in Hcall. cbn in Hcall. rewrite set_heap_same in Hcall by done.
    unfold JoinRoom_enter. destruct (plan_replaced pl) as [s|]; [|done].
    destruct (Hrep s eq_refl) as [Hne _]. rewrite (proj2 (String.eqb_neq _ _) Hne).
    by rewrite (bind_value _ _ _ _ _ _ Hcall).
  - right. set (r' := final (room_Join now c u r)) in *. rewrite Hj in Hcall.
    set (m1 := set_heap (insert (plan_room pl) r') m) in *.
    unfold JoinRoom_enter. destruct (plan_replaced pl) as [s|].
    2:{ exists m1, (effects (room_Join now c u r)), r'. split; [done|]. split; [done|].
        split; [apply lookup_insert_eq|done]. }
    destruct (Hrep s eq_refl) as [Hne Hid]. rewrite (proj2 (String.eqb_neq _ _) Hne).
    rewrite (bind_value _ _ _ _ _ _ Hcall). cbn [final fst snd].
    assert (wf m1) as Hm1.
    { replace m1 with (final (call (plan_room pl) (room_Join now c u) m)) by by rewrite Hcall.
      apply keeps_call; [by apply Join_stable|done]. }
    destruct (leave_replaced id s (plan_room pl) r' m1 Hm1 Hid Hv Hp (lookup_insert_eq _ _ _) Hne)
      as (m2 & es & Hrun & Hrooms & Hheap).
    rewrite bool_decide_true by done. unfold when.
    rewrite (bind_value _ _ _ _ _ _ Hrun). cbn. by eexists _, _, r'.
Qed.

Lemma JoinRoom_new now u c id m p r :
  wf m → nameable c u → valid (Kicked.mk "replaced" id) →
  rooms m !! id = Some p → heap m !! p = Some r →
  (∀ typ s, sessionOf u typ m = Some s → s.(RoomID) ≠ id) →
  let res := JoinRoom now u c id m in
  rooms (final res) = rooms m ∧ wf (final res) ∧
  ((∃ e, value res = Ret (Err e)) ∨
   ∃ r', value res = Ret (Ok (info r')) ∧ heap (final res) !! p = Some r' ∧
     alive r' = true ∧ members r' = {[c]} ∪ members r).
Proof.
  intros Hm Hn Hv Hp Hr Hfree res. pose proof (nameable_id c u Hn) as Hc.
  assert (wf (final res)) as Hwf by by apply (keeps_JoinRoom now u c id Hn m).
  revert Hwf. unfold res, JoinRoom.
  destruct (JoinRoom_locked_facts u c id m Hm Hc) as (o & m1 & Hrun & Hm1 & Hro & Hhe & _ & _ & Ho).
  rewrite (bind_value _ _ _ _ _ _ Hrun). cbn [final fst snd]. intros Hwf.
  destruct o as [pl|e].
  2:{ cbn in Hwf |- *. split; [done|]. split; [done|]. left. by eexists. }
  destruct Ho as [Hpl Hrep]. rewrite Hp in Hpl. injection Hpl as Hpl.
  destruct (JoinRoom_enter_new now u c id pl m1 r Hm1 Hn Hv) as [[e He]|(m2 & es & r' & He & Hro2 & Hr' & Ha & Hmem)].
  - by rewrite Hro, Hp, Hpl.
  - by rewrite Hhe, <- Hpl.
  - intros s Hs%Hrep. split; [by eapply Hfree|]. apply (wf_record _ Hm _ _ _ Hs).
  - rewrite (bind_value _ _ _ _ _ _ He) in Hwf |- *. cbn [final fst snd] in Hwf |- *.
    destruct (negb (plan_mode pl =? SingletonAllow)%N); unfold when in Hwf |- *.
    + rewrite bind_modify in Hwf |- *. cbn [final value fst snd mret M_ret] in Hwf |- *.
      rewrite rooms_rollback. split; [done|]. split; [done|]. left. by eexists.
    + rewrite bind_ret in Hwf |- *. split; [done|]. split; [done|]. left. by eexists.
  - rewrite (bind_value _ _ _ _ _ _ He) in Hwf |- *. cbn [final fst snd] in Hwf |- *.
    rewrite (bind_value _ _ _ _ _ _ (call_Info_run _ m2 r' Hr')), Ha in Hwf |- *.
    cbn in Hwf |- *. rewrite Hro2. split; [done|]. split; [done|]. right. exists r'.
    rewrite Hpl. done.
Qed.

(** ** The steps of the manager *)

Inductive manager_step : t R Mo → t R Mo → Prop :=
  | ms_register md m : module_ok md → manager_step m (final (RegisterModule (R := R) md m))
  | ms_create uuid config m :
      (config.(RoomConfig.MaxPlayers) < 65536)%N → fresh uuid m →
      manager_step m (final (Create plain uuid config m))
  | ms_list m : manager_step m (final (List m))
  | ms_remove id m : manager_step m (final (Remove id m))
  | ms_shutdown m : manager_step m (final (ShutdownAll m))
  | ms_join now u c id m : nameable c u → manager_step m (final (JoinRoom now u c id m))
  | ms_leave u c id m : is_id c → manager_step m (final (LeaveRoom u c id m))
  | ms_dispatch ctx c op payload ids m :
      manager_step m (final (DispatchRoomMessage ctx c op payload ids m))
  (* what rooms do on their own: a tick, an expiring timer, a hook *)
  | ms_room {A} p (f : M R effect A) m : stable f → manager_step m (final (call p f m)).

Inductive manager_reachable : t R Mo → Prop :=
  | mr_new : manager_reachable NewManager
  | mr_step m m' : manager_reachable m → manager_step m m' → manager_reachable m'.

Lemma wf_new : wf NewManager.
Proof.
  split; simpl; try (intros *; by rewrite ?lookup_empty).
Qed.

Lemma manager_step_wf m m' : manager_step m m' → wf m → wf m'.
Proof.
  destruct 1; intros Hm.
  - by apply (keeps_RegisterModule md).
  - by apply keeps_Create.
  - by apply keeps_List.
  - by apply (keeps_Remove id).
  - by apply keeps_ShutdownAll.
  - by apply (keeps_JoinRoom now u c id).
  - by apply (keeps_LeaveRoom u c id).
  - by apply (keeps_Dispatch ctx c op payload ids).
  - by apply (keeps_call p f).
Qed.

Lemma manager_reachable_wf m : manager_reachable m → wf m.
Proof. induction 1; [apply wf_new|by eapply manager_step_wf]. Qed.
End manager.
