(* ===== verification/ManagerLife.v ===== *)
(** * What the manager never undoes

    Whatever runs on the manager, an allocated room stays allocated, a room that
    is shut down stays so, and the rooms it lists are allocated: [lasting], which
    every operation respects on every state, without the invariant [wf], and so
    does what a room does on its own. *)

From S2P Require Import Prelude Codec Schema SchemaSpec EventBus Room RoomSpec RoomActor Manager ManagerSpec.
Import Manager.

Section life.
Context {R Mo : Type} `{!AnyRoom R, !AnyRoomView R, !AnyRoomSpec R, !AnyModule Mo R, GoRange} (plain : Mo).
Implicit Types (m : t R Mo).

Definition allocated (q : nat) m : Prop := q < next m ∧ is_Some (heap m !! q).
Definition gone (q : nat) m : Prop := q < next m ∧ ∃ r, heap m !! q = Some r ∧ alive r = false.
Definition lists_allocated m : Prop := ∀ id p, rooms m !! id = Some p → allocated p m.

Record lasting m (es : list effect) m' : Prop := {
  la_allocated q : allocated q m → allocated q m';
  la_gone q : gone q m → gone q m';
  la_lists : lists_allocated m → lists_allocated m'
}.

#[export] Instance lasting_trace : TraceRel lasting.
Proof. split; [by split|]. intros m es m' es' m'' [] []. split; auto. Qed.

(** A change that leaves the heap alone and lists nothing new. *)
Lemma lasting_modify f :
  (∀ m, heap (f m) = heap m ∧ next (f m) = next m ∧ rooms (f m) ⊆ rooms m) →
  steps lasting (modify f).
Proof.
  intros Hf m. destruct (Hf m) as (Hh & Hn & Hr).
  assert (∀ q, allocated q m → allocated q (f m)) as Ha.
  { intros q Hq. unfold allocated. by rewrite Hh, Hn. }
  split; [exact Ha| |].
  - intros q Hq. unfold gone. by rewrite (Hh : heap (final (modify f m)) = _), (Hn : next (final (modify f m)) = _).
  - intros Hl id p Hp. apply Ha, (Hl id p). by eapply lookup_weaken.
Qed.

(** An operation that leaves a room shut down when it finds it so. *)
Definition final_op {A} (op : M R effect A) : Prop :=
  ∀ r, alive r = false → alive (final (op r)) = false.

Lemma lasting_call {A} p (op : M R effect A) : final_op op → steps lasting (call (Mo := Mo) p op).
Proof.
  intros Hop m. destruct (heap m !! p) as [r|] eqn:Hp.
  2:{ unfold call. rewrite Hp. apply trace_nil. }
  rewrite (call_run p op m r Hp). cbn [final effects fst snd].
  assert (∀ q, allocated q m → allocated q (set_heap (insert p (final (op r))) m)) as Ha.
  { intros q [Hq Hs]. split; [done|]. simpl. rewrite lookup_insert. by case_decide. }
  split; [exact Ha| |].
  - intros q (Hq & x & Hx & Hd). split; [done|]. simpl. destruct (decide (p = q)) as [->|Hne].
    + rewrite lookup_insert_eq. eexists. split; [done|]. simplify_eq. by apply Hop.
    + rewrite lookup_insert_ne by done. eauto.
  - intros Hl id q Hq. by apply Ha, (Hl id q).
Qed.

Lemma Join_final now c u : final_op (room_Join now c u).
Proof. intros r Hr. by rewrite (proj1 (dead_law r Hr)). Qed.
Lemma JoinReplace_final now old c u : final_op (room_JoinReplace now old c u).
Proof. intros r Hr. destruct (dead_law r Hr) as (_ & -> & _). done. Qed.
Lemma Leave_final c : final_op (room_Leave c).
Proof. intros r Hr. destruct (dead_law r Hr) as (_ & _ & -> & _). done. Qed.
Lemma Shutdown_final : final_op room_Shutdown.
Proof. intros r _. apply Shutdown_law. Qed.
Lemma HandleMessage_final ctx c op payload : final_op (room_HandleMessage ctx c op payload).
Proof. intros r Hr. destruct (dead_law r Hr) as (_ & _ & _ & _ & ->). done. Qed.
Lemma Info_final : final_op room_Info.
Proof. intros r Hr. by rewrite Info_law. Qed.

#[local] Hint Resolve Join_final JoinReplace_final Leave_final Shutdown_final HandleMessage_final Info_final : core.
#[local] Hint Extern 1 (steps lasting (call _ _)) => apply lasting_call : go.

Lemma lasting_peek {A} p (f : R → A) : steps lasting (peek (Mo := Mo) p f).
Proof. intros m. unfold peek. destruct (heap m !! p); apply trace_nil. Qed.
#[local] Hint Resolve lasting_peek : go.

Lemma lasting_emit e : steps lasting (emit (W := t R Mo) e).
Proof. intros m. by split. Qed.
#[local] Hint Resolve lasting_emit : go.

Lemma lasting_publish topic ev : steps lasting (publish (R := R) (Mo := Mo) topic ev).
Proof. apply steps_bind; [apply _|by eauto with go|]. intros e. apply lasting_emit. Qed.
#[local] Hint Resolve lasting_publish : go.

Lemma lasting_records f : steps lasting (modify (set_userSessions (R := R) (Mo := Mo) f)).
Proof. by apply lasting_modify. Qed.
#[local] Hint Resolve lasting_records : go.

(** Through the structure of an operation. *)
Ltac life :=
  repeat first
    [ by eauto with go
    | apply steps_bind; [apply _| |intros ?]
    | apply steps_when; [apply _|]
    | case_match ].

Lemma lasting_list_room r : steps lasting (list_room (Mo := Mo) r).
Proof.
  intros m. rewrite list_room_run. cbn [final effects fst snd].
  assert (∀ q, allocated q m → allocated q (listed r m)) as Ha.
  { intros q [Hq Hs]. split; simpl; [lia|]. rewrite lookup_insert. by case_decide. }
  split; [exact Ha| |].
  - intros q (Hq & x & Hx & Hd). split; simpl; [lia|]. rewrite lookup_insert_ne by lia. eauto.
  - intros Hl id p Hp. apply (lookup_insert_Some (rooms m)) in Hp as [[_ <-]|[_ Hp]]; [|by apply Ha, (Hl id p)].
    split; simpl; [lia|]. by rewrite lookup_insert_eq.
Qed.
#[local] Hint Resolve lasting_list_room : go.

Lemma lasting_build md uuid config : steps lasting (build (R := R) md uuid config).
Proof. intros m. unfold build. destruct (module_Create _ _ _ _) as [[]]. by split. Qed.
#[local] Hint Resolve lasting_build : go.

Lemma lasting_Create uuid config : steps lasting (Create (R := R) plain uuid config).
Proof. unfold Create, announceCreated. life. Qed.

Lemma lasting_Remove id : steps lasting (Remove (R := R) (Mo := Mo) id).
Proof.
  unfold Remove, Remove_locked, announceRemoved. life.
  apply lasting_modify. intros m'. split; [done|]. split; [done|]. apply delete_subseteq.
Qed.

Lemma lasting_ShutdownAll_locked : steps lasting (ShutdownAll_locked (R := R) (Mo := Mo)).
Proof.
  unfold ShutdownAll_locked. life.
Qed.

Lemma lasting_JoinRoom now u c id : steps lasting (JoinRoom (R := R) (Mo := Mo) now u c id).
Proof.
  unfold JoinRoom, JoinRoom_locked, JoinRoom_enter, kick. life.
  apply lasting_modify. intros m'. unfold rollback. by repeat case_match.
Qed.

Lemma lasting_LeaveRoom u c id : steps lasting (LeaveRoom (R := R) (Mo := Mo) u c id).
Proof. unfold LeaveRoom, LeaveRoom_locked. life. Qed.

Lemma lasting_infos ps : steps lasting (infos (R := R) (Mo := Mo) ps).
Proof. induction ps as [|p ps IH]; simpl; life. Qed.

Lemma lasting_List : steps lasting (List (R := R) (Mo := Mo)).
Proof. unfold List. life. apply lasting_infos. Qed.

Lemma lasting_matches typ ids : steps lasting (matches (R := R) (Mo := Mo) typ ids).
Proof. induction ids as [|id ids IH]; simpl; life. Qed.

Lemma lasting_Dispatch ctx c op payload ids :
  steps lasting (DispatchRoomMessage (R := R) (Mo := Mo) ctx c op payload ids).
Proof. unfold DispatchRoomMessage. life. apply lasting_matches. Qed.
End life.

#[export] Hint Resolve lasting_peek lasting_Create lasting_Remove lasting_ShutdownAll_locked
  lasting_JoinRoom lasting_LeaveRoom lasting_List lasting_Dispatch : go.

(** ** What a room does on its own *)

Section rooms.
Context `{GoRange}.

Lemma final_actor {A} (f : ∀ a : AnyMod, M (Room.t (am_S a)) effect A) :
  (∀ a, steps (λ r _ r', Room.closed r' = Room.closed r) (f a)) → final_op (on_any f).
Proof.
  intros Hf r Hr. rewrite on_any_run. specialize (Hf (any_mod r) (any_room r)). cbn in *. by rewrite Hf.
Qed.

Lemma hook_closed {S A} (op : M (Room.t S) effect A) :
  steps (hook_rel (S := S)) op → steps (λ r _ r', Room.closed r' = Room.closed r) op.
Proof. intros Ho r. destruct (Ho r) as [[_ _ _ _ _ Hcl] _ _ _]. exact Hcl. Qed.

(** Ticks, expired removal timers, closing and opening, the keep. *)
Lemma tick_final dt : final_op (on_any (λ a, Room.tick (am_module a) dt)).
Proof. apply final_actor. intros a. apply hook_closed, tick_rel. Qed.

Lemma timer_final : final_op (on_any (λ _, Room.onEmptyTimer)).
Proof. apply final_actor. intros a r. by rewrite onEmptyTimer_run. Qed.

Lemma Close_final : final_op room_Close.
Proof.
  apply final_actor. intros a r. unfold Room.Close. rewrite Close_run. cbn.
  by destruct (Room.closed r) eqn:Hc; rewrite ?Hc.
Qed.

Lemma Open_final : final_op room_Open.
Proof.
  apply final_actor. intros a r. unfold Room.Open. rewrite Close_run. cbn.
  by destruct (Room.closed r) eqn:Hc; rewrite ?Hc.
Qed.
End rooms.
