(* ===== verification/ManagerActor.v ===== *)
(** * The manager under interleaving

    The calls of the manager run on many goroutines. A [call] is cut where the
    code takes or gives up the lock, calls a room or publishes: [start] is what
    it does first, [resume] runs the next section of a call that is under way,
    a [job]. [step] lets any job go on, starts any call, or lets a room move on
    its own. A call that runs alone is the operation of Manager.v. *)

From S2P Require Import Prelude Codec Schema SchemaSpec EventBus Room RoomSpec RoomActor Manager ManagerSpec.
Import Manager.

(** A join under way: its arguments and what was found under the lock. *)
Record joining := mkJoining {
  j_now : Z; j_user : string; j_client : N; j_room : string; j_plan : plan
}.

Section actor.
Context {R Mo : Type} `{!AnyRoom R, !AnyModule Mo R, GoRange} (plain : Mo).
Implicit Types (m : t R Mo).

Inductive call :=
  | CallRegister (md : Mo)
  | CallCreate (uuid : string) (config : RoomConfig.t)
  | CallRemove (id : string)
  | CallShutdownAll
  | CallJoin (now : Z) (u : string) (c : N) (id : string)
  | CallLeave (u : string) (c : N) (id : string)
  | CallDispatch (ctx : bool) (c op : N) (payload : bytes) (ids : list string).

Inductive job :=
  | JList (r : R)                                   (* Create: lock, list the room *)
  | JAnnounce (p : nat)                             (* Create: Info, publish *)
  | JShutdown (p : nat) (id : string)               (* Remove: r.Shutdown() *)
  | JRemoved (id : string)                          (* Remove: publish *)
  | JShutdowns (ps : list nat)                      (* ShutdownAll: the loop *)
  | JEnter (j : joining)                            (* JoinRoom: r.Join or r.JoinReplace *)
  | JFind (j : joining) (s : sessionInfo)           (* m.Find(replaced.RoomID) *)
  | JLeaveOld (j : joining) (s : sessionInfo) (q : nat)  (* oldRoom.Leave *)
  | JKick (j : joining) (s : sessionInfo)           (* publish room.kicked *)
  | JRollback (j : joining)                         (* lock, roll back *)
  | JInfo (j : joining)                             (* r.Info() *)
  | JLeave (p : nat) (c : N)                        (* LeaveRoom: r.Leave *)
  | JMatch (typ : string) (ctx : bool) (c op : N) (payload : bytes) (ids : list string)
  | JHandle (p : nat) (ctx : bool) (c op : N) (payload : bytes).

(** The first section of a call, and the rest of it. *)
Definition start (cl : call) : M (t R Mo) effect (list job) :=
  match cl with
  | CallRegister md => RegisterModule md ;; mret []
  | CallCreate uuid config =>
      m ← get;
      r ← (match m.(modules) !! config.(RoomConfig.Type_) with
           | Some md => build md uuid (overrideConfig (BaseConfig md) config)
           | None => build plain uuid (RoomConfig.ApplyDefaults config)
           end);
      mret [JList (room_setOnEmpty r)]
  | CallRemove id =>
      room ← Remove_locked id;
      mret (match room with Some p => [JShutdown p id] | None => [] end)
  | CallShutdownAll => ps ← ShutdownAll_locked; mret [JShutdowns ps]
  | CallJoin now u c id =>
      pl ← JoinRoom_locked u c id;
      mret (match pl with Ok pl => [JEnter (mkJoining now u c id pl)] | Err _ => [] end)
  | CallLeave u c id =>
      room ← LeaveRoom_locked u c id;
      mret (match room with Some p => [JLeave p c] | None => [] end)
  | CallDispatch ctx c op payload ids =>
      m ← get;
      mret (match OpType op m with Some typ => [JMatch typ ctx c op payload ids] | None => [] end)
  end.

(** Where a join goes from the answer of the room. *)
Definition joined (j : joining) (e : option error) (success : job) : list job :=
  match e with Some _ => [JRollback j] | None => [success] end.

Definition resume (jb : job) : M (t R Mo) effect (list job) :=
  match jb with
  | JList r => p ← list_room r; mret [JAnnounce p]
  | JAnnounce p => announceCreated p ;; mret []
  | JShutdown p id => Manager.call p room_Shutdown ;; mret [JRemoved id]
  | JRemoved id => announceRemoved id ;; mret []
  | JShutdowns [] => mret []
  | JShutdowns (p :: ps) => Manager.call p room_Shutdown ;; mret [JShutdowns ps]
  | JEnter j =>
      match (j_plan j).(plan_replaced) with
      | Some s =>
          if String.eqb s.(RoomID) (j_room j) then
            e ← Manager.call (j_plan j).(plan_room)
                  (room_JoinReplace (j_now j) s.(ClientID) (j_client j) (j_user j));
            mret (joined j e (JKick j s))
          else
            e ← Manager.call (j_plan j).(plan_room) (room_Join (j_now j) (j_client j) (j_user j));
            mret (joined j e (JFind j s))
      | None =>
          e ← Manager.call (j_plan j).(plan_room) (room_Join (j_now j) (j_client j) (j_user j));
          mret (joined j e (JInfo j))
      end
  | JFind j s =>
      m ← get;
      mret [match Find s.(RoomID) m with Some q => JLeaveOld j s q | None => JKick j s end]
  | JLeaveOld j s q => Manager.call q (room_Leave s.(ClientID)) ;; mret [JKick j s]
  | JKick j s => kick s.(ClientID) (j_room j) ;; mret [JInfo j]
  | JRollback j =>
      when (negb ((j_plan j).(plan_mode) =? SingletonAllow)%N)
        (modify (rollback (j_user j) (j_plan j).(plan_type) (j_client j))) ;;
      mret []
  | JInfo j => Manager.call (j_plan j).(plan_room) room_Info ;; mret []
  | JLeave p c => Manager.call p (room_Leave c) ;; mret []
  | JMatch typ ctx c op payload ids =>
      ps ← matches typ ids;
      mret (match ps with [p] => [JHandle p ctx c op payload] | _ => [] end)
  | JHandle p ctx c op payload =>
      Manager.call p (room_HandleMessage ctx c op payload) ;; mret []
  end.

(** ** Alone *)

(** The operation of Manager.v, its result aside. *)
Definition whole (cl : call) : M (t R Mo) effect unit :=
  match cl with
  | CallRegister md => RegisterModule md
  | CallCreate uuid config => Create plain uuid config ;; mret tt
  | CallRemove id => Remove id
  | CallShutdownAll => ShutdownAll
  | CallJoin now u c id => JoinRoom now u c id ;; mret tt
  | CallLeave u c id => LeaveRoom u c id
  | CallDispatch ctx c op payload ids => DispatchRoomMessage ctx c op payload ids ;; mret tt
  end.

(** Sections one after the other until the call is over. *)
Fixpoint finish (fuel : nat) (js : list job) : M (t R Mo) effect unit :=
  match js, fuel with
  | [], _ => mret tt
  | _, O => go_panic "the call is not over"
  | jb :: js, S fuel => more ← resume jb; finish fuel (more ++ js)
  end.

(** One section, then the rest. *)
Lemma finish_cons n jb : finish (S n) [jb] ≡ resume jb ≫= finish n.
Proof. simpl. apply M_bind_ext. intros js. by rewrite app_nil_r. Qed.

Lemma finish_nil n : finish n [] ≡ mret tt.
Proof. by destruct n. Qed.

#[local] Ltac section := repeat (rewrite M_assoc || rewrite M_ret_l || rewrite finish_nil).
#[local] Ltac under := section; apply M_bind_ext; intros ?; section.

(** *** The shutdown of every room *)

Lemma finish_shutdowns ps :
  ∃ n, finish n [JShutdowns ps] ≡ for_each (λ p, Manager.call p room_Shutdown) ps.
Proof.
  induction ps as [|p ps [n IH]]; [by exists 1|]. exists (S n).
  rewrite finish_cons. cbn [resume for_each]. by under.
Qed.

Lemma alone_shutdown m : ∃ n, (start CallShutdownAll ≫= finish n) m = ShutdownAll m.
Proof.
  destruct (finish_shutdowns (range (rooms m)).*2) as [n Hn]. exists n.
  cbn [start]. unfold ShutdownAll. rewrite (M_assoc _ _ _ m).
  assert (∃ m', ShutdownAll_locked m = (Ret (range (rooms m)).*2, m', [])) as [m' Hl] by by eexists.
  rewrite !(bind_value _ _ _ _ _ _ Hl), (M_ret_l _ _ _). by rewrite (Hn _).
Qed.

(** *** A join *)

Lemma finish_rollback n j :
  finish (S n) [JRollback j] ≡
  (when (negb ((j_plan j).(plan_mode) =? SingletonAllow)%N)
     (modify (rollback (j_user j) (j_plan j).(plan_type) (j_client j))) ;; mret tt).
Proof. rewrite finish_cons. cbn [resume]. by under. Qed.

Lemma finish_info n j :
  finish (S n) [JInfo j] ≡ (Manager.call (j_plan j).(plan_room) room_Info ;; mret tt).
Proof. rewrite finish_cons. cbn [resume]. by under. Qed.

Lemma finish_kick n j s :
  finish (S (S n)) [JKick j s] ≡
  (kick s.(ClientID) (j_room j) ;; Manager.call (j_plan j).(plan_room) room_Info ;; mret tt).
Proof. rewrite finish_cons. cbn [resume]. under. apply finish_info. Qed.

Lemma finish_find n j s :
  finish (S (S (S (S n)))) [JFind j s] ≡
  (m ← get;
   match Find s.(RoomID) m with
   | Some old => Manager.call old (room_Leave s.(ClientID))
   | None => mret tt
   end ;;
   kick s.(ClientID) (j_room j) ;; Manager.call (j_plan j).(plan_room) room_Info ;; mret tt).
Proof.
  rewrite finish_cons. cbn [resume]. under. destruct (Find _ _) as [q|].
  - rewrite finish_cons. cbn [resume]. under. apply finish_kick.
  - section. apply finish_kick.
Qed.

Lemma alone_join now u c id :
  start (CallJoin now u c id) ≫= finish 6 ≡ whole (CallJoin now u c id).
Proof.
  cbn [start whole]. unfold JoinRoom. section. apply M_bind_ext. intros [pl|e]; section; [|done].
  rewrite finish_cons. cbn [resume]. unfold JoinRoom_enter. cbn [j_plan j_user j_client j_room j_now].
  destruct (plan_replaced pl) as [s|]; [destruct (String.eqb _ _)|]; section;
    apply M_bind_ext; intros [e|]; section; cbn [joined];
    rewrite ?finish_rollback, ?finish_kick, ?finish_find, ?finish_info;
    cbn [j_plan j_user j_client j_room j_now];
    rewrite ?bool_decide_true, ?bool_decide_false by done; cbn [when]; section.
  - under. done.
  - under. under. done.
  - under. done.
  - under. under. under. under. done.
  - under. done.
  - under. done.
Qed.

(** *** The other calls *)

Lemma alone_create uuid config :
  start (CallCreate uuid config) ≫= finish 2 ≡ whole (CallCreate uuid config).
Proof.
  cbn [start whole]. unfold Create. under. under.
  rewrite finish_cons. cbn [resume]. section. under.
  rewrite finish_cons. cbn [resume]. under. done.
Qed.

Lemma alone_dispatch ctx c op payload ids :
  start (CallDispatch ctx c op payload ids) ≫= finish 2 ≡ whole (CallDispatch ctx c op payload ids).
Proof.
  cbn [start whole]. unfold DispatchRoomMessage. under. destruct (OpType op _) as [typ|]; section; [|done].
  rewrite finish_cons. cbn [resume]. under. destruct a0 as [|p [|q ps]]; section; try done.
  rewrite finish_cons. cbn [resume]. under. done.
Qed.

Lemma alone_remove id : start (CallRemove id) ≫= finish 2 ≡ whole (CallRemove id).
Proof.
  cbn [start whole]. unfold Remove. under. destruct a as [p|]; section; [|done].
  rewrite finish_cons. cbn [resume]. under. rewrite finish_cons. cbn [resume]. section.
  rewrite <- (M_ret_r (announceRemoved id)) at 2. apply M_bind_ext. intros []. by section.
Qed.

Lemma alone_leave u c id : start (CallLeave u c id) ≫= finish 1 ≡ whole (CallLeave u c id).
Proof.
  cbn [start whole]. unfold LeaveRoom. under. destruct a as [p|]; section; [|done].
  rewrite finish_cons. cbn [resume]. section.
  rewrite <- (M_ret_r (Manager.call p (room_Leave c))) at 2. apply M_bind_ext. intros []. by section.
Qed.

Lemma alone_register md : start (CallRegister md) ≫= finish 0 ≡ whole (CallRegister md).
Proof.
  cbn [start whole]. section.
  rewrite <- (M_ret_r (RegisterModule md)) at 2. apply M_bind_ext. intros []. by section.
Qed.

(** A call that runs alone is the operation of Manager.v, on every state: the
    same state, the same effects in the same order, and it comes to an end. *)
Lemma alone_run (cl : call) m : ∃ n, (start cl ≫= finish n) m = whole cl m.
Proof.
  destruct cl.
  - exists 0. apply alone_register.
  - exists 2. apply alone_create.
  - exists 2. apply alone_remove.
  - apply alone_shutdown.
  - exists 6. apply alone_join.
  - exists 1. apply alone_leave.
  - exists 2. apply alone_dispatch.
Qed.
End actor.

(** ** Interleaved *)

Section interleaving.
Context {R Mo : Type} `{!AnyRoom R, !AnyRoomView R, !AnyRoomSpec R}.
Context `{!AnyModule Mo R, !AnyModuleSpec Mo R, GoRange} (plain : Mo).
Implicit Types (m : t R Mo).

(** The manager and the calls under way, in any order. *)
Definition config : Type := t R Mo * list (job (R := R)).

(** The arguments the callers pass: names and numbers that fit the wire. *)
Definition call_ok (cl : call (Mo := Mo)) : Prop :=
  match cl with
  | CallRegister md => module_ok md
  | CallCreate _ config => (config.(RoomConfig.MaxPlayers) < 65536)%N
  | CallJoin _ u c _ => nameable c u
  | CallLeave _ c _ => is_id c
  | _ => True
  end.

(** A room can be listed when its id is new: uuids do not repeat. *)
Definition runnable (jb : job (R := R)) m : Prop :=
  match jb with JList r => rooms m !! room_ID r = None | _ => True end.

(** What a section leaves to be done; a section that panics ends its call. *)
Definition more {A} (o : outcome (list A)) : list A :=
  match o with Ret js => js | Panic _ => [] end.

Inductive step : config → list effect → config → Prop :=
  | step_start cl m js :
      call_ok cl →
      step (m, js) (effects (start plain cl m))
           (final (start plain cl m), more (value (start plain cl m)) ++ js)
  | step_resume jb m js1 js2 :
      runnable jb m →
      step (m, js1 ++ jb :: js2) (effects (resume jb m))
           (final (resume jb m), js1 ++ more (value (resume jb m)) ++ js2)
  (* what rooms do on their own: a tick, an expiring timer, a hook *)
  | step_room {A} p (f : M R effect A) m js :
      stable f →
      step (m, js) (effects (Manager.call p f m)) (final (Manager.call p f m), js).

Inductive reachable : config → Prop :=
  | reach_new : reachable (NewManager, [])
  | reach_step c es c' : reachable c → step c es c' → reachable c'.

(** *** What a job carries *)

Definition joining_ok (j : joining) : Prop :=
  nameable (j_client j) (j_user j) ∧ ∀ s, (j_plan j).(plan_replaced) = Some s → is_id s.(ClientID).

Definition job_ok (jb : job (R := R)) : Prop :=
  match jb with
  | JList r => room_ok r
  | JEnter j => joining_ok j
  | JFind _ s | JLeaveOld _ s _ => is_id s.(ClientID)
  | JLeave _ c => is_id c
  | _ => True
  end.

(** A section keeps the invariant and leaves jobs that are in order. *)
Definition sound m (r : outcome (list (job (R := R))) * t R Mo * list effect) : Prop :=
  wf m → wf (final r) ∧ Forall job_ok (more (value r)).

Lemma sound_bind {A} (op : M (t R Mo) effect A) k m :
  steps keeps op →
  (∀ a, Forall job_ok (k a)) →
  sound m ((op ≫= λ a, mret (k a)) m).
Proof.
  intros Hop Hk Hm. pose proof (Hop m Hm) as Hf.
  destruct (op m) as [[[a|msg] m'] es] eqn:Hrun.
  - rewrite (bind_value _ _ _ _ _ _ Hrun). split; [exact Hf|apply Hk].
  - rewrite (bind_panic _ _ _ _ _ _ Hrun). split; [exact Hf|constructor].
Qed.

Lemma joined_ok j e success : job_ok success → Forall job_ok (joined j e success).
Proof. intros Hs. destruct e; cbn [joined]; apply Forall_singleton; [exact I|exact Hs]. Qed.

Lemma keeps_announceCreated p : steps keeps (announceCreated (R := R) (Mo := Mo) p).
Proof.
  apply steps_bind; [apply _|apply keeps_call, Info_stable|].
  intros [i|e]; [apply keeps_publish|by eauto with go].
Qed.

Lemma sound_enter j m : joining_ok j → sound m (resume (JEnter j) m).
Proof.
  intros [Hn Hids]. cbn [resume]. destruct (plan_replaced (j_plan j)) as [s|].
  - specialize (Hids s eq_refl). destruct (String.eqb _ _);
      (apply sound_bind; [|intros e; by apply joined_ok]); apply keeps_call.
    + by apply JoinReplace_stable.
    + by apply Join_stable.
  - apply sound_bind; [by apply keeps_call, Join_stable|]. intros e. by apply joined_ok.
Qed.

Lemma sound_resume jb m : job_ok jb → runnable jb m → sound m (resume jb m).
Proof.
  intros Hok Hrun.
  destruct jb as [r|p|p id|id|[|p ps]|j|j s|j s q|j s|j|j|p c|typ ctx c op payload ids|p ctx c op payload];
    cbn [job_ok runnable] in Hok, Hrun.
  1: { intros Hm. split; [exact (wf_listed_new m r Hm Hrun Hok)|by repeat constructor]. }
  all: try (cbn [resume]; apply sound_bind; [|by repeat constructor]).
  - apply keeps_announceCreated.
  - apply keeps_call, Shutdown_stable.
  - apply keeps_publish.
  - by intros Hm.
  - apply keeps_call, Shutdown_stable.
  - by apply sound_enter.
  - cbn [resume]. apply (sound_bind get); [by eauto with go|].
    intros m'. destruct (Find _ _); by repeat constructor.
  - by apply keeps_call, Leave_stable.
  - apply keeps_publish.
  - apply steps_when; [apply _|]. intros m' Hm'. by apply keeps_rollback.
  - apply keeps_call, Info_stable.
  - by apply keeps_call, Leave_stable.
  - cbn [resume]. apply sound_bind; [apply keeps_matches|].
    intros [|p [|q ps]]; by repeat constructor.
  - apply keeps_call, HandleMessage_stable.
Qed.

(** [Create] up to the room it builds. *)
Lemma sound_create uuid config m :
  (config.(RoomConfig.MaxPlayers) < 65536)%N → sound m (start plain (CallCreate uuid config) m).
Proof.
  intros Hmax Hm. cbn [start]. rewrite bind_get.
  pose proof (effective_ok plain m config Hm Hmax) as Heff.
  assert ((match modules m !! config.(RoomConfig.Type_) with
    | Some md => build md uuid (overrideConfig (BaseConfig md) config)
    | None => build plain uuid (RoomConfig.ApplyDefaults config) end) =
    build (effective plain m config).1 uuid (effective plain m config).2) as ->.
  { unfold effective. by destruct (modules m !! _). }
  destruct (module_Create (effective plain m config).1 uuid (effective plain m config).2 tt)
    as [[[r|msg] []] es] eqn:Hcr.
  - rewrite (bind_value _ _ r m m es) by by unfold build; rewrite Hcr.
    cbn. split; [done|]. constructor; [|done]. cbn.
    destruct (Create_law _ _ _ _ _ _ Heff Hcr) as (Hr & _). by apply setOnEmpty_law.
  - by rewrite (bind_panic _ _ msg m m es) by by unfold build; rewrite Hcr.
Qed.

Lemma sound_start cl m : call_ok cl → sound m (start plain cl m).
Proof.
  intros Hok. destruct cl as [md|uuid config|id| |now u c id|u c id|ctx c op payload ids]; cbn [call_ok] in Hok.
  - apply sound_bind; [by apply keeps_RegisterModule|by repeat constructor].
  - by apply sound_create.
  - apply sound_bind; [intros m' Hm'; by apply wf_Remove_locked|]. intros [p|]; by repeat constructor.
  - apply sound_bind; [apply keeps_ShutdownAll_locked|by repeat constructor].
  - intros Hm. pose proof (nameable_id c u Hok) as Hc.
    destruct (JoinRoom_locked_facts u c id m Hm Hc) as (res & m' & Hrun & Hm' & _ & _ & _ & _ & Hres).
    cbn [start]. rewrite (bind_value _ _ _ _ _ _ Hrun). split; [done|].
    destruct res as [pl|e]; [|by repeat constructor]. destruct Hres as [_ Hrep].
    repeat constructor; [done|]. intros s Hs%Hrep. apply (wf_record _ Hm _ _ _ Hs).
  - apply sound_bind; [apply keeps_LeaveRoom_locked|]. intros [p|]; by repeat constructor.
  - apply (sound_bind get); [by eauto with go|]. intros m'. destruct (OpType op m'); by repeat constructor.
Qed.

Lemma reachable_sound c : reachable c → wf c.1 ∧ Forall job_ok c.2.
Proof.
  induction 1 as [|c es c' _ [Hm Hjs] Hstep]; [split; [apply wf_new|done]|].
  destruct Hstep as [cl m js Hok|jb m js1 js2 Hrun|A p f m js Hst]; cbn [fst snd] in *.
  - destruct (sound_start cl m Hok Hm) as [Hm' Hnew]. split; [done|]. by apply Forall_app.
  - apply Forall_app in Hjs as [H1 [Hjb H2]%Forall_cons].
    destruct (sound_resume jb m Hjb Hrun Hm) as [Hm' Hnew]. split; [done|]. by rewrite !Forall_app.
  - split; [by apply keeps_call|done].
Qed.

(** *** Schedules *)

(** Begin a call, or go on with the job at a position. *)
Inductive move := Begin (cl : call (Mo := Mo)) | Go (i : nat).

Definition move_ok (mv : move) (c : config) : Prop :=
  match mv with
  | Begin cl => call_ok cl
  | Go i => match c.2 !! i with Some jb => runnable jb c.1 | None => False end
  end.

(** A new call goes to the front; a call under way keeps its place. *)
Definition run_move (mv : move) (c : config) : config :=
  match mv with
  | Begin cl => let res := start plain cl c.1 in (final res, more (value res) ++ c.2)
  | Go i =>
      match c.2 !! i with
      | Some jb =>
          let res := resume jb c.1 in
          (final res, take i c.2 ++ more (value res) ++ drop (S i) c.2)
      | None => c
      end
  end.

Fixpoint run_moves (mvs : list move) (c : config) : config :=
  match mvs with [] => c | mv :: mvs => run_moves mvs (run_move mv c) end.

Fixpoint moves_ok (mvs : list move) (c : config) : Prop :=
  match mvs with [] => True | mv :: mvs => move_ok mv c ∧ moves_ok mvs (run_move mv c) end.

Lemma reachable_moves mvs c : reachable c → moves_ok mvs c → reachable (run_moves mvs c).
Proof.
  revert c. induction mvs as [|mv mvs IH]; [done|]. intros [m js] Hc [Hok Hrest]. simpl.
  apply IH; [|done]. destruct mv as [cl|i]; simpl in Hok |- *.
  - eapply reach_step; [exact Hc|]. by apply step_start.
  - destruct (js !! i) as [jb|] eqn:Hi; [|done]. eapply reach_step; [exact Hc|].
    rewrite <- (take_drop_middle js i jb Hi) at 1. by apply step_resume.
Qed.
End interleaving.
