(* ===== verification/ManagerProps.v ===== *)
(** * The properties of the manager

    The invariant under interleaving, the contracts of the operations, and the
    ways in which a user comes to be in two rooms of an exclusive type. Proved
    against the interface of rooms; the witnesses run the manager on the rooms of
    [Room]. *)

From S2P Require Import Prelude Codec Schema SchemaSpec EventBus Room RoomSpec RoomActor Manager ManagerSpec ManagerActor.
Import Manager.

Section props.
Context {R Mo : Type} `{!AnyRoom R, !AnyRoomView R, !AnyRoomSpec R}.
Context `{!AnyModule Mo R, !AnyModuleSpec Mo R, GoRange} (plain : Mo).
Implicit Types (m : t R Mo).

(** C2: whatever calls of the manager are under way at once, in whatever order
    their critical sections, their calls of rooms and their publications follow
    one another, and whatever the rooms do in between: the listed rooms are
    allocated under their own id, every singleton record names a listed room of
    its type in a restricted mode, and no user keeps an empty map of records. *)
Theorem manager_wf (c : ManagerActor.config) : ManagerActor.reachable plain c → wf c.1.
Proof. intros Hc. by apply (ManagerActor.reachable_sound plain c). Qed.

Lemma rollback_recorded u typ id c m :
  rollback u typ c (record u typ (mkSession id c) m) =
  set_userSessions (dropSession u typ) (record u typ (mkSession id c) m).
Proof.
  unfold rollback, sessionOf. simpl. rewrite lookup_insert_eq. simpl.
  rewrite lookup_insert_eq. simpl. by rewrite N.eqb_refl.
Qed.

(** C3: joining a room of a Reject type. A user who is recorded in this type with
    another client or another room is refused with ErrAlreadyInRoomOfType, and
    nothing changes. Anybody else gets the answer of the room's own Join: if that
    lets the client in, the room is as it leaves it, with the client a member, the
    answer is the room's info and the record names this room and this client; if
    it refuses, its error is passed on, no room changes and the user is left
    without a record of the type. The list of rooms and the other records are as
    before. *)
Theorem JoinRoom_reject now u c id m p r :
  wf m → nameable c u → rooms m !! id = Some p → heap m !! p = Some r →
  (room_Config r).(RoomConfig.SingletonMode) = SingletonReject →
  let typ := (room_Config r).(RoomConfig.Type_) in
  let mine := mkSession id c in
  let res := JoinRoom now u c id m in
  (∀ s, sessionOf u typ m = Some s → s ≠ mine →
     res = (Ret (Err (ErrSentinel ErrAlreadyInRoomOfType)), m, [])) ∧
  ((∀ s, sessionOf u typ m = Some s → s = mine) →
     let join := room_Join now c u r in
     rooms (final res) = rooms m ∧ effects res = effects join ∧
     (∀ u' typ', (u', typ') ≠ (u, typ) → sessionOf u' typ' (final res) = sessionOf u' typ' m) ∧
     match value join with
     | Ret None => value res = Ret (Ok (info (final join))) ∧
         heap (final res) = <[p := final join]> (heap m) ∧
         members (final join) = {[c]} ∪ members r ∧ sessionOf u typ (final res) = Some mine
     | Ret (Some e) => value res = Ret (Err e) ∧ heap (final res) = heap m ∧
         sessionOf u typ (final res) = None
     | Panic _ => False
     end).
Proof.
  intros Hm Hn Hp Hr Hmode typ mine res.
  pose proof (JoinRoom_locked_run u c id m p r Hp Hr) as Hl. cbv zeta in Hl.
  rewrite Hmode in Hl. cbn [N.eqb Pos.eqb SingletonReject SingletonAllow SingletonReplace] in Hl.
  fold typ mine in Hl. split.
  - intros s Hs Hne. rewrite Hs, decide_False in Hl by done. unfold res, JoinRoom.
    by erewrite bind_value by exact Hl.
  - intros Hs join. assert (JoinRoom_locked u c id m =
      (Ret (Ok (mkPlan p SingletonReject typ None)), record u typ mine m, [])) as Hl'.
    { rewrite Hl. destruct (sessionOf u typ m) as [s|]; [|done].
      by rewrite decide_True by auto. }
    destruct (wf_heap _ Hm p r Hr) as [Hok _].
    destruct (JoinRoom_plain now u c id m p r _ _ _ Hl' Hr Hok Hn)
      as [(e & He & Hj)|(Hv & _ & Hmem & Hj)]; subst res; rewrite Hj.
    + unfold join. rewrite He. unfold mine. cbn [value final effects fst snd N.eqb Pos.eqb SingletonReject SingletonAllow].
      rewrite rollback_recorded. split; [done|]. split; [done|]. split; [|split; [done|split; [done|]]].
      * intros u' typ' Hne. by rewrite sessionOf_drop, sessionOf_record, !decide_False by (intros [-> ->]; done).
      * rewrite sessionOf_drop. by rewrite decide_True.
    + unfold join. rewrite Hv. cbn [value final effects fst snd]. split; [done|]. split; [done|].
      split; [|split; [done|split; [done|split; [done|]]]].
      * intros u' typ' Hne. change (sessionOf u' typ' (record u typ mine m) = sessionOf u' typ' m).
        by rewrite sessionOf_record, decide_False by (intros [-> ->]; done).
      * change (sessionOf u typ (record u typ mine m) = Some mine).
        rewrite sessionOf_record. by rewrite decide_True.
Qed.

Lemma record_of_other u typ s m c id :
  sessionOf u typ m = Some s → s.(RoomID) ≠ id → s ≠ mkSession id c.
Proof. by intros _ Hne ->. Qed.

(** The plan of a Replace join. *)
Lemma replace_plan u c id m p r s :
  rooms m !! id = Some p → heap m !! p = Some r →
  (room_Config r).(RoomConfig.SingletonMode) = SingletonReplace →
  let typ := (room_Config r).(RoomConfig.Type_) in
  sessionOf u typ m = Some s → s ≠ mkSession id c →
  JoinRoom_locked u c id m =
  (Ret (Ok (mkPlan p SingletonReplace typ (Some s))), record u typ (mkSession id c) m, []).
Proof.
  intros Hp Hr Hmode typ Hs Hne.
  pose proof (JoinRoom_locked_run u c id m p r Hp Hr) as Hl. cbv zeta in Hl.
  fold typ in Hl. by rewrite Hmode, Hs, decide_False in Hl.
Qed.

(** C4: a Replace join from another room. When the new room lets the client in,
    the old client is taken out of the old room, gets the kicked event on its
    personal topic after that, the record moves to the new room and client, and
    the rest of the rooms is untouched. *)
Theorem JoinRoom_replace now u c id m p r s q old :
  wf m → nameable c u → valid (Kicked.mk "replaced" id) →
  rooms m !! id = Some p → heap m !! p = Some r →
  (room_Config r).(RoomConfig.SingletonMode) = SingletonReplace →
  let typ := (room_Config r).(RoomConfig.Type_) in
  sessionOf u typ m = Some s → s.(RoomID) ≠ id →
  rooms m !! s.(RoomID) = Some q → heap m !! q = Some old → alive old = true →
  value (room_Join now c u r) = Ret None →
  let r' := final (room_Join now c u r) in
  let old' := final (room_Leave s.(ClientID) old) in
  let res := JoinRoom now u c id m in
  value res = Ret (Ok (info r')) ∧ rooms (final res) = rooms m ∧
  heap (final res) = <[q := old']> (<[p := r']> (heap m)) ∧
  members r' = {[c]} ∪ members r ∧ members old' = members old ∖ {[s.(ClientID)]} ∧
  sessionOf u typ (final res) = Some (mkSession id c) ∧
  effects res = effects (room_Join now c u r) ++ effects (room_Leave s.(ClientID) old) ++
    [EPublish (clientTopic s.(ClientID)) (Event.mk EventRoomKicked (enc (Kicked.mk "replaced" id)))].
Proof.
  intros Hm Hn Hk Hp Hr Hmode typ Hs Hne Hq Hold Hal Hj r' old' res.
  destruct (wf_heap _ Hm p r Hr) as [Hok _]. destruct (wf_heap _ Hm q old Hold) as [Hoko _].
  destruct (wf_record _ Hm u typ s Hs) as [Hid _].
  assert (p ≠ q) as Hpq.
  { intros <-. destruct (wf_listed _ Hm _ _ Hp) as (x & Hx & <-).
    destruct (wf_listed _ Hm _ _ Hq) as (y & Hy & HyID). congruence. }
  destruct (Join_law now c u r Hok Hn) as [[e He]|(_ & _ & Ha & Hmem)]; [by rewrite He in Hj|].
  destruct (Leave_law s.(ClientID) old Hoko Hid) as (Hlv & _ & Hlm). rewrite Hal in Hlm.
  set (m1 := record u typ (mkSession id c) m).
  set (m2 := set_heap (insert p r') m1). set (m3 := set_heap (insert q old') m2).
  assert (res = (Ret (Ok (info r')), m3, effects (room_Join now c u r) ++
    effects (room_Leave s.(ClientID) old) ++
    [EPublish (clientTopic s.(ClientID)) (Event.mk EventRoomKicked (enc (Kicked.mk "replaced" id)))]))
    as ->.
  { unfold res, JoinRoom.
    erewrite bind_value by by apply (replace_plan u c id m p r s), (record_of_other u typ s m).
    unfold JoinRoom_enter. cbn [plan_replaced plan_room plan_mode plan_type final fst snd].
    destruct (String.eqb_spec s.(RoomID) id) as [|_]; [done|].
    erewrite bind_value.
    2:{ erewrite bind_value by (rewrite (call_run p _ m1 r Hr), Hj; done).
        rewrite bool_decide_true by done. unfold when. cbn [final fst snd].
        erewrite bind_value.
        2:{ rewrite bind_get. unfold Find. change (rooms _ !! s.(RoomID)) with (rooms m !! s.(RoomID)).
            rewrite Hq. erewrite bind_value.
            2:{ rewrite (call_run q _ m2 old); [by rewrite Hlv|]. simpl. by rewrite lookup_insert_ne. }
            unfold kick, publish. cbn [final fst snd].
            pose proof (NewEvent_enc EventRoomKicked (Kicked.mk "replaced" id) Hk) as Hev.
            change (marshal (Kicked.mk "replaced" id)) with (Kicked.Marshal (Kicked.mk "replaced" id)) in Hev.
            rewrite Hev, bind_lift. done. }
        done. }
    cbn [final fst snd].
    erewrite bind_value.
    2:{ apply call_Info_run. simpl. rewrite lookup_insert_ne by done. apply lookup_insert_eq. }
    cbn [value final effects fst snd]. fold r' in Ha |- *. rewrite Ha. cbn.
    by rewrite ?app_nil_r, ?app_assoc. }
  cbn [value final effects fst snd]. split; [done|]. do 4 (split; [done|]). split; [|done].
  change (sessionOf u typ m1 = Some (mkSession id c)). unfold m1.
  rewrite sessionOf_record. by rewrite decide_True.
Qed.

(** C35: a Replace join that the new room refuses costs the user the record of the
    session it did not replace: the old client stays in the old room, which is
    untouched, but the user has no record of the type any more. *)
Theorem failed_replace_loses_record now u c id m p r s e :
  wf m → rooms m !! id = Some p → heap m !! p = Some r →
  (room_Config r).(RoomConfig.SingletonMode) = SingletonReplace →
  let typ := (room_Config r).(RoomConfig.Type_) in
  sessionOf u typ m = Some s → s.(RoomID) ≠ id →
  room_Join now c u r = (Ret (Some e), r, []) →
  let res := JoinRoom now u c id m in
  value res = Ret (Err e) ∧ effects res = [] ∧ rooms (final res) = rooms m ∧
  heap (final res) = heap m ∧ sessionOf u typ (final res) = None.
Proof.
  intros Hm Hp Hr Hmode typ Hs Hne Hj res.
  set (m1 := record u typ (mkSession id c) m).
  assert (res = (Ret (Err e), set_userSessions (dropSession u typ) m1, [])) as ->.
  { set (pl := mkPlan p SingletonReplace typ (Some s)).
    assert (JoinRoom_enter now u c id pl m1 = (Ret (Some e), m1, [])) as Henter.
    { unfold JoinRoom_enter. cbn [plan_replaced plan_room pl].
      destruct (String.eqb_spec s.(RoomID) id) as [|_]; [done|].
      erewrite bind_value by (rewrite (call_run p _ m1 r Hr), Hj; done).
      rewrite bool_decide_false by done. cbn [final fst snd].
      by rewrite (set_heap_same m1 p r Hr). }
    unfold res, JoinRoom.
    erewrite bind_value by by apply (replace_plan u c id m p r s), (record_of_other u typ s m).
    fold typ m1 pl. cbn [final fst snd]. erewrite bind_value by exact Henter.
    cbn [final fst snd]. unfold when, pl. cbn [plan_mode plan_type N.eqb Pos.eqb SingletonReplace SingletonAllow negb].
    rewrite bind_modify. unfold m1. rewrite rollback_recorded. done. }
  cbn [value final effects fst snd]. do 4 (split; [done|]). rewrite sessionOf_drop.
  by rewrite decide_True.
Qed.

(** C18: [Remove] takes the room off the list and out of every user's records,
    leaves all the other records alone, shuts the room down, and announces it
    in the lobby after the shutdown; a room that is not listed is left alone. *)
Theorem Remove_spec id m p r :
  wf m → valid (RoomRemoved.mk id) → rooms m !! id = Some p → heap m !! p = Some r →
  let res := Remove id m in
  value res = Ret tt ∧ rooms (final res) = delete id (rooms m) ∧
  heap (final res) = <[p := final (room_Shutdown r)]> (heap m) ∧
  alive (final (room_Shutdown r)) = false ∧
  (∀ u typ, sessionOf u typ (final res) =
     match sessionOf u typ m with
     | Some s => if decide (s.(RoomID) = id) then None else Some s
     | None => None
     end) ∧
  effects res = effects (room_Shutdown r) ++
    [EPublish "lobby" (Event.mk EventRoomRemoved (enc (RoomRemoved.mk id)))] ∧
  Remove id (final res) = (Ret tt, final res, []).
Proof.
  intros Hm Hv Hp Hr res. destruct (Shutdown_law r) as [Hs Ha].
  set (typ := (room_Config r).(RoomConfig.Type_)).
  set (m1 := set_userSessions (cleanupSessionType typ id) (set_rooms (delete id) m)).
  assert (res = (Ret tt, set_heap (insert p (final (room_Shutdown r))) m1,
    effects (room_Shutdown r) ++
    [EPublish "lobby" (Event.mk EventRoomRemoved (enc (RoomRemoved.mk id)))])) as ->.
  { unfold res, Remove. erewrite bind_value by by apply Remove_locked_run.
    cbn [final fst snd]. erewrite bind_value by (rewrite (call_run p _ m1 r Hr), Hs; done).
    by rewrite announceRemoved_run. }
  cbn [value final effects fst snd]. do 3 (split; [done|]). split; [done|]. split; [|split; [done|]].
  - intros u typ'. change (session_at (cleanupSessionType typ id (userSessions m)) u typ' =
      match sessionOf u typ' m with
      | Some s => if decide (s.(RoomID) = id) then None else Some s | None => None end).
    rewrite cleanup_at. change (sessionOf u typ' m) with (session_at (userSessions m) u typ').
    destruct (session_at (userSessions m) u typ') as [s|] eqn:Hsu; [|done].
    destruct (decide (s.(RoomID) = id)) as [Hid|Hid].
    + destruct (wf_record _ Hm u typ' s Hsu) as (_ & p' & r' & Hp' & Hr' & Ht & _).
      rewrite decide_True; [done|]. split; [|done]. unfold typ. congruence.
    + by rewrite decide_False by tauto.
  - set (m2 := set_heap _ m1).
    assert (Remove_locked id m2 = (Ret None, m2, [])) as Hl.
    { unfold Remove_locked. rewrite bind_get.
      change (rooms m2 !! id) with (delete id (rooms m) !! id). by rewrite lookup_delete_eq. }
    unfold Remove. by erewrite bind_value by exact Hl.
Qed.

(** The loop of [RegisterModule] over opcodes nobody claimed. *)
Lemma claim_all typ ops m :
  NoDup ops → (∀ op, op ∈ ops → opTypes m !! op = None) →
  for_each (claim typ) ops m =
  (Ret tt, set_opTypes (λ ot, foldl (λ ot op, <[op := typ]> ot) ot ops) m, []).
Proof.
  revert m. induction ops as [|op ops IH]; intros m Hnd Hfree; [by destruct m|].
  apply NoDup_cons in Hnd as [Hnin Hnd]. simpl.
  erewrite bind_value.
  2:{ unfold claim. rewrite bind_get, (Hfree op) by by left. done. }
  rewrite IH; [done|done|]. intros op' Hop'. simpl.
  rewrite lookup_insert_ne by (by intros ->). apply Hfree. by right.
Qed.

Lemma claim_some typ ops m op :
  op ∈ ops → is_Some (opTypes m !! op) →
  ∃ msg m', for_each (claim typ) ops m = (Panic msg, m', []) ∧ modules m' = modules m.
Proof.
  revert m. induction ops as [|op' ops IH]; intros m Hin [owner Ho]; [by apply not_elem_of_nil in Hin|].
  simpl. destruct (opTypes m !! op') as [own|] eqn:Hop'.
  - erewrite bind_panic; [by eexists _, _|]. unfold claim. rewrite bind_get, Hop'. done.
  - erewrite bind_value.
    2:{ unfold claim. rewrite bind_get, Hop'. done. }
    destruct (IH (set_opTypes (insert op' typ) m)) as (msg & m' & Hrun & Hm').
    + apply elem_of_cons in Hin as [->|]; [congruence|done].
    + simpl. destruct (decide (op' = op)) as [->|]; [by rewrite lookup_insert_eq|].
      rewrite lookup_insert_ne by done. by eexists.
    + cbn [final fst snd]. rewrite Hrun. by eexists _, _.
Qed.

Lemma claimed_lookup typ ops (ot : gmap N string) op :
  foldl (λ ot op, <[op := typ]> ot) ot ops !! op = if decide (op ∈ ops) then Some typ else ot !! op.
Proof.
  revert ot. induction ops as [|op' ops IH]; intros ot; cbn [foldl].
  { by rewrite decide_False by apply not_elem_of_nil. }
  rewrite IH. destruct (decide (op ∈ ops)) as [Hin|Hin].
  { by rewrite decide_True by by right. }
  destruct (decide (op' = op)) as [->|Hne].
  - rewrite lookup_insert_eq. by rewrite decide_True by by left.
  - rewrite lookup_insert_ne by done. rewrite decide_False; [done|].
    rewrite elem_of_cons. intros [->|]; done.
Qed.

(** Registering a room type. An empty type, a type that is registered and an
    opcode that another type claims are panics, and the type is not registered;
    otherwise the type is registered and exactly its opcodes are routed to it,
    those of the other types as before. *)
Lemma RegisterModule_spec (md : Mo) m :
  NoDup (Ops md) →
  let res := RegisterModule md m in
  if decide (RoomType md = "" ∨ is_Some (modules m !! RoomType md) ∨
             Exists (λ op, is_Some (opTypes m !! op)) (Ops md)) then
    is_panic (value res) = true ∧ modules (final res) = modules m
  else
    value res = Ret tt ∧ modules (final res) = <[RoomType md := md]> (modules m) ∧
    ∀ op, OpType op (final res) = if decide (op ∈ Ops md) then Some (RoomType md) else OpType op m.
Proof.
  intros Hnd res. unfold res, RegisterModule. rewrite bind_get.
  destruct (String.eqb_spec (RoomType md) "") as [Ht|Ht].
  { rewrite decide_True by by left. done. }
  destruct (modules m !! RoomType md) as [md'|] eqn:Hmd.
  { rewrite decide_True by (right; left; by eexists). done. }
  destruct (decide (Exists (λ op, is_Some (opTypes m !! op)) (Ops md))) as [Hex|Hex].
  - rewrite decide_True by by right; right.
    apply Exists_exists in Hex as (op & Hin & Hop).
    destruct (claim_some (RoomType md) (Ops md) m op Hin Hop) as (msg & m' & Hrun & Hm').
    by erewrite bind_panic by exact Hrun.
  - rewrite decide_False by (intros [?|[[? ?]|?]]; done).
    erewrite bind_value by (apply claim_all; [done|];
      intros op Hin; apply eq_None_not_Some; intros Hop; apply Hex, Exists_exists; eauto).
    cbn. split; [done|]. split; [done|]. intros op. apply claimed_lookup.
Qed.

(** The listed room of the id, when it is of the type. *)
Definition room_of_type (typ : string) m (id : string) : option nat :=
  p ← rooms m !! id; r ← heap m !! p;
  if String.eqb (room_Config r).(RoomConfig.Type_) typ then Some p else None.

Lemma matches_run typ ids m :
  wf m → matches typ ids m = (Ret (omap (room_of_type typ m) ids), m, []).
Proof.
  intros Hm. induction ids as [|id ids IH]; [done|]. simpl. rewrite bind_get.
  unfold room_of_type at 1. destruct (rooms m !! id) as [p|] eqn:Hp; simpl.
  - destruct (wf_listed _ Hm id p Hp) as (r & Hr & _). rewrite Hr. simpl.
    erewrite bind_value.
    2:{ erewrite bind_value by by apply peek_run. done. }
    cbn [final fst snd]. erewrite bind_value by exact IH. cbn.
    by destruct (String.eqb _ _).
  - rewrite bind_ret. erewrite bind_value by exact IH. done.
Qed.

(** C13: routing of room-scoped requests. An opcode no type claims is not handled;
    a claimed one goes to the client's only room of the owner's type, whose answer
    is returned; with no such room the answer is ErrNotInRoom and with several
    ErrAmbiguousRoom, and then no room runs any code. *)
Theorem DispatchRoomMessage_spec ctx c op payload ids m :
  wf m →
  let res := DispatchRoomMessage ctx c op payload ids m in
  match OpType op m with
  | None => res = (Ret None, m, [])
  | Some typ =>
      match omap (room_of_type typ m) ids with
      | [] => res = (Ret (Some (Err (ErrSentinel ErrNotInRoom))), m, [])
      | [p] => ∃ r answer, heap m !! p = Some r ∧ (room_Config r).(RoomConfig.Type_) = typ ∧
          value (room_HandleMessage ctx c op payload r) = Ret answer ∧
          res = (Ret (Some answer),
                 set_heap (insert p (final (room_HandleMessage ctx c op payload r))) m,
                 effects (room_HandleMessage ctx c op payload r))
      | _ => res = (Ret (Some (Err (ErrSentinel ErrAmbiguousRoom))), m, [])
      end
  end.
Proof.
  intros Hm res. subst res. unfold DispatchRoomMessage. rewrite bind_get.
  destruct (OpType op m) as [typ|]; [|done].
  erewrite bind_value by by apply matches_run. cbn [final fst snd].
  destruct (omap (room_of_type typ m) ids) as [|p [|q ps]] eqn:Ho; [done| |done].
  assert (∃ id, room_of_type typ m id = Some p) as [id Hid].
  { assert (p ∈ omap (room_of_type typ m) ids) as Hin by (rewrite Ho; left).
    apply list_elem_of_omap in Hin as (id & _ & Hid). eauto. }
  unfold room_of_type in Hid. destruct (rooms m !! id) as [p'|]; simpl in Hid; [|done].
  destruct (heap m !! p') as [r|] eqn:Hr; simpl in Hid; [|done].
  destruct (String.eqb_spec (room_Config r).(RoomConfig.Type_) typ) as [Ht|]; [|done].
  injection Hid as ->.
  destruct (HandleMessage_law ctx c op payload r) as [answer Hans].
  exists r, answer. split; [done|]. split; [done|]. split; [done|].
  erewrite bind_value by (rewrite (call_run p _ m r Hr), Hans; done).
  cbn. by rewrite app_nil_r.
Qed.

(** C19: creating a room of a registered type. The request may only choose the
    name, the cap and the options: the mode and the grace period are the
    module's; the new room is empty, running and listed under its own id, and
    it is announced in the lobby after what its OnInit did. *)
Theorem Create_spec uuid config m md r es :
  wf m → (config.(RoomConfig.MaxPlayers) < 65536)%N → fresh uuid m →
  modules m !! config.(RoomConfig.Type_) = Some md →
  module_Create md uuid (overrideConfig (BaseConfig md) config) tt = (Ret r, tt, es) →
  valid (info (room_setOnEmpty r)) →
  let res := Create plain uuid config m in
  let base := BaseConfig md in
  ∃ p, value res = Ret p ∧ Find (room_ID r) (final res) = Some p ∧
    heap (final res) !! p = Some (room_setOnEmpty r) ∧ heap m !! p = None ∧
    members (room_setOnEmpty r) = ∅ ∧ alive (room_setOnEmpty r) = true ∧
    let cfg := room_Config (room_setOnEmpty r) in
    cfg.(RoomConfig.Type_) = config.(RoomConfig.Type_) ∧
    cfg.(RoomConfig.SingletonMode) = base.(RoomConfig.SingletonMode) ∧
    cfg.(RoomConfig.EmptyGrace) = base.(RoomConfig.EmptyGrace) ∧
    cfg.(RoomConfig.MaxPlayers) =
      (if (config.(RoomConfig.MaxPlayers) =? 0)%N then base.(RoomConfig.MaxPlayers)
       else config.(RoomConfig.MaxPlayers)) ∧
    effects res = es ++
      [EPublish "lobby" (Event.mk EventRoomCreated (enc (info (room_setOnEmpty r))))].
Proof.
  intros Hm Hc Hf Hmd Hcr Hv res base.
  assert (effective plain m config = (md, overrideConfig base config)) as Heff.
  { unfold effective. by rewrite Hmd. }
  assert (module_Create (effective plain m config).1 uuid (effective plain m config).2 tt = (Ret r, tt, es))
    as Hcr' by by rewrite Heff.
  pose proof (effective_ok plain m config Hm Hc) as Hok. rewrite Heff in Hok.
  destruct (Create_law _ _ _ _ _ _ Hok Hcr) as (Hr & Hcfg & Hmem & Hal & HID).
  destruct (setOnEmpty_law r Hr) as (_ & HID1 & Hcfg1 & Hmem1 & Hal1).
  exists (next m). subst res. rewrite (Create_run plain uuid config m r tt es Hcr').
  rewrite Hal1, Hal.
  pose proof (NewEvent_enc EventRoomCreated (info (room_setOnEmpty r)) Hv) as Hev.
  change (marshal (info (room_setOnEmpty r))) with (RoomInfo.Marshal (info (room_setOnEmpty r))) in Hev.
  rewrite Hev. cbn [value final effects fst snd]. split; [done|].
  split. { unfold Find. simpl. rewrite HID1. apply lookup_insert_eq. }
  split; [apply lookup_insert_eq|].
  split. { destruct (heap m !! next m) as [x|] eqn:Hx; [|done]. destruct (wf_heap _ Hm _ _ Hx). lia. }
  split; [congruence|]. split; [congruence|]. rewrite Hcfg1, Hcfg.
  unfold overrideConfig, RoomConfig.ApplyDefaults. simpl.
  by case_match.
Qed.
(** *** Two joins of one user *)

Lemma begin_join now u c id m m' js pl :
  JoinRoom_locked u c id m = (Ret (Ok pl), m', []) →
  ManagerActor.run_move plain (ManagerActor.Begin (ManagerActor.CallJoin now u c id)) (m, js) =
  (m', ManagerActor.JEnter (ManagerActor.mkJoining now u c id pl) :: js).
Proof.
  intros Hl. unfold ManagerActor.run_move. cbn [ManagerActor.start fst snd].
  by rewrite (bind_value _ _ _ _ _ _ Hl).
Qed.

Lemma go_first jb js js' m m' es :
  ManagerActor.resume jb m = (Ret js', m', es) →
  ManagerActor.run_move plain (ManagerActor.Go 0) (m, jb :: js) = (m', js' ++ js).
Proof. intros Hr. unfold ManagerActor.run_move. cbn [fst snd lookup list_lookup]. by rewrite Hr. Qed.

Lemma run_moves_cons mv mvs c :
  ManagerActor.run_moves plain (mv :: mvs) c =
  ManagerActor.run_moves plain mvs (ManagerActor.run_move plain mv c).
Proof. done. Qed.

(** One section of a call that only calls the room at [p]. *)
Lemma resume_call {A} (op : M R effect A) k p m r a es :
  heap m !! p = Some r → value (op r) = Ret a → effects (op r) = es →
  (x ← call p op; mret (k x)) m =
  (Ret (k a), set_heap (insert p (final (op r))) m, es ++ []) :> outcome (list (ManagerActor.job (R := R))) * t R Mo * list effect.
Proof.
  intros Hr Hv He. pose proof (call_run p op m r Hr) as Hc. rewrite Hv, He in Hc.
  by rewrite (bind_value _ _ _ _ _ _ Hc).
Qed.

(** A join that replaces nothing, from the room on. *)
Lemma enter_alone now u c id mode typ p r m js :
  heap m !! p = Some r → value (room_Join now c u r) = Ret None →
  ManagerActor.run_moves plain (replicate 2 (ManagerActor.Go 0))
    (m, ManagerActor.JEnter (ManagerActor.mkJoining now u c id (mkPlan p mode typ None)) :: js) =
  (set_heap (insert p (final (room_Join now c u r))) m, js).
Proof.
  intros Hr Hj. set (j := ManagerActor.mkJoining _ _ _ _ _). set (m' := set_heap _ m).
  cbn [replicate]. rewrite run_moves_cons.
  rewrite (go_first _ _ [ManagerActor.JInfo j] m m' (effects (room_Join now c u r) ++ [])).
  2:{ exact (resume_call _ (λ e, ManagerActor.joined j e (ManagerActor.JInfo j)) p m r None _ Hr Hj eq_refl). }
  cbn [app]. rewrite run_moves_cons. erewrite (go_first _ _ [] m' m'); [done|].
  cbn [ManagerActor.resume j ManagerActor.j_plan plan_room].
  by rewrite (bind_value _ _ _ _ _ _ (call_Info_run p m' _ (lookup_insert_eq _ _ _))).
Qed.

(** A join that replaces a session of another room, from the room on. *)
Lemma enter_replacing now u c id mode typ p r s q old m js :
  p ≠ q → s.(RoomID) ≠ id → valid (Kicked.mk "replaced" id) →
  heap m !! p = Some r → rooms m !! s.(RoomID) = Some q → heap m !! q = Some old →
  value (room_Join now c u r) = Ret None → value (room_Leave s.(ClientID) old) = Ret tt →
  ManagerActor.run_moves plain (replicate 5 (ManagerActor.Go 0))
    (m, ManagerActor.JEnter (ManagerActor.mkJoining now u c id (mkPlan p mode typ (Some s))) :: js) =
  (set_heap (insert q (final (room_Leave s.(ClientID) old)))
     (set_heap (insert p (final (room_Join now c u r))) m), js).
Proof.
  intros Hpq Hne Hk Hr Hq Hold Hj Hl. set (j := ManagerActor.mkJoining _ _ _ _ _).
  set (m1 := set_heap (insert p _) m). set (m2 := set_heap (insert q _) m1).
  assert (heap m1 !! q = Some old) as Hold1 by (unfold m1; simpl; by rewrite lookup_insert_ne).
  assert (heap m2 !! p = Some (final (room_Join now c u r))) as Hr2.
  { unfold m2, m1. simpl. rewrite lookup_insert_ne by done. apply lookup_insert_eq. }
  cbn [replicate]. rewrite run_moves_cons.
  rewrite (go_first _ _ [ManagerActor.JFind j s] m m1 (effects (room_Join now c u r) ++ [])).
  2:{ cbn [ManagerActor.resume j ManagerActor.j_plan ManagerActor.j_room ManagerActor.j_now
        ManagerActor.j_client ManagerActor.j_user plan_replaced plan_room].
      rewrite (proj2 (String.eqb_neq _ _) Hne).
      exact (resume_call _ (λ e, ManagerActor.joined j e (ManagerActor.JFind j s)) p m r None _ Hr Hj eq_refl). }
  cbn [app]. rewrite run_moves_cons, (go_first _ _ [ManagerActor.JLeaveOld j s q] m1 m1 []).
  2:{ cbn [ManagerActor.resume]. rewrite bind_get. unfold Find. change (rooms m1) with (rooms m). by rewrite Hq. }
  cbn [app]. rewrite run_moves_cons.
  rewrite (go_first _ _ [ManagerActor.JKick j s] m1 m2 (effects (room_Leave s.(ClientID) old) ++ [])).
  2:{ exact (resume_call _ (λ _, [ManagerActor.JKick j s]) q m1 old tt _ Hold1 Hl eq_refl). }
  cbn [app]. rewrite run_moves_cons. erewrite (go_first _ _ [ManagerActor.JInfo j] m2 m2).
  2:{ cbn [ManagerActor.resume j ManagerActor.j_room].
      by rewrite (bind_value _ _ _ _ _ _ (kick_run s.(ClientID) id m2 Hk)). }
  cbn [app]. rewrite run_moves_cons. erewrite (go_first _ _ [] m2 m2); [done|].
  cbn [ManagerActor.resume j ManagerActor.j_plan plan_room].
  by rewrite (bind_value _ _ _ _ _ _ (call_Info_run p m2 _ Hr2)).
Qed.

Lemma run_moves_app mvs1 mvs2 c :
  ManagerActor.run_moves plain (mvs1 ++ mvs2) c =
  ManagerActor.run_moves plain mvs2 (ManagerActor.run_moves plain mvs1 c).
Proof. revert c. induction mvs1 as [|mv mvs1 IH]; intros c; [done|]. apply IH. Qed.

(** C34: a Replace type promises one room of the type per user, and two joins of
    one user that overlap break it. The user [u] has no record of the type; its
    client [c1] joins a room of the type, and after the record is set but before
    the client is in the room, its client [c2] joins another room of the type from
    start to end. The second join finds the record of the first, makes [c1] leave
    the room it is not in yet, and announces that it was kicked; then the first
    join goes on and enters. If neither room refuses, both calls are over and the
    user has a client in both rooms, of which one is recorded. *)
Theorem replace_race_breaks_exclusion now now' u c1 c2 id1 id2 m p1 p2 r1 r2 :
  wf m → nameable c1 u → nameable c2 u → valid (Kicked.mk "replaced" id2) → id1 ≠ id2 →
  rooms m !! id1 = Some p1 → heap m !! p1 = Some r1 → alive r1 = true →
  rooms m !! id2 = Some p2 → heap m !! p2 = Some r2 →
  (room_Config r1).(RoomConfig.SingletonMode) = SingletonReplace →
  (room_Config r2).(RoomConfig.SingletonMode) = SingletonReplace →
  let typ := (room_Config r1).(RoomConfig.Type_) in
  (room_Config r2).(RoomConfig.Type_) = typ → sessionOf u typ m = None →
  value (room_Join now' c2 u r2) = Ret None →
  value (room_Join now c1 u (final (room_Leave c1 r1))) = Ret None →
  let moves :=
    [ManagerActor.Begin (ManagerActor.CallJoin now u c1 id1);
     ManagerActor.Begin (ManagerActor.CallJoin now' u c2 id2)] ++
    replicate 7 (ManagerActor.Go 0) in
  ∃ m' r1' r2', ManagerActor.run_moves plain moves (m, []) = (m', []) ∧
    rooms m' = rooms m ∧ heap m' !! p1 = Some r1' ∧ heap m' !! p2 = Some r2' ∧
    c1 ∈ members r1' ∧ c2 ∈ members r2' ∧ alive r1' = true ∧ alive r2' = true ∧
    sessionOf u typ m' = Some (mkSession id2 c2).
Proof.
  intros Hm Hn1 Hn2 Hk Hne Hp1 Hr1 Ha1 Hp2 Hr2 Hmode1 Hmode2 typ Htyp Hs Hj2 Hj1 moves. subst moves.
  pose proof (nameable_id _ _ Hn1) as Hid1.
  destruct (wf_heap _ Hm _ _ Hr1) as [Hok1 _]. destruct (wf_heap _ Hm _ _ Hr2) as [Hok2 _].
  assert (p1 ≠ p2) as Hpp.
  { intros <-. destruct (wf_listed _ Hm _ _ Hp1) as (x & Hx & <-).
    destruct (wf_listed _ Hm _ _ Hp2) as (y & Hy & HyID). congruence. }
  set (s1 := mkSession id1 c1). set (m1 := record u typ s1 m).
  set (m2 := record u typ (mkSession id2 c2) m1). set (r1l := final (room_Leave c1 r1)) in *.
  destruct (Join_law now' c2 u r2 Hok2 Hn2) as [[e He]|(_ & _ & Ha2 & Hmem2)]; [by rewrite He in Hj2|].
  destruct (Leave_law c1 r1 Hok1 Hid1) as (Hlv & _ & _).
  assert (room_ok r1l) as Hok1l by by apply Leave_stable.
  destruct (Join_law now c1 u r1l Hok1l Hn1) as [[e He]|(_ & _ & Ha1' & Hmem1)]; [by rewrite He in Hj1|].
  assert (JoinRoom_locked u c1 id1 m = (Ret (Ok (mkPlan p1 SingletonReplace typ None)), m1, [])) as Hl1.
  { pose proof (JoinRoom_locked_run u c1 id1 m p1 r1 Hp1 Hr1) as Hl. cbv zeta in Hl.
    fold typ in Hl. by rewrite Hmode1, Hs in Hl. }
  assert (JoinRoom_locked u c2 id2 m1 = (Ret (Ok (mkPlan p2 SingletonReplace typ (Some s1))), m2, [])) as Hl2.
  { unfold m2. rewrite <- Htyp. apply (replace_plan u c2 id2 m1 p2 r2 s1); try done.
    - rewrite Htyp. unfold m1. by rewrite sessionOf_record, decide_True.
    - unfold s1. congruence. }
  set (m4 := set_heap (insert p1 r1l) (set_heap (insert p2 (final (room_Join now' c2 u r2))) m2)).
  exists (set_heap (insert p1 (final (room_Join now c1 u r1l))) m4), (final (room_Join now c1 u r1l)),
    (final (room_Join now' c2 u r2)). split.
  { rewrite run_moves_app, !run_moves_cons, (begin_join now _ _ _ _ _ _ _ Hl1), (begin_join now' _ _ _ _ _ _ _ Hl2).
    change (replicate 7 (ManagerActor.Go 0 : ManagerActor.move (Mo := Mo)))
      with (replicate 5 (ManagerActor.Go 0 : ManagerActor.move (Mo := Mo)) ++ replicate 2 (ManagerActor.Go 0)).
    rewrite run_moves_app. cbn [ManagerActor.run_moves].
    rewrite (enter_replacing now' u c2 id2 _ _ p2 r2 s1 p1 r1 m2) by done.
    exact (enter_alone now u c1 id1 _ _ p1 r1l m4 [] (lookup_insert_eq _ _ _) Hj1). }
  split; [done|]. split; [apply lookup_insert_eq|].
  split. { simpl. rewrite !lookup_insert_ne by done. apply lookup_insert_eq. }
  rewrite Hmem1, Hmem2. split; [set_solver|]. split; [set_solver|]. split; [done|]. split; [done|].
  change (sessionOf u typ m2 = Some (mkSession id2 c2)). unfold m2.
  by rewrite sessionOf_record, decide_True.
Qed.
End props.

(** ** A concrete manager *)

(** A room type "duel" of a singleton mode and a cap, with one message. *)
Definition duel (mode max : N) : AnyMod :=
  anyMod unit tt (Room.mkModule "duel" (RoomConfig.mk "" "" max mode ∅ 0) None None None None None 0 None
    {[200%N := λ _ _ _ _, ([], Ok None)]}).

Definition duel_request : RoomConfig.t := RoomConfig.mk "" "duel" 0 0 ∅ 0.

(** The type registered, then two rooms of it, then alice in the first. *)
Definition demo_types (mode max : N) : t Any AnyMod := final (RegisterModule (duel mode max) NewManager).
Definition demo_one (mode max : N) : t Any AnyMod :=
  final (Create plainModule "1" duel_request (demo_types mode max)).
Definition demo_two (mode max : N) : t Any AnyMod :=
  final (Create plainModule "2" duel_request (demo_one mode max)).
Definition demo_alice (mode max : N) : t Any AnyMod :=
  final (JoinRoom 0 "alice" 1 "duel_1" (demo_two mode max)).

Lemma fresh_one mode max : fresh "1" (demo_types mode max).
Proof. intros name. apply lookup_empty. Qed.

Lemma fresh_two mode max : fresh "2" (demo_one mode max).
Proof.
  intros name. change (rooms (demo_one mode max)) with ({["duel_1" := 0]} : gmap string nat).
  apply lookup_singleton_ne. intros Heq.
  repeat (destruct name as [|? name]; [by simplify_eq/=|]; injection Heq as <- Heq).
  destruct name; done.
Qed.

Section demo.
Context (mode max : N) (Hmax : (max < 65536)%N).

Lemma demo_types_reachable : manager_reachable plainModule (demo_types mode max).
Proof using Hmax. eapply mr_step; [apply mr_new|]. by apply ms_register. Qed.

Lemma demo_one_reachable : manager_reachable plainModule (demo_one mode max).
Proof using Hmax. eapply mr_step; [apply demo_types_reachable|]. apply ms_create; [done|apply fresh_one]. Qed.

Lemma demo_two_reachable : manager_reachable plainModule (demo_two mode max).
Proof using Hmax. eapply mr_step; [apply demo_one_reachable|]. apply ms_create; [done|apply fresh_two]. Qed.

Lemma demo_alice_reachable : manager_reachable plainModule (demo_alice mode max).
Proof using Hmax. eapply mr_step; [apply demo_two_reachable|]. by apply ms_join. Qed.
End demo.

(** The players of the listed room. *)
Definition demo_members (id : string) (m : t Any AnyMod) : option (gset N) :=
  p ← rooms m !! id; members <$> heap m !! p.

(** In a Reject type with a cap, the documented idempotent rejoin breaks the
    exclusion: alice, recorded as the only player of her full room, joins it
    again with the same client and is refused with ErrRoomFull; she is still in
    the room but her record is gone, so the next room of the type lets her in
    and she is in two of them. *)
Lemma full_rejoin_breaks_reject :
  ∃ m m' m'' es,
    manager_reachable plainModule m ∧
    sessionOf "alice" "duel" m = Some (mkSession "duel_1" 1) ∧
    JoinRoom 0 "alice" 1 "duel_1" m = (Ret (Err (ErrSentinel ErrRoomFull)), m', []) ∧
    sessionOf "alice" "duel" m' = None ∧
    JoinRoom 0 "alice" 1 "duel_2" m' =
      (Ret (Ok (RoomInfo.mk "duel_2" "duel" "duel" 1 1 true SingletonReject)), m'', es) ∧
    demo_members "duel_1" m'' = Some {[1%N]} ∧ demo_members "duel_2" m'' = Some {[1%N]}.
Proof.
  set (m := demo_alice SingletonReject 1).
  set (m' := final (JoinRoom 0 "alice" 1 "duel_1" m)).
  exists m, m', (final (JoinRoom 0 "alice" 1 "duel_2" m')),
    (effects (JoinRoom 0 "alice" 1 "duel_2" m')).
  split; [by apply demo_alice_reachable|].
  split; [vm_compute; reflexivity|].
  split; [unfold m'; vm_compute; reflexivity|]. split; [vm_compute; reflexivity|].
  split; [vm_compute; reflexivity|]. split; vm_compute; reflexivity.
Qed.

(** Two rooms of a Replace type. Alice joins the first with one connection; the
    join has its record but is not in the room yet when her second connection
    joins the second room, from start to end. Then the first join goes on. *)
Definition race : list (ManagerActor.move (Mo := AnyMod)) :=
  let create uuid :=
    [ManagerActor.Begin (ManagerActor.CallCreate uuid duel_request); ManagerActor.Go 0; ManagerActor.Go 0] in
  let join c id := ManagerActor.Begin (ManagerActor.CallJoin 0 "alice" c id) in
  [ManagerActor.Begin (ManagerActor.CallRegister (duel SingletonReplace 2))] ++ create "1" ++ create "2" ++
  [join 1%N "duel_1"; join 2%N "duel_2"] ++ replicate 7 (ManagerActor.Go 0).

Lemma race_reachable :
  ManagerActor.reachable plainModule (ManagerActor.run_moves plainModule race (NewManager, [])).
Proof.
  apply ManagerActor.reachable_moves; [constructor|].
  repeat (split; [match goal with
    | |- context [ManagerActor.Go] => vm_compute; first [exact I | reflexivity]
    | |- _ => by cbn
    end|]).
  exact I.
Qed.

(** ** Witnesses *)

Lemma demo_alice_wf mode max : (max < 65536)%N → wf (demo_alice mode max).
Proof. intros Hm. apply (manager_reachable_wf plainModule). by apply demo_alice_reachable. Qed.

(** The room with the pointer [p]. *)
Definition demo_room_at (p : nat) (m : t Any AnyMod) : Any :=
  default (any plainModule (Room.mk "" (RoomConfig.mk "" "" 0 0 ∅ 0) tt ∅ true None false false false ∅ 0))
    (heap m !! p).

Lemma manager_wf_witness :
  wf (ManagerActor.run_moves plainModule race (NewManager, [])).1 ∧
  sessionOf "alice" "duel" (ManagerActor.run_moves plainModule race (NewManager, [])).1 =
    Some (mkSession "duel_2" 2).
Proof.
  split; [|vm_compute; reflexivity].
  apply (manager_wf plainModule). apply race_reachable.
Defined.

(** Alice is refused a second room. *)
Lemma JoinRoom_reject_witness :
  value (JoinRoom 0 "alice" 2 "duel_2" (demo_alice SingletonReject 2)) =
    Ret (Err (ErrSentinel ErrAlreadyInRoomOfType)).
Proof.
  destruct (JoinRoom_reject 0 "alice" 2 "duel_2" (demo_alice SingletonReject 2) 1
    (demo_room_at 1 (demo_alice SingletonReject 2))) as [Hrej _].
  - by apply demo_alice_wf.
  - done.
  - vm_compute; reflexivity.
  - reflexivity.
  - vm_compute; reflexivity.
  - rewrite (Hrej (mkSession "duel_1" 1)); [reflexivity|vm_compute; reflexivity|discriminate].
Defined.

(** Her second connection takes her to the second room. *)
Lemma JoinRoom_replace_witness :
  sessionOf "alice" "duel" (final (JoinRoom 0 "alice" 2 "duel_2" (demo_alice SingletonReplace 2))) =
    Some (mkSession "duel_2" 2).
Proof.
  destruct (JoinRoom_replace 0 "alice" 2 "duel_2" (demo_alice SingletonReplace 2) 1
    (demo_room_at 1 (demo_alice SingletonReplace 2)) (mkSession "duel_1" 1) 0
    (demo_room_at 0 (demo_alice SingletonReplace 2))) as (_ & _ & _ & _ & _ & Hs & _).
  - by apply demo_alice_wf.
  - done.
  - done.
  - vm_compute; reflexivity.
  - reflexivity.
  - vm_compute; reflexivity.
  - vm_compute; reflexivity.
  - discriminate.
  - vm_compute; reflexivity.
  - reflexivity.
  - vm_compute; reflexivity.
  - vm_compute; reflexivity.
  - exact Hs.
Defined.

(** Both of alice's clients are in a room of a type that allows her one. *)
Lemma replace_race_breaks_exclusion_witness :
  ∃ (m : t Any AnyMod) r1 r2, heap m !! 0 = Some r1 ∧ heap m !! 1 = Some r2 ∧ 1%N ∈ members r1 ∧ 2%N ∈ members r2 ∧
    sessionOf "alice" "duel" m = Some (mkSession "duel_2" 2).
Proof.
  destruct (replace_race_breaks_exclusion plainModule 0 0 "alice" 1 2 "duel_1" "duel_2"
    (demo_two SingletonReplace 2) 0 1 (demo_room_at 0 (demo_two SingletonReplace 2))
    (demo_room_at 1 (demo_two SingletonReplace 2)))
    as (m & r1 & r2 & _ & _ & H1 & H2 & M1 & M2 & _ & _ & Hs).
  - apply (manager_reachable_wf plainModule). by apply demo_two_reachable.
  - done.
  - done.
  - done.
  - discriminate.
  - vm_compute; reflexivity.
  - reflexivity.
  - vm_compute; reflexivity.
  - vm_compute; reflexivity.
  - reflexivity.
  - vm_compute; reflexivity.
  - vm_compute; reflexivity.
  - vm_compute; reflexivity.
  - vm_compute; reflexivity.
  - vm_compute; reflexivity.
  - vm_compute; reflexivity.
  - exists m, r1, r2. repeat (split; [assumption|]). exact Hs.
Defined.

(** The second room, closed to joins. *)
Definition demo_closed : t Any AnyMod :=
  final (call 1 room_Close (demo_alice SingletonReplace 2)).

Lemma demo_closed_wf : wf demo_closed.
Proof.
  apply (keeps_call 1 room_Close); [|by apply demo_alice_wf].
  apply any_stable. intros a r Hr. simpl. unfold Room.Close. rewrite Close_run. cbn.
  destruct (Room.closed r); [by split|]. split; [by apply set_isOpen_inv|by split].
Qed.

Lemma failed_replace_loses_record_witness :
  sessionOf "alice" "duel" demo_closed = Some (mkSession "duel_1" 1) ∧
  demo_members "duel_1" demo_closed = Some {[1%N]} ∧
  sessionOf "alice" "duel" (final (JoinRoom 0 "alice" 2 "duel_2" demo_closed)) = None.
Proof.
  split; [vm_compute; reflexivity|]. split; [vm_compute; reflexivity|].
  destruct (failed_replace_loses_record 0 "alice" 2 "duel_2" demo_closed 1 (demo_room_at 1 demo_closed)
    (mkSession "duel_1" 1) (ErrSentinel ErrRoomClosed)) as (_ & _ & _ & _ & Hs).
  - apply demo_closed_wf.
  - vm_compute; reflexivity.
  - reflexivity.
  - vm_compute; reflexivity.
  - vm_compute; reflexivity.
  - discriminate.
  - vm_compute; reflexivity.
  - exact Hs.
Defined.

Lemma Remove_spec_witness :
  sessionOf "alice" "duel" (final (Remove "duel_1" (demo_alice SingletonReject 2))) = None.
Proof.
  destruct (Remove_spec "duel_1" (demo_alice SingletonReject 2) 0
    (demo_room_at 0 (demo_alice SingletonReject 2))) as (_ & _ & _ & _ & Hs & _).
  - by apply demo_alice_wf.
  - done.
  - vm_compute; reflexivity.
  - reflexivity.
  - rewrite Hs. vm_compute. reflexivity.
Defined.

Lemma DispatchRoomMessage_spec_witness :
  value (DispatchRoomMessage false 1 200 [] ["duel_1"; "duel_2"] (demo_alice SingletonReject 2)) =
    Ret (Some (Err (ErrSentinel ErrAmbiguousRoom))).
Proof.
  pose proof (DispatchRoomMessage_spec false 1 200 [] ["duel_1"; "duel_2"] (demo_alice SingletonReject 2)
    (demo_alice_wf SingletonReject 2 eq_refl)) as Hres.
  assert (OpType 200 (demo_alice SingletonReject 2) = Some "duel") as Hop by (vm_compute; reflexivity).
  assert (omap (room_of_type "duel" (demo_alice SingletonReject 2)) ["duel_1"; "duel_2"] = [0; 1]) as Hids
    by (vm_compute; reflexivity).
  cbv zeta in Hres. rewrite Hop, Hids in Hres. rewrite Hres. reflexivity.
Defined.

Lemma Create_spec_witness :
  ∃ p r, Find "duel_1" (demo_one SingletonReject 2) = Some p ∧
    heap (demo_one SingletonReject 2) !! p = Some r ∧
    (room_Config r).(RoomConfig.SingletonMode) = SingletonReject.
Proof.
  destruct (Create_spec plainModule "1" duel_request (demo_types SingletonReject 2) (duel SingletonReject 2)
    (any (duel SingletonReject 2)
       (Room.mk "duel_1" (overrideConfig (BaseConfig (duel SingletonReject 2)) duel_request) tt ∅ true None
          false false false ∅ 0)) []) as (p & Hp & Hf & Hh & _ & _ & _ & _ & Hmode & _).
  - apply (manager_reachable_wf plainModule). by apply demo_types_reachable.
  - done.
  - apply fresh_one.
  - vm_compute; reflexivity.
  - reflexivity.
  - vm_compute; done.
  - exists p. eexists. split; [exact Hf|]. split; [exact Hh|exact Hmode].
Defined.
