(* ===== verification/Session.v ===== *)
(** * Sessions and the command registry (session/, command/)

    The stores the gateway shares between connections: sessions by id and the
    global handlers by opcode. *)

From S2P Require Import Prelude.

(** ** session/session.go: the metadata values are opaque ([Value]) *)

Module Session.
Section session.
Context {Value : Type}.

Record t := mk { ID : string; UserID : string; Metadata : gmap string Value }.

Definition New (id userID : string) : t := mk id userID ∅.

Definition Set_ (key : string) (value : Value) (s : t) : t :=
  mk s.(ID) s.(UserID) (<[key := value]> s.(Metadata)).

Definition Get (key : string) (s : t) : option Value := s.(Metadata) !! key.
End session.
Arguments t Value : clear implicits.
End Session.

(** ** session/store.go: the store holds pointers; [P] is the type of pointers and
    [id] reads the (immutable) ID of the session one points to *)

Module Store.
Section store.
Context {P : Type} (id : P → string).

Definition t : Type := gmap string P.

Definition NewStore : t := ∅.
Definition Set_ (session : P) (s : t) : t := <[id session := session]> s.
Definition Get (k : string) (s : t) : option P := s !! k.
Definition Delete (k : string) (s : t) : t := delete k s.
End store.
Arguments t P : clear implicits.
End Store.

(** ** command/registry.go *)

Module Registry.
Section registry.
Context {Handler : Type}.

Definition t : Type := gmap N Handler.

Definition NewRegistry : t := ∅.

Definition Register {E} (op : N) (handler : Handler) : M t E unit :=
  r ← get;
  match r !! op with
  | Some _ => go_panic ("command: opcode " +:+ pretty op +:+ " already registered")
  | None => modify (insert op handler)
  end.

Definition Get (op : N) (r : t) : option Handler := r !! op.

Definition Has (op : N) (r : t) : bool :=
  match Get op r with Some _ => true | None => false end.

Lemma Has_insert op op' h (r : gmap N Handler) : op ≠ op' → Has op' (<[op := h]> r) = Has op' r.
Proof. intros Hne. unfold Has, Get, t. by rewrite lookup_insert_ne. Qed.
End registry.
Arguments t Handler : clear implicits.
End Registry.
