(* ===== verification/Socket.v ===== *)
(** * The WebSocket below a connection (gateway/client.go)

    What the gateway sets on a connection of gorilla/websocket and hands to it:
    the read limit, the two deadlines, the frames it accepted, whether it was
    closed. Whether a write succeeds and what is read, and when, are the
    environment's: arguments of the operations. [writer] is where the goroutine
    of WriteLoop is. *)

From S2P Require Import Prelude Codec.

Inductive frame :=
  | Binary (data : bytes)
  | Ping.

Inductive writer :=
  | NotStarted
  | Serving                        (* in the select *)
  | Flushing (deadline : Z)        (* in the loop that drains the queue *)
  | Stopped.

#[export] Instance writer_eq : EqDecision writer.
Proof. solve_decision. Defined.

Module Socket.
Record t := mk {
  readLimit : Z;
  readDeadline : Z;                (* in nanoseconds; 0 is none *)
  writeDeadline : Z;
  written : list frame;            (* what WriteMessage accepted, oldest first *)
  writing : writer;
  closed : bool
}.

(** A connection that was just upgraded. *)
Definition New : t := mk 0 0 0 [] NotStarted false.

Definition SetReadLimit n (s : t) := mk n s.(readDeadline) s.(writeDeadline) s.(written) s.(writing) s.(closed).
Definition SetReadDeadline d (s : t) := mk s.(readLimit) d s.(writeDeadline) s.(written) s.(writing) s.(closed).
Definition set_writing p (s : t) := mk s.(readLimit) s.(readDeadline) s.(writeDeadline) s.(written) p s.(closed).

(** [SetWriteDeadline], then [WriteMessage]; [ok] is whether it returned nil. *)
Definition WriteMessage (deadline : Z) (f : frame) (ok : bool) (s : t) : t :=
  mk s.(readLimit) s.(readDeadline) deadline (if ok then s.(written) ++ [f] else s.(written))
    s.(writing) s.(closed).

(** The deferred end of WriteLoop: [conn.Close]. *)
Definition Close (s : t) : t :=
  mk s.(readLimit) s.(readDeadline) s.(writeDeadline) s.(written) Stopped true.
End Socket.
