(* ===== verification/Gateway.v ===== *)
(** * The gateway (gateway/)

    A server is the connections, the bus, the rooms, the sessions and the
    registered global handlers. A connection is a queue of frames to write
    ([send], of bounded capacity), a queue of messages to handle and its
    subscription state over a [Socket.t]; a frame read is an argument of
    [ReadLoop_frame], [WriteLoop_turn] hands the queued frames to the socket. What
    rooms publish while the manager runs reaches the subscribers in
    order, through the bus. [NewGateway], [Run_turn] and [shutdown_turn] are its life. *)

From S2P Require Import Prelude Codec Schema EventBus Room Manager Session Socket.

(** ** gateway/gateway.go: tuning; durations in nanoseconds *)

Module Tuning.
Definition second : Z := 1000000000.
Definition defaultWriteWait : Z := 10 * second.
Definition defaultPongWait : Z := 60 * second.
Definition defaultPingPeriod : Z := 30 * second.
Definition defaultAuthTimeout : Z := 10 * second.
Definition defaultMaxMessageSize : Z := 64 * 1024.
Definition defaultSendBufferSize : Z := 256.
Definition defaultShutdownTimeout : Z := 5 * second.
Definition flushWait : Z := 2 * second.
Definition handleBufferSize : nat := 64.

Record t := mk {
  writeWait : Z; pongWait : Z; pingPeriod : Z; authTimeout : Z;
  maxMessageSize : Z; sendBufferSize : Z; shutdownTimeout : Z
}.

Definition or_default (x d : Z) : Z := if (x <=? 0)%Z then d else x.

Definition withDefaults (c : t) : t :=
  let pong := or_default c.(pongWait) defaultPongWait in
  mk (or_default c.(writeWait) defaultWriteWait)
     pong
     (if (c.(pingPeriod) <=? 0)%Z || (pong <=? c.(pingPeriod))%Z then defaultPingPeriod
      else c.(pingPeriod))
     (or_default c.(authTimeout) defaultAuthTimeout)
     (or_default c.(maxMessageSize) defaultMaxMessageSize)
     (or_default c.(sendBufferSize) defaultSendBufferSize)
     (or_default c.(shutdownTimeout) defaultShutdownTimeout).
End Tuning.

(** ** gateway/gateway.go: construction

    [engine] is the type of *gin.Engine (the option is its nil) and [request]
    that of *http.Request; the pointers to the bus, the registry, the sessions
    and the rooms are those of the server the gateway runs on. *)

Module GatewayConfig.
Section config.
Context {engine request auth : Type}.

Record t := mk {
  Engine : option engine;
  WSPath : string;
  Addr : string;
  Authenticator : auth;
  CheckOrigin : option (request → bool);
  MaxMessageSize : Z;
  AuthTimeout : Z;
  PongWait : Z;
  WriteWait : Z;
  PingPeriod : Z;
  SendBufferSize : Z;
  ShutdownTimeout : Z
}.

Definition set_WSPath (p : string) (c : t) : t :=
  mk c.(Engine) p c.(Addr) c.(Authenticator) c.(CheckOrigin) c.(MaxMessageSize) c.(AuthTimeout)
    c.(PongWait) c.(WriteWait) c.(PingPeriod) c.(SendBufferSize) c.(ShutdownTimeout).

(** [int64(c.MaxMessageSize)] of a 64-bit int is the number. *)
Definition newTuning (c : t) : Tuning.t :=
  Tuning.withDefaults (Tuning.mk c.(WriteWait) c.(PongWait) c.(PingPeriod) c.(AuthTimeout)
    c.(MaxMessageSize) c.(SendBufferSize) c.(ShutdownTimeout)).
End config.
Arguments t engine request auth : clear implicits.
End GatewayConfig.

Record Dispatcher (auth : Type) := NewDispatcher { d_authenticator : auth; d_tuning : Tuning.t }.
Arguments NewDispatcher {auth}.

Record Gateway (engine request auth : Type) := mkGateway {
  g_config : GatewayConfig.t engine request auth;
  g_tuning : Tuning.t;
  g_dispatcher : Dispatcher auth;
  g_checkOrigin : option (request → bool)      (* of the upgrader *)
}.
Arguments mkGateway {engine request auth}.
Arguments g_config {engine request auth}.
Arguments g_tuning {engine request auth}.
Arguments g_dispatcher {engine request auth}.
Arguments g_checkOrigin {engine request auth}.

(** ** Errors on the wire (protocol/error.go, room/errors.go, gateway/dispatcher.go) *)

(** [err.Error()]; the text of a wrapped error is the one it was built with. *)
Definition ErrorText (e : error) : string :=
  match e with
  | ErrSentinel ErrRoomNotFound => "room not found"
  | ErrSentinel ErrRoomFull => "room is full"
  | ErrSentinel ErrRoomClosed => "room is closed"
  | ErrSentinel ErrAlreadyInRoomOfType => "already in a room of this type"
  | ErrSentinel ErrNotInRoom => "not in a room that handles this opcode"
  | ErrSentinel ErrAmbiguousRoom => "multiple joined rooms handle this opcode"
  | ErrNew msg => msg
  | ErrProtocol _ msg => msg
  | ErrWrap msg _ => msg
  end.

(** [errors.As(err, &perr)] for [*protocol.Error], and [errors.Is(err, s)]. *)
Fixpoint asProtocol (e : error) : option Z :=
  match e with
  | ErrProtocol code _ => Some code
  | ErrWrap _ inner => asProtocol inner
  | _ => None
  end.

Fixpoint isSentinel (s : sentinel) (e : error) : bool :=
  match e with
  | ErrSentinel s' => bool_decide (s = s')
  | ErrWrap _ inner => isSentinel s inner
  | _ => false
  end.

Definition errorCode (e : error) : Z :=
  match asProtocol e with
  | Some code => code
  | None =>
      if isSentinel ErrRoomNotFound e then 404
      else if isSentinel ErrRoomFull e || isSentinel ErrAlreadyInRoomOfType e then 409
      else if isSentinel ErrRoomClosed e then 410
      else if isSentinel ErrNotInRoom e || isSentinel ErrAmbiguousRoom e then 400
      else 500
  end.

(** ** Strings: [strings.HasPrefix] and [strings.TrimPrefix] *)

Definition hasPrefix (s pre : string) : bool := String.prefix pre s.
Definition trimPrefix (s pre : string) : string :=
  if hasPrefix s pre
  then String.substring (String.length pre) (String.length s - String.length pre) s else s.

(** ** Connections *)

(** A session as the gateway reads it. *)
Definition session : Type := Session.t string.

Module Client.
Record t := mk {
  send : list bytes;                      (* queued frames, oldest first *)
  sendCap : nat;                          (* cap(send) *)
  handles : list ClientMessage.t;         (* messages awaiting handleLoop *)
  topics : gmap string unit;
  roomIDs : gmap string unit;
  Session : option session;
  IsAuthenticated : bool;
  done : bool;                            (* closed, the context canceled *)
  tuning : Tuning.t;
  conn : Socket.t
}.

Definition set_send f (c : t) := mk (f c.(send)) c.(sendCap) c.(handles) c.(topics) c.(roomIDs) c.(Session) c.(IsAuthenticated) c.(done) c.(tuning) c.(conn).
Definition set_handles f (c : t) := mk c.(send) c.(sendCap) (f c.(handles)) c.(topics) c.(roomIDs) c.(Session) c.(IsAuthenticated) c.(done) c.(tuning) c.(conn).
Definition set_topics f (c : t) := mk c.(send) c.(sendCap) c.(handles) (f c.(topics)) c.(roomIDs) c.(Session) c.(IsAuthenticated) c.(done) c.(tuning) c.(conn).
Definition set_roomIDs f (c : t) := mk c.(send) c.(sendCap) c.(handles) c.(topics) (f c.(roomIDs)) c.(Session) c.(IsAuthenticated) c.(done) c.(tuning) c.(conn).
Definition set_Session s (c : t) := mk c.(send) c.(sendCap) c.(handles) c.(topics) c.(roomIDs) (Some s) true c.(done) c.(tuning) c.(conn).
Definition set_done (c : t) := mk c.(send) c.(sendCap) c.(handles) c.(topics) c.(roomIDs) c.(Session) c.(IsAuthenticated) true c.(tuning) c.(conn).
Definition set_conn f (c : t) := mk c.(send) c.(sendCap) c.(handles) c.(topics) c.(roomIDs) c.(Session) c.(IsAuthenticated) c.(done) c.(tuning) (f c.(conn)).
End Client.

(** ** Effects of the gateway *)

Inductive geffect :=
  | GRoom (e : effect)                      (* what rooms did, publications apart *)
  | GSlow (c : N)                           (* send buffer full, disconnecting *)
  | GSubscriberPanic (c : N) (topic msg : string)
  | GRoute (path : string)                  (* the WebSocket route is mounted on the engine *)
  | GDevAuth.                               (* the warning about the missing Authenticator *)

(** What the environment supplies to a handler: the clock, a new uuid, whether
    the request's context is done. *)
Record env := mkEnv { now : Z; uuid : string; ctx : bool }.

(** [command.Context]: the session and the client; the rooms, the bus and the
    subscription functions are the server's. *)
Record context := mkContext { ctx_env : env; ctx_Session : option session; ctx_ClientID : N }.

(** The select of [SendServerMessage] when the queue has room and the connection
    is closed, and of the two loops: Go picks a ready case at random. [pick]
    is the choice, any; true is the channel of messages. *)
Class Select := { pick : Client.t → bool }.

(** [setupRoutes], and [New] of package gateway. *)
Definition setupRoutes {engine request auth W} (g : Gateway engine request auth) : M W geffect unit :=
  emit (GRoute g.(g_config).(GatewayConfig.WSPath)).

Definition NewGateway {engine request auth W} (c : GatewayConfig.t engine request auth) :
    M W geffect (Gateway engine request auth) :=
  match c.(GatewayConfig.Engine) with
  | None => go_panic "partyx/gateway: Config.Engine is required — the consumer owns the gin engine"
  | Some _ =>
      let c := if String.eqb c.(GatewayConfig.WSPath) "" then GatewayConfig.set_WSPath "/ws" c else c in
      let t := GatewayConfig.newTuning c in
      let g := mkGateway c t (NewDispatcher c.(GatewayConfig.Authenticator) t) c.(GatewayConfig.CheckOrigin) in
      setupRoutes g ;; mret g
  end.

Section gateway.
Context {R Mo : Type} `{!AnyRoom R, !AnyModule Mo R, GoRange} (plain : Mo).

Context `{!Select}.

(** A topic holds subscribers, which are clients by id. *)
Record Server := mkServer {
  clients : gmap N Client.t;         (* the connections made so far *)
  registered : gmap N unit;          (* Gateway.clients *)
  arriving : gmap N unit;            (* registered, not yet added to Gateway.wg *)
  reading : gmap N unit;             (* the read loops that Gateway.wg waits for *)
  nextClientID : N;
  bus : Bus.EventBus N;
  mgr : Manager.t R Mo;
  sessions : Store.t session
}.

Definition Handler : Type := context → bytes → M Server geffect (result (option Marshaler)).

Definition set_clients f (w : Server) :=
  mkServer (f w.(clients)) w.(registered) w.(arriving) w.(reading) w.(nextClientID) w.(bus) w.(mgr) w.(sessions).
Definition set_registered f (w : Server) :=
  mkServer w.(clients) (f w.(registered)) w.(arriving) w.(reading) w.(nextClientID) w.(bus) w.(mgr) w.(sessions).
Definition set_arriving f (w : Server) :=
  mkServer w.(clients) w.(registered) (f w.(arriving)) w.(reading) w.(nextClientID) w.(bus) w.(mgr) w.(sessions).
Definition set_reading f (w : Server) :=
  mkServer w.(clients) w.(registered) w.(arriving) (f w.(reading)) w.(nextClientID) w.(bus) w.(mgr) w.(sessions).
Definition set_nextClientID n (w : Server) :=
  mkServer w.(clients) w.(registered) w.(arriving) w.(reading) n w.(bus) w.(mgr) w.(sessions).
Definition set_bus b (w : Server) :=
  mkServer w.(clients) w.(registered) w.(arriving) w.(reading) w.(nextClientID) b w.(mgr) w.(sessions).
Definition set_mgr m (w : Server) :=
  mkServer w.(clients) w.(registered) w.(arriving) w.(reading) w.(nextClientID) w.(bus) m w.(sessions).
Definition set_sessions f (w : Server) :=
  mkServer w.(clients) w.(registered) w.(arriving) w.(reading) w.(nextClientID) w.(bus) w.(mgr) (f w.(sessions)).

(** A field of the connection [c]; a method on a connection that is not there
    would be a nil dereference. *)
Definition client {A} (c : N) (f : Client.t → A) : M Server geffect A := λ w,
  match w.(clients) !! c with
  | Some cl => (Ret (f cl), w, [])
  | None => (Panic "invalid memory address or nil pointer dereference", w, [])
  end.

Definition update (c : N) (f : Client.t → Client.t) : M Server geffect unit :=
  modify (set_clients (alter f c)).

(** *** gateway/client.go *)

Definition Close (c : N) : M Server geffect unit := update c Client.set_done.

Definition SendServerMessage (c : N) (msg : ServerMessage.t) : M Server geffect unit :=
  data ← lift_outcome (ServerMessage.Marshal msg []);
  cl ← client c id;
  let room := length cl.(Client.send) <? cl.(Client.sendCap) in
  if room && (negb cl.(Client.done) || pick cl) then update c (Client.set_send (λ q, q ++ [data]))
  else if cl.(Client.done) then mret tt
  else emit (GSlow c) ;; Close c.

(** [Send] of [eventbus.Subscriber]. *)
Definition Send (c : N) (topic : string) (ev : Event.t) : M Server geffect unit :=
  SendServerMessage c (ServerMessage.mk MessageEvent 0 0 ev.(Event.Op) topic "" ev.(Event.Payload)).

Definition SendResponse (c : N) (id : N) (payload : option Marshaler) : M Server geffect unit :=
  payload ← lift_outcome (Encode payload);
  SendServerMessage c (ServerMessage.mk MessageResponse id 0 0 "" "" payload).

(** [uint16(code)] of an int. *)
Definition SendError (c : N) (id : N) (errMsg : string) (code : Z) : M Server geffect unit :=
  SendServerMessage c (ServerMessage.mk MessageError id (Z.to_N (code mod 65536)) 0 "" errMsg []).

(** *** The bus: [Subscribe] and [Unsubscribe] run alone; the fuel is their
    number of steps without interference. *)

Definition bus_op (f : Bus.EventBus N → option (Bus.EventBus N)) : M Server geffect unit := λ w,
  match f w.(bus) with
  | Some b => (Ret tt, set_bus b w, [])
  | None => (Panic "the bus runs forever", w, [])
  end.

Definition bus_Subscribe (topic : string) (c : N) : M Server geffect unit :=
  bus_op (Bus.Subscribe id 3 topic c).
Definition bus_Unsubscribe (topic : string) (c : N) : M Server geffect unit :=
  bus_op (Bus.Unsubscribe id 4 topic c).

Definition bus_Publish (topic : string) (ev : Event.t) : M Server geffect unit :=
  w ← get; Bus.Publish Send GSubscriberPanic w.(bus) topic ev.

(** A call of the manager: its publications are delivered in order. *)
Definition replay (e : effect) : M Server geffect unit :=
  match e with
  | EPublish topic ev => bus_Publish topic ev
  | e => emit (GRoom e)
  end.

Definition with_mgr {A} (op : M (Manager.t R Mo) effect A) : M Server geffect A := λ w,
  let '(o, m, es) := op w.(mgr) in
  (for_each replay es ;; lift_outcome o) (set_mgr m w).

(** *** Subscriptions of a connection *)

(** [NewClient], with the tuning of the gateway. *)
Definition NewClient (tuning : Tuning.t) : M Server geffect N :=
  w ← get;
  let id := ((w.(nextClientID) + 1) mod 2 ^ 64)%N in
  let t := Tuning.withDefaults tuning in
  let cap := Z.to_nat t.(Tuning.sendBufferSize) in
  let personalTopic := clientTopic id in
  modify (set_nextClientID id) ;;
  modify (set_clients (insert id (Client.mk [] cap [] ∅ ∅ None false false t Socket.New))) ;;
  bus_Subscribe personalTopic id ;;
  update id (Client.set_topics (insert personalTopic tt)) ;;
  mret id.

Definition Subscribe (c : N) (topic : string) : M Server geffect unit :=
  cl ← client c id;
  match cl.(Client.topics) !! topic with
  | Some _ => mret tt
  | None =>
      update c (Client.set_topics (insert topic tt)) ;;
      when (hasPrefix topic "room:")
        (update c (Client.set_roomIDs (insert (trimPrefix topic "room:") tt))) ;;
      bus_Subscribe topic c
  end.

Definition Unsubscribe (c : N) (topic : string) : M Server geffect unit :=
  update c (Client.set_topics (delete topic)) ;;
  update c (Client.set_roomIDs (delete (trimPrefix topic "room:"))) ;;
  bus_Unsubscribe topic c.

Definition RoomIDs (c : N) : M Server geffect (list string) :=
  client c (λ cl, (range cl.(Client.roomIDs)).*1).

(** The auth deadline gives way to the pong wait. *)
Definition SetSession (now : Z) (c : N) (sess : session) : M Server geffect unit :=
  update c (Client.set_Session sess) ;;
  update c (λ cl, Client.set_conn
    (Socket.SetReadDeadline (now + cl.(Client.tuning).(Tuning.pongWait))) cl).

(** *** gateway/dispatcher.go *)

Context (commands : Registry.t Handler).
Context (Authenticate : env → string → result session).

Definition respond (c : N) (id : N) (res : result (option Marshaler)) : M Server geffect unit :=
  match res with
  | Err err => SendError c id (ErrorText err) (errorCode err)
  | Ok result => SendResponse c id result
  end.

Definition handleAuth (e : env) (c : N) (msg : ClientMessage.t) : M Server geffect unit :=
  auth ← client c Client.IsAuthenticated;
  if (auth : bool) then SendError c msg.(ClientMessage.ID) "already authenticated" 400
  else
    match Authenticate e msg.(ClientMessage.Token) with
    | Err err => SendError c msg.(ClientMessage.ID) (ErrorText err) 401 ;; Close c
    | Ok sess =>
        SetSession e.(now) c sess ;;
        modify (set_sessions (Store.Set_ Session.ID sess)) ;;
        SendResponse c msg.(ClientMessage.ID)
          (Some (AuthResult.Marshal (AuthResult.mk sess.(Session.ID) sess.(Session.UserID))))
    end.

Definition handleRequest (e : env) (c : N) (msg : ClientMessage.t) : M Server geffect unit :=
  match Registry.Get msg.(ClientMessage.Op) commands with
  | Some handler =>
      sess ← client c Client.Session;
      res ← handler (mkContext e sess c) msg.(ClientMessage.Payload);
      respond c msg.(ClientMessage.ID) res
  | None =>
      ids ← RoomIDs c;
      res ← with_mgr (Manager.DispatchRoomMessage e.(ctx) c msg.(ClientMessage.Op)
                        msg.(ClientMessage.Payload) ids);
      match res with
      | None => SendError c msg.(ClientMessage.ID) "method not found" 404
      | Some res => respond c msg.(ClientMessage.ID) res
      end
  end.

Definition Dispatch (e : env) (c : N) (msg : ClientMessage.t) : M Server geffect unit :=
  let typ := msg.(ClientMessage.Type_) in
  if (typ =? MessageAuth)%N then handleAuth e c msg
  else if (typ =? MessageSubscribe)%N then Subscribe c msg.(ClientMessage.Channel)
  else if (typ =? MessageUnsubscribe)%N then Unsubscribe c msg.(ClientMessage.Channel)
  else if (typ =? MessageRequest)%N then handleRequest e c msg
  else SendError c msg.(ClientMessage.ID) "unknown message type" 400.

Definition OnDisconnect (c : N) : M Server geffect unit :=
  cl ← client c id;
  let sess := cl.(Client.Session) in
  let roomIDs := (range cl.(Client.roomIDs)).*1 in
  let topics := (range cl.(Client.topics)).*1 in
  match sess with
  | Some s => for_each (λ rid, with_mgr (Manager.LeaveRoom s.(Session.UserID) c rid)) roomIDs
  | None => mret tt
  end ;;
  for_each (Unsubscribe c) topics ;;
  match sess with
  | Some s => modify (set_sessions (Store.Delete s.(Session.ID)))
  | None => mret tt
  end.

(** *** The loops of a connection, one turn at a time *)

Inductive turn :=
  | Continue    (* the turn is over, the loop goes on *)
  | Blocked     (* the loop waits *)
  | Exit.       (* the loop returns *)

(** [ReadLoop] up to its loop: the limit, the auth deadline, the write loop. *)
Definition ReadLoop_start (now : Z) (c : N) : M Server geffect unit :=
  update c (λ cl, Client.set_conn (Socket.SetReadLimit cl.(Client.tuning).(Tuning.maxMessageSize)) cl) ;;
  update c (λ cl, Client.set_conn
    (Socket.SetReadDeadline (now + cl.(Client.tuning).(Tuning.authTimeout))) cl) ;;
  update c (Client.set_conn (Socket.set_writing Serving)).

(** The pong handler it installs. *)
Definition PongHandler (now : Z) (c : N) : M Server geffect unit :=
  update c (λ cl, Client.set_conn
    (Socket.SetReadDeadline (now + cl.(Client.tuning).(Tuning.pongWait))) cl).

(** The deadline after a frame was read. *)
Definition refresh (now : Z) (c : N) : M Server geffect unit :=
  auth ← client c Client.IsAuthenticated;
  update c (λ cl, Client.set_conn (Socket.SetReadDeadline
    (now + (if (auth : bool) then cl.(Client.tuning).(Tuning.pongWait)
            else cl.(Client.tuning).(Tuning.authTimeout)))) cl).

(** The end of a turn of [ReadLoop]: it hands the message to the handle loop.
    [Blocked] is the loop waiting there, with the message, for another try. *)
Definition ReadLoop_deliver (c : N) (msg : ClientMessage.t) : M Server geffect turn :=
  cl ← client c id;
  let room := length cl.(Client.handles) <? Tuning.handleBufferSize in
  if room && (negb cl.(Client.done) || pick cl) then
    update c (Client.set_handles (λ q, q ++ [msg])) ;; mret Continue
  else mret (if cl.(Client.done) then Exit else Blocked).

(** A frame read by [ReadLoop]. When it ends [Blocked], the turn goes on with
    [ReadLoop_deliver] and the message it read. *)
Definition ReadLoop_frame (now : Z) (c : N) (binary : bool) (raw : bytes) : M Server geffect turn :=
  refresh now c ;;
  if negb binary then SendError c 0 "binary messages only" 400 ;; mret Continue
  else
    match ClientMessage.Unmarshal raw with
    | Err _ => SendError c 0 "invalid message format" 400 ;; mret Continue
    | Ok (msg, _) =>
        if (msg.(ClientMessage.Type_) =? MessagePing)%N then
          SendServerMessage c
            (ServerMessage.mk MessagePing msg.(ClientMessage.ID) 0 0 "" "" []) ;; mret Continue
        else
          cl ← client c id;
          if negb cl.(Client.IsAuthenticated) && negb (msg.(ClientMessage.Type_) =? MessageAuth)%N then
            SendError c msg.(ClientMessage.ID) "authentication required" 401 ;; mret Continue
          else ReadLoop_deliver c msg
    end.

(** A turn of [handleLoop]. *)
Definition handleLoop_turn (e : env) (c : N) : M Server geffect turn :=
  cl ← client c id;
  match cl.(Client.handles) with
  | msg :: rest =>
      if negb cl.(Client.done) || pick cl then
        update c (Client.set_handles (λ _, rest)) ;; Dispatch e c msg ;; mret Continue
      else mret Exit
  | [] => mret (if cl.(Client.done) then Exit else Blocked)
  end.

(** What the select of [WriteLoop] goes on with: a queued frame, a tick of the
    ping timer, the close. *)
Inductive wcase := WSend | WTick | WDone.

Definition WriteLoop_stop (cl : Client.t) : turn * Client.t := (Exit, Client.set_conn Socket.Close cl).

Definition WriteLoop_write (deadline : Z) (f : frame) (ok : bool) (cl : Client.t) : turn * Client.t :=
  let cl := Client.set_conn (Socket.WriteMessage deadline f ok) cl in
  if ok then (Continue, cl) else WriteLoop_stop cl.

(** A turn of [WriteLoop] at time [now]; [ok] is what the write, if any, returns. *)
Definition WriteLoop_turn (now : Z) (ok : bool) (case : wcase) (cl : Client.t) : turn * Client.t :=
  let deadline := (now + cl.(Client.tuning).(Tuning.writeWait))%Z in
  match cl.(Client.conn).(Socket.writing) with
  | NotStarted => (Blocked, cl)
  | Serving =>
      match case with
      | WSend =>
          match cl.(Client.send) with
          | data :: rest => WriteLoop_write deadline (Binary data) ok (Client.set_send (λ _, rest) cl)
          | [] => (Blocked, cl)
          end
      | WTick => WriteLoop_write deadline Ping ok cl
      | WDone =>
          if cl.(Client.done)
          then (Continue, Client.set_conn (Socket.set_writing (Flushing (now + Tuning.flushWait))) cl)
          else (Blocked, cl)
      end
  | Flushing deadline =>
      match cl.(Client.send) with
      | data :: rest => WriteLoop_write deadline (Binary data) ok (Client.set_send (λ _, rest) cl)
      | [] => WriteLoop_stop cl
      end
  | Stopped => (Exit, cl)
  end.

Definition WriteLoop (now : Z) (ok : bool) (case : wcase) (c : N) : M Server geffect turn :=
  t ← client c (λ cl, (WriteLoop_turn now ok case cl).1);
  update c (λ cl, (WriteLoop_turn now ok case cl).2) ;; mret t.

(** *** gateway/gateway.go *)

Definition register (c : N) : M Server geffect unit := modify (set_registered (insert c tt)).
Definition unregister (c : N) : M Server geffect unit := modify (set_registered (delete c)).

(** [handleWebSocket] once the connection is upgraded, in two steps: the client
    is made and registered; its read loop is added to the wait group and started.
    [shutdown] may come in between. *)
Definition handleWebSocket_register (tuning : Tuning.t) : M Server geffect N :=
  c ← NewClient tuning; register c ;; modify (set_arriving (insert c tt)) ;; mret c.

Definition wg_Add (c : N) : M Server geffect unit :=
  modify (set_arriving (delete c)) ;; modify (set_reading (insert c tt)).
Definition wg_Done (c : N) : M Server geffect unit := modify (set_reading (delete c)).

Definition handleWebSocket (tuning : Tuning.t) : M Server geffect N :=
  c ← handleWebSocket_register tuning; wg_Add c ;; mret c.

(** The end of the goroutine of a read loop: the deferred calls of [ReadLoop],
    then [unregister] and [wg.Done]. *)
Definition ReadLoop_exit (c : N) : M Server geffect unit :=
  Close c ;; OnDisconnect c ;; unregister c ;; wg_Done c.

(** Where [shutdown] is, once the HTTP server stopped: before it takes the
    connections of the gateway; closing them; in [wg.Wait]; before [ShutdownAll]
    takes the rooms; shutting them down. *)
Inductive phase :=
  | Taking
  | Closing (cs : list N)
  | Waiting
  | Unlisting
  | Stopping (ps : list nat)
  | Over.

(** One step of [shutdown]: a critical section, a [Close], a look at the wait
    group, the shutdown of a room. Everything else may happen in between. *)
Definition shutdown_turn (ph : phase) : M Server geffect phase :=
  match ph with
  | Taking =>
      w ← get;
      modify (set_registered (λ _, ∅)) ;; mret (Closing (range w.(registered)).*1)
  | Closing (c :: cs) => Close c ;; mret (Closing cs)
  | Closing [] => mret Waiting
  | Waiting => w ← get; mret (if size w.(reading) =? 0 then Unlisting else Waiting)
  | Unlisting => ps ← with_mgr Manager.ShutdownAll_locked; mret (Stopping ps)
  | Stopping (p :: ps) => with_mgr (Manager.call p room_Shutdown) ;; mret (Stopping ps)
  | Stopping [] => mret Over
  | Over => mret Over
  end.

(** Where [Run] is: in its select, in [shutdown] with what it will return, after
    its return. *)
Inductive running :=
  | Listening
  | Unwinding (res : option error) (ph : phase)
  | Returned (res : option error).

(** A step of [Run]. [ended] is what the select goes on with: [None] is the
    cancellation of the context, [Some err] the death of the HTTP server. *)
Definition Run_turn (ended : option error) (st : running) : M Server geffect running :=
  match st with
  | Listening => mret (Unwinding ended Taking)
  | Unwinding res Over => mret (Returned res)
  | Unwinding res ph => ph ← shutdown_turn ph; mret (Unwinding res ph)
  | Returned res => mret (Returned res)
  end.
End gateway.
Arguments Server R Mo : clear implicits.
Arguments Handler R Mo : clear implicits.
