(* ===== verification/GatewaySpec.v ===== *)
(** * What the gateway's operations do (specification of Gateway)

    Closed forms of the operations on connections, subscriptions and the
    manager; [core] and [sending], what sending frames leaves alone: the rooms,
    the bus, the sessions, and everything of a connection but its queue and its
    [done] flag. *)

From S2P Require Import Prelude Codec Schema SchemaSpec EventBus EventBusSpec Room RoomSpec RoomActor Manager ManagerSpec Session Socket Gateway.

Section gateway.
Context {R Mo : Type} `{!AnyRoom R, !AnyRoomView R, !AnyRoomSpec R, !AnyModule Mo R, GoRange, !Select}.
Implicit Types (w : Server R Mo) (cl : Client.t).

#[local] Arguments set_clients : simpl never.

(** ** Frames out *)

Lemma client_run {A} c (f : Client.t → A) w cl :
  clients w !! c = Some cl → client c f w = (Ret (f cl), w, []).
Proof. unfold client. by intros ->. Qed.

Lemma update_run c f w : update (R := R) (Mo := Mo) c f w = (Ret tt, set_clients (alter f c) w, []).
Proof. done. Qed.

(** What [SendServerMessage] does to the connection. *)
Definition enqueue (data : bytes) (cl : Client.t) : Client.t :=
  if (length cl.(Client.send) <? cl.(Client.sendCap)) && (negb cl.(Client.done) || pick cl)
  then Client.set_send (λ q, q ++ [data]) cl
  else Client.set_done cl.

Lemma set_done_id cl : cl.(Client.done) = true → Client.set_done cl = cl.
Proof. destruct cl. by intros [= ->]. Qed.

Lemma set_clients_same c cl w : clients w !! c = Some cl → set_clients <[c := cl]> w = w.
Proof. intros Hc. unfold set_clients. rewrite insert_id by done. by destruct w. Qed.

Lemma alter_client c f w cl :
  clients w !! c = Some cl → set_clients (alter f c) w = set_clients <[c := f cl]> w.
Proof.
  intros Hc. unfold set_clients. f_equal. apply map_eq. intros k.
  destruct (decide (c = k)) as [<-|].
  - by rewrite lookup_alter_eq, Hc, lookup_insert_eq.
  - by rewrite lookup_alter_ne, lookup_insert_ne.
Qed.

Lemma SendServerMessage_run c msg data w cl :
  clients w !! c = Some cl → ServerMessage.Marshal msg [] = Ret data →
  SendServerMessage c msg w =
  (Ret tt, set_clients <[c := enqueue data cl]> w,
   if (length cl.(Client.send) <? cl.(Client.sendCap)) || cl.(Client.done) then [] else [GSlow c]).
Proof.
  intros Hc Hm. unfold SendServerMessage. rewrite Hm, bind_lift.
  erewrite bind_value by by apply client_run. cbn [final fst snd]. unfold enqueue, id.
  destruct (length (Client.send cl) <? Client.sendCap cl); simpl.
  - destruct (Client.done cl) eqn:Hd; simpl.
    + destruct (pick cl); simpl.
      * by rewrite update_run, (alter_client c _ w cl Hc).
      * rewrite set_done_id, set_clients_same by done. done.
    + by rewrite update_run, (alter_client c _ w cl Hc).
  - destruct (Client.done cl) eqn:Hd; simpl.
    + rewrite set_done_id, set_clients_same by done. done.
    + rewrite bind_emit. unfold Close. by rewrite update_run, (alter_client c _ w cl Hc).
Qed.

(** ** What deliveries leave alone *)

Record core w (es : list geffect) w' : Prop := {
  core_mgr : mgr w' = mgr w; core_bus : bus w' = bus w; core_sessions : sessions w' = sessions w
}.
#[export] Instance core_trace : TraceRel core.
Proof. split; [done|]. intros w es w' es' w'' [] []. split; congruence. Qed.

Lemma core_update c f : steps core (update c f).
Proof. by intros w. Qed.

(** Deliveries do not panic: the bus recovers a subscriber's panic. *)
Lemma for_each_ret {A} (f : A → M (Server R Mo) geffect unit) l w :
  (∀ a w, value (f a w) = Ret tt) → value (for_each f l w) = Ret tt.
Proof.
  intros Hf. revert w. induction l as [|a l IH]; intros w; [done|]. simpl.
  rewrite (bind_value (f a) _ tt w (final (f a w)) (effects (f a w))); [apply IH|].
  rewrite <- (Hf a w). apply run_eta.
Qed.

Lemma replay_ret e w : value (replay e w) = Ret tt.
Proof.
  destruct e; simpl; try done. unfold bus_Publish. rewrite bind_get.
  unfold Bus.Publish. case_match; [|done]. apply for_each_ret. intros s w'. apply recover_value.
Qed.

(** What sending and closing leave of a connection: all but the queue of frames
    and the [done] flag. *)
Record kept_client cl cl' : Prop := {
  kept_handles : Client.handles cl' = Client.handles cl;
  kept_topics : Client.topics cl' = Client.topics cl;
  kept_roomIDs : Client.roomIDs cl' = Client.roomIDs cl;
  kept_Session : Client.Session cl' = Client.Session cl;
  kept_IsAuthenticated : Client.IsAuthenticated cl' = Client.IsAuthenticated cl;
  kept_done : Client.done cl = true → Client.done cl' = true
}.

#[export] Instance kept_client_preorder : PreOrder kept_client.
Proof.
  split; [by intros cl|]. intros cl cl' cl'' [] []. split; try congruence. auto.
Qed.

(** What sending leaves alone, on the connection [c] too. *)
Record sending (c : N) w (es : list geffect) w' : Prop := {
  sending_core : core w es w';
  sending_client cl : clients w !! c = Some cl →
    ∃ cl', clients w' !! c = Some cl' ∧ kept_client cl cl'
}.

#[export] Instance sending_trace c : TraceRel (sending c).
Proof.
  split; [intros w; split; [apply trace_nil|intros cl Hc; by exists cl]|].
  intros w es w' es' w'' [C1 S1] [C2 S2]. split; [by eapply trace_app|].
  intros cl (cl1 & Hcl1 & K1)%S1. destruct (S2 cl1 Hcl1) as (cl2 & Hcl2 & K2).
  exists cl2. split; [done|by etrans].
Qed.

Lemma sending_update c k f : (∀ cl, kept_client cl (f cl)) → steps (sending c) (update k f).
Proof.
  intros Hf w. split; [by apply core_update|]. intros cl Hc.
  change (clients (final (update k f w))) with (alter f k (clients w)).
  destruct (decide (k = c)) as [->|Hk].
  - exists (f cl). rewrite lookup_alter_eq, Hc. by split; [|apply Hf].
  - exists cl. by rewrite lookup_alter_ne.
Qed.

Lemma sending_client_field {A} c k (f : Client.t → A) : steps (sending c) (client k f).
Proof. intros w. unfold client. destruct (clients w !! k); apply trace_nil. Qed.

Lemma sending_emit c e : steps (sending c) (emit e).
Proof. intros w. split; [done|]. intros cl Hc. by exists cl. Qed.

Lemma sending_Close c k : steps (sending c) (Close k).
Proof. by apply sending_update. Qed.

Lemma sending_SendServerMessage c k msg : steps (sending c) (SendServerMessage k msg).
Proof.
  unfold SendServerMessage. apply steps_bind; [apply _|by eauto with go|]. intros data.
  apply steps_bind; [apply _|apply sending_client_field|]. intros cl.
  repeat case_match; try by eauto with go; try by apply sending_update.
  all: apply steps_bind; [apply _|apply sending_emit|intros _; apply sending_Close].
Qed.

Lemma sending_SendError c id text code : steps (sending c) (SendError c id text code).
Proof. apply sending_SendServerMessage. Qed.

Lemma sending_SendResponse c id payload : steps (sending c) (SendResponse c id payload).
Proof.
  apply steps_bind; [apply _|by eauto with go|]. intros p. apply sending_SendServerMessage.
Qed.

Lemma sending_then {A B} c (m : M (Server R Mo) geffect A) (b : B) : steps (sending c) m →
  steps (sending c) (m ;; mret b).
Proof. intros Hm. apply steps_bind; [apply _|done|]. intros _. by eauto with go. Qed.

Lemma sending_start c now k : steps (sending c) (ReadLoop_start (R := R) (Mo := Mo) now k).
Proof.
  unfold ReadLoop_start.
  repeat (apply steps_bind; [apply _|by apply sending_update|intros _]). by apply sending_update.
Qed.

(** A turn of the write loop takes a frame from the queue and works on the socket. *)
Lemma WriteLoop_turn_kept now ok case cl : kept_client cl (WriteLoop_turn now ok case cl).2.
Proof.
  unfold WriteLoop_turn, WriteLoop_write. destruct (Socket.writing _), case, ok, (Client.send cl); try done.
  all: by destruct (Client.done cl).
Qed.

Lemma sending_WriteLoop c now ok case k :
  steps (sending c) (WriteLoop (R := R) (Mo := Mo) now ok case k).
Proof.
  apply steps_bind; [apply _|apply sending_client_field|]. intros t.
  apply sending_then, sending_update. intros cl. apply WriteLoop_turn_kept.
Qed.

Lemma sending_replay c e : steps (sending c) (replay e).
Proof.
  destruct e; simpl; try apply sending_emit. unfold bus_Publish.
  apply steps_bind; [apply _|by eauto with go|]. intros w0. unfold Bus.Publish, Bus.send, Bus.deliver.
  case_match; [|by eauto with go]. apply steps_for_each; [apply _|]. intros s _.
  apply steps_recover; [apply _|intros; apply sending_emit|]. apply sending_SendServerMessage.
Qed.

(** A call of the manager that returns. *)
Lemma with_mgr_run {A} (op : M (Manager.t R Mo) effect A) w a m es :
  op (mgr w) = (Ret a, m, es) →
  ∃ w' es', with_mgr op w = (Ret a, w', es') ∧ mgr w' = m ∧ bus w' = bus w ∧
    sessions w' = sessions w ∧
    ∀ c cl, clients w !! c = Some cl → ∃ cl', clients w' !! c = Some cl' ∧ kept_client cl cl'.
Proof.
  intros Hop. unfold with_mgr. rewrite Hop.
  set (w1 := set_mgr m w).
  pose proof (for_each_ret replay es w1 replay_ret) as Hv.
  assert (∀ c, sending c w1 (effects (for_each replay es w1)) (final (for_each replay es w1))) as Hs.
  { intros c. apply (steps_for_each (sending c)). intros e _. apply sending_replay. }
  destruct (for_each replay es w1) as [[o w2] es2] eqn:Hf.
  cbn in Hv, Hs. subst o. exists w2, (es2 ++ []).
  split; [by rewrite (bind_value _ _ _ _ _ _ Hf)|].
  destruct (Hs 0%N) as [[H1 H2 H3] _]. split; [done|]. split; [done|]. split; [done|].
  intros c. apply (Hs c).
Qed.

(** ** Subscriptions *)

Lemma spec_unsubscribe_at name (c : N) (a : gmap string (gmap N N)) t k :
  default ∅ (spec_unsubscribe id name c a !! t) !! k =
  if decide (t = name ∧ k = c) then None else default ∅ (a !! t) !! k.
Proof.
  unfold spec_unsubscribe. change (@id N c) with c. cbv zeta. destruct (a !! name) as [subs|] eqn:Ha.
  - assert (default ∅ ((if size (delete c subs) =? 0 then delete name a
        else <[name := delete c subs]> a) !! name) = delete c subs) as Hn.
    { destruct (Nat.eqb_spec (size (delete c subs)) 0) as [Hz|]; [|by rewrite lookup_insert_eq].
      rewrite lookup_delete_eq. symmetry. by apply map_size_empty_iff. }
    destruct (decide (t = name)) as [->|Ht].
    + rewrite Hn, Ha. simpl. destruct (decide (k = c)) as [->|Hk].
      * rewrite lookup_delete_eq. by rewrite decide_True.
      * rewrite lookup_delete_ne by done. by rewrite decide_False by tauto.
    + rewrite decide_False by tauto.
      destruct (size (delete c subs) =? 0); [by rewrite lookup_delete_ne|by rewrite lookup_insert_ne].
  - destruct (decide (t = name ∧ k = c)) as [[-> ->]|]; [|done]. rewrite Ha. apply lookup_empty.
Qed.

(** The connection once it is subscribed to a topic, and once it is not. *)
Definition with_topic (t : string) (cl : Client.t) : Client.t :=
  let cl := Client.set_topics (insert t tt) cl in
  if hasPrefix t "room:" then Client.set_roomIDs (insert (trimPrefix t "room:") tt) cl else cl.

Definition without_topic (t : string) (cl : Client.t) : Client.t :=
  Client.set_roomIDs (delete (trimPrefix t "room:")) (Client.set_topics (delete t) cl).

Lemma Subscribe_run c t w cl a :
  refines id (bus w) a → clients w !! c = Some cl → Client.topics cl !! t = None →
  ∃ w', Subscribe c t w = (Ret tt, w', []) ∧ refines id (bus w') (spec_subscribe id t c a) ∧
    mgr w' = mgr w ∧ sessions w' = sessions w ∧ clients w' !! c = Some (with_topic t cl).
Proof.
  intros Href Hc Ht. unfold Subscribe.
  rewrite (bind_value _ _ _ _ _ _ (client_run c id w cl Hc)). cbn [final fst snd].
  change (@id Client.t cl) with cl. rewrite Ht.
  rewrite (bind_value _ _ _ _ _ _ (update_run c _ w)). cbn [final fst snd].
  rewrite (alter_client c _ w cl Hc). set (w1 := set_clients _ w).
  assert (∃ w2, when (hasPrefix t "room:")
      (update c (Client.set_roomIDs (insert (trimPrefix t "room:") tt))) w1 = (Ret tt, w2, []) ∧
    bus w2 = bus w ∧ mgr w2 = mgr w ∧ sessions w2 = sessions w ∧
    clients w2 !! c = Some (with_topic t cl)) as (w2 & Hrun & Hb & Hm & Hs & Hcl).
  { unfold with_topic. destruct (hasPrefix t "room:").
    - eexists. split; [done|]. do 3 (split; [done|]).
      change (alter (Client.set_roomIDs (insert (trimPrefix t "room:") tt)) c (clients w1) !! c =
        Some (Client.set_roomIDs (insert (trimPrefix t "room:") tt)
                (Client.set_topics (insert t tt) cl))).
      rewrite lookup_alter_eq.
      change (clients w1) with (<[c := Client.set_topics (insert t tt) cl]> (clients w)).
      by rewrite lookup_insert_eq.
    - eexists. split; [done|]. do 3 (split; [done|]). apply lookup_insert_eq. }
  rewrite (bind_value _ _ _ _ _ _ Hrun). cbn [final fst snd].
  destruct (refines_subscribe id (bus w2) a t c) as (b & Hsub & Hb'); [by rewrite Hb|].
  exists (set_bus b w2). unfold bus_Subscribe, bus_op. rewrite Hsub. done.
Qed.

Lemma spec_subscribe_at name (c : N) (a : gmap string (gmap N N)) t k :
  default ∅ (spec_subscribe id name c a !! t) !! k =
  if decide (t = name ∧ k = c) then Some c else default ∅ (a !! t) !! k.
Proof.
  unfold spec_subscribe. change (@id N c) with c. destruct (decide (t = name)) as [->|Ht].
  - rewrite lookup_insert_eq. simpl. destruct (decide (k = c)) as [->|Hk].
    + rewrite lookup_insert_eq. by rewrite decide_True.
    + rewrite lookup_insert_ne by done. by rewrite decide_False by tauto.
  - rewrite lookup_insert_ne by done. by rewrite decide_False by tauto.
Qed.

Lemma Unsubscribe_run c t w a :
  refines id (bus w) a →
  ∃ w', Unsubscribe c t w = (Ret tt, w', []) ∧ refines id (bus w') (spec_unsubscribe id t c a) ∧
    mgr w' = mgr w ∧ sessions w' = sessions w ∧
    (∀ cl, clients w !! c = Some cl → clients w' !! c = Some (without_topic t cl)) ∧
    ∀ k, k ≠ c → clients w' !! k = clients w !! k.
Proof.
  intros Href. unfold Unsubscribe.
  rewrite (bind_value _ _ _ _ _ _ (update_run c _ w)). cbn [final fst snd].
  rewrite (bind_value _ _ _ _ _ _ (update_run c _ _)). cbn [final fst snd].
  set (w1 := set_clients _ (set_clients _ w)).
  destruct (refines_unsubscribe id (bus w1) a t c Href) as (b & Hb & Hb').
  exists (set_bus b w1). unfold bus_Unsubscribe, bus_op. rewrite Hb.
  do 4 (split; [done|]). split.
  2:{ intros k Hk. change (alter (Client.set_roomIDs (delete (trimPrefix t "room:"))) c
        (alter (Client.set_topics (delete t)) c (clients w)) !! k = clients w !! k).
      by rewrite !lookup_alter_ne. }
  intros cl Hc.
  change (alter (Client.set_roomIDs (delete (trimPrefix t "room:"))) c
    (alter (Client.set_topics (delete t)) c (clients w)) !! c = Some (without_topic t cl)).
  by rewrite !lookup_alter_eq, Hc.
Qed.

Lemma Unsubscribe_all c ts w a :
  refines id (bus w) a →
  ∃ w' a', for_each (Unsubscribe c) ts w = (Ret tt, w', []) ∧ refines id (bus w') a' ∧
    mgr w' = mgr w ∧ sessions w' = sessions w ∧
    (∀ t k, default ∅ (a' !! t) !! k = if decide (t ∈ ts ∧ k = c) then None else default ∅ (a !! t) !! k) ∧
    ∀ k, k ≠ c → clients w' !! k = clients w !! k.
Proof.
  revert w a. induction ts as [|t ts IH]; intros w a Href.
  { exists w, a. do 4 (split; [done|]). split; [|done].
    intros t k. rewrite decide_False; [done|]. by intros [Hin%not_elem_of_nil _]. }
  destruct (Unsubscribe_run c t w a Href) as (w1 & Hrun & Href1 & Hm1 & Hs1 & _ & Hk1).
  destruct (IH w1 _ Href1) as (w' & a' & Hrun' & Href' & Hm' & Hs' & Ha' & Hk').
  exists w', a'. simpl. rewrite (bind_value _ _ _ _ _ _ Hrun). cbn [final fst snd]. rewrite Hrun'.
  split; [done|]. split; [done|]. split; [congruence|]. split; [congruence|].
  split; [|intros k Hk; by rewrite Hk', Hk1].
  intros t' k. rewrite Ha', spec_unsubscribe_at.
  destruct (decide (t' ∈ ts ∧ k = c)) as [[Hin ->]|Hn].
  - rewrite decide_True; [done|]. split; [by right|done].
  - destruct (decide (t' = t ∧ k = c)) as [[-> ->]|Hn'].
    + rewrite decide_True; [done|]. split; [by left|done].
    + rewrite decide_False; [done|]. rewrite elem_of_cons. tauto.
Qed.

(** [LeaveRoom] of a listed room, up to the call of [Leave]. *)
Lemma LeaveRoom_run u c id p (m : Manager.t R Mo) :
  wf m → Manager.rooms m !! id = Some p →
  ∃ m' r, Manager.LeaveRoom u c id m = Manager.call p (room_Leave c) m' ∧
    Manager.heap m' = Manager.heap m ∧ Manager.rooms m' = Manager.rooms m ∧
    Manager.heap m !! p = Some r ∧ room_ok r.
Proof.
  intros Hm Hp.
  destruct (wf_listed _ Hm id p Hp) as (r & Hr & _). destruct (wf_heap _ Hm p r Hr) as [Hok _].
  destruct (LeaveRoom_locked_run u c id p m r Hp Hr) as (m' & Hf & Hro & Hh).
  exists m', r. unfold Manager.LeaveRoom. rewrite (bind_value _ _ _ _ _ _ Hf). cbn [final fst snd value].
  split; [|done]. by destruct (Manager.call p (room_Leave c) m') as [[]].
Qed.

Lemma LeaveRoom_value u c id (m : Manager.t R Mo) :
  wf m → is_id c → value (Manager.LeaveRoom u c id m) = Ret tt.
Proof.
  intros Hm Hc. destruct (Manager.rooms m !! id) as [p|] eqn:Hp.
  - destruct (LeaveRoom_run u c id p m Hm Hp) as (m' & r & -> & Hh & _ & Hr & Hok).
    rewrite (call_run p _ m' r) by by rewrite Hh. by apply Leave_law.
  - unfold Manager.LeaveRoom. by rewrite (bind_value _ _ _ _ _ _ (LeaveRoom_locked_none u c id m Hp)).
Qed.

(** Leaving other rooms leaves the room at [p] alone. *)
Lemma LeaveRoom_frame u c id rid p (m : Manager.t R Mo) :
  wf m → is_id c → Manager.rooms m !! rid = Some p → id ≠ rid →
  let m' := final (Manager.LeaveRoom u c id m) in
  wf m' ∧ Manager.rooms m' = Manager.rooms m ∧ Manager.heap m' !! p = Manager.heap m !! p.
Proof.
  intros Hm Hc Hrid Hne m'. split; [by apply (keeps_LeaveRoom (Mo := Mo) u c id Hc)|].
  unfold m'. destruct (Manager.rooms m !! id) as [q|] eqn:Hq.
  - destruct (LeaveRoom_run u c id q m Hm Hq) as (m1 & r & -> & Hh & Hro & Hr & Hok).
    rewrite (call_run q _ m1 r) by by rewrite Hh. cbn [final fst snd]. split; [done|]. simpl.
    rewrite lookup_insert_ne; [by rewrite Hh|]. intros ->.
    destruct (wf_listed _ Hm _ _ Hq) as (r1 & Hr1 & H1).
    destruct (wf_listed _ Hm _ _ Hrid) as (r2 & Hr2 & H2). congruence.
  - unfold Manager.LeaveRoom. by rewrite (bind_value _ _ _ _ _ _ (LeaveRoom_locked_none u c id m Hq)).
Qed.

Lemma leaves_frame u c rids rid p (m : Manager.t R Mo) :
  wf m → is_id c → Manager.rooms m !! rid = Some p → rid ∉ rids →
  Manager.heap (foldl (λ m id, final (Manager.LeaveRoom u c id m)) m rids) !! p = Manager.heap m !! p.
Proof.
  revert m. induction rids as [|id rids IH]; intros m Hm Hc Hp Hnin; [done|].
  apply not_elem_of_cons in Hnin as [Hne Hnin]. simpl.
  destruct (LeaveRoom_frame u c id rid p m Hm Hc Hp) as (Hm' & Hro & Hh); [done|].
  rewrite IH; [done|done|done|by rewrite Hro|done].
Qed.

Lemma leave_all u c rids w :
  wf (mgr w) → is_id c →
  ∃ w' es, for_each (λ rid, with_mgr (Manager.LeaveRoom u c rid)) rids w = (Ret tt, w', es) ∧
    mgr w' = foldl (λ m rid, final (Manager.LeaveRoom u c rid m)) (mgr w) rids ∧
    bus w' = bus w ∧ sessions w' = sessions w ∧
    ∀ k cl, clients w !! k = Some cl → ∃ cl', clients w' !! k = Some cl' ∧ kept_client cl cl'.
Proof.
  intros Hm Hc. revert w Hm. induction rids as [|rid rids IH]; intros w Hm.
  { eexists _, _. do 4 (split; [done|]). intros k cl Hk. by exists cl. }
  pose proof (LeaveRoom_value u c rid (mgr w) Hm Hc) as Hv.
  pose proof (keeps_LeaveRoom (Mo := Mo) u c rid Hc (mgr w) Hm) as Hk.
  destruct (Manager.LeaveRoom u c rid (mgr w)) as [[o m] es] eqn:Hl. cbn in Hv, Hk. subst o.
  destruct (with_mgr_run _ w tt m es Hl) as (w1 & es1 & Hrun & Hm1 & Hb1 & Hs1 & Hk1).
  destruct (IH w1) as (w' & es' & Hrun' & Hm' & Hb' & Hs' & Hk'); [by rewrite Hm1|].
  exists w', (es1 ++ es'). simpl. rewrite (bind_value _ _ _ _ _ _ Hrun). cbn [final fst snd].
  rewrite Hrun', Hl. cbn. rewrite Hm', Hm1. split; [done|]. split; [done|].
  split; [congruence|]. split; [congruence|]. intros k cl (cl1 & Hc1 & K1)%Hk1.
  destruct (Hk' k cl1 Hc1) as (cl2 & Hc2 & K2). exists cl2. split; [done|by etrans].
Qed.

(** ** Disconnecting *)

(** What the session of a connection decides about its cleanup. *)
Definition left_rooms (c : N) (sess : option session) (rids : list string) (m : Manager.t R Mo) :
    Manager.t R Mo :=
  match sess with
  | Some s => foldl (λ m rid, final (Manager.LeaveRoom s.(Session.UserID) c rid m)) m rids
  | None => m
  end.

Definition without_session (sess : option session) (ss : Store.t session) : Store.t session :=
  match sess with Some s => delete s.(Session.ID) ss | None => ss end.

Lemma left_rooms_wf c sess rids (m : Manager.t R Mo) :
  wf m → is_id c → wf (left_rooms c sess rids m) ∧
  Manager.rooms (left_rooms c sess rids m) = Manager.rooms m.
Proof.
  intros Hm Hc. destruct sess as [s|]; [|done]. simpl. revert m Hm.
  induction rids as [|rid rids IH]; intros m Hm; [done|]. simpl.
  destruct (IH (final (Manager.LeaveRoom s.(Session.UserID) c rid m))) as [Hw ->];
    [by apply (keeps_LeaveRoom (Mo := Mo) s.(Session.UserID) c rid Hc)|]. split; [done|].
  destruct (Manager.rooms m !! rid) as [p|] eqn:Hp.
  - by destruct (LeaveRoom_run s.(Session.UserID) c rid p m Hm Hp) as (m1 & r & -> & _ & <- & _);
      unfold final, Manager.call; destruct (Manager.heap m1 !! p) as [r'|]; [destruct (room_Leave c r') as [[]]|].
  - unfold Manager.LeaveRoom. by rewrite (bind_value _ _ _ _ _ _ (LeaveRoom_locked_none _ c rid m Hp)).
Qed.

Lemma leave_session c sess rids w :
  wf (mgr w) → is_id c →
  ∃ w' es, match sess with
    | Some s => for_each (λ rid, with_mgr (Manager.LeaveRoom s.(Session.UserID) c rid)) rids
    | None => mret tt
    end w = (Ret tt, w', es) ∧
    mgr w' = left_rooms c sess rids (mgr w) ∧ bus w' = bus w ∧ sessions w' = sessions w ∧
    ∀ k cl, clients w !! k = Some cl → ∃ cl', clients w' !! k = Some cl' ∧ kept_client cl cl'.
Proof.
  intros Hm Hc. destruct sess as [s|]; [by apply leave_all|].
  eexists _, _. do 4 (split; [done|]). intros k cl Hk. by exists cl.
Qed.

Lemma elem_of_keys `{Countable K} (m : gmap K unit) k : k ∈ (range m).*1 ↔ is_Some (m !! k).
Proof.
  rewrite list_elem_of_fmap. split.
  - intros ([k' []] & -> & Hin%elem_of_range). by eexists.
  - intros [[] Hk]. exists (k, tt). split; [done|]. by apply elem_of_range.
Qed.

(** The topics a connection knows cover its subscriptions. *)
Definition covered (a : gmap string (gmap N N)) (c : N) cl : Prop :=
  ∀ t, is_Some (default ∅ (a !! t) !! c) → is_Some (cl.(Client.topics) !! t).

Lemma OnDisconnect_run c w a cl :
  refines id (bus w) a → wf (mgr w) → is_id c → clients w !! c = Some cl → covered a c cl →
  ∃ w' a' es rids, OnDisconnect c w = (Ret tt, w', es) ∧ refines id (bus w') a' ∧
    (∀ t k, default ∅ (a' !! t) !! k = if decide (k = c) then None else default ∅ (a !! t) !! k) ∧
    (∀ rid, rid ∈ rids ↔ is_Some (cl.(Client.roomIDs) !! rid)) ∧
    mgr w' = left_rooms c cl.(Client.Session) rids (mgr w) ∧
    sessions w' = without_session cl.(Client.Session) (sessions w) ∧
    ∀ k cl', k ≠ c → clients w !! k = Some cl' → ∃ cl'', clients w' !! k = Some cl'' ∧ kept_client cl' cl''.
Proof.
  intros Href Hm Hc Hcl Htop.
  set (rids := (range (Client.roomIDs cl)).*1). set (ts := (range (Client.topics cl)).*1).
  destruct (leave_session c cl.(Client.Session) rids w Hm Hc) as (w1 & es1 & Hr1 & Hm1 & Hb1 & Hs1 & Hk1).
  destruct (Unsubscribe_all c ts w1 a) as (w2 & a2 & Hr2 & Href2 & Hm2 & Hs2 & Ha2 & Hk2);
    [by rewrite Hb1|].
  exists (match Client.Session cl with
          | Some s => set_sessions (Store.Delete s.(Session.ID)) w2 | None => w2 end), a2, (es1 ++ []), rids.
  split; [|split; [|split; [|split; [|split; [|split]]]]].
  - unfold OnDisconnect. rewrite (bind_value _ _ _ _ _ _ (client_run c id w cl Hcl)).
    cbn [final fst snd]. change (@id Client.t cl) with cl. fold rids ts.
    rewrite (bind_value _ _ _ _ _ _ Hr1). cbn [final fst snd].
    rewrite (bind_value _ _ _ _ _ _ Hr2). by destruct (Client.Session cl).
  - by destruct (Client.Session cl).
  - intros t k. rewrite Ha2. destruct (decide (k = c)) as [->|]; [|by rewrite decide_False by tauto].
    case_decide as Hd; [done|]. destruct (default ∅ (a !! t) !! c) as [x|] eqn:Hx; [|done].
    exfalso. apply Hd. split; [|done]. apply elem_of_keys, Htop. by eexists.
  - intros rid. apply elem_of_keys.
  - rewrite <- Hm1, <- Hm2. by destruct (Client.Session cl).
  - rewrite <- Hs1, <- Hs2. by destruct (Client.Session cl).
  - intros k cl' Hk Hcl'. destruct (Hk1 k cl' Hcl') as (cl1 & Hc1 & K1). exists cl1.
    split; [|done]. rewrite <- Hc1, <- (Hk2 k Hk). by destruct (Client.Session cl).
Qed.
End gateway.
