(* ===== verification/Handlers.v ===== *)
(** * The built-in methods (internal/handlers/, lobby/lobby.go)

    room.create, room.join, room.leave and lobby.list, as handlers of the
    registry. [ctx.Subscribe] and [ctx.Unsub] are those of the calling client. *)

From S2P Require Import Prelude Codec Schema EventBus Room Manager Session Socket Gateway.

Section handlers.
Context {R Mo : Type} `{!AnyRoom R, !AnyModule Mo R, GoRange, !Select} (plain : Mo).

(** [optionsMap]: later keys win. *)
Definition optionsMap (options : list CreateOption.t) : gmap string string :=
  foldl (λ m o, <[o.(CreateOption.Key) := o.(CreateOption.Value)]> m) ∅ options.

(** [ctx.Session.UserID]. *)
Definition userID (ctx : context) : M (Server R Mo) geffect string :=
  match ctx.(ctx_Session) with
  | Some s => mret s.(Session.UserID)
  | None => go_panic "invalid memory address or nil pointer dereference"
  end.

Definition badRequest {A} (msg : string) : result A := Err (NewError 400 msg).

(** [r.ID()] of the room [Create] returned. *)
Definition roomID (p : nat) : M (Server R Mo) geffect string :=
  with_mgr (Manager.peek p room_ID).

Definition createRoomHandler : Handler R Mo := λ ctx payload,
  match Decode (T := CreateRoomRequest.t) payload with
  | Err _ => mret (badRequest "invalid payload")
  | Ok req =>
      if String.eqb req.(CreateRoomRequest.Type_) "" then mret (badRequest "type is required")
      else
        r ← with_mgr (Manager.Create plain ctx.(ctx_env).(uuid)
              (RoomConfig.mk req.(CreateRoomRequest.Name) req.(CreateRoomRequest.Type_)
                 req.(CreateRoomRequest.MaxPlayers) req.(CreateRoomRequest.SingletonMode)
                 (optionsMap req.(CreateRoomRequest.Options)) 0));
        rid ← roomID r;
        Subscribe ctx.(ctx_ClientID) ("room:" +:+ rid) ;;
        uid ← userID ctx;
        info ← with_mgr (Manager.JoinRoom ctx.(ctx_env).(now) uid ctx.(ctx_ClientID) rid);
        match info with
        | Err err =>
            Unsubscribe ctx.(ctx_ClientID) ("room:" +:+ rid) ;;
            with_mgr (Manager.Remove rid) ;;
            mret (Err err)
        | Ok info => mret (Ok (Some (RoomInfo.Marshal info)))
        end
  end.

Definition joinRoomHandler : Handler R Mo := λ ctx payload,
  match Decode (T := JoinRoomRequest.t) payload with
  | Err _ => mret (badRequest "invalid payload")
  | Ok req =>
      let rid := req.(JoinRoomRequest.RoomID) in
      if String.eqb rid "" then mret (badRequest "roomId is required")
      else
        Subscribe ctx.(ctx_ClientID) ("room:" +:+ rid) ;;
        uid ← userID ctx;
        info ← with_mgr (Manager.JoinRoom ctx.(ctx_env).(now) uid ctx.(ctx_ClientID) rid);
        match info with
        | Err err =>
            Unsubscribe ctx.(ctx_ClientID) ("room:" +:+ rid) ;; mret (Err err)
        | Ok info => mret (Ok (Some (RoomInfo.Marshal info)))
        end
  end.

Definition leaveRoomHandler : Handler R Mo := λ ctx payload,
  match Decode (T := LeaveRoomRequest.t) payload with
  | Err _ => mret (badRequest "invalid payload")
  | Ok req =>
      let rid := req.(LeaveRoomRequest.RoomID) in
      if String.eqb rid "" then mret (badRequest "roomId is required")
      else
        uid ← userID ctx;
        with_mgr (Manager.LeaveRoom uid ctx.(ctx_ClientID) rid) ;;
        Unsubscribe ctx.(ctx_ClientID) ("room:" +:+ rid) ;;
        mret (Ok None)
  end.

(** lobby/lobby.go: a lobby is the manager it was made for. *)
Definition Lobby_List : M (Server R Mo) geffect (list RoomInfo.t) := with_mgr Manager.List.

(** [Lobby.List] under lobby.list. *)
Definition lobbyListHandler : Handler R Mo := λ _ _,
  rooms ← Lobby_List;
  mret (Ok (Some (RoomList.Marshal (RoomList.mk rooms)))).

(** [RegisterRoomHandlers] and [RegisterLobbyHandlers]. *)
Definition RegisterRoomHandlers : M (Registry.t (Handler R Mo)) geffect unit :=
  Registry.Register MethodRoomCreate createRoomHandler ;;
  Registry.Register MethodRoomJoin joinRoomHandler ;;
  Registry.Register MethodRoomLeave leaveRoomHandler.

Definition RegisterLobbyHandlers : M (Registry.t (Handler R Mo)) geffect unit :=
  Registry.Register MethodLobbyList lobbyListHandler.
End handlers.
