(* ===== verification/App.v ===== *)
(** * The framework facade (app.go, handle.go, devauth.go) and the room type builders (room/module.go, room.go)

    [Config] and [New], which hands the parts of an application to the gateway;
    the registration of global commands and room types, which claim opcodes. The
    builder assembles a [Room.Module]; the fluent one forwards to it and ends in
    [Register]. *)

From S2P Require Import Prelude Codec Schema EventBus Room Manager Session Socket Gateway Handlers.

(** ** The builder of room/module.go (and of room.go, which forwards to it) *)

Module Builder.
Section builder.
Context {S : Type}.
Implicit Types (m : Room.Module S).
Import Room.

Definition NewModule (typ : string) : Module S :=
  mkModule typ (RoomConfig.mk "" "" 0 0 ∅ 0) None None None None None 0 None ∅.

Definition set_config f m := mkModule m.(typ) (f m.(mconfig)) m.(newState) m.(onInit) m.(onJoin)
  m.(onLeave) m.(onClose) m.(tickRate) m.(onTick) m.(handlers).

Definition State fn m : Module S := mkModule m.(typ) m.(mconfig) (Some fn) m.(onInit) m.(onJoin)
  m.(onLeave) m.(onClose) m.(tickRate) m.(onTick) m.(handlers).
Definition MaxPlayers (n : N) m : Module S := set_config (λ c,
  RoomConfig.mk c.(RoomConfig.Name) c.(RoomConfig.Type_) n c.(RoomConfig.SingletonMode)
    c.(RoomConfig.Options) c.(RoomConfig.EmptyGrace)) m.
Definition Singleton (mode : N) m : Module S := set_config (λ c,
  RoomConfig.mk c.(RoomConfig.Name) c.(RoomConfig.Type_) c.(RoomConfig.MaxPlayers) mode
    c.(RoomConfig.Options) c.(RoomConfig.EmptyGrace)) m.
Definition EmptyGrace (d : Z) m : Module S := set_config (λ c,
  RoomConfig.mk c.(RoomConfig.Name) c.(RoomConfig.Type_) c.(RoomConfig.MaxPlayers)
    c.(RoomConfig.SingletonMode) c.(RoomConfig.Options) d) m.
Definition OnInit fn m : Module S := mkModule m.(typ) m.(mconfig) m.(newState) (Some fn) m.(onJoin)
  m.(onLeave) m.(onClose) m.(tickRate) m.(onTick) m.(handlers).
Definition OnJoin fn m : Module S := mkModule m.(typ) m.(mconfig) m.(newState) m.(onInit) (Some fn)
  m.(onLeave) m.(onClose) m.(tickRate) m.(onTick) m.(handlers).
Definition OnLeave fn m : Module S := mkModule m.(typ) m.(mconfig) m.(newState) m.(onInit) m.(onJoin)
  (Some fn) m.(onClose) m.(tickRate) m.(onTick) m.(handlers).
Definition OnClose fn m : Module S := mkModule m.(typ) m.(mconfig) m.(newState) m.(onInit) m.(onJoin)
  m.(onLeave) (Some fn) m.(tickRate) m.(onTick) m.(handlers).
Definition Tick (rate : Z) fn m : Module S := mkModule m.(typ) m.(mconfig) m.(newState) m.(onInit)
  m.(onJoin) m.(onLeave) m.(onClose) rate (Some fn) m.(handlers).

Definition HandleRaw (op : N) (h : MessageHandler S) m : outcome (Module S) :=
  match m.(handlers) !! op with
  | Some _ => Panic ("room: opcode " +:+ pretty op +:+ " already registered in module " +:+ quoted m.(typ))
  | None => Ret (mkModule m.(typ) m.(mconfig) m.(newState) m.(onInit) m.(onJoin) m.(onLeave)
                   m.(onClose) m.(tickRate) m.(onTick) (<[op := h]> m.(handlers)))
  end.

(** A typed handler: what it does to the room and its response. *)
Definition Handle {Req Resp} `{Wire Req, Wire Resp} (validate : option (Req → option error)) (op : N)
    (fn : bool → t S → Player.t → Req → list (action S) * result (option Resp)) m :
    outcome (Module S) :=
  HandleRaw op (λ ctx r p payload,
    match Call ErrorText validate payload
            (λ req (u : unit), let '(acts, res) := fn ctx r p req in (Ret res, u, acts)) tt with
    | (Ret res, _, acts) => (acts, res)
    | (Panic msg, _, acts) => (acts ++ [CallPanic msg], Ok None)
    end) m.
End builder.
End Builder.

(** ** devauth.go *)

(** [DevAuth]: the token is the user id, the session id is a new uuid. *)
Definition DevAuth (e : env) (token : string) : result session :=
  if String.eqb token "" then Err (ErrNew "token required")
  else Ok (Session.New e.(uuid) token).

(** ** The application *)

Module App.
Section app.
Context {R Mo : Type} `{!AnyRoom R, !AnyModule Mo R, GoRange, !Select} (plain : Mo).

Record t := mk { rooms : Manager.t R Mo; commands : Registry.t (Handler R Mo) }.

(** Code of one of the two, seen on the application. *)
Definition on_rooms {A} (f : M (Manager.t R Mo) effect A) : M t geffect A := λ a,
  let '(o, m, es) := f a.(rooms) in (o, mk m a.(commands), GRoom <$> es).
Definition on_commands {A} (f : M (Registry.t (Handler R Mo)) geffect A) : M t geffect A := λ a,
  let '(o, c, es) := f a.(commands) in (o, mk a.(rooms) c, es).

(** [Config]: the engine, the request type and the nils of Go as in the gateway. *)
Record Config (engine request : Type) := mkConfig {
  Engine : option engine;
  Addr : string;
  Authenticator : option (env → string → result session);
  CheckOrigin : option (request → bool);
  WSPath : string;
  DisableDefaultHandlers : bool;
  MaxMessageSize : Z;
  AuthTimeout : Z;
  PongWait : Z;
  WriteWait : Z;
  PingPeriod : Z;
  SendBufferSize : Z;
  ShutdownTimeout : Z
}.

(** The fallback for a missing authenticator, with its warning. *)
Definition authOrDev (auth : option (env → string → result session)) :
    M t geffect (env → string → result session) :=
  match auth with
  | Some auth => mret auth
  | None => emit GDevAuth ;; mret DevAuth
  end.

(** [New]: the application's parts are the state it is run on, and the gateway. *)
Definition New {engine request} (cfg : Config engine request) :
    outcome (Gateway engine request (env → string → result session)) * t * list geffect :=
  ((if cfg.(DisableDefaultHandlers _ _) then mret tt
    else on_commands (RegisterRoomHandlers plain) ;; on_commands RegisterLobbyHandlers) ;;
   let addr := if String.eqb cfg.(Addr _ _) "" then ":8080" else cfg.(Addr _ _) in
   auth ← authOrDev cfg.(Authenticator _ _);
   NewGateway (GatewayConfig.mk cfg.(Engine _ _) cfg.(WSPath _ _) addr auth cfg.(CheckOrigin _ _)
     cfg.(MaxMessageSize _ _) cfg.(AuthTimeout _ _) cfg.(PongWait _ _) cfg.(WriteWait _ _)
     cfg.(PingPeriod _ _) cfg.(SendBufferSize _ _) cfg.(ShutdownTimeout _ _)))
  (mk Manager.NewManager Registry.NewRegistry).

(** The check of [RegisterRoomType] on one opcode. *)
Definition checkOp (op : N) : M t geffect unit :=
  a ← get;
  if Registry.Has op a.(commands)
  then go_panic ("partyx: opcode " +:+ pretty op +:+ " is already registered as a global method")
  else mret tt.

Definition RegisterRoomType (md : Mo) : M t geffect unit :=
  for_each checkOp (Ops md) ;; on_rooms (Manager.RegisterModule md).

Definition HandleRaw (op : N) (fn : Handler R Mo) : M t geffect unit :=
  a ← get;
  match Manager.OpType op a.(rooms) with
  | Some _ => go_panic ("partyx: opcode " +:+ pretty op +:+ " is already claimed by a registered room type")
  | None => on_commands (Registry.Register op fn)
  end.

(** [Handle]: the typed handler behind [protocol.Call]. *)
Definition Handle {Req Resp} `{Wire Req, Wire Resp} (validate : option (Req → option error)) (op : N)
    (fn : context → Req → M (Server R Mo) geffect (result (option Resp))) : M t geffect unit :=
  HandleRaw op (λ ctx payload, Call ErrorText validate payload (fn ctx)).
End app.
Arguments t R Mo : clear implicits.
Arguments mkConfig {engine request}.
End App.

(** ** The fluent builder (room.go)

    A [RoomBuilder] holds the module; every method hands on to the module's and
    returns the builder. *)

Module RoomBuilder.
Section builder.
Context {S : Type}.

Record t := mk { module : Room.Module S }.

(** [Room[S](typ)] *)
Definition Room (typ : string) : t := mk (Builder.NewModule typ).

Definition State fn (b : t) : t := mk (Builder.State fn b.(module)).
Definition MaxPlayers n (b : t) : t := mk (Builder.MaxPlayers n b.(module)).
Definition Singleton mode (b : t) : t := mk (Builder.Singleton mode b.(module)).
Definition EmptyGrace d (b : t) : t := mk (Builder.EmptyGrace d b.(module)).
Definition OnInit fn (b : t) : t := mk (Builder.OnInit fn b.(module)).
Definition OnJoin fn (b : t) : t := mk (Builder.OnJoin fn b.(module)).
Definition OnLeave fn (b : t) : t := mk (Builder.OnLeave fn b.(module)).
Definition OnClose fn (b : t) : t := mk (Builder.OnClose fn b.(module)).
Definition Tick rate fn (b : t) : t := mk (Builder.Tick rate fn b.(module)).

Definition HandleRaw op h (b : t) : outcome t := m ← Builder.HandleRaw op h b.(module); mret (mk m).

Definition Handle {Req Resp} `{Wire Req, Wire Resp} (validate : option (Req → option error)) op fn (b : t) :
    outcome t := m ← Builder.Handle validate op fn b.(module); mret (mk m).

(** [Register]: the module behind [AnyModule], [zero] being the zero value of [S]. *)
Definition Register `{GoRange, Select} (zero : S) (b : t) : M (App.t Any AnyMod) geffect unit :=
  App.RegisterRoomType (anyMod S zero b.(module)).
End builder.
Arguments t S : clear implicits.
End RoomBuilder.

