(* ===== verification/GatewayProps.v ===== *)
(** * The properties of the gateway

    The authentication gate, the one reply of a request, the slow-consumer
    policy, the cleanup of a disconnect; and two places where the code does not do
    what it means to, [lobby_list_crashes] and [personal_topic_is_open]. *)

From S2P Require Import Prelude Codec Schema SchemaSpec EventBus EventBusSpec Room RoomSpec RoomActor Manager ManagerSpec Session Socket Gateway GatewaySpec Handlers App.

Section gateway.
Context {R Mo : Type} `{!AnyRoom R, !AnyRoomView R, !AnyRoomSpec R, !AnyModule Mo R, GoRange, !Select}.
Implicit Types (w : Server R Mo) (cl : Client.t).

#[local] Arguments set_clients : simpl never.

(** ** Frames out *)

(** C28: the slow-consumer policy. A frame goes to the end of the queue if the
    queue has room (on a closed connection it may be dropped instead); if it has
    none the connection is closed with a warning, or was already, and the frame
    is dropped; the frames queued before are never lost, the queue never exceeds
    its capacity, and nothing else of the server changes. *)
Theorem SendServerMessage_spec c msg data w cl :
  clients w !! c = Some cl → ServerMessage.Marshal msg [] = Ret data →
  length cl.(Client.send) ≤ cl.(Client.sendCap) →
  ∃ cl' es, SendServerMessage c msg w = (Ret tt, set_clients <[c := cl']> w, es) ∧
    length cl'.(Client.send) ≤ cl'.(Client.sendCap) ∧
    (if decide (length cl.(Client.send) < cl.(Client.sendCap)) then
       es = [] ∧ cl'.(Client.done) = cl.(Client.done) ∧
       (cl'.(Client.send) = cl.(Client.send) ++ [data] ∨
        cl.(Client.done) = true ∧ cl'.(Client.send) = cl.(Client.send))
     else
       cl'.(Client.send) = cl.(Client.send) ∧ cl'.(Client.done) = true ∧
       es = if cl.(Client.done) then [] else [GSlow c]).
Proof.
  intros Hc Hm Hcap. exists (enqueue data cl). eexists.
  split; [by apply SendServerMessage_run|]. unfold enqueue.
  destruct (Nat.ltb_spec (length (Client.send cl)) (Client.sendCap cl)) as [Hlt|Hge]; simpl.
  - rewrite decide_True by done.
    destruct (Client.done cl) eqn:Hd; simpl; [destruct (pick cl)|]; simpl;
      rewrite ?length_app; simpl; repeat split; auto; lia.
  - rewrite decide_False by lia. simpl. repeat split; auto.
Qed.

(** ** Replies *)

(** The handler stage of a request: the global handler of the opcode, or the
    client's room; [None] is no handler at all. *)
Definition serve (commands : Registry.t (Handler R Mo)) (e : env) (c : N) (msg : ClientMessage.t) :
    M (Server R Mo) geffect (option (result (option Marshaler))) :=
  match Registry.Get msg.(ClientMessage.Op) commands with
  | Some handler =>
      sess ← client c Client.Session;
      res ← handler (mkContext e sess c) msg.(ClientMessage.Payload); mret (Some res)
  | None =>
      ids ← RoomIDs c;
      with_mgr (Manager.DispatchRoomMessage e.(ctx) c msg.(ClientMessage.Op)
        msg.(ClientMessage.Payload) ids)
  end.

(** The codes of the README for the errors of handlers and rooms: a
    [*protocol.Error] has its own, and a wrapped error that of its cause. *)
Fixpoint cause (err : error) : error :=
  match err with ErrWrap _ inner => cause inner | _ => err end.

Definition documented_code (err : error) : Z :=
  match cause err with
  | ErrProtocol code _ => code
  | ErrSentinel ErrRoomNotFound => 404
  | ErrSentinel ErrRoomFull | ErrSentinel ErrAlreadyInRoomOfType => 409
  | ErrSentinel ErrRoomClosed => 410
  | ErrSentinel ErrNotInRoom | ErrSentinel ErrAmbiguousRoom => 400
  | _ => 500
  end.

Lemma errorCode_documented err : errorCode err = documented_code err.
Proof.
  induction err as [s|msg|code msg|msg inner IH]; try done. by destruct s.
Qed.

(** The frame that answers request [id]. *)
Definition reply (id : N) (res : option (result (option Marshaler))) : outcome ServerMessage.t :=
  match res with
  | None => Ret (ServerMessage.mk MessageError id 404 0 "" "method not found" [])
  | Some (Err err) =>
      Ret (ServerMessage.mk MessageError id (Z.to_N (documented_code err mod 65536)) 0 "" (ErrorText err) [])
  | Some (Ok m) =>
      payload ← Encode m; Ret (ServerMessage.mk MessageResponse id 0 0 "" "" payload)
  end.

(** What the reply [data] does to the connection [cl]: queued, if the queue has
    room (a closed connection may drop it instead); otherwise the connection is
    closed, with a warning, if it was not. *)
Inductive replied (c : N) (data : bytes) cl : Client.t → list geffect → Prop :=
  | replied_queued :
      length cl.(Client.send) < cl.(Client.sendCap) →
      replied c data cl (Client.set_send (λ q, q ++ [data]) cl) []
  | replied_closed : cl.(Client.done) = true → replied c data cl cl []
  | replied_slow :
      cl.(Client.sendCap) ≤ length cl.(Client.send) → cl.(Client.done) = false →
      replied c data cl (Client.set_done cl) [GSlow c].

Lemma SendServerMessage_replied c m data w cl :
  clients w !! c = Some cl → ServerMessage.Marshal m [] = Ret data →
  ∃ cl' es, SendServerMessage c m w = (Ret tt, set_clients <[c := cl']> w, es) ∧
    replied c data cl cl' es.
Proof.
  intros Hc Hm. eexists _, _. split; [by apply SendServerMessage_run|]. unfold enqueue.
  destruct (Nat.ltb_spec (length (Client.send cl)) (Client.sendCap cl)) as [Hlt|Hge];
    destruct (Client.done cl) eqn:Hd; simpl; [|by apply replied_queued| |by apply replied_slow].
  - destruct (pick cl); [by apply replied_queued|]. rewrite set_done_id by done. by apply replied_closed.
  - rewrite set_done_id by done. by apply replied_closed.
Qed.

(** A request is its handler stage, then its reply. *)
Definition answer (c : N) (id : N) (res : option (result (option Marshaler))) :
    M (Server R Mo) geffect unit :=
  m ← lift_outcome (reply id res); SendServerMessage c m.

Lemma respond_answer c id r w : respond c id r w = answer c id (Some r) w.
Proof.
  unfold answer. rewrite bind_lift. destruct r as [p|err]; simpl.
  - unfold SendResponse. rewrite bind_lift. by destruct (Encode p).
  - by rewrite <- errorCode_documented.
Qed.

Lemma handleRequest_serve commands e c msg w :
  handleRequest commands e c msg w =
  (res ← serve commands e c msg; answer c msg.(ClientMessage.ID) res) w.
Proof.
  unfold handleRequest, serve. destruct (Registry.Get msg.(ClientMessage.Op) commands) as [h|].
  - rewrite (M_assoc _ _ _ w). apply M_bind_ext. intros sess w1.
    rewrite (M_assoc _ _ _ w1). apply M_bind_ext. intros r w2.
    rewrite bind_ret. apply respond_answer.
  - rewrite (M_assoc _ _ _ w). apply M_bind_ext. intros ids w1. apply M_bind_ext. intros [r|] w2.
    + apply respond_answer.
    + unfold answer. by rewrite bind_lift.
Qed.

(** A reply to a message that came from the wire is a message of the wire, if it
    fits. *)
Lemma reply_valid msg res m :
  valid msg → reply msg.(ClientMessage.ID) res = Ret m → fits_ServerMessage m = true → valid m.
Proof.
  intros Hv Hr Hf. change (Is_true (valid_ClientMessage msg)) in Hv. unfold valid_ClientMessage in Hv.
  destruct_valid. change (Is_true (valid_ServerMessage m)). unfold valid_ServerMessage.
  unfold fits_ServerMessage in Hf. apply andb_prop in Hf as [[F1 F2]%andb_prop F3]. rewrite F1, F2, F3.
  assert (fitsUint 4 m.(ServerMessage.ID) = true ∧ fitsUint 1 m.(ServerMessage.Type_) = true ∧
    fitsUint 2 m.(ServerMessage.Code) = true ∧ m.(ServerMessage.Op) = 0%N) as (-> & -> & -> & ->).
  { destruct res as [[p|err]|]; simpl in Hr.
    - destruct (Encode p); simpl in Hr; [|done]. by simplify_eq.
    - simplify_eq. split; [done|]. split; [done|]. split; [|done]. apply N.ltb_lt. cbn.
      pose proof (Z.mod_pos_bound (documented_code err) 65536). lia.
    - by simplify_eq. }
  done.
Qed.

(** C14: a request gets exactly one reply, after everything its handler did. When
    the handler stage returns and the reply fits a frame, the reply decodes to a
    Response with the request's id and the handler's payload, or to an Error with
    the request's id, the error's text and the code the README gives it (404
    when nothing handles the opcode); it goes to the end of the queue of an open
    connection that has room for it, may be dropped on a closed one, and closes
    the connection when there is no room. When the handler stage panics, or the
    reply cannot be encoded or does not fit, the dispatch panics: there is no
    other case. *)
Theorem request_gets_one_reply commands auth e c msg w :
  msg.(ClientMessage.Type_) = MessageRequest → valid msg →
  match serve commands e c msg w with
  | (Panic _, _, _) => is_panic (value (Dispatch commands auth e c msg w)) = true
  | (Ret res, w1, es) => ∀ cl, clients w1 !! c = Some cl →
      match reply msg.(ClientMessage.ID) res with
      | Panic _ => is_panic (value (Dispatch commands auth e c msg w)) = true
      | Ret m =>
          if fits_ServerMessage m then
            ∃ data cl' es', ServerMessage.Unmarshal data = Ok (m, length data) ∧
              Dispatch commands auth e c msg w =
                (Ret tt, set_clients <[c := cl']> w1, es ++ es') ∧
              replied c data cl cl' es'
          else is_panic (value (Dispatch commands auth e c msg w)) = true
      end
  end.
Proof.
  intros Ht Hv.
  assert (Dispatch commands auth e c msg w =
    (res ← serve commands e c msg; answer c msg.(ClientMessage.ID) res) w) as ->.
  { unfold Dispatch. rewrite Ht. apply handleRequest_serve. }
  destruct (serve commands e c msg w) as [[[res|s] w1] es] eqn:Hs;
    [|by rewrite (bind_panic _ _ _ _ _ _ Hs)].
  intros cl Hc. rewrite (bind_value _ _ _ _ _ _ Hs). unfold answer. rewrite bind_lift.
  destruct (reply msg.(ClientMessage.ID) res) as [m|s] eqn:Hr; [|done].
  pose proof (ServerMessage_fits m []) as Hf.
  destruct (fits_ServerMessage m) eqn:Hfit.
  - pose proof (reply_valid msg res m Hv Hr Hfit) as Hvm.
    destruct (SendServerMessage_replied c m (enc m) w1 cl Hc (marshal_enc m [] Hvm)) as (cl' & es' & Hrun & Hrep).
    exists (enc m), cl', es'. rewrite Hrun. split; [exact (unmarshal_whole m Hvm)|]. done.
  - cbn [value final effects fst snd]. unfold SendServerMessage. rewrite bind_lift.
    by destruct (ServerMessage.Marshal m []).
Qed.

(** ** Disconnecting *)

(** C16: the cleanup of a disconnect of an authenticated connection. When the
    topics it records cover its subscriptions, afterwards it has none, those of
    the others are as before; the manager saw a LeaveRoom for each room the
    connection records in [roomIDs], in some order, and nothing else (a room it
    is in or subscribed to and does not record is left as it is); and its session
    is gone from the store, the others are not. *)
Theorem OnDisconnect_cleans_up c w a cl s :
  refines id (bus w) a → wf (mgr w) → is_id c →
  clients w !! c = Some cl → cl.(Client.Session) = Some s →
  (∀ t, is_Some (default ∅ (a !! t) !! c) → is_Some (cl.(Client.topics) !! t)) →
  ∃ w' es rids, OnDisconnect c w = (Ret tt, w', es) ∧
    (∀ t, Bus.subscribers (bus w') t !! c = None) ∧
    (∀ t k, k ≠ c → Bus.subscribers (bus w') t !! k = Bus.subscribers (bus w) t !! k) ∧
    (∀ rid, rid ∈ rids ↔ is_Some (cl.(Client.roomIDs) !! rid)) ∧
    mgr w' = foldl (λ m rid, final (Manager.LeaveRoom s.(Session.UserID) c rid m)) (mgr w) rids ∧
    sessions w' = delete s.(Session.ID) (sessions w).
Proof.
  intros Href Hm Hc Hcl Hs Htop.
  destruct (OnDisconnect_run c w a cl Href Hm Hc Hcl Htop)
    as (w' & a' & es & rids & Hrun & Href' & Ha' & Hrids & Hm' & Hs' & _).
  rewrite Hs in Hm', Hs'. exists w', es, rids. split; [done|].
  split; [|split; [|done]].
  - intros t. by rewrite (refines_subscribers id _ _ t Href'), Ha', decide_True.
  - intros t k Hk. rewrite (refines_subscribers id _ _ t Href'), (refines_subscribers id _ _ t Href), Ha'.
    by rewrite decide_False.
Qed.

(** ** Authentication *)

Definition is_auth (msg : ClientMessage.t) : Prop := msg.(ClientMessage.Type_) = MessageAuth.

(** A connection that is not authenticated. *)
Definition guarded (c : N) w : Prop :=
  ∃ cl, clients w !! c = Some cl ∧ cl.(Client.IsAuthenticated) = false ∧
    cl.(Client.Session) = None ∧ Forall is_auth cl.(Client.handles).

(** The turns of the three loops of the connection and the pongs it answers. A
    read loop that waits with a message, one the gate let through, tries again to
    deliver it. *)
Inductive conn_step (commands : Registry.t (Handler R Mo)) (auth : env → string → result session)
    (c : N) : Server R Mo → Server R Mo → Prop :=
  | cs_start now w cl :
      clients w !! c = Some cl → cl.(Client.conn).(Socket.writing) = NotStarted →
      conn_step commands auth c w (final (ReadLoop_start now c w))
  | cs_frame now binary raw w :
      conn_step commands auth c w (final (ReadLoop_frame now c binary raw w))
  | cs_deliver msg w cl :
      clients w !! c = Some cl → cl.(Client.IsAuthenticated) = true ∨ is_auth msg →
      conn_step commands auth c w (final (ReadLoop_deliver c msg w))
  | cs_pong now w : conn_step commands auth c w (final (PongHandler now c w))
  | cs_write now ok case w : conn_step commands auth c w (final (WriteLoop now ok case c w))
  | cs_turn e w :
      conn_step commands auth c w (final (handleLoop_turn commands auth e c w)).

Lemma sending_guarded c w es w' : sending c w es w' → guarded c w → guarded c w'.
Proof.
  intros [_ Hs] (cl & Hc & Ha & Hse & Hh). destruct (Hs cl Hc) as (cl' & Hc' & [Hh' _ _ Hse' Ha' _]).
  exists cl'. rewrite Hh', Hse', Ha'. done.
Qed.

Lemma sending_refresh c now k : steps (sending c) (refresh (R := R) (Mo := Mo) now k).
Proof.
  apply steps_bind; [apply _|apply sending_client_field|]. intros auth. by apply sending_update.
Qed.

Lemma bind_then {A B} (m : M (Server R Mo) geffect A) (k : M (Server R Mo) geffect B) w :
  is_panic (value (m w)) = false → final ((m ;; k) w) = final (k (final (m w))).
Proof.
  destruct (m w) as [[[a|s] w'] es] eqn:Hm; [|done]. intros _.
  by rewrite (bind_value _ _ _ _ _ _ Hm).
Qed.

Lemma refresh_run now c w cl : clients w !! c = Some cl →
  refresh now c w =
  (Ret tt, set_clients <[c := Client.set_conn (Socket.SetReadDeadline
     (now + (if cl.(Client.IsAuthenticated) then cl.(Client.tuning).(Tuning.pongWait)
             else cl.(Client.tuning).(Tuning.authTimeout)))) cl]> w, []).
Proof.
  intros Hc. unfold refresh. rewrite (bind_value _ _ _ _ _ _ (client_run c _ w cl Hc)).
  cbn [final fst snd]. by rewrite update_run, (alter_client c _ w cl Hc).
Qed.

(** An Auth message for the handler. *)
Lemma guarded_deliver c msg w :
  guarded c w → is_auth msg →
  guarded c (final (ReadLoop_deliver c msg w)) ∧ core w [] (final (ReadLoop_deliver c msg w)).
Proof.
  intros (cl & Hc & Ha & Hse & Hh) Ht. unfold ReadLoop_deliver.
  rewrite (bind_value _ _ _ _ _ _ (client_run c id w cl Hc)). cbn [final fst snd].
  change (@id Client.t cl) with cl. case_match; [|split; [by exists cl|done]].
  rewrite (bind_value _ _ _ _ _ _ (update_run c _ w)). cbn [final fst snd].
  rewrite (alter_client c _ w cl Hc). split; [|done].
  exists (Client.set_handles (λ q, q ++ [msg]) cl). split; [apply lookup_insert_eq|].
  split; [done|]. split; [done|]. simpl. apply Forall_app. split; [done|by constructor].
Qed.

Lemma guarded_frame now c binary raw w0 :
  guarded c w0 →
  guarded c (final (ReadLoop_frame now c binary raw w0)) ∧
  core w0 [] (final (ReadLoop_frame now c binary raw w0)).
Proof.
  intros Hg0. pose proof Hg0 as (cl0 & Hc0 & _).
  unfold ReadLoop_frame. rewrite bind_then by by rewrite (refresh_run now c w0 cl0 Hc0).
  set (w := final (refresh now c w0)).
  assert (sending c w0 [] w) as Hs0.
  { unfold w. rewrite (refresh_run now c w0 cl0 Hc0). pose proof (sending_refresh c now c w0) as Hs.
    by rewrite (refresh_run now c w0 cl0 Hc0) in Hs. }
  pose proof (sending_guarded c w0 [] w Hs0 Hg0) as Hg.
  assert (core w0 [] w) as Hcore by apply Hs0.
  cut (∀ w', guarded c w' ∧ core w [] w' → guarded c w' ∧ core w0 [] w').
  2:{ intros w' [H1 H2]. split; [done|]. exact (trace_app w0 [] w [] w' Hcore H2). }
  intros Hcut. apply Hcut. clear Hcut Hs0 Hcore Hg0 Hc0 cl0.
  assert (∀ f : M (Server R Mo) geffect turn, steps (sending c) f →
    guarded c (final (f w)) ∧ core w [] (final (f w))) as Hsend.
  { intros f Hf. split; [by eapply sending_guarded, Hg|]. destruct (Hf w) as [[] _]. by split. }
  destruct (negb binary); [by apply Hsend, sending_then, sending_SendError|].
  destruct (ClientMessage.Unmarshal raw) as [[msg n]|err];
    [|by apply Hsend, sending_then, sending_SendError].
  destruct (ClientMessage.Type_ msg =? MessagePing)%N;
    [by apply Hsend, sending_then, sending_SendServerMessage|].
  destruct Hg as (cl & Hc & Ha & Hse & Hh).
  rewrite (bind_value _ _ _ _ _ _ (client_run c id w cl Hc)). cbn [final fst snd].
  change (@id Client.t cl) with cl. rewrite Ha. cbn [negb andb].
  destruct (N.eqb_spec (ClientMessage.Type_ msg) MessageAuth) as [Ht|Ht]; cbn [negb].
  - apply guarded_deliver; [by exists cl|done].
  - apply (Hsend (SendError c _ _ _ ;; mret Continue)). by apply sending_then, sending_SendError.
Qed.

(** The connection once [SetSession] has run. *)
Definition opened (now : Z) (sess : session) cl : Client.t :=
  Client.set_conn (Socket.SetReadDeadline (now + cl.(Client.tuning).(Tuning.pongWait)))
    (Client.set_Session sess cl).

Lemma SetSession_run now c sess w cl : clients w !! c = Some cl →
  SetSession now c sess w = (Ret tt, set_clients <[c := opened now sess cl]> w, []).
Proof.
  intros Hc. unfold SetSession. rewrite (bind_value _ _ _ _ _ _ (update_run c _ w)). cbn [final fst snd].
  rewrite (alter_client c _ w cl Hc), update_run.
  rewrite (alter_client c _ _ (Client.set_Session sess cl)) by apply lookup_insert_eq.
  unfold set_clients. cbn. by rewrite insert_insert_eq.
Qed.

(** What a step that only sends or writes leaves of the gate. *)
Lemma sending_gate {A} c (f : M (Server R Mo) geffect A) w :
  guarded c w → steps (sending c) f →
  let w' := final (f w) in
  guarded c w' ∧ mgr w' = mgr w ∧ bus w' = bus w ∧ sessions w' = sessions w.
Proof.
  intros Hg Hf w'. pose proof (Hf w) as Hs. split; [by eapply sending_guarded|].
  destruct Hs as [[] _]. done.
Qed.

(** A connection that was just authenticated with [sess], in the server [w0]
    became. *)
Definition admitted (c : N) (sess : session) w0 w : Prop :=
  (∃ cl, clients w !! c = Some cl ∧ cl.(Client.IsAuthenticated) = true ∧
     cl.(Client.Session) = Some sess) ∧
  mgr w = mgr w0 ∧ bus w = bus w0 ∧ sessions w = <[sess.(Session.ID) := sess]> (sessions w0).

Lemma guarded_handleAuth auth e c msg w :
  guarded c w →
  let w' := final (handleAuth auth e c msg w) in
  (guarded c w' ∧ core w [] w') ∨
  (∃ sess, auth e msg.(ClientMessage.Token) = Ok sess ∧ admitted c sess w w').
Proof.
  intros Hg w'. subst w'. pose proof Hg as (cl & Hc & Ha & Hse & Hh).
  unfold handleAuth. rewrite (bind_value _ _ _ _ _ _ (client_run c Client.IsAuthenticated w cl Hc)).
  cbn [final fst snd]. rewrite Ha.
  destruct (auth e (ClientMessage.Token msg)) as [sess|err] eqn:Hau.
  - right. exists sess. split; [done|].
    rewrite (bind_value _ _ _ _ _ _ (SetSession_run (now e) c sess w cl Hc)). cbn [final fst snd].
    rewrite bind_modify.
    set (w1 := set_sessions _ _).
    set (resp := SendResponse c _ _). change (admitted c sess w (final (resp w1))).
    assert (sending c w1 (effects (resp w1)) (final (resp w1))) as [[Hm Hb Hs] Hcl]
      by apply sending_SendResponse.
    destruct (Hcl (opened (now e) sess cl)) as (cl' & Hc' & [_ _ _ Hse' Ha' _]).
    { apply lookup_insert_eq. }
    split; [exists cl'; by rewrite Ha', Hse'|]. by rewrite Hm, Hb, Hs.
  - left. set (rej := SendError c _ _ _ ;; Close c).
    assert (sending c w (effects (rej w)) (final (rej w))) as Hr.
    { assert (steps (sending c) rej) as Hrej; [|apply Hrej].
      apply steps_bind; [apply _|apply sending_SendError|intros _; apply sending_Close]. }
    change (guarded c (final (rej w)) ∧ core w [] (final (rej w))).
    split; [by eapply sending_guarded|]. destruct Hr as [[] _]. by split.
Qed.

(** C1: the authentication gate. Until a token is accepted, nothing a connection
    sends, in any number of turns of its two loops, reaches the rooms or the
    bus or the sessions: it stays without a session, and only Auth messages
    wait for its handler. The turn that changes this is one in which the
    authenticator accepted a token; the session it returned is then the
    connection's and is in the store. *)
Theorem auth_gate commands auth c w w' :
  guarded c w → conn_step commands auth c w w' →
  (guarded c w' ∧ mgr w' = mgr w ∧ bus w' = bus w ∧ sessions w' = sessions w) ∨
  (∃ e token sess, auth e token = Ok sess ∧ admitted c sess w w').
Proof.
  intros Hg Hstep. destruct Hstep as [now w cl0 _ _|now binary raw w|msg w cl Hcl Hmsg|now w|now ok case w|e w].
  - left. apply sending_gate; [done|apply sending_start].
  - left. destruct (guarded_frame now c binary raw w Hg) as [Hg' [Hm Hb Hs]]. done.
  - left. pose proof Hg as (cl0 & Hc0 & Ha0 & _). destruct Hmsg as [Hmsg|Hmsg]; [congruence|].
    destruct (guarded_deliver c msg w Hg Hmsg) as [Hg' [Hm Hb Hs]]. done.
  - left. apply sending_gate; [done|by apply sending_update].
  - left. apply sending_gate; [done|apply sending_WriteLoop].
  - pose proof Hg as (cl & Hc & Ha & Hse & Hh). unfold handleLoop_turn.
    rewrite (bind_value _ _ _ _ _ _ (client_run c id w cl Hc)). cbn [final fst snd].
    change (@id Client.t cl) with cl. destruct (Client.handles cl) as [|msg rest] eqn:Hq.
    { left. split; [by exists cl; rewrite Hq|done]. }
    apply Forall_cons in Hh as [Hmsg Hrest].
    destruct (negb (Client.done cl) || pick cl).
    2:{ left. split; [exists cl; rewrite Hq; by repeat constructor|done]. }
    rewrite (bind_value _ _ _ _ _ _ (update_run c _ w)). cbn [final fst snd].
    rewrite (alter_client c _ w cl Hc). set (w1 := set_clients _ w).
    assert (guarded c w1) as Hg1.
    { exists (Client.set_handles (λ _, rest) cl). split; [apply lookup_insert_eq|]. done. }
    assert (Dispatch commands auth e c msg = handleAuth auth e c msg) as ->.
    { unfold Dispatch. rewrite Hmsg. done. }
    assert (final ((handleAuth auth e c msg ;; mret Continue) w1) = final (handleAuth auth e c msg w1)) as Hfin.
    { destruct (handleAuth auth e c msg w1) as [[[[]|s] w2] es] eqn:Hr.
      - by rewrite (bind_value _ _ _ _ _ _ Hr).
      - by rewrite (bind_panic _ _ _ _ _ _ Hr). }
    change (final _) with (final ((handleAuth auth e c msg ;; mret Continue) w1)). rewrite Hfin.
    destruct (guarded_handleAuth auth e c msg w1 Hg1) as [[Hg' [Hm Hb Hs]]|(sess & Hau & Had)].
    + left. done.
    + right. exists e, (ClientMessage.Token msg), sess. done.
Qed.

(** Listing live rooms. *)
Lemma infos_run ps (m : Manager.t R Mo) :
  (∀ p, p ∈ ps → ∃ r, Manager.heap m !! p = Some r ∧ alive r = true) →
  ∃ l, Manager.infos ps m = (Ret l, m, []) ∧ length l = length ps.
Proof.
  induction ps as [|p ps IH]; intros Hps; [by eexists|].
  destruct (Hps p) as (r & Hr & Ha); [by left|].
  destruct IH as (l & Hl & Hlen); [intros q Hq; apply Hps; by right|].
  exists (info r :: l). split; [|simpl; by rewrite Hlen]. simpl.
  rewrite (bind_value _ _ _ _ _ _ (call_Info_run p m r Hr)), Ha. cbn [final fst snd].
  rewrite (bind_value _ _ _ _ _ _ Hl). done.
Qed.

Lemma List_run (m : Manager.t R Mo) :
  wf m → (∀ p r, Manager.heap m !! p = Some r → alive r = true) →
  ∃ l, Manager.List m = (Ret l, m, []) ∧ length l = size (Manager.rooms m).
Proof.
  intros Hm Ha. unfold Manager.List. rewrite bind_get.
  destruct (infos_run (range (Manager.rooms m)).*2 m) as (l & Hl & Hlen).
  - intros p Hp. apply list_elem_of_fmap in Hp as ([id p'] & -> & Hin). apply elem_of_range in Hin.
    destruct (wf_listed _ Hm id p' Hin) as (r & Hr & _). exists r. split; [done|by eapply Ha].
  - exists l. split; [done|]. by rewrite Hlen, length_fmap, length_range.
Qed.

(** A response that does not fit its frame is a panic. *)
Lemma respond_oversized c id p w :
  (∀ out, p [] = Ret out → fitsLen (length out) = false) →
  is_panic (value (respond c id (Ok (Some p)) w)) = true.
Proof.
  intros Hp. simpl. unfold SendResponse, Encode. rewrite bind_lift.
  destruct (p []) as [out|msg] eqn:Hout; [|done]. unfold SendServerMessage. rewrite bind_lift.
  set (frame := ServerMessage.mk _ _ _ _ _ _ _). pose proof (ServerMessage_fits frame []) as Hf.
  unfold fits_ServerMessage in Hf. cbn [ServerMessage.Payload frame] in Hf.
  rewrite (Hp out eq_refl), andb_false_r in Hf. by destruct (ServerMessage.Marshal frame []).
Qed.

(** A listing of 5462 rooms or more takes the process down: the reply to
    lobby.list does not fit the 65535 bytes of a frame's payload, its encoding
    panics, and nothing on the way up from the handler recovers. *)
Lemma lobby_list_crashes auth e c msg w cl commands :
  wf (mgr w) → (∀ p r, Manager.heap (mgr w) !! p = Some r → alive r = true) →
  (5462 ≤ N.of_nat (size (Manager.rooms (mgr w))))%N →
  Registry.Get MethodLobbyList commands = Some lobbyListHandler →
  msg.(ClientMessage.Type_) = MessageRequest → msg.(ClientMessage.Op) = MethodLobbyList →
  clients w !! c = Some cl →
  is_panic (value (Dispatch commands auth e c msg w)) = true.
Proof.
  intros Hm Ha Hn Hh Ht Hop Hc.
  destruct (List_run (mgr w) Hm Ha) as (l & Hl & Hlen).
  destruct (with_mgr_run Manager.List w l (mgr w) [] Hl) as (w' & es & Hrun & _).
  unfold Dispatch. rewrite Ht.
  cbn [N.eqb Pos.eqb MessageRequest MessageAuth MessageSubscribe MessageUnsubscribe].
  unfold handleRequest. rewrite Hop, Hh.
  rewrite (bind_value _ _ _ _ _ _ (client_run c Client.Session w cl Hc)). cbn [final fst snd value].
  assert (lobbyListHandler (mkContext e (Client.Session cl) c) (ClientMessage.Payload msg) w =
    (Ret (Ok (Some (RoomList.Marshal (RoomList.mk l)))), w', es ++ [])) as Hlob.
  { unfold lobbyListHandler, Lobby_List. by rewrite (bind_value _ _ _ _ _ _ Hrun). }
  rewrite (bind_value _ _ _ _ _ _ Hlob). cbn [final fst snd value].
  apply respond_oversized. intros out. apply RoomList_oversized. by rewrite Hlen.
Qed.
End gateway.

(** ** Subscriptions *)

Section subscriptions.
Context {R Mo : Type} `{!AnyRoom R, !AnyModule Mo R, GoRange, !Select}.
Implicit Types (w : Server R Mo).

(** Personal topics are open: any connection that sends a Subscribe message
    with the personal topic of another one is subscribed to it, next to the
    subscribers it has, and from then on gets the personal events of that
    player. *)
Lemma personal_topic_is_open commands auth e c k msg w cl a :
  refines id (bus w) a → clients w !! c = Some cl → c ≠ k →
  Client.topics cl !! clientTopic k = None →
  msg.(ClientMessage.Type_) = MessageSubscribe → msg.(ClientMessage.Channel) = clientTopic k →
  ∃ w', Dispatch commands auth e c msg w = (Ret tt, w', []) ∧
    Bus.subscribers (bus w') (clientTopic k) = <[c := c]> (Bus.subscribers (bus w) (clientTopic k)).
Proof.
  intros Href Hc _ Ht Hty Hch.
  set (w1 := set_clients (alter (Client.set_topics (insert (clientTopic k) tt)) c) w).
  destruct (refines_subscribe id (bus w1) a (clientTopic k) c Href) as (b & Hb & Hb').
  exists (set_bus b w1). split.
  - unfold Dispatch. rewrite Hty. cbn [N.eqb Pos.eqb MessageAuth MessageSubscribe].
    rewrite Hch. unfold Subscribe.
    rewrite (bind_value _ _ _ _ _ _ (client_run c id w cl Hc)). cbn [final fst snd].
    change (@id Client.t cl) with cl. rewrite Ht.
    rewrite (bind_value _ _ _ _ _ _ (update_run c _ w)). cbn [final fst snd]. fold w1.
    assert (hasPrefix (clientTopic k) "room:" = false) as -> by done.
    unfold when. rewrite bind_ret. unfold bus_Subscribe, bus_op.
    change (bus w1) with (bus w) in Hb |- *. by rewrite Hb.
  - cbn [bus set_bus]. rewrite (refines_subscribers id _ _ _ Hb'), (refines_subscribers id _ _ _ Href).
    unfold spec_subscribe. by rewrite lookup_insert_eq.
Qed.
End subscriptions.

(** ** A concrete server *)

#[local] Instance always_pick : Select := { pick := λ _, true }.

Definition demo_config : App.Config unit unit :=
  App.mkConfig (Some tt) "" None None "" false 0 0 0 0 0 0 0.

Definition demo_commands : Registry.t (Handler Any AnyMod) :=
  App.commands (final (App.New plainModule demo_config)).

Definition demo_tuning : Tuning.t := Tuning.mk 0 0 0 0 0 0 0.
Definition demo_env : env := mkEnv 0 "u" false.

Definition demo_empty : Server Any AnyMod := mkServer ∅ ∅ ∅ ∅ 0 Bus.New Manager.NewManager ∅.

(** Connection 1, then authenticated as alice, then in a room of its own. *)
Definition demo_connected : Server Any AnyMod := final (handleWebSocket demo_tuning demo_empty).

Definition message (typ op : N) (token channel : string) (payload : bytes) : ClientMessage.t :=
  ClientMessage.mk typ 7 op token channel payload.

Definition say (msg : ClientMessage.t) (w : Server Any AnyMod) : Server Any AnyMod :=
  final (Dispatch demo_commands DevAuth demo_env 1 msg w).

Definition demo_authenticated : Server Any AnyMod :=
  say (message MessageAuth 0 "alice" "" []) demo_connected.

Definition create_payload : bytes :=
  default [] (match Encode (Some (CreateRoomRequest.Marshal (CreateRoomRequest.mk "" "duel" 0 0 []))) with
              | Ret bs => Some bs | Panic _ => None end).

Definition demo_in_room : Server Any AnyMod :=
  say (message MessageRequest MethodRoomCreate "" "" create_payload) demo_authenticated.

Definition room_members (id : string) (w : Server Any AnyMod) : option (gset N) :=
  p ← Manager.rooms (mgr w) !! id; members <$> Manager.heap (mgr w) !! p.

(** ** Witnesses *)

Definition demo_cl (w : Server Any AnyMod) : Client.t :=
  default (Client.mk [] 0 [] ∅ ∅ None false false demo_tuning Socket.New) (clients w !! 1%N).

Definition pong : ServerMessage.t := ServerMessage.mk MessagePing 7 0 0 "" "" [].

Lemma SendServerMessage_spec_witness :
  Client.send (demo_cl (final (SendServerMessage 1 pong demo_connected))) = [enc pong].
Proof.
  destruct (SendServerMessage_spec 1 pong (enc pong) demo_connected (demo_cl demo_connected))
    as (cl' & es & Hrun & _ & Hcl').
  - reflexivity.
  - vm_compute; reflexivity.
  - vm_compute. lia.
  - rewrite Hrun. unfold demo_cl. cbn [final fst snd]. unfold set_clients. cbn [clients].
    rewrite lookup_insert_eq. cbn [default from_option]. vm_compute in Hcl'.
    destruct Hcl' as (_ & _ & [H|[H _]]); [exact H|discriminate].
Defined.

(** Nothing handles the opcode 150; what the handler stage leaves is the server. *)
Lemma request_gets_one_reply_witness :
  ∃ data cl' es', ServerMessage.Unmarshal data =
      Ok (ServerMessage.mk MessageError 7 404 0 "" "method not found" [], length data) ∧
    Dispatch demo_commands DevAuth demo_env 1 (message MessageRequest 150 "" "" []) demo_connected =
      (Ret tt, set_clients <[1%N := cl']> demo_connected, es') ∧
    replied 1 data (demo_cl demo_connected) cl' es'.
Proof.
  pose proof (request_gets_one_reply demo_commands DevAuth demo_env 1
    (message MessageRequest 150 "" "" []) demo_connected eq_refl I) as H.
  assert (serve demo_commands demo_env 1 (message MessageRequest 150 "" "" []) demo_connected =
    (Ret None, demo_connected, [])) as Hs by (vm_compute; reflexivity).
  rewrite Hs in H.
  destruct (H (demo_cl demo_connected) eq_refl) as (data & cl' & es' & Hd).
  exists data, cl', es'. exact Hd.
Defined.

Lemma demo_in_room_wf : wf (mgr demo_in_room).
Proof.
  assert (mgr demo_in_room = final (Manager.JoinRoom 0 "alice" 1 "duel_u"
    (final (Manager.Create plainModule "u" (RoomConfig.mk "" "duel" 0 0 ∅ 0) Manager.NewManager)))) as ->
    by (vm_compute; reflexivity).
  apply (keeps_JoinRoom 0 "alice" 1 "duel_u"); [done|].
  apply keeps_Create; [apply wf_new|done|]. intros name. apply lookup_empty.
Qed.

Lemma demo_in_room_refines : ∃ a, refines id (bus demo_in_room) a.
Proof.
  destruct (refines_run_ops id [OpSubscribe "client:1" 1%N; OpSubscribe "room:duel_u" 1%N] Bus.New ∅
    (refines_New id)) as (b & Hb & Href).
  assert (b = bus demo_in_room) as <-; [|by eexists].
  apply (inj Some). rewrite <- Hb. vm_compute. reflexivity.
Qed.

Lemma demo_covered a : refines id (bus demo_in_room) a → covered a 1 (demo_cl demo_in_room).
Proof.
  intros Ha. intros t Ht. assert (Client.topics (demo_cl demo_in_room) =
    (<["room:duel_u" := tt]> {["client:1" := tt]} : gmap string unit)) as -> by (vm_compute; reflexivity).
  rewrite <- (refines_subscribers id _ _ t Ha) in Ht.
  destruct (decide (t = "room:duel_u")) as [->|H1]; [by rewrite lookup_insert_eq|].
  rewrite lookup_insert_ne by done.
  destruct (decide (t = "client:1")) as [->|H2]; [by rewrite lookup_singleton_eq|].
  unfold Bus.subscribers in Ht.
  assert (Bus.topics (bus demo_in_room) =
    (<["room:duel_u" := 1]> {["client:1" := 0]} : gmap string nat)) as Hb by (vm_compute; reflexivity).
  rewrite Hb, lookup_insert_ne, lookup_singleton_ne in Ht by done.
  destruct Ht as [x Hx]. rewrite lookup_empty in Hx. discriminate Hx.
Qed.

Lemma OnDisconnect_cleans_up_witness :
  Bus.subscribers (bus (final (OnDisconnect 1 demo_in_room))) "room:duel_u" !! 1%N = None ∧
  sessions (final (OnDisconnect 1 demo_in_room)) = ∅.
Proof.
  destruct demo_in_room_refines as [a Ha].
  destruct (OnDisconnect_cleans_up 1 demo_in_room a (demo_cl demo_in_room) (Session.New "u" "alice"))
    as (w' & es & rids & Hrun & Hsub & _ & _ & _ & Hsess).
  - exact Ha.
  - apply demo_in_room_wf.
  - done.
  - vm_compute; reflexivity.
  - vm_compute; reflexivity.
  - by apply demo_covered.
  - rewrite Hrun. split; [apply Hsub|]. cbn [final fst snd]. rewrite Hsess. reflexivity.
Defined.

Definition intruder : bytes :=
  default [] (match Encode (Some (ClientMessage.Marshal (message MessageRequest 3 "" "" []))) with
              | Ret bs => Some bs | Panic _ => None end).

Lemma auth_gate_witness :
  ∃ w', w' = final (ReadLoop_frame 0 1 true intruder demo_connected) ∧
    mgr w' = mgr demo_connected ∧ length (Client.send (demo_cl w')) = 1.
Proof.
  eexists. split; [reflexivity|]. split; [|reflexivity].
  destruct (auth_gate demo_commands DevAuth 1 demo_connected
    (final (ReadLoop_frame 0 1 true intruder demo_connected))) as [(_ & Hm & _)|(e & tok & s & _ & _ & Hm & _)].
  - exists (demo_cl demo_connected). split; [reflexivity|]. split; [reflexivity|]. by split.
  - apply cs_frame.
  - exact Hm.
  - exact Hm.
Defined.

Lemma personal_topic_is_open_witness :
  Bus.subscribers (bus (say (message MessageSubscribe 0 "" "client:2" []) demo_in_room)) "client:2" =
  {[1%N := 1%N]}.
Proof.
  destruct demo_in_room_refines as [a Ha].
  destruct (personal_topic_is_open demo_commands DevAuth demo_env 1 2
    (message MessageSubscribe 0 "" "client:2" []) demo_in_room (demo_cl demo_in_room) a)
    as (w' & Hrun & Hs).
  - exact Ha.
  - vm_compute; reflexivity.
  - done.
  - vm_compute; reflexivity.
  - reflexivity.
  - reflexivity.
  - unfold say. rewrite Hrun. exact Hs.
Defined.

(** A manager with [n] live rooms. *)
Definition numbered (n : nat) : Any :=
  any plainModule (Room.mk (pretty n) (RoomConfig.mk "" "duel" 0 0 ∅ 0) tt ∅ true None false true false ∅ 0).

Fixpoint many (n : nat) : Manager.t Any AnyMod :=
  match n with
  | O => Manager.NewManager
  | S n => listed (numbered n) (many n)
  end.

Lemma many_fresh n k : n ≤ k → Manager.rooms (many n) !! (pretty k) = None.
Proof.
  induction n as [|n IH]; intros Hk; [done|]. simpl. rewrite lookup_insert_ne; [apply IH; lia|].
  intros Heq. apply (inj pretty) in Heq. lia.
Qed.

Lemma many_wf n : wf (many n).
Proof.
  induction n as [|n IH]; [apply wf_new|]. simpl. apply wf_listed_new; [done|by apply many_fresh|].
  split; split; simpl; try done.
Qed.

Lemma many_size n : size (Manager.rooms (many n)) = n.
Proof.
  induction n as [|n IH]; [done|]. simpl. rewrite map_size_insert_None; [by rewrite IH|].
  by apply many_fresh.
Qed.

Lemma many_alive n p r : Manager.heap (many n) !! p = Some r → alive r = true.
Proof.
  induction n as [|n IH]; [done|]. simpl. intros [[_ <-]|[_ Hr]]%lookup_insert_Some; [done|auto].
Qed.

Definition crowded : Server Any AnyMod :=
  set_mgr (many (N.to_nat 5462)) demo_authenticated.

Lemma lobby_list_crashes_witness :
  is_panic (value (Dispatch demo_commands DevAuth demo_env 1
    (message MessageRequest MethodLobbyList "" "" []) crowded)) = true.
Proof.
  apply (lobby_list_crashes DevAuth demo_env 1 (message MessageRequest MethodLobbyList "" "" []) crowded
    (demo_cl demo_authenticated) demo_commands).
  - apply many_wf.
  - intros p r. apply many_alive.
  - change (mgr crowded) with (many (N.to_nat 5462)). rewrite many_size, N2Nat.id. reflexivity.
  - reflexivity.
  - reflexivity.
  - reflexivity.
  - reflexivity.
Defined.
