(* ===== verification/AppProps.v ===== *)
(** * The properties of the application

    What New builds, what registering a room type does to it, and that an opcode
    has one owner however an application is put together. *)

From S2P Require Import Prelude Codec Schema SchemaSpec EventBus EventBusSpec Room RoomSpec RoomActor Manager ManagerSpec ManagerProps Session Socket Gateway GatewaySpec Handlers App GatewayProps.

(** ** Tuning *)

(** With the defaults applied every limit is positive, and the ping period is
    below the pong wait exactly when the configured one was usable or the pong
    wait exceeds the default period of 30 s. *)
Lemma withDefaults_spec (c : Tuning.t) :
  let t := Tuning.withDefaults c in
  (0 < Tuning.writeWait t ∧ 0 < Tuning.pongWait t ∧ 0 < Tuning.pingPeriod t ∧
   0 < Tuning.authTimeout t ∧ 0 < Tuning.maxMessageSize t ∧ 0 < Tuning.sendBufferSize t ∧
   0 < Tuning.shutdownTimeout t)%Z ∧
  (Tuning.pingPeriod t < Tuning.pongWait t ↔
   0 < Tuning.pingPeriod c < Tuning.pongWait t ∨ Tuning.defaultPingPeriod < Tuning.pongWait t)%Z.
Proof.
  assert (∀ x d, (0 < d)%Z → (0 < Tuning.or_default x d)%Z) as Hpos.
  { intros x d Hd. unfold Tuning.or_default. destruct (Z.leb_spec x 0); lia. }
  cbv zeta. unfold Tuning.withDefaults. cbn [Tuning.writeWait Tuning.pongWait Tuning.pingPeriod
    Tuning.authTimeout Tuning.maxMessageSize Tuning.sendBufferSize Tuning.shutdownTimeout].
  pose proof (Hpos (Tuning.pongWait c) Tuning.defaultPongWait eq_refl) as Hpong.
  set (pong := Tuning.or_default (Tuning.pongWait c) Tuning.defaultPongWait) in *.
  assert (0 < Tuning.defaultPingPeriod)%Z as Hping by done.
  split.
  - repeat split; try (by apply Hpos); try done.
    destruct (Z.leb_spec (Tuning.pingPeriod c) 0), (Z.leb_spec pong (Tuning.pingPeriod c)); simpl; lia.
  - destruct (Z.leb_spec (Tuning.pingPeriod c) 0), (Z.leb_spec pong (Tuning.pingPeriod c)); simpl; lia.
Qed.

(** ** A new application *)

Section new.
Context {R Mo : Type} `{!AnyRoom R, !AnyModule Mo R, GoRange, !Select} (plain : Mo).
Context {engine request : Type}.
Implicit Types (cfg : App.Config engine request).

(** What the application hands to the gateway. *)
Definition gateway_config cfg : GatewayConfig.t engine request (env → string → result session) :=
  GatewayConfig.mk (App.Engine _ _ cfg) (App.WSPath _ _ cfg)
    (if String.eqb (App.Addr _ _ cfg) "" then ":8080" else App.Addr _ _ cfg)
    (default DevAuth (App.Authenticator _ _ cfg)) (App.CheckOrigin _ _ cfg)
    (App.MaxMessageSize _ _ cfg) (App.AuthTimeout _ _ cfg) (App.PongWait _ _ cfg)
    (App.WriteWait _ _ cfg) (App.PingPeriod _ _ cfg) (App.SendBufferSize _ _ cfg)
    (App.ShutdownTimeout _ _ cfg).

Lemma New_run cfg :
  let path := if String.eqb (App.WSPath _ _ cfg) "" then "/ws" else App.WSPath _ _ cfg in
  let res := App.New plain cfg in
  (App.Engine _ _ cfg = None → is_panic (value res) = true) ∧
  (∀ e, App.Engine _ _ cfg = Some e →
     let c := GatewayConfig.set_WSPath path (gateway_config cfg) in
     let t := GatewayConfig.newTuning c in
     value res = Ret (mkGateway c t (NewDispatcher (default DevAuth (App.Authenticator _ _ cfg)) t)
       (App.CheckOrigin _ _ cfg)) ∧
     effects res = match App.Authenticator _ _ cfg with None => [GDevAuth] | Some _ => [] end ++ [GRoute path]) ∧
  App.rooms (final res) = Manager.NewManager ∧
  App.commands (final res) =
    if App.DisableDefaultHandlers _ _ cfg then ∅
    else <[MethodLobbyList := lobbyListHandler]> (<[MethodRoomLeave := leaveRoomHandler]>
      (<[MethodRoomJoin := joinRoomHandler]> (<[MethodRoomCreate := createRoomHandler plain]> ∅))).
Proof.
  destruct cfg as [eng addr auth origin path dis m1 m2 m3 m4 m5 m6 m7]. cbn.
  destruct eng as [e|], auth as [auth|], dis; cbn; destruct path; cbn; repeat split; try done.
  all: by intros e' [= <-].
Qed.

(** C32: what New builds. Without a gin engine it panics. With one it returns the
    gateway, its route mounted at the configured path or at /ws, its address the
    configured one or :8080, its authenticator the configured one or, after a
    warning, DevAuth; the limits of the gateway and of its dispatcher are the
    configured ones with the defaults applied, all positive, and the ping period
    is below the pong wait exactly when the configured one was usable or the pong
    wait exceeds the default period of 30 s. No room type is registered, and the
    global opcodes are the four built-in ones, or none if they are disabled. *)
Theorem New_spec cfg :
  let res := App.New plain cfg in
  (App.Engine _ _ cfg = None → is_panic (value res) = true) ∧
  (∀ e, App.Engine _ _ cfg = Some e → ∃ g, value res = Ret g ∧
     let path := if String.eqb (App.WSPath _ _ cfg) "" then "/ws" else App.WSPath _ _ cfg in
     let addr := if String.eqb (App.Addr _ _ cfg) "" then ":8080" else App.Addr _ _ cfg in
     let t := g_tuning g in
     effects res = match App.Authenticator _ _ cfg with None => [GDevAuth] | Some _ => [] end ++ [GRoute path] ∧
     GatewayConfig.Addr (g_config g) = addr ∧ GatewayConfig.WSPath (g_config g) = path ∧
     d_authenticator _ (g_dispatcher g) = default DevAuth (App.Authenticator _ _ cfg) ∧
     d_tuning _ (g_dispatcher g) = t ∧
     (0 < Tuning.writeWait t ∧ 0 < Tuning.pongWait t ∧ 0 < Tuning.pingPeriod t ∧
      0 < Tuning.authTimeout t ∧ 0 < Tuning.maxMessageSize t ∧ 0 < Tuning.sendBufferSize t ∧
      0 < Tuning.shutdownTimeout t)%Z ∧
     (Tuning.pingPeriod t < Tuning.pongWait t ↔
      0 < App.PingPeriod _ _ cfg < Tuning.pongWait t ∨ Tuning.defaultPingPeriod < Tuning.pongWait t)%Z) ∧
  (∀ op, Manager.OpType op (App.rooms (final res)) = None) ∧
  ∀ op, Registry.Has op (App.commands (final res)) =
    negb (App.DisableDefaultHandlers _ _ cfg) &&
    bool_decide (op ∈ [MethodRoomCreate; MethodRoomJoin; MethodRoomLeave; MethodLobbyList]).
Proof.
  destruct (New_run cfg) as (Hnone & Hsome & Hro & Hco). split; [exact Hnone|]. split; [|split].
  - intros e He. destruct (Hsome e He) as [Hv Hes]. eexists. split; [exact Hv|]. cbn [g_tuning g_config g_dispatcher].
    split; [exact Hes|]. do 4 (split; [done|]). apply withDefaults_spec.
  - intros op. rewrite Hro. apply lookup_empty.
  - intros op. rewrite Hco. destruct (App.DisableDefaultHandlers _ _ cfg); [done|].
    cbn [negb andb].
    destruct (decide (op = MethodLobbyList)) as [->|H4]; [done|].
    destruct (decide (op = MethodRoomLeave)) as [->|H3]; [done|].
    destruct (decide (op = MethodRoomJoin)) as [->|H2]; [done|].
    destruct (decide (op = MethodRoomCreate)) as [->|H1]; [done|].
    rewrite bool_decide_false by set_solver.
    by rewrite !Registry.Has_insert by congruence.
Qed.
End new.

(** ** The opcodes of an application *)

Section app.
Context {R Mo : Type} `{!AnyRoom R, !AnyModule Mo R, GoRange, !Select} (plain : Mo).
Implicit Types (a : App.t R Mo).



Lemma checkOps_run ops a :
  (∃ msg, for_each App.checkOp ops a = (Panic msg, a, []) ∧
     ∃ op, op ∈ ops ∧ Registry.Has op (App.commands a) = true) ∨
  (for_each App.checkOp ops a = (Ret tt, a, []) ∧
   ∀ op, op ∈ ops → Registry.Has op (App.commands a) = false).
Proof.
  induction ops as [|op ops IH]; [right; split; [done|by intros op ?%not_elem_of_nil]|].
  simpl. destruct (Registry.Has op (App.commands a)) eqn:Hop.
  - left. eexists. split; [|by exists op; split; [left|]].
    apply bind_panic. unfold App.checkOp. by rewrite bind_get, Hop.
  - assert (App.checkOp op a = (Ret tt, a, [])) as Hc.
    { unfold App.checkOp. by rewrite bind_get, Hop. }
    rewrite (bind_value _ _ _ _ _ _ Hc). cbn [final fst snd].
    destruct IH as [(msg & -> & op' & Hin & Hop')|[-> Hall]];
      [left; eexists; split; [done|]; exists op'; split; [by right|done]|right].
    split; [done|]. intros op' [->|Hin]%elem_of_cons; auto.
Qed.

(** What [RegisterModule] may do to the claims, also when it panics. *)
Definition claims (ops : list N) (m : Manager.t R Mo) (es : list effect) (m' : Manager.t R Mo) : Prop :=
  ∀ op, op ∉ ops → Manager.OpType op m' = Manager.OpType op m.
#[local] Instance claims_trace ops : TraceRel (claims ops).
Proof. split; [done|]. intros m es m' es' m'' H1 H2 op Hop. by rewrite H2, H1. Qed.


End app.

(** ** Registering a room type *)

Section register.
Context `{GoRange, Select} {S : Type} (zero : S).
Implicit Types (b : RoomBuilder.t S) (a : App.t Any AnyMod).

(** A registration is refused: an opcode of the type is a global method, the type
    is empty or registered, or another type claims one of the opcodes. *)
Definition refused (typ : string) (ops : list N) a : Prop :=
  Exists (λ op, Registry.Has op (App.commands a) = true) ops ∨
  (typ = "" ∨ is_Some (Manager.modules (App.rooms a) !! typ) ∨
   Exists (λ op, is_Some (Manager.opTypes (App.rooms a) !! op)) ops).

Lemma elem_of_Ops (m : Room.Module S) op :
  op ∈ Ops (anyMod S zero m) ↔ is_Some (Room.handlers m !! op).
Proof.
  change (Ops (anyMod S zero m)) with (range (Room.handlers m)).*1. rewrite list_elem_of_fmap. split.
  - intros ([op' h] & -> & Hin%elem_of_range). by eexists.
  - intros [h Hh]. exists (op, h). split; [done|]. by apply elem_of_range.
Qed.

(** C30: the end of a fluent definition. Register panics exactly when the type is
    empty or registered, or one of its opcodes is a global method or claimed by
    another type, and then no type is registered and the methods stay; otherwise
    the type is registered with the module that was built, exactly the opcodes it
    has handlers for are routed to it, those of the others as before. *)
Theorem Register_spec b a :
  let m := b.(RoomBuilder.module) in
  let typ := Room.typ m in
  let res := RoomBuilder.Register zero b a in
  let rooms' := App.rooms (final res) in
  App.commands (final res) = App.commands a ∧
  (refused typ (Ops (anyMod S zero m)) a →
     is_panic (value res) = true ∧ Manager.modules rooms' = Manager.modules (App.rooms a)) ∧
  (¬ refused typ (Ops (anyMod S zero m)) a →
     value res = Ret tt ∧
     Manager.modules rooms' = <[typ := anyMod S zero m]> (Manager.modules (App.rooms a)) ∧
     ∀ op, Manager.OpType op rooms' =
       if decide (is_Some (Room.handlers m !! op)) then Some typ
       else Manager.OpType op (App.rooms a)).
Proof.
  intros m typ res rooms'. subst res rooms'. unfold RoomBuilder.Register, App.RegisterRoomType.
  fold m. set (md := anyMod S zero m).
  assert (NoDup (Ops md)) as Hnd by apply NoDup_range_keys.
  pose proof (RegisterModule_spec md (App.rooms a) Hnd) as Hreg. cbv zeta in Hreg.
  change (RoomType md) with typ in Hreg.
  destruct (checkOps_run (Ops md) a) as [(msg & Hrun & op & Hin & Hop)|[Hrun Hfree]].
  { rewrite (bind_panic _ _ _ _ _ _ Hrun). split; [done|]. split; [done|].
    intros Hn. exfalso. apply Hn. left. apply Exists_exists. by exists op. }
  rewrite (bind_value _ _ _ _ _ _ Hrun). cbn [value final fst snd]. unfold App.on_rooms.
  destruct (Manager.RegisterModule md (App.rooms a)) as [[o m'] es].
  cbn [value final fst snd] in Hreg |- *. split; [done|]. case_decide as Hd.
  - split; [done|]. intros Hn. exfalso. apply Hn. by right.
  - destruct Hreg as (-> & Hmod & Hops). split.
    + intros [Hex|Hex]; [|done]. apply Exists_exists in Hex as (op & Hin & Hop).
      rewrite (Hfree op Hin) in Hop. done.
    + intros _. split; [done|]. split; [done|]. intros op. cbn. rewrite Hops.
      by rewrite (decide_ext (op ∈ Ops md) (is_Some (Room.handlers m !! op))) by apply elem_of_Ops.
Qed.
End register.

(** ** Witnesses *)

#[local] Existing Instance always_pick.



Lemma New_spec_witness :
  ∃ g, value (App.New plainModule demo_config) = Ret g ∧ GatewayConfig.WSPath (g_config g) = "/ws" ∧
    Tuning.pongWait (g_tuning g) = (60 * Tuning.second)%Z.
Proof.
  destruct (New_spec plainModule demo_config) as (_ & Hsome & _).
  destruct (Hsome tt eq_refl) as (g & Hg & _ & _ & Hp & _). exists g. split; [exact Hg|]. split; [exact Hp|].
  vm_compute in Hg. injection Hg as <-. vm_compute. reflexivity.
Defined.

(** A duel, defined fluently. *)
Definition duel_builder : RoomBuilder.t unit :=
  default (RoomBuilder.Room "") (match
    RoomBuilder.HandleRaw 200 (λ _ _ _ _, ([], Ok None))
      (RoomBuilder.Singleton SingletonReject (RoomBuilder.MaxPlayers 2 (RoomBuilder.Room "duel")))
    with Ret b => Some b | Panic _ => None end).

Lemma Register_spec_witness :
  Manager.OpType 200 (App.rooms (final (RoomBuilder.Register tt duel_builder
    (final (App.New plainModule demo_config))))) = Some "duel".
Proof.
  destruct (Register_spec tt duel_builder (final (App.New plainModule demo_config))) as (_ & _ & Hok).
  destruct Hok as (_ & _ & Hop).
  - assert (Ops (anyMod unit tt (RoomBuilder.module duel_builder)) = [200%N]) as -> by (vm_compute; reflexivity).
    intros [Hex|[Hd|[[x Hx]|Hex]]].
    + apply Exists_exists in Hex as (op & ->%list_elem_of_singleton & Hop). vm_compute in Hop. discriminate.
    + discriminate Hd.
    + vm_compute in Hx. discriminate.
    + apply Exists_exists in Hex as (op & ->%list_elem_of_singleton & [x Hop]). vm_compute in Hop. discriminate.
  - rewrite Hop. vm_compute. reflexivity.
Defined.
