(* ===== verification/ConnProps.v ===== *)
(** * The wire of a connection

    What a connection writes and when it is read: the frames of the queue go out
    in order and at most once, whatever the server and [Run] do meanwhile; a close
    drains the queue in bounded many turns; the read deadline only cares about
    what was read. [server_step] and [run_step] are the steps of a whole server. *)

From S2P Require Import Prelude Codec Schema SchemaSpec EventBus EventBusSpec Room RoomSpec RoomActor Manager ManagerSpec ManagerLife Session Socket Gateway GatewaySpec Handlers App GatewayProps AppProps.

(** ** The write loop alone *)

Definition binaries (fs : list frame) : list bytes :=
  omap (λ f, match f with Binary data => Some data | Ping => None end) fs.

Lemma binaries_app fs gs : binaries (fs ++ gs) = binaries fs ++ binaries gs.
Proof. apply omap_app. Qed.

Section writeloop.
Implicit Types (cl : Client.t).

Definition writing cl : writer := cl.(Client.conn).(Socket.writing).

(** The frames of messages that are on the wire, and with those that wait. *)
Definition onwire cl : list bytes := binaries cl.(Client.conn).(Socket.written).
Definition total cl : list bytes := onwire cl ++ cl.(Client.send).

(** The connection after a while: [new] was queued meanwhile. *)
Definition progressed (new : list bytes) cl cl' : Prop :=
  onwire cl `prefix_of` onwire cl' ∧
  onwire cl' `prefix_of` total cl ++ new ∧
  (writing cl' ≠ Stopped → total cl' = total cl ++ new) ∧
  (writing cl = Stopped → onwire cl' = onwire cl ∧ writing cl' = Stopped).

Definition progress cl cl' : Prop :=
  (cl.(Client.done) = true → cl'.(Client.done) = true) ∧ ∃ new, progressed new cl cl'.

#[export] Instance progress_preorder : PreOrder progress.
Proof.
  split.
  - intros cl. split; [done|]. exists []. split; [done|]. rewrite app_nil_r. split; [by eexists|]. done.
  - intros cl cl1 cl2 (D1 & n1 & P1 & W1 & T1 & S1) (D2 & n2 & P2 & W2 & T2 & S2).
    split; [by auto|].
    destruct (decide (writing cl1 = Stopped)) as [Hs|Hs].
    + destruct (S2 Hs) as [Ho Hs2]. exists n1. unfold progressed. rewrite Ho. split; [done|]. split; [done|].
      split; [done|]. intros Hcl. split; [by apply S1|done].
    + exists (n1 ++ n2). unfold progressed. rewrite (T1 Hs) in W2, T2. rewrite app_assoc.
      split; [by etrans|]. split; [done|]. split; [done|]. intros Hcl. by destruct (S1 Hcl).
Qed.

(** What an update may do: nothing to the wire and the queue; *)
Definition idle cl cl' : Prop :=
  cl'.(Client.send) = cl.(Client.send) ∧ onwire cl' = onwire cl ∧
  (writing cl' = writing cl ∨ writing cl ≠ Stopped ∧ writing cl' ≠ Stopped) ∧
  (cl.(Client.done) = true → cl'.(Client.done) = true).

Lemma progress_idle cl cl' : idle cl cl' → progress cl cl'.
Proof.
  intros (Hs & Ho & Hw & Hd). split; [done|]. exists []. unfold progressed, total. rewrite Hs, Ho, app_nil_r.
  split; [done|]. split; [by eexists|]. split; [done|].
  intros Hst. split; [done|]. destruct Hw as [->|[[] _]]; done.
Qed.

(** queue a frame; *)
Lemma progress_append data cl : progress cl (Client.set_send (λ q, q ++ [data]) cl).
Proof.
  split; [done|]. exists [data]. split; [done|]. split; [|split; [|done]].
  - unfold total. rewrite <- app_assoc. by eexists.
  - intros _. unfold total. cbn. by rewrite app_assoc.
Qed.

(** write one, which moves it, or fail to, which stops the loop; *)
Lemma progress_write deadline data rest ok cl :
  cl.(Client.send) = data :: rest → writing cl ≠ Stopped →
  progress cl (WriteLoop_write deadline (Binary data) ok (Client.set_send (λ _, rest) cl)).2.
Proof.
  intros Hs Hw. split; [by destruct ok|]. exists []. destruct ok.
  - assert (onwire (Client.set_conn (Socket.WriteMessage deadline (Binary data) true)
      (Client.set_send (λ _, rest) cl)) = onwire cl ++ [data]) as Ho by apply binaries_app.
    split; [simpl; rewrite Ho; by eexists|]. unfold total. rewrite app_nil_r. simpl.
    rewrite Ho, Hs, <- app_assoc. split; [by apply prefix_app, prefix_cons, prefix_nil|done].
  - split; [done|]. split; [unfold total; rewrite <- app_assoc; by eexists|]. done.
Qed.

(** or stop. *)
Lemma progress_stop cl : writing cl ≠ Stopped → progress cl (WriteLoop_stop cl).2.
Proof.
  intros Hw. split; [done|]. exists []. split; [done|]. split; [|done].
  unfold total. rewrite <- app_assoc. by eexists.
Qed.

Lemma progress_turn now ok case cl : progress cl (WriteLoop_turn now ok case cl).2.
Proof.
  assert (∀ x, Socket.writing (Client.conn cl) = x → x ≠ Stopped → writing cl ≠ Stopped) as Hrun
    by by intros x <-.
  unfold WriteLoop_turn. destruct (Socket.writing (Client.conn cl)) eqn:Hw; try done;
    specialize (Hrun _ eq_refl ltac:(done)).
  - destruct case.
    + destruct (Client.send cl) as [|data rest] eqn:Hs; [done|]. by apply progress_write.
    + set (cl1 := Client.set_conn (Socket.WriteMessage (now + Tuning.writeWait (Client.tuning cl)) Ping ok) cl).
      assert (idle cl cl1) as Hi.
      { split; [done|]. split; [|split; [by left|done]].
        unfold onwire. cbn. destruct ok; [|done]. by rewrite binaries_app, app_nil_r. }
      unfold WriteLoop_write. fold cl1. destruct ok; [by apply progress_idle|].
      etrans; [by apply progress_idle|by apply progress_stop].
    + destruct (Client.done cl); [|done]. apply progress_idle. split; [done|]. split; [done|].
      split; [by right|done].
  - destruct (Client.send cl) as [|data rest] eqn:Hs; [by apply progress_stop|by apply progress_write].
Qed.

(** What happens to a connection whose write loop runs: a frame is queued, or the
    loop takes a turn. [None] is what cannot happen: a frame for a full queue, a
    turn in which the loop would wait, anything once it returned. *)
Inductive wevent :=
  | Queued (data : bytes)
  | Turned (now : Z) (ok : bool) (case : wcase).

Definition wstep (ev : wevent) cl : option Client.t :=
  match writing cl, ev with
  | Stopped, _ => None
  | _, Queued data =>
      if length cl.(Client.send) <? cl.(Client.sendCap)
      then Some (Client.set_send (λ q, q ++ [data]) cl) else None
  | _, Turned now ok case =>
      match WriteLoop_turn now ok case cl with (Blocked, _) => None | (_, cl') => Some cl' end
  end.

Fixpoint wrun (evs : list wevent) cl : option Client.t :=
  match evs with [] => Some cl | ev :: evs => cl' ← wstep ev cl; wrun evs cl' end.

Definition queued (evs : list wevent) : list bytes :=
  omap (λ ev, match ev with Queued data => Some data | Turned _ _ _ => None end) evs.

(** The turns, ticks of the ping timer apart. *)
Definition turns (evs : list wevent) : nat :=
  length (omap (λ ev, match ev with Queued _ | Turned _ _ WTick => None | Turned now _ _ => Some now end) evs).

Definition all_ok (evs : list wevent) : Prop :=
  Forall (λ ev, match ev with Turned _ ok _ => ok = true | Queued _ => True end) evs.

(** When the select took the close. *)
Fixpoint taken (evs : list wevent) : option Z :=
  match evs with
  | [] => None
  | Turned now _ WDone :: _ => Some now
  | _ :: evs => taken evs
  end.

(** What a closed connection has left to do, turn by turn. *)
Definition remaining cl : nat :=
  match writing cl with
  | Serving => S (S (length cl.(Client.send)))
  | Flushing _ => S (length cl.(Client.send))
  | _ => 0
  end.

(** What some events make of a closed connection. *)
Record drains (evs : list wevent) cl cl' : Prop := {
  dr_done : cl'.(Client.done) = true;
  dr_turns : turns evs + remaining cl' ≤ length (queued evs) + remaining cl;
  dr_frames : ∃ lost, onwire cl' ++ lost ++ cl'.(Client.send) = total cl ++ queued evs ∧
    length lost ≤ 1 ∧ (all_ok evs ∨ writing cl' ≠ Stopped → lost = []);
  dr_stopped : writing cl' = Stopped →
    cl'.(Client.conn).(Socket.closed) = true ∧ (all_ok evs → cl'.(Client.send) = [])
}.

Lemma wstep_running ev cl cl' : wstep ev cl = Some cl' → writing cl ≠ Stopped.
Proof. unfold wstep. by destruct (writing cl). Qed.

Lemma drains_queued data cl :
  cl.(Client.done) = true → writing cl ≠ Stopped → drains [Queued data] cl (Client.set_send (λ q, q ++ [data]) cl).
Proof.
  intros Hd Hw. split; [done| | |done].
  - unfold remaining, turns. cbn. rewrite length_app.
    change (writing (Client.set_send _ cl)) with (writing cl). destruct (writing cl); cbn; lia.
  - exists []. split; [|by split; [cbn; lia|]]. unfold total. by rewrite <- app_assoc.
Qed.

(** A write of a frame, in the loop that drains or before it. *)
Lemma drains_write now ok case deadline data rest cl :
  cl.(Client.done) = true → cl.(Client.send) = data :: rest → writing cl = Serving ∨ (∃ d, writing cl = Flushing d) →
  drains [Turned now ok case] cl
    (WriteLoop_write deadline (Binary data) ok (Client.set_send (λ _, rest) cl)).2.
Proof.
  intros Hd Hs Hw.
  assert (remaining cl = S (remaining (Client.set_send (λ _, rest) cl)) ∧
    turns [Turned now ok case] ≤ 1) as [Hrem Ht].
  { unfold remaining, writing in *. cbn. rewrite Hs. split; [by destruct Hw as [->|[d ->]]|].
    destruct case; cbn; lia. }
  destruct ok.
  - assert (onwire (Client.set_conn (Socket.WriteMessage deadline (Binary data) true)
      (Client.set_send (λ _, rest) cl)) = onwire cl ++ [data]) as Ho by apply binaries_app.
    split; [done| | |].
    + change (turns [Turned now true case] + remaining (Client.set_send (λ _, rest) cl) ≤ remaining cl). lia.
    + exists []. cbn [WriteLoop_write snd fst]. rewrite Ho. unfold total. rewrite Hs, app_nil_r.
      split; [by rewrite <- app_assoc|]. split; [cbn; lia|done].
    + change (writing cl = Stopped → Socket.closed (Client.conn cl) = true ∧ (all_ok [Turned now true case] → rest = [])).
      intros Hst. rewrite Hst in Hw. destruct Hw as [|[]]; congruence.
  - split; [done| | |].
    + change (turns [Turned now false case] + 0 ≤ remaining cl). lia.
    + exists [data]. split; [|split; [cbn; lia|]].
      * cbn. unfold total. by rewrite Hs, app_nil_r.
      * intros [Hok|Hst]; [|by destruct Hst]. apply Forall_cons in Hok as [? _]. discriminate.
    + intros _. split; [done|]. intros Hok. apply Forall_cons in Hok as [? _]. discriminate.
Qed.

Lemma wstep_drains ev cl cl' :
  cl.(Client.done) = true → wstep ev cl = Some cl' → writing cl ≠ NotStarted → drains [ev] cl cl'.
Proof.
  intros Hd Hs Hns. pose proof (wstep_running _ _ _ Hs) as Hrun. unfold wstep in Hs.
  destruct ev as [data|now ok case].
  - destruct (length _ <? _) eqn:Hl in Hs; [|by destruct (writing cl)].
    assert (cl' = Client.set_send (λ q, q ++ [data]) cl) as -> by (destruct (writing cl); congruence).
    by apply drains_queued.
  - assert (∃ t, WriteLoop_turn now ok case cl = (t, cl') ∧ t ≠ Blocked) as (t & Ht & Hnb).
    { destruct (WriteLoop_turn now ok case cl) as [[] x]; destruct (writing cl); simplify_eq; eauto. }
    clear Hs. unfold WriteLoop_turn in Ht. unfold writing in *.
    destruct (Socket.writing (Client.conn cl)) as [| |d|] eqn:Hw; try done.
    + destruct case.
      * destruct (Client.send cl) as [|data rest] eqn:Hsend; [by simplify_eq|].
        assert (cl' = (t, cl').2) as -> by done. rewrite <- Ht.
        by apply drains_write; [| |left].
      * unfold WriteLoop_write, WriteLoop_stop in Ht. destruct ok; simplify_eq.
        -- split; [done| | |by unfold writing; cbn; rewrite Hw].
           ++ unfold remaining, writing, turns. cbn. rewrite Hw. lia.
           ++ exists []. split; [|by split; [cbn; lia|]]. unfold onwire, total. cbn.
              by rewrite binaries_app, !app_nil_r.
        -- split; [done| | |].
           ++ cbn. lia.
           ++ exists []. cbn. rewrite app_nil_r. by split; [|split; [lia|]].
           ++ intros _. split; [done|]. intros Hok. apply Forall_cons in Hok as [? _]. discriminate.
      * rewrite Hd in Ht. simplify_eq. split; [done| | |done].
        -- unfold remaining, writing, turns. cbn. rewrite Hw. lia.
        -- exists []. cbn. rewrite app_nil_r. by split; [|split; [lia|]].
    + destruct (Client.send cl) as [|data rest] eqn:Hsend.
      * unfold WriteLoop_stop in Ht. simplify_eq. split; [done| | |done].
        -- unfold remaining, writing, turns. rewrite Hw. destruct case; cbn; lia.
        -- exists []. cbn. rewrite app_nil_r. by split; [|split; [lia|]].
      * assert (cl' = (t, cl').2) as -> by done. rewrite <- Ht.
        apply drains_write; [done|done|right; by eexists].
Qed.

Lemma drains_cons ev evs cl cl1 cl' :
  writing cl1 ≠ Stopped → drains [ev] cl cl1 → drains evs cl1 cl' → drains (ev :: evs) cl cl'.
Proof.
  intros Hw [D1 T1 (l1 & F1 & L1 & O1) S1] [D2 T2 (l2 & F2 & L2 & O2) S2].
  rewrite O1 in F1 by by right.
  assert (queued (ev :: evs) = queued [ev] ++ queued evs) as Hq by apply (omap_app _ [ev]).
  assert (turns (ev :: evs) = turns [ev] + turns evs) as Ht.
  { unfold turns. by rewrite <- length_app, <- omap_app. }
  assert (all_ok (ev :: evs) → all_ok [ev] ∧ all_ok evs) as Hok by exact (proj1 (Forall_app _ [ev] evs)).
  split; [done| | |].
  - rewrite Hq, Ht, length_app. lia.
  - exists l2. change (onwire cl1 ++ [] ++ Client.send cl1) with (total cl1) in F1.
    rewrite F2, Hq, F1. split; [by rewrite app_assoc|]. split; [done|].
    intros [Hall|Hs]; apply O2; [left; by apply Hok|by right].
  - intros Hs. destruct (S2 Hs) as [Hc He]. split; [done|]. intros Hall. by apply He, Hok.
Qed.

(** Where the loop goes on, unless it returned. *)
Lemma wstep_phase ev cl cl' :
  wstep ev cl = Some cl' → writing cl = Serving ∨ (∃ d, writing cl = Flushing d) →
  cl'.(Client.tuning) = cl.(Client.tuning) ∧
  (writing cl' = Stopped ∨
   writing cl' = match writing cl, ev with
                 | Serving, Turned now _ WDone => Flushing (now + Tuning.flushWait)
                 | x, _ => x
                 end).
Proof.
  unfold wstep, WriteLoop_turn, WriteLoop_write, WriteLoop_stop, writing. intros Hs Hw.
  destruct Hw as [Hw|[d Hw]]; rewrite Hw in Hs |- *; destruct ev as [data|now ok case];
    [|destruct case| |destruct case];
    repeat case_match; simplify_eq; unfold writing; cbn; auto.
Qed.

Lemma wrun_phase evs cl cl' :
  wrun evs cl = Some cl' → writing cl = Serving ∨ (∃ d, writing cl = Flushing d) →
  cl'.(Client.tuning) = cl.(Client.tuning) ∧
  (writing cl' = Stopped ∨
   writing cl' = match writing cl, taken evs with
                 | Serving, Some t0 => Flushing (t0 + Tuning.flushWait)
                 | x, _ => x
                 end).
Proof.
  revert cl. induction evs as [|ev evs IH]; intros cl Hr Hw.
  { simpl in Hr. simplify_eq. split; [done|]. right. by destruct (writing cl'). }
  simpl in Hr. apply bind_Some in Hr as (cl1 & Hs & Hr).
  destruct (wstep_phase ev cl cl1 Hs Hw) as [Ht [Hst|Hw1]].
  { destruct evs as [|ev' evs]; [simpl in Hr; simplify_eq; auto|].
    simpl in Hr. apply bind_Some in Hr as (cl2 & Hs2 & _). by apply wstep_running in Hs2. }
  assert (writing cl1 = Serving ∨ (∃ d, writing cl1 = Flushing d)) as Hw1'.
  { rewrite Hw1. destruct Hw as [->|[d ->]]; repeat case_match; eauto. }
  destruct (IH cl1 Hr Hw1') as [Ht' Hres]. split; [congruence|]. rewrite Hw1 in Hres.
  destruct Hw as [Hw|[d Hw]]; rewrite Hw in Hres |- *; destruct ev as [|? ? []]; cbn [taken]; try done.
  all: by destruct Hres as [|Hres]; [left|right; rewrite Hres; destruct (taken evs)].
Qed.

Lemma wrun_drains evs cl cl' :
  cl.(Client.done) = true → writing cl = Serving ∨ (∃ d, writing cl = Flushing d) →
  wrun evs cl = Some cl' → drains evs cl cl'.
Proof.
  revert cl. induction evs as [|ev evs IH]; intros cl Hd Hw Hr.
  { simpl in Hr. simplify_eq. split; [done|cbn; lia| |intros Hs; rewrite Hs in Hw; by destruct Hw as [|[? ?]]].
    exists []. split; [by rewrite app_nil_r|by split; [cbn; lia|]]. }
  simpl in Hr. apply bind_Some in Hr as (cl1 & Hs & Hr).
  assert (writing cl ≠ NotStarted) as Hns by by destruct Hw as [->|[? ->]].
  pose proof (wstep_drains ev cl cl1 Hd Hs Hns) as D1.
  destruct (decide (writing cl1 = Stopped)) as [Hst|Hst].
  - destruct evs as [|ev' evs]; [simpl in Hr; by simplify_eq|].
    simpl in Hr. apply bind_Some in Hr as (cl2 & Hs2 & _). by apply wstep_running in Hs2.
  - eapply drains_cons; [done|exact D1|]. apply IH; [apply D1| |done].
    destruct (wstep_phase _ _ _ Hs Hw) as [_ [Hst'|Hw1]]; [done|]. rewrite Hw1.
    destruct Hw as [->|[d ->]]; [|right; by eexists]. repeat case_match; eauto.
Qed.

(** The deadline a turn leaves. *)
Lemma turn_deadline now ok case cl cl' :
  wstep (Turned now ok case) cl = Some cl' →
  cl'.(Client.conn).(Socket.writeDeadline) =
  match writing cl, case, cl.(Client.send) with
  | Serving, WDone, _ | Flushing _, _, [] => cl.(Client.conn).(Socket.writeDeadline)
  | Serving, _, _ => (now + cl.(Client.tuning).(Tuning.writeWait))%Z
  | Flushing deadline, _, _ => deadline
  | _, _, _ => cl.(Client.conn).(Socket.writeDeadline)
  end.
Proof.
  unfold wstep, WriteLoop_turn, WriteLoop_write, WriteLoop_stop, writing. intros Hs.
  destruct (Socket.writing (Client.conn cl)); [done| | |done]; destruct case;
    repeat case_match; simplify_eq; done.
Qed.
End writeloop.

(** ** The server around it *)

Section server.
Context {R Mo : Type} `{!AnyRoom R, !AnyRoomView R, !AnyRoomSpec R, !AnyModule Mo R, GoRange, !Select} (plain : Mo).
Implicit Types (w : Server R Mo) (cl : Client.t).

#[local] Arguments set_clients : simpl never.

(** What an operation that works on connections through the gateway does: the
    connection [c] goes on; no read loop starts or ends, the gateway neither takes
    nor forgets a connection, and the manager does what it may. *)
Record ordered (c : N) w (es : list geffect) w' : Prop := {
  or_client cl : clients w !! c = Some cl → ∃ cl', clients w' !! c = Some cl' ∧ progress cl cl';
  or_registered : registered w' = registered w;
  or_arriving : arriving w' = arriving w;
  or_reading : reading w' = reading w;
  or_rooms : lasting (mgr w) [] (mgr w')
}.

#[export] Instance ordered_trace c : TraceRel (ordered c).
Proof.
  split; [intros w; split; [intros cl Hc; by exists cl|done|done|done|by split]|].
  intros w es w' es' w'' [H1 R1 A1 D1 L1] [H2 R2 A2 D2 L2]. split; [|congruence|congruence|congruence|].
  - intros cl (cl1 & Hc1 & P1)%H1. destruct (H2 cl1 Hc1) as (cl2 & Hc2 & P2).
    exists cl2. split; [done|by etrans].
  - exact (trace_app _ [] _ [] _ L1 L2).
Qed.

Lemma ordered_es c w es es' w' : ordered c w es w' → ordered c w es' w'.
Proof. intros []. by split. Qed.

Lemma ordered_modify c f :
  (∀ w, clients (f w) = clients w ∧ registered (f w) = registered w ∧
    arriving (f w) = arriving w ∧ reading (f w) = reading w ∧ mgr (f w) = mgr w) →
  steps (ordered c) (modify f).
Proof.
  intros Hf w. destruct (Hf w) as (Hc & Hr & Ha & Hd & Hm).
  split; cbn; rewrite ?Hc, ?Hr, ?Ha, ?Hd, ?Hm; try done. intros cl Hcl. by exists cl.
Qed.

Lemma ordered_update c k f : (∀ cl, progress cl (f cl)) → steps (ordered c) (update k f).
Proof.
  intros Hf w. split; [|done|done|done|by split]. intros cl Hc.
  change (clients (final (update k f w))) with (alter f k (clients w)).
  destruct (decide (k = c)) as [->|Hk].
  - exists (f cl). rewrite lookup_alter_eq, Hc. by split; [|apply Hf].
  - exists cl. by rewrite lookup_alter_ne.
Qed.

Lemma ordered_idle c k f :
  (∀ cl, (f cl).(Client.send) = cl.(Client.send) ∧ onwire (f cl) = onwire cl ∧
     writing (f cl) = writing cl ∧ (cl.(Client.done) = true → (f cl).(Client.done) = true)) →
  steps (ordered c) (update k f).
Proof.
  intros Hf. apply ordered_update. intros cl. destruct (Hf cl) as (? & ? & ? & ?).
  apply progress_idle. unfold idle. auto.
Qed.

Lemma ordered_client {A} c k (f : Client.t → A) : steps (ordered c) (client k f).
Proof. intros w. unfold client. destruct (clients w !! k); apply trace_nil. Qed.

Lemma ordered_emit c e : steps (ordered c) (emit e).
Proof. intros w. split; [intros cl Hc; by exists cl|done|done|done|by split]. Qed.

Lemma ordered_bus_op c f : steps (ordered c) (bus_op f).
Proof.
  intros w. unfold bus_op. destruct (f (bus w)); [|apply trace_nil].
  split; [intros cl Hc; by exists cl|done|done|done|by split].
Qed.

#[local] Hint Resolve ordered_client ordered_emit ordered_bus_op : go.

(** Through the structure of an operation; [ordered_idle] for its updates. *)
#[local] Ltac wire :=
  repeat first
    [ by eauto with go
    | apply steps_bind; [apply _| |intros ?]
    | apply steps_when; [apply _|]
    | by apply ordered_idle
    | by apply ordered_modify
    | case_match ].

Lemma ordered_Close c k : steps (ordered c) (Close k).
Proof. by apply ordered_idle. Qed.
#[local] Hint Resolve ordered_Close : go.

Lemma ordered_SendServerMessage c k msg : steps (ordered c) (SendServerMessage k msg).
Proof.
  unfold SendServerMessage. wire. apply ordered_update. intros cl. by apply progress_append.
Qed.
#[local] Hint Resolve ordered_SendServerMessage : go.

Lemma ordered_SendError c k id text code : steps (ordered c) (SendError k id text code).
Proof. apply ordered_SendServerMessage. Qed.

Lemma ordered_SendResponse c k id payload : steps (ordered c) (SendResponse k id payload).
Proof. unfold SendResponse. wire. Qed.
#[local] Hint Resolve ordered_SendError ordered_SendResponse : go.

Lemma ordered_replay c e : steps (ordered c) (replay e).
Proof.
  destruct e; simpl; try apply ordered_emit. unfold bus_Publish, Bus.Publish, Bus.send, Bus.deliver.
  wire. apply steps_for_each; [apply _|]. intros s _.
  apply steps_recover; [apply _|intros; apply ordered_emit|]. apply ordered_SendServerMessage.
Qed.

Lemma ordered_with_mgr {A} c (op : M (Manager.t R Mo) effect A) :
  steps lasting op → steps (ordered c) (with_mgr op).
Proof.
  intros Hop w. specialize (Hop (mgr w)). unfold with_mgr.
  destruct (op (mgr w)) as [[o m] es]. cbn in Hop.
  assert (ordered c w [] (set_mgr m w)) as H1.
  { split; [intros cl Hc; by exists cl|done|done|done|]. destruct Hop. by split. }
  assert (steps (ordered c) (for_each replay es ;; lift_outcome o)) as Hs.
  { wire. apply steps_for_each; [apply _|]. intros e _. apply ordered_replay. }
  exact (trace_app _ _ _ _ _ H1 (Hs (set_mgr m w))).
Qed.
#[local] Hint Resolve ordered_with_mgr : go.

Lemma ordered_Subscribe c k t : steps (ordered c) (Subscribe k t).
Proof. unfold Subscribe, bus_Subscribe. wire. Qed.

Lemma ordered_Unsubscribe c k t : steps (ordered c) (Unsubscribe k t).
Proof. unfold Unsubscribe, bus_Unsubscribe. wire. Qed.
#[local] Hint Resolve ordered_Subscribe ordered_Unsubscribe : go.

Lemma ordered_OnDisconnect c k : steps (ordered c) (OnDisconnect k).
Proof. unfold OnDisconnect. wire. Qed.

(** The end of a read loop: the connection is closed, then cleaned up, then the
    gateway forgets it. *)
Lemma ReadLoop_exit_final k w :
  ∃ w1, (∀ c, ordered c w [] w1) ∧
    (is_Some (clients w !! k) → ∃ cl, clients w1 !! k = Some cl ∧ cl.(Client.done) = true) ∧
    (final (ReadLoop_exit k w) = w1 ∨
     final (ReadLoop_exit k w) = set_reading (delete k) (set_registered (delete k) w1)).
Proof.
  set (w0 := set_clients (alter Client.set_done k) w). set (w1 := final (OnDisconnect k w0)).
  assert (∀ c, ordered c w0 [] w1) as Ho1 by (intros c; eapply ordered_es, ordered_OnDisconnect).
  exists w1. split; [|split].
  - intros c. exact (trace_app _ _ _ _ _ (ordered_Close c k w) (Ho1 c)).
  - intros [cl Hc]. destruct (or_client _ _ _ _ (Ho1 k) (Client.set_done cl)) as (cl1 & Hc1 & Hd & _).
    { change (alter Client.set_done k (clients w) !! k = Some (Client.set_done cl)).
      by rewrite lookup_alter_eq, Hc. }
    exists cl1. split; [done|by apply Hd].
  - unfold ReadLoop_exit. rewrite (bind_value (Close k) _ tt w w0 []) by done. cbn [final fst snd].
    unfold w1. destruct (OnDisconnect k w0) as [[[[]|s] w2] es] eqn:Hd; [right|left].
    + by rewrite (bind_value _ _ _ _ _ _ Hd).
    + by rewrite (bind_panic _ _ _ _ _ _ Hd).
Qed.

Lemma ordered_deliver c k msg : steps (ordered c) (ReadLoop_deliver k msg).
Proof. unfold ReadLoop_deliver. wire. Qed.
#[local] Hint Resolve ordered_deliver : go.

Lemma ordered_frame c now k binary raw : steps (ordered c) (ReadLoop_frame now k binary raw).
Proof. unfold ReadLoop_frame, refresh. wire. Qed.

Lemma ordered_write c now ok case k : steps (ordered c) (WriteLoop now ok case k).
Proof. unfold WriteLoop. wire. apply ordered_update. intros cl. apply progress_turn. Qed.

(** The read loop starts the write loop once. *)
Lemma ordered_start c now k w cl :
  clients w !! k = Some cl → writing cl = NotStarted →
  ordered c w [] (final (ReadLoop_start now k w)).
Proof.
  intros Hk Hns. split; [|done|done|done|by split]. intros cl0 Hc0.
  change (clients (final (ReadLoop_start now k w))) with
    (alter (Client.set_conn (Socket.set_writing Serving)) k
      (alter (λ cl, Client.set_conn (Socket.SetReadDeadline
          (now + cl.(Client.tuning).(Tuning.authTimeout))) cl) k
        (alter (λ cl, Client.set_conn (Socket.SetReadLimit cl.(Client.tuning).(Tuning.maxMessageSize)) cl) k
          (clients w)))).
  destruct (decide (k = c)) as [<-|Hne]; [|exists cl0; by rewrite !lookup_alter_ne].
  rewrite !lookup_alter_eq, Hc0. eexists. split; [done|]. simplify_eq.
  apply progress_idle. unfold idle. rewrite Hns. split; [done|]. split; [done|]. split; [by right|done].
Qed.

(** What is asked of the handlers: they work on connections through the gateway. *)
Definition polite (commands : Registry.t (Handler R Mo)) : Prop :=
  ∀ c op h cx payload, Registry.Get op commands = Some h → steps (ordered c) (h cx payload).

Section dispatch.
Context (commands : Registry.t (Handler R Mo)) (auth : env → string → result session).
Context (Hpolite : polite commands).

Lemma ordered_Dispatch c e k msg : steps (ordered c) (Dispatch commands auth e k msg).
Proof using Hpolite AnyRoomSpec0.
  unfold Dispatch, handleAuth, handleRequest, SetSession, RoomIDs, respond. wire.
Qed.

Lemma ordered_turn c e k : steps (ordered c) (handleLoop_turn commands auth e k).
Proof using Hpolite AnyRoomSpec0. unfold handleLoop_turn. wire. apply ordered_Dispatch. Qed.

(** What happens on a server: the turns of the loops of its connections, the end
    of a read loop that runs, new connections and the start of their read loops,
    and whatever the manager and its
    rooms do on their own (ticks, timers, removals, calls of the application)
    with what they publish. *)
Inductive server_step w : Server R Mo → Prop :=
  | ss_conn k w' : conn_step commands auth k w w' → server_step w w'
  | ss_exit k : is_Some (reading w !! k) → server_step w (final (ReadLoop_exit k w))
  | ss_connect tuning :
      clients w !! ((nextClientID w + 1) mod 2 ^ 64)%N = None →
      server_step w (final (handleWebSocket_register tuning w))
  | ss_read k : is_Some (arriving w !! k) → server_step w (final (wg_Add k w))
  | ss_rooms (op : M (Manager.t R Mo) effect unit) :
      steps lasting op → server_step w (final (with_mgr op w)).

(** The server while [Run] runs: a step of the server, or one of [Run]. *)
Inductive run_step : running * Server R Mo → running * Server R Mo → Prop :=
  | rs_server st w w' : server_step w w' → run_step (st, w) (st, w')
  | rs_turn ended st w st' w' es :
      Run_turn ended st w = (Ret st', w', es) → run_step (st, w) (st', w').

(** A connection is closed; its read loop is in the wait group; its read loop has
    ended. *)
Definition closed (c : N) w : Prop := ∃ cl, clients w !! c = Some cl ∧ cl.(Client.done) = true.
Definition counted (c : N) w : Prop := arriving w !! c = None ∧ is_Some (reading w !! c).
Definition ended (c : N) w : Prop := arriving w !! c = None ∧ reading w !! c = None.

(** What any step leaves of the connection [c]. *)
Record later (c : N) w w' : Prop := {
  lt_client cl : clients w !! c = Some cl → ∃ cl', clients w' !! c = Some cl' ∧ progress cl cl';
  lt_ended : is_Some (clients w !! c) → ended c w → ended c w';
  lt_reading : is_Some (clients w !! c) → counted c w → counted c w' ∨ ended c w' ∧ closed c w'
}.

Lemma later_closed c w w' : later c w w' → closed c w → closed c w'.
Proof.
  intros Hl (cl & Hc & Hd). destruct (lt_client _ _ _ Hl cl Hc) as (cl' & Hc' & Hp & _).
  exists cl'. split; [done|by apply Hp].
Qed.

#[export] Instance later_preorder c : PreOrder (later c).
Proof.
  split.
  - intros w. split; [intros cl Hc; by exists cl|done|auto].
  - intros w w1 w2 L1 L2.
    assert (is_Some (clients w !! c) → is_Some (clients w1 !! c)) as Hsome.
    { intros [cl Hc]. destruct (lt_client _ _ _ L1 cl Hc) as (cl' & Hc' & _). rewrite Hc'. by eexists. }
    split.
    + intros cl (cl1 & Hc1 & P1)%(lt_client _ _ _ L1).
      destruct (lt_client _ _ _ L2 cl1 Hc1) as (cl2 & Hc2 & P2). exists cl2. split; [done|by etrans].
    + intros Hc Hr. by apply (lt_ended _ _ _ L2); [apply Hsome|apply (lt_ended _ _ _ L1)].
    + intros Hc Hr. destruct (lt_reading _ _ _ L1 Hc Hr) as [Hr1|[He Hd]].
      * apply (lt_reading _ _ _ L2); [by apply Hsome|done].
      * right. split; [apply (lt_ended _ _ _ L2); [by apply Hsome|done]|by eapply later_closed].
Qed.

Lemma ordered_later c w es w' : ordered c w es w' → later c w w'.
Proof. intros [H1 _ H2 H3 _]. split; [done| |]; unfold counted, ended; rewrite H2, H3; auto. Qed.

(** The steps of the server besides: the connections the gateway has, the rooms. *)
Record settled (c : N) w w' : Prop := {
  se_later : later c w w';
  se_registered : is_Some (clients w !! c) → is_Some (registered w !! c) →
    is_Some (registered w' !! c) ∨ closed c w';
  se_rooms : lasting (mgr w) [] (mgr w')
}.

Lemma ordered_settled c w es w' : ordered c w es w' → settled c w w'.
Proof. intros Ho. split; [by eapply ordered_later| |by destruct Ho]. destruct Ho as [_ -> _ _ _]. auto. Qed.

Lemma settled_trans c w w1 w2 : settled c w w1 → settled c w1 w2 → settled c w w2.
Proof.
  intros [L1 R1 A1] [L2 R2 A2]. split; [by etrans| |exact (trace_app _ [] _ [] _ A1 A2)].
  intros Hc Hr. destruct (R1 Hc Hr) as [Hr1|Hd]; [|right; by eapply later_closed].
  apply R2; [|done]. destruct Hc as [cl Hc]. destruct (lt_client _ _ _ L1 cl Hc) as (cl' & Hc' & _). rewrite Hc'. by eexists.
Qed.

(** Another connection arrives. *)
Lemma settled_insert c k w w1 :
  (is_Some (clients w !! c) → k ≠ c) → settled c w w1 →
  settled c w (set_arriving (insert k tt) (set_registered (insert k tt) w1)).
Proof.
  intros Hk [[L1 L2 L3] G A]. split; [split| |exact A].
  - exact L1.
  - intros Hc Hr. unfold ended. cbn. rewrite lookup_insert_ne by auto. by apply L2.
  - intros Hc Hr. unfold counted, ended. cbn. rewrite lookup_insert_ne by auto. by apply L3.
  - intros Hc Hr. cbn. rewrite lookup_insert_ne by auto. by apply G.
Qed.

(** A read loop starts. *)
Lemma settled_read c k w : is_Some (arriving w !! k) → settled c w (final (wg_Add k w)).
Proof.
  intros Hk.
  assert (arriving w !! c = None → arriving (final (wg_Add k w)) !! c = None ∧
    reading (final (wg_Add k w)) !! c = reading w !! c) as Hother.
  { intros Ha. assert (k ≠ c) as Hne by (intros ->; rewrite Ha in Hk; by destruct Hk).
    change (delete k (arriving w) !! c = None ∧ <[k := tt]> (reading w) !! c = reading w !! c).
    by rewrite lookup_delete_ne, lookup_insert_ne. }
  split; [split| |by split].
  - intros cl Hc. exists cl. by split.
  - intros _ [Ha Hr]. destruct (Hother Ha) as [H1 H2]. split; [done|by rewrite H2].
  - intros _ [Ha Hr]. destruct (Hother Ha) as [H1 H2]. left. split; [done|by rewrite H2].
  - intros _ Hr. by left.
Qed.

Lemma settled_exit c k w : settled c w (final (ReadLoop_exit k w)).
Proof.
  destruct (ReadLoop_exit_final k w) as (w1 & Ho & Hd & [Hf|Hf]); rewrite Hf; [by eapply ordered_settled|].
  destruct (Ho c) as [H1 H2 Ha H3 H4]. split; [split| |exact H4].
  - exact H1.
  - intros _ Hr. unfold ended. cbn. rewrite Ha, H3. destruct Hr as [Hr1 Hr2]. split; [done|].
    destruct (decide (k = c)) as [->|]; [apply lookup_delete_eq|by rewrite lookup_delete_ne].
  - intros Hc [Hr1 Hr2]. unfold counted, ended. cbn. rewrite Ha, H3.
    destruct (decide (k = c)) as [->|]; [right|left; by rewrite lookup_delete_ne].
    split; [split; [done|apply lookup_delete_eq]|by apply Hd].
  - intros Hc Hr. cbn. rewrite H2. destruct (decide (k = c)) as [->|]; [right; by apply Hd|left].
    by rewrite lookup_delete_ne.
Qed.

Lemma settled_connect c w tuning :
  clients w !! ((nextClientID w + 1) mod 2 ^ 64)%N = None →
  settled c w (final (handleWebSocket_register tuning w)).
Proof.
  intros Hnew. unfold handleWebSocket_register. set (k := ((nextClientID w + 1) mod 2 ^ 64)%N).
  unfold NewClient. rewrite (M_assoc _ _ _ w), bind_get. fold k. cbv zeta.
  rewrite (M_assoc _ _ _ w), bind_modify, (M_assoc _ _ _ _), bind_modify, (M_assoc _ _ _ _).
  set (cl0 := Client.mk _ _ _ _ _ _ _ _ _ _). set (w1 := set_clients _ _).
  assert (is_Some (clients w !! c) → k ≠ c) as Hk by (intros [? Hc] Heq; unfold k in Heq; congruence).
  assert (settled c w w1) as S1.
  { split; [split| |by split]; auto.
    intros cl Hc. exists cl. split; [|done]. change (clients w1) with (<[k := cl0]> (clients w)).
    rewrite lookup_insert_ne; [done|]. apply Hk. by eexists. }
  pose proof (ordered_bus_op c (Bus.Subscribe id 3 (clientTopic k) k) w1) as Ho.
  fold (bus_Subscribe (R := R) (Mo := Mo) (clientTopic k) k) in Ho.
  destruct (bus_Subscribe (clientTopic k) k w1) as [[[[]|s] w2] es] eqn:Hr; cbn [effects final fst snd] in Ho.
  - rewrite (bind_value _ _ _ _ _ _ Hr). cbn.
    set (w3 := set_clients (alter (Client.set_topics (insert (clientTopic k) tt)) k) w2).
    apply (settled_insert c k w w3 Hk). eapply settled_trans; [exact S1|].
    eapply ordered_settled, (trace_app _ _ _ _ _ Ho). by apply ordered_idle.
  - rewrite (bind_panic _ _ _ _ _ _ Hr). eapply settled_trans; [exact S1|]. by eapply ordered_settled.
Qed.

Lemma settled_step c w w' : server_step w w' → settled c w w'.
Proof using Hpolite AnyRoomSpec0.
  intros Hstep. destruct Hstep as [k w' Hstep|k _|tuning Hnew|k Hk|op Hop].
  - destruct Hstep as [now w cl0 Hc0 Hns|now binary raw w|msg w cl0 _ _|now w|now ok case w|e w].
    + by eapply ordered_settled, ordered_start.
    + eapply ordered_settled, ordered_frame.
    + eapply ordered_settled, ordered_deliver.
    + by eapply ordered_settled, (ordered_idle c k).
    + eapply ordered_settled, ordered_write.
    + eapply ordered_settled, ordered_turn.
  - apply settled_exit.
  - by apply settled_connect.
  - by apply settled_read.
  - by eapply ordered_settled, ordered_with_mgr.
Qed.

(** A step of [Run]. *)
Lemma ordered_shutdown_turn c ph :
  ph ≠ Taking → steps (ordered c) (shutdown_turn (R := R) (Mo := Mo) ph).
Proof.
  intros Hph. destruct ph as [|[|k cs]| | |[|p ps]|]; [done|..]; unfold shutdown_turn; wire.
  apply ordered_with_mgr, lasting_call, Shutdown_final.
Qed.

Lemma later_run_turn c ended st w : later c w (final (Run_turn ended st w)).
Proof.
  destruct st as [|res ph|res]; [done| |done].
  destruct ph as [|cs| | |ps|]; [|..|done].
  { split; cbn; auto. intros cl Hc. by exists cl. }
  all: eapply ordered_later; apply (steps_bind (ordered c));
    [by apply ordered_shutdown_turn|intros ?; by eauto with go].
Qed.

Lemma later_run c st w st' w' : rtc run_step (st, w) (st', w') → later c w w'.
Proof using Hpolite AnyRoomSpec0.
  intros Hr. remember (st, w) as x eqn:Hx. remember (st', w') as y eqn:Hy.
  revert st w Hx. induction Hr as [x|x [st1 w1] y Hs _ IH]; intros st w ->; [by simplify_eq|].
  etrans; [|by eapply IH].
  inversion Hs as [? ? ? Hss|e ? ? ? ? ? Ht]; simplify_eq; [by apply (settled_step c)|].
  pose proof (later_run_turn c e st w) as Hl. by rewrite Ht in Hl.
Qed.
End dispatch.

(** The built-in methods are polite. *)
Lemma builtin_polite {engine request} (cfg : App.Config engine request) :
  polite (App.commands (final (App.New plain cfg))).
Proof.
  destruct (New_run plain cfg) as (_ & _ & _ & ->).
  intros c op h cx payload Hh. destruct (App.DisableDefaultHandlers _ _ cfg); [done|].
  change ((<[MethodLobbyList := lobbyListHandler]> (<[MethodRoomLeave := leaveRoomHandler]>
    (<[MethodRoomJoin := joinRoomHandler]> (<[MethodRoomCreate := createRoomHandler plain]> ∅)))
      : gmap N (Handler R Mo)) !! op = Some h) in Hh.
  rewrite !lookup_insert_Some, lookup_empty in Hh.
  destruct Hh as [[_ <-]|[_ [[_ <-]|[_ [[_ <-]|[_ [[_ <-]|[_ Hh]]]]]]]];
    unfold createRoomHandler, joinRoomHandler, leaveRoomHandler, lobbyListHandler, Lobby_List, roomID, userID; wire.
Qed.

(** C11: nothing is lost or reordered on the way to a client. Over any number of
    steps of the server, whatever the other connections, the rooms and [Run] do,
    its shutdown included, with handlers that work on connections through the
    gateway ([polite], as the built-in ones do): what a connection had on the wire stays, what it goes
    on to write are the frames of its queue and then frames that were queued
    later, in the order of the queue and once each; and as long as its write loop
    runs, what is on the wire and what still waits are exactly those, with no
    frame missing. *)
Theorem frames_in_order commands auth c st w st' w' cl :
  polite commands → rtc (run_step commands auth) (st, w) (st', w') → clients w !! c = Some cl →
  ∃ cl' added, clients w' !! c = Some cl' ∧
    onwire cl `prefix_of` onwire cl' ∧
    onwire cl' `prefix_of` onwire cl ++ cl.(Client.send) ++ added ∧
    (writing cl' ≠ Stopped →
       onwire cl' ++ cl'.(Client.send) = onwire cl ++ cl.(Client.send) ++ added).
Proof.
  intros Hp Hsteps Hc.
  destruct (lt_client _ _ _ (later_run commands auth Hp c _ _ _ _ Hsteps) cl Hc) as (cl' & Hc' & _ & new & Hpr).
  destruct Hpr as (P1 & P2 & P3 & _). exists cl', new. rewrite app_assoc. done.
Qed.
End server.

(** ** Closing *)

(** C20: a close drains the queue and ends the write loop. Take a connection that
    is closed while its write loop is in the select, and whatever then happens:
    frames that are still queued, ticks of the ping timer, turns of the loop in
    which the select takes any case that is ready. The loop can always take a
    turn until it returned, and ticks apart it takes at most one turn per frame
    and two more. No frame is written out of order, twice, or skipped, but for
    the one whose write fails, after which the loop returns; when it returns the
    connection is closed, and if no write failed every frame is on the wire. The
    writes before the select takes the close, at the time [t0], have the write
    timeout each; those after it share one deadline, two seconds after [t0]. *)
Theorem close_drains_queue evs (cl cl' : Client.t) :
  writing cl = Serving → cl.(Client.done) = true → wrun evs cl = Some cl' →
  turns evs ≤ length cl.(Client.send) + length (queued evs) + 2 ∧
  (writing cl' ≠ Stopped → ∀ now ok, is_Some (wstep (Turned now ok WDone) cl')) ∧
  (∃ lost, onwire cl' ++ lost ++ cl'.(Client.send) = onwire cl ++ cl.(Client.send) ++ queued evs ∧
     length lost ≤ 1 ∧ (all_ok evs ∨ writing cl' ≠ Stopped → lost = [])) ∧
  (writing cl' = Stopped →
     cl'.(Client.conn).(Socket.closed) = true ∧ (all_ok evs → cl'.(Client.send) = [])) ∧
  ∀ evs1 now ok case evs2 cl1 cl2,
    evs = evs1 ++ Turned now ok case :: evs2 → wrun evs1 cl = Some cl1 →
    wstep (Turned now ok case) cl1 = Some cl2 →
    cl2.(Client.conn).(Socket.writeDeadline) =
    match taken evs1, case, cl1.(Client.send) with
    | None, WDone, _ | Some _, _, [] => cl1.(Client.conn).(Socket.writeDeadline)
    | None, _, _ => (now + cl.(Client.tuning).(Tuning.writeWait))%Z
    | Some t0, _, _ => (t0 + 2 * Tuning.second)%Z
    end.
Proof.
  intros Hw Hd Hr. destruct (wrun_drains evs cl cl' Hd (or_introl Hw) Hr) as [Hd' Ht Hf Hs].
  split; [unfold remaining in Ht; rewrite Hw in Ht; lia|].
  split.
  { intros Hns now ok. destruct (wrun_phase evs cl cl' Hr (or_introl Hw)) as [_ [|Hph]]; [done|].
    rewrite Hw in Hph. unfold wstep, WriteLoop_turn, WriteLoop_write, WriteLoop_stop. unfold writing in *. rewrite Hph.
    destruct (taken evs); [|rewrite Hd'; by eexists].
    destruct (Client.send cl'); [by eexists|]. destruct ok; by eexists. }
  split; [rewrite app_assoc; exact Hf|]. split; [done|].
  intros evs1 now ok case evs2 cl1 cl2 -> Hr1 Hs1.
  destruct (wrun_phase evs1 cl cl1 Hr1 (or_introl Hw)) as [Htu [Hst|Hph]];
    [by destruct (wstep_running _ _ _ Hs1)|].
  rewrite (turn_deadline _ _ _ _ _ Hs1), Hph, Hw, Htu. by destruct (taken evs1), case, (Client.send cl1).
Qed.

(** ** Deadlines *)

Section deadlines.
Context {R Mo : Type} `{!AnyRoom R, !AnyRoomView R, !AnyRoomSpec R, !AnyModule Mo R, GoRange, !Select}.
Implicit Types (w : Server R Mo) (cl : Client.t).

#[local] Arguments set_clients : simpl never.



Definition pong_frame : ServerMessage.t := ServerMessage.mk MessagePing 0 0 0 "" "" [].




End deadlines.

(** ** Witnesses *)

#[local] Existing Instance always_pick.

(** Connection 1, its loops running, with a frame in its queue. *)
Definition demo_started : Server Any AnyMod := final (ReadLoop_start 0 1 demo_connected).
Definition demo_queued : Server Any AnyMod := final (SendServerMessage 1 pong_frame demo_started).

Lemma frames_in_order_witness :
  ∃ st w' cl' later, rtc (run_step demo_commands DevAuth) (Listening, demo_queued) (st, w') ∧
    clients w' !! 1%N = Some cl' ∧ onwire cl' `prefix_of` enc pong_frame :: later ∧ onwire cl' ≠ [].
Proof.
  set (w' := final (WriteLoop 0 true WSend 1 demo_queued)).
  assert (rtc (run_step demo_commands DevAuth) (Listening, demo_queued) (Unwinding None Taking, w')) as Hr.
  { eapply rtc_l; [by eapply (rs_turn _ _ None)|].
    apply rtc_once, rs_server, (ss_conn _ _ _ 1), (cs_write _ _ 1 0 true WSend). }
  destruct (frames_in_order demo_commands DevAuth 1 Listening demo_queued (Unwinding None Taking) w'
    (demo_cl demo_queued)) as (cl' & later & Hc & _ & Hp & _).
  - exact (builtin_polite plainModule demo_config).
  - exact Hr.
  - vm_compute; reflexivity.
  - exists (Unwinding None Taking), w', cl', later. split; [exact Hr|]. split; [exact Hc|]. split; [exact Hp|].
    assert (clients w' !! 1%N = Some (demo_cl w')) as Hc' by (vm_compute; reflexivity).
    rewrite Hc in Hc'. injection Hc' as ->. vm_compute. discriminate.
Defined.

(** The queued frame is written while another one comes in, then the select takes
    the close, at the time 6. *)
Lemma close_drains_queue_witness :
  let cl := Client.set_done (demo_cl demo_queued) in
  let evs := [Turned 5 true WSend; Queued (enc pong_frame); Turned 6 true WDone; Turned 7 true WDone;
              Turned 8 true WDone] in
  ∃ cl', wrun evs cl = Some cl' ∧ cl'.(Client.conn).(Socket.closed) = true ∧
    onwire cl' = [enc pong_frame; enc pong_frame].
Proof.
  intros cl evs.
  assert (∃ cl', wrun evs cl = Some cl') as [cl' Hr] by (eexists; vm_compute; reflexivity).
  destruct (close_drains_queue evs cl cl') as (_ & _ & (lost & Hf & _ & Hl) & Hs & _).
  - vm_compute; reflexivity.
  - reflexivity.
  - exact Hr.
  - assert (all_ok evs) as Hok by (repeat constructor).
    assert (writing cl' = Stopped) as Hw.
    { vm_compute in Hr. injection Hr as <-. reflexivity. }
    destruct (Hs Hw) as [Hc He]. exists cl'. split; [exact Hr|]. split; [exact Hc|].
    rewrite (Hl (or_introl Hok)), (He Hok) in Hf. rewrite !app_nil_r in Hf. rewrite Hf.
    vm_compute. reflexivity.
Defined.

