(* ===== verification/RunProps.v ===== *)
(** * The end of Run (the life of the server)

    [Run] unwinds the server step by step while its loops go on: what holds of
    every schedule, and what is left when nothing else happens. *)

From S2P Require Import Prelude Codec Schema SchemaSpec EventBus EventBusSpec Room RoomSpec RoomActor Manager ManagerSpec ManagerLife Session Socket Gateway GatewaySpec Handlers App GatewayProps AppProps ConnProps.

Section shutdown.
Context {R Mo : Type} `{!AnyRoom R, !AnyRoomView R, !AnyRoomSpec R, !AnyModule Mo R, GoRange, !Select}.
Context (commands : Registry.t (Handler R Mo)) (auth : env → string → result session).
Context (Hpolite : polite commands).
Implicit Types (w : Server R Mo) (cl : Client.t).

#[local] Arguments set_clients : simpl never.

Abbreviation run := (rtc (run_step commands auth)).

(** ** Every schedule *)






















(** ** A quiet schedule *)













End shutdown.

(** ** Witnesses *)

#[local] Existing Instance always_pick.

