(* ===== verification/HandlersProps.v ===== *)
(** * The properties of the built-in methods

    room.create is all or nothing; three ways to stay in a room that nobody
    leaves again: a refused room.join, an Unsubscribe of a bare room id, a
    room.join that is handled after the disconnect. *)

From S2P Require Import Prelude Codec Schema SchemaSpec EventBus EventBusSpec Room RoomSpec RoomActor Manager ManagerSpec ManagerLife Session Socket Gateway GatewaySpec Handlers App GatewayProps AppProps ConnProps.

Section handlers.
Context {R Mo : Type} `{!AnyRoom R, !AnyRoomView R, !AnyRoomSpec R}.
Context `{!AnyModule Mo R, !AnyModuleSpec Mo R, GoRange, !Select} (plain : Mo).
Implicit Types (w : Server R Mo) (cl : Client.t) (cx : context).

(** What a creation request asks of the manager. *)
Definition requested (req : CreateRoomRequest.t) : RoomConfig.t :=
  RoomConfig.mk req.(CreateRoomRequest.Name) req.(CreateRoomRequest.Type_)
    req.(CreateRoomRequest.MaxPlayers) req.(CreateRoomRequest.SingletonMode)
    (optionsMap req.(CreateRoomRequest.Options)) 0.

(** The names of a room that fit the wire. *)
Lemma info_names (r : R) :
  valid (info r) → valid (Kicked.mk "replaced" (room_ID r)) ∧ valid (RoomRemoved.mk (room_ID r)).
Proof.
  intros Hv. rewrite <- (Info_ID r).
  assert (fitsString (info r).(RoomInfo.ID) = true) as Hid.
  { change (Is_true (valid_RoomInfo (info r))) in Hv. unfold valid_RoomInfo in Hv.
    destruct (fitsString (info r).(RoomInfo.ID)); [done|by destruct Hv]. }
  split.
  - change (Is_true (valid_Kicked (Kicked.mk "replaced" (info r).(RoomInfo.ID)))).
    unfold valid_Kicked. cbn [Kicked.RoomID Kicked.Reason]. by rewrite Hid.
  - change (Is_true (fitsString (info r).(RoomInfo.ID))). by rewrite Hid.
Qed.

Lemma substring_whole (s : string) : String.substring 0 (String.length s) s = s.
Proof. induction s as [|a s IH]; [done|]. simpl. by rewrite IH. Qed.

Lemma room_topic (id : string) :
  hasPrefix ("room:" +:+ id) "room:" = true ∧ trimPrefix ("room:" +:+ id) "room:" = id.
Proof.
  assert (hasPrefix ("room:" +:+ id) "room:" = true) as Hp by by destruct id.
  split; [done|]. unfold trimPrefix. rewrite Hp. simpl. rewrite Nat.sub_0_r. apply substring_whole.
Qed.

(** Subscribing to a room's topic, then unsubscribing from it. *)
Lemma without_with_topic (id : string) cl cl1 cl2 :
  Client.topics cl !! ("room:" +:+ id) = None → Client.roomIDs cl !! id = None →
  kept_client (with_topic ("room:" +:+ id) cl) cl1 →
  kept_client (without_topic ("room:" +:+ id) cl1) cl2 →
  Client.topics cl2 = Client.topics cl ∧ Client.roomIDs cl2 = Client.roomIDs cl.
Proof.
  intros Ht Hr [_ Kt Kr _ _ _] [_ Kt' Kr' _ _ _]. destruct (room_topic id) as [Hp Htr].
  rewrite Kt', Kr'. unfold without_topic. cbn. rewrite Kt, Kr, Htr.
  unfold with_topic. rewrite Hp, Htr. cbn. by rewrite !delete_insert_id by done.
Qed.

(** The bus after it. *)
Lemma resubscribed room (c : N) (b b' : Bus.EventBus N) a t k :
  refines id b a → refines id b' (spec_unsubscribe id room c (spec_subscribe id room c a)) →
  Bus.subscribers b room !! c = None → Bus.subscribers b' t !! k = Bus.subscribers b t !! k.
Proof.
  intros Href Href' Hsub. rewrite (refines_subscribers id _ _ t Href'), spec_unsubscribe_at, spec_subscribe_at.
  rewrite <- (refines_subscribers id _ _ t Href). case_decide as Hd; [|done].
  destruct Hd as [-> ->]. by rewrite Hsub.
Qed.

(** [Remove] of a listed room whose name fits the wire. *)
Lemma Remove_rooms id p (m : Manager.t R Mo) :
  wf m → valid (RoomRemoved.mk id) → Manager.rooms m !! id = Some p →
  value (Manager.Remove id m) = Ret tt ∧
  Manager.rooms (final (Manager.Remove id m)) = delete id (Manager.rooms m).
Proof.
  intros Hm Hv Hp. destruct (wf_listed _ Hm id p Hp) as (r & Hr & _).
  destruct (Shutdown_law r) as [Hs _]. unfold Manager.Remove.
  rewrite (bind_value _ _ _ _ _ _ (Remove_locked_run id m p r Hp Hr)). cbn [final fst snd].
  match goal with |- context [Manager.set_userSessions ?f ?x] => set (m1 := Manager.set_userSessions f x) end.
  pose proof (call_run (Mo := Mo) p room_Shutdown m1 r Hr) as Hc. rewrite Hs in Hc.
  rewrite (bind_value _ _ _ _ _ _ Hc). by rewrite announceRemoved_run.
Qed.

(** The new room is listed and nobody is recorded in it. *)
Lemma Create_listed uuid config r es (m : Manager.t R Mo) :
  wf m → (config.(RoomConfig.MaxPlayers) < 65536)%N → fresh uuid m →
  module_Create (effective plain m config).1 uuid (effective plain m config).2 tt = (Ret r, tt, es) →
  valid (info (room_setOnEmpty r)) →
  let r1 := room_setOnEmpty r in
  let m1 := listed r1 m in
  ∃ es1, Manager.Create plain uuid config m = (Ret (Manager.next m), m1, es1) ∧ wf m1 ∧
    room_ID r1 = room_ID r ∧ alive r1 = true ∧ members r1 = ∅ ∧
    Manager.rooms m !! room_ID r = None ∧
    ∀ u typ s, Manager.sessionOf u typ m1 = Some s → s.(Manager.RoomID) ≠ room_ID r.
Proof.
  intros Hm Hmax Hf Hc Hv r1 m1.
  destruct (Create_law _ _ _ _ _ _ (effective_ok plain m config Hm Hmax) Hc) as (Hok & _ & Hmem & Ha & HID).
  destruct (setOnEmpty_law r Hok) as (Hok1 & HID1 & _ & Hmem1 & Ha1).
  assert (Manager.rooms m !! room_ID r = None) as Hfree by (rewrite HID; apply Hf).
  eexists. split; [|split; [|split; [|split; [|split; [|split]]]]].
  - rewrite (Create_run plain uuid config m r tt es Hc), Ha1, Ha.
    pose proof (NewEvent_enc EventRoomCreated (info (room_setOnEmpty r)) Hv) as Hev.
    change (marshal (info (room_setOnEmpty r))) with (RoomInfo.Marshal (info (room_setOnEmpty r))) in Hev.
    by rewrite Hev.
  - unfold m1, r1. apply wf_listed_new; [done|by rewrite HID1|done].
  - done.
  - unfold r1. by rewrite Ha1.
  - unfold r1. by rewrite Hmem1.
  - done.
  - intros u typ s Hs Hid. destruct (wf_record _ Hm u typ s Hs) as (_ & p & r0 & Hp & _). congruence.
Qed.

(** A room whose info does not fit the wire cannot be announced. *)
Lemma Create_panics uuid config r es (m : Manager.t R Mo) :
  wf m → (config.(RoomConfig.MaxPlayers) < 65536)%N →
  module_Create (effective plain m config).1 uuid (effective plain m config).2 tt = (Ret r, tt, es) →
  fits_RoomInfo (info (room_setOnEmpty r)) = false →
  is_panic (value (Manager.Create plain uuid config m)) = true.
Proof.
  intros Hm Hmax Hc Hf.
  destruct (Create_law _ _ _ _ _ _ (effective_ok plain m config Hm Hmax) Hc) as (Hok & _ & _ & Ha & _).
  destruct (setOnEmpty_law r Hok) as (_ & _ & _ & _ & Ha1).
  rewrite (Create_run plain uuid config m r tt es Hc), Ha1, Ha.
  pose proof (RoomInfo_fits (info (room_setOnEmpty r)) []) as Hp. rewrite Hf in Hp.
  unfold NewEvent, Encode. by destruct (RoomInfo.Marshal _ []).
Qed.

Lemma with_mgr_panic {A} (op : M (Manager.t R Mo) effect A) w :
  is_panic (value (op (mgr w))) = true → is_panic (value (with_mgr op w)) = true.
Proof.
  unfold with_mgr. destruct (op (mgr w)) as [[o m] es]. cbn. intros Ho.
  pose proof (for_each_ret replay es (set_mgr m w) replay_ret) as Hv.
  destruct (for_each replay es (set_mgr m w)) as [[o2 w2] es2] eqn:Hf. cbn in Hv. subst o2.
  rewrite (bind_value _ _ _ _ _ _ Hf). by destruct o.
Qed.

Lemma bind_panics {A B} (op : M (Server R Mo) geffect A) (k : A → M (Server R Mo) geffect B) w :
  is_panic (value (op w)) = true → is_panic (value ((op ≫= k) w)) = true.
Proof.
  destruct (op w) as [[[a|msg] w1] es] eqn:Hop; [done|]. intros _. by rewrite (bind_panic _ _ _ _ _ _ Hop).
Qed.

(** A refused join is undone. *)
Definition undo_new (c : N) (rid : string) (e : error) :
    M (Server R Mo) geffect (result (option Marshaler)) :=
  Unsubscribe c ("room:" +:+ rid) ;; with_mgr (Manager.Remove rid) ;; mret (Err e).

(** From the new room on: the client subscribes and joins; a refusal is undone. *)
Definition enter_new (cx : context) (rid : string) : M (Server R Mo) geffect (result (option Marshaler)) :=
  Subscribe cx.(ctx_ClientID) ("room:" +:+ rid) ;;
  uid ← userID cx;
  info ← with_mgr (Manager.JoinRoom cx.(ctx_env).(now) uid cx.(ctx_ClientID) rid);
  match info with
  | Err err => undo_new cx.(ctx_ClientID) rid err
  | Ok info => mret (Ok (Some (RoomInfo.Marshal info)))
  end.

Lemma undo_enter c rid p e w cl cl2 a (b : Bus.EventBus N) :
  let room := "room:" +:+ rid in
  wf (mgr w) → valid (RoomRemoved.mk rid) → Manager.rooms (mgr w) !! rid = Some p →
  refines id b a → refines id (bus w) (spec_subscribe id room c a) →
  Bus.subscribers b room !! c = None → clients w !! c = Some cl2 →
  Client.topics cl !! room = None → Client.roomIDs cl !! rid = None →
  kept_client (with_topic room cl) cl2 →
  ∃ w' es cl', undo_new c rid e w = (Ret (Err e), w', es) ∧
    wf (mgr w') ∧ clients w' !! c = Some cl' ∧
    Manager.rooms (mgr w') = delete rid (Manager.rooms (mgr w)) ∧
    Client.topics cl' = Client.topics cl ∧ Client.roomIDs cl' = Client.roomIDs cl ∧
    ∀ t k, Bus.subscribers (bus w') t !! k = Bus.subscribers b t !! k.
Proof.
  intros room Hm Hv Hp Href Href2 Hsub Hc2 Ht Hri K2. unfold undo_new. fold room.
  destruct (Unsubscribe_run c room w _ Href2) as (w3 & Hrun3 & Href3 & Hm3 & _ & Hc3 & _).
  rewrite (bind_value _ _ _ _ _ _ Hrun3). cbn [final fst snd].
  destruct (Remove_rooms rid p (mgr w) Hm Hv Hp) as [Hv4 Hro4].
  pose proof (keeps_Remove (Mo := Mo) rid (mgr w) Hm) as Hwf4.
  destruct (Manager.Remove rid (mgr w)) as [[o m4] es4] eqn:H4. cbn in Hv4, Hro4, Hwf4. subst o.
  destruct (with_mgr_run (Manager.Remove rid) w3 tt m4 es4) as (w4 & es5 & Hrun4 & Hm4 & Hb4 & _ & Hkept4).
  { by rewrite Hm3. }
  destruct (Hkept4 c _ (Hc3 _ Hc2)) as (cl4 & Hc4 & K4).
  rewrite (bind_value _ _ _ _ _ _ Hrun4). cbn [final fst snd].
  exists w4. eexists. exists cl4. split; [done|]. rewrite Hm4. do 3 (split; [done|]).
  destruct (without_with_topic rid cl cl2 cl4 Ht Hri K2 K4) as [HT HR].
  split; [done|]. split; [done|]. intros t k. rewrite Hb4. by eapply resubscribed.
Qed.

Lemma enter_new_run cx w cl a s rid p r :
  let c := ctx_ClientID cx in
  let room := "room:" +:+ rid in
  let m := mgr w in
  wf m → refines id (bus w) a → clients w !! c = Some cl →
  ctx_Session cx = Some s → nameable c s.(Session.UserID) →
  valid (Kicked.mk "replaced" rid) → valid (RoomRemoved.mk rid) →
  Manager.rooms m !! rid = Some p → Manager.heap m !! p = Some r → members r = ∅ →
  (∀ u typ s, Manager.sessionOf u typ m = Some s → s.(Manager.RoomID) ≠ rid) →
  Client.topics cl !! room = None → Client.roomIDs cl !! rid = None →
  Bus.subscribers (bus w) room !! c = None →
  ∃ res w' es' cl', enter_new cx rid w = (Ret res, w', es') ∧
    wf (mgr w') ∧ clients w' !! c = Some cl' ∧
    match res with
    | Ok m' => Manager.rooms (mgr w') = Manager.rooms m ∧
        ∃ r', Manager.heap (mgr w') !! p = Some r' ∧ alive r' = true ∧ members r' = {[c]} ∧
        m' = Some (RoomInfo.Marshal (info r')) ∧
        Client.roomIDs cl' = <[rid := tt]> (Client.roomIDs cl) ∧
        ∀ t k, Bus.subscribers (bus w') t !! k =
          if decide (t = room ∧ k = c) then Some c else Bus.subscribers (bus w) t !! k
    | Err _ => Manager.rooms (mgr w') = delete rid (Manager.rooms m) ∧
        Client.topics cl' = Client.topics cl ∧ Client.roomIDs cl' = Client.roomIDs cl ∧
        ∀ t k, Bus.subscribers (bus w') t !! k = Bus.subscribers (bus w) t !! k
    end.
Proof.
  intros c room m Hm Href Hc Hs Hn Hk Hrm Hp Hr Hmem Hfree Ht Hri Hsub. unfold enter_new.
  fold c room.
  destruct (Subscribe_run c room w cl a Href Hc Ht) as (w1 & Hrun1 & Href1 & Hm1 & _ & Hc1).
  rewrite (bind_value _ _ _ _ _ _ Hrun1). cbn [final fst snd].
  unfold userID. rewrite Hs, bind_ret.
  destruct (JoinRoom_new (now (ctx_env cx)) s.(Session.UserID) c rid m p r Hm Hn Hk Hp Hr (Hfree _))
    as (Hrooms & Hwf & Hres).
  destruct (Manager.JoinRoom (now (ctx_env cx)) (Session.UserID s) c rid m) as [[o m2] es2] eqn:Hj.
  cbn [value final fst snd] in Hrooms, Hwf, Hres.
  assert (∃ i, o = Ret i) as [i ->] by (destruct Hres as [[e ->]|(r' & -> & _)]; by eexists).
  unfold m in Hj. rewrite <- Hm1 in Hj.
  destruct (with_mgr_run _ w1 i m2 es2 Hj) as (w2 & es3 & Hrun2 & Hm2 & Hb2 & _ & Hkept).
  destruct (Hkept c _ Hc1) as (cl2 & Hc2 & K2).
  rewrite (bind_value _ _ _ _ _ _ Hrun2). cbn [final fst snd].
  destruct (room_topic rid) as [Hpre Htrim].
  destruct Hres as [[e [= ->]]|(r' & [= ->] & Hr' & Ha' & Hmem')].
  - destruct (undo_enter c rid p e w2 cl cl2 a (bus w)) as (w4 & es4 & cl4 & Hrun4 & Hwf4 & Hc4 & Hrest);
      rewrite ?Hm2, ?Hb2, ?Hrooms; try done.
    rewrite Hrun4. cbn [final fst snd value effects].
    exists (Err e), w4, (es3 ++ es4), cl4. split; [done|]. split; [done|]. split; [done|].
    rewrite Hm2, Hrooms in Hrest. exact Hrest.
  - exists (Ok (Some (RoomInfo.Marshal (info r')))), w2. eexists. exists cl2. split; [done|]. rewrite Hm2. split; [done|]. split; [done|].
    split; [done|]. exists r'. split; [done|]. split; [done|]. rewrite Hmem', Hmem.
    split; [set_solver|]. split; [done|]. split.
    + rewrite (kept_roomIDs _ _ K2). unfold with_topic, room. by rewrite Hpre, Htrim.
    + intros t k. rewrite Hb2, (refines_subscribers id _ _ t Href1), spec_subscribe_at.
      by rewrite <- (refines_subscribers id _ _ t Href).
Qed.

Lemma createRoom_enter cx req payload w :
  Decode payload = Ok req → req.(CreateRoomRequest.Type_) ≠ "" →
  createRoomHandler plain cx payload w =
  (p ← with_mgr (Manager.Create plain (uuid (ctx_env cx)) (requested req));
   rid ← roomID p; enter_new cx rid) w.
Proof.
  intros Hdec Hty.
  unfold createRoomHandler. by rewrite Hdec, (proj2 (String.eqb_neq _ _) Hty).
Qed.

Lemma requested_cap payload req :
  Decode payload = Ok req → ((requested req).(RoomConfig.MaxPlayers) < 65536)%N.
Proof.
  intros Hdec. pose proof (Decode_CreateRoomRequest payload req Hdec) as Hv.
  change (Is_true (valid_CreateRoomRequest req)) in Hv. unfold valid_CreateRoomRequest in Hv. destruct_valid.
  match goal with H : fitsUint 2 _ = true |- _ => apply N.ltb_lt in H; exact H end.
Qed.

(** The module's panic is that of [Create]. *)
Lemma Create_module_panics uuid config (m : Manager.t R Mo) :
  is_panic (value (module_Create (effective plain m config).1 uuid (effective plain m config).2 tt)) = true →
  is_panic (value (Manager.Create plain uuid config m)) = true.
Proof.
  intros Hp. unfold Manager.Create. rewrite bind_get. unfold effective in Hp.
  destruct (Manager.modules m !! config.(RoomConfig.Type_)) as [md|]; cbn in Hp;
    unfold Manager.build; set (mk := module_Create _ _ _ tt) in *;
    destruct mk as [[[r|msg] u] es] eqn:Hmk; try done;
    unfold mbind, M_bind; cbv beta; fold mk; rewrite Hmk; done.
Qed.

(** The handler once the room is made. *)
Lemma create_returns cx req payload w cl a s r es :
  let c := ctx_ClientID cx in
  let config := requested req in
  let uuid := uuid (ctx_env cx) in
  let rid := room_ID r in
  let room := "room:" +:+ rid in
  wf (mgr w) → refines id (bus w) a → clients w !! c = Some cl →
  ctx_Session cx = Some s → nameable c s.(Session.UserID) →
  Decode payload = Ok req → req.(CreateRoomRequest.Type_) ≠ "" → fresh uuid (mgr w) →
  module_Create (effective plain (mgr w) config).1 uuid (effective plain (mgr w) config).2 tt =
    (Ret r, tt, es) →
  valid (info (room_setOnEmpty r)) →
  Client.topics cl !! room = None → Client.roomIDs cl !! rid = None →
  Bus.subscribers (bus w) room !! c = None →
  ∃ res w' es' cl', createRoomHandler plain cx payload w = (Ret res, w', es') ∧
    wf (mgr w') ∧ clients w' !! c = Some cl' ∧
    match res with
    | Ok m => ∃ p r', Manager.rooms (mgr w') = <[rid := p]> (Manager.rooms (mgr w)) ∧
        Manager.heap (mgr w') !! p = Some r' ∧ alive r' = true ∧ members r' = {[c]} ∧
        m = Some (RoomInfo.Marshal (info r')) ∧
        Client.roomIDs cl' = <[rid := tt]> (Client.roomIDs cl) ∧
        ∀ t k, Bus.subscribers (bus w') t !! k =
          if decide (t = room ∧ k = c) then Some c else Bus.subscribers (bus w) t !! k
    | Err _ => Manager.rooms (mgr w') = Manager.rooms (mgr w) ∧
        Client.topics cl' = Client.topics cl ∧ Client.roomIDs cl' = Client.roomIDs cl ∧
        ∀ t k, Bus.subscribers (bus w') t !! k = Bus.subscribers (bus w) t !! k
    end.
Proof.
  intros c config uuid rid room Hm Href Hc Hs Hn Hdec Hty Hf Hcr Hvi Ht Hri Hsub.
  pose proof (requested_cap payload req Hdec : (config.(RoomConfig.MaxPlayers) < 65536)%N) as Hmax.
  destruct (Create_listed uuid config r es (mgr w) Hm Hmax Hf Hcr Hvi)
    as (es1 & Hcreate & Hm1 & HID & Ha & Hmem & Hfree & Hrec).
  set (p := Manager.next (mgr w)) in *. set (r1 := room_setOnEmpty r) in *.
  destruct (with_mgr_run _ w p _ es1 Hcreate) as (w1 & es2 & Hrun1 & Hm1' & Hb1 & _ & Hk1).
  assert (Manager.heap (mgr w1) !! p = Some r1) as Hr1 by (rewrite Hm1'; apply lookup_insert_eq).
  destruct (with_mgr_run _ w1 _ _ _ (peek_run p room_ID (mgr w1) r1 Hr1))
    as (w2 & es3 & Hrun2 & Hm2 & Hb2 & _ & Hk2).
  destruct (Hk1 c cl Hc) as (cl1 & Hc1 & K1). destruct (Hk2 c cl1 Hc1) as (cl2 & Hc2 & K2).
  assert (kept_client cl cl2) as [_ KT KR _ _ _] by by etrans.
  destruct (info_names r1 Hvi) as [Hkick Hremoved]. rewrite HID in Hkick, Hremoved, Hrun2.
  destruct (enter_new_run cx w2 cl2 a s rid p r1) as (res & w3 & es4 & cl3 & Hrun3 & Hwf3 & Hc3 & Hres);
    rewrite ?Hm2, ?Hm1', ?Hb2, ?Hb1, ?KT, ?KR; try done.
  { simpl. rewrite HID. apply lookup_insert_eq. }
  { apply lookup_insert_eq. }
  exists res, w3, (es2 ++ es3 ++ es4), cl3. split.
  { rewrite (createRoom_enter cx req payload w Hdec Hty). fold uuid config.
    rewrite (bind_value _ _ _ _ _ _ Hrun1). cbn [final fst snd]. unfold roomID.
    rewrite (bind_value _ _ _ _ _ _ Hrun2). cbn [final fst snd].
    unfold rid in Hrun3. by rewrite Hrun3. }
  split; [done|]. split; [done|]. revert Hres. rewrite Hm2, Hm1', Hb2, Hb1, KT, KR.
  assert (Manager.rooms (listed r1 (mgr w)) = <[rid := p]> (Manager.rooms (mgr w))) as ->.
  { simpl. by rewrite HID. }
  destruct res as [m'|e].
  - intros (Hro & r' & Hr' & Ha' & Hmem' & Hm' & Hri' & Hsubs). by exists p, r'.
  - rewrite delete_insert_id by done. done.
Qed.

(** C15: room.create is all or nothing. Take a payload of an authenticated client
    that decodes to a request with a type. If the module makes the room (the
    numbers of whose info are of their Go types), and the names of the room fit
    the wire, the handler returns. Either the client is in:
    the new room is listed and alive with the client as its only player, the
    reply is its info, and the client is subscribed to its topic and to nothing
    else new; or the join was refused, the error is passed on, the room is no
    longer listed, and the listing, the bus and the client's subscriptions are as
    before. In the other two cases the handler panics, with nothing on its way to
    recover: the module panics, or a name is longer than 65535
    bytes, which a client can bring about ([long_name_panics]). *)
Theorem create_is_all_or_nothing cx req payload w cl a s :
  let c := ctx_ClientID cx in
  let config := requested req in
  let uuid := uuid (ctx_env cx) in
  wf (mgr w) → refines id (bus w) a → clients w !! c = Some cl →
  ctx_Session cx = Some s → nameable c s.(Session.UserID) →
  Decode payload = Ok req → req.(CreateRoomRequest.Type_) ≠ "" → fresh uuid (mgr w) →
  match module_Create (effective plain (mgr w) config).1 uuid (effective plain (mgr w) config).2 tt with
  | (Panic _, _, _) => is_panic (value (createRoomHandler plain cx payload w)) = true
  | (Ret r, _, _) =>
      let rid := room_ID r in
      let room := "room:" +:+ rid in
      let i := info (room_setOnEmpty r) in
      fitsUint 2 i.(RoomInfo.MaxPlayers) = true → fitsUint 2 i.(RoomInfo.PlayerCount) = true →
      fitsUint 1 i.(RoomInfo.SingletonMode) = true →
      Client.topics cl !! room = None → Client.roomIDs cl !! rid = None →
      Bus.subscribers (bus w) room !! c = None →
      if fits_RoomInfo i then
        ∃ res w' es' cl', createRoomHandler plain cx payload w = (Ret res, w', es') ∧
          wf (mgr w') ∧ clients w' !! c = Some cl' ∧
          match res with
          | Ok m => ∃ p r', Manager.rooms (mgr w') = <[rid := p]> (Manager.rooms (mgr w)) ∧
              Manager.heap (mgr w') !! p = Some r' ∧ alive r' = true ∧ members r' = {[c]} ∧
              m = Some (RoomInfo.Marshal (info r')) ∧
              Client.roomIDs cl' = <[rid := tt]> (Client.roomIDs cl) ∧
              ∀ t k, Bus.subscribers (bus w') t !! k =
                if decide (t = room ∧ k = c) then Some c else Bus.subscribers (bus w) t !! k
          | Err _ => Manager.rooms (mgr w') = Manager.rooms (mgr w) ∧
              Client.topics cl' = Client.topics cl ∧ Client.roomIDs cl' = Client.roomIDs cl ∧
              ∀ t k, Bus.subscribers (bus w') t !! k = Bus.subscribers (bus w) t !! k
          end
      else is_panic (value (createRoomHandler plain cx payload w)) = true
  end.
Proof.
  intros c config uuid Hm Href Hc Hs Hn Hdec Hty Hf.
  destruct (module_Create _ _ _ _) as [[[r|msg] []] es] eqn:Hcr.
  - intros rid room i H1 H2 H3 Ht Hri Hsub. destruct (fits_RoomInfo i) eqn:Hfit.
    + apply (create_returns cx req payload w cl a s r es); try done.
      change (Is_true (valid_RoomInfo i)). unfold valid_RoomInfo, fits_RoomInfo in *.
      by rewrite Hfit, H1, H2, H3.
    + rewrite (createRoom_enter cx req payload w Hdec Hty). apply bind_panics, with_mgr_panic.
      by apply (Create_panics _ _ r es); [|eapply requested_cap|..].
  - rewrite (createRoom_enter cx req payload w Hdec Hty). apply bind_panics, with_mgr_panic.
    apply Create_module_panics. fold config uuid. by rewrite Hcr.
Qed.

Lemma string_app_length (s t : string) : String.length (s +:+ t) = String.length s + String.length t.
Proof. induction s as [|x s IH]; [done|]. simpl. by rewrite IH. Qed.

(** The id of a room is its name, an underscore and a uuid: a name of the wire
    that leaves no room for the rest takes the handler, and with it the process,
    down. *)
Lemma long_name_panics cx req payload w r es :
  let config := requested req in
  let uuid := uuid (ctx_env cx) in
  let made := effective plain (mgr w) config in
  wf (mgr w) → Decode payload = Ok req → req.(CreateRoomRequest.Type_) ≠ "" →
  module_Create made.1 uuid made.2 tt = (Ret r, tt, es) →
  (65535 < N.of_nat (String.length made.2.(RoomConfig.Name) + 1 + String.length uuid))%N →
  is_panic (value (createRoomHandler plain cx payload w)) = true.
Proof.
  intros config uuid made Hm Hdec Hty Hcr Hlen.
  pose proof (requested_cap payload req Hdec) as Hmax.
  destruct (Create_law _ _ _ _ _ _ (effective_ok plain (mgr w) config Hm Hmax) Hcr) as (Hok & _ & _ & _ & HID).
  destruct (setOnEmpty_law r Hok) as (_ & HID1 & _).
  rewrite (createRoom_enter cx req payload w Hdec Hty). apply bind_panics, with_mgr_panic.
  apply (Create_panics _ _ r es); [done..|].
  assert (fitsString (room_ID r) = false) as Hlong.
  { rewrite HID. unfold fitsString, fitsLen. rewrite !string_app_length. apply N.leb_gt.
    subst made config uuid. cbn [String.length]. lia. }
  unfold fits_RoomInfo. by rewrite Info_ID, HID1, Hlong.
Qed.

(** A join that an unrestricted room refuses: the client is unsubscribed from the
    room's topic, whatever it was before; nothing else changes. *)
Lemma refused_join_run cx rid payload w cl a s p r e :
  let c := ctx_ClientID cx in
  let room := "room:" +:+ rid in
  wf (mgr w) → refines id (bus w) a → clients w !! c = Some cl →
  ctx_Session cx = Some s → nameable c s.(Session.UserID) →
  Decode payload = Ok (JoinRoomRequest.mk rid) → rid ≠ "" →
  Manager.rooms (mgr w) !! rid = Some p → Manager.heap (mgr w) !! p = Some r →
  (room_Config r).(RoomConfig.SingletonMode) = SingletonAllow →
  room_Join (now (ctx_env cx)) c s.(Session.UserID) r = (Ret (Some e), r, []) →
  Client.topics cl !! room = Some tt →
  ∃ w' es cl', joinRoomHandler cx payload w = (Ret (Err e), w', es) ∧
    refines id (bus w') (spec_unsubscribe id room c a) ∧ mgr w' = mgr w ∧
    clients w' !! c = Some cl' ∧ kept_client (without_topic room cl) cl'.
Proof.
  intros c room Hm Href Hc Hs Hn Hdec Hrid Hp Hr Hmode Hj Ht.
  unfold joinRoomHandler. rewrite Hdec. cbn [JoinRoomRequest.RoomID].
  rewrite (proj2 (String.eqb_neq _ _) Hrid). fold c room.
  assert (Subscribe c room w = (Ret tt, w, [])) as Hsub.
  { unfold Subscribe. rewrite (bind_value _ _ _ _ _ _ (client_run c id w cl Hc)). cbn [final fst snd].
    change (@id Client.t cl) with cl. by rewrite Ht. }
  rewrite (bind_value _ _ _ _ _ _ Hsub). cbn [final fst snd]. unfold userID. rewrite Hs, bind_ret.
  destruct (wf_heap _ Hm p r Hr) as [Hok _].
  pose proof (JoinRoom_locked_run s.(Session.UserID) c rid (mgr w) p r Hp Hr) as Hl.
  cbv zeta in Hl. rewrite Hmode in Hl. cbn [N.eqb SingletonAllow] in Hl.
  destruct (JoinRoom_plain (now (ctx_env cx)) _ c rid _ p r _ _ _ Hl Hr Hok Hn) as [(e' & He & Hrun)|[Hv _]].
  2:{ rewrite Hj in Hv. discriminate. }
  rewrite Hj in He. injection He as <-.
  destruct (with_mgr_run _ w _ _ _ Hrun) as (w1 & es1 & Hrun1 & Hm1 & Hb1 & _ & Hk1).
  rewrite (bind_value _ _ _ _ _ _ Hrun1). cbn [final fst snd].
  destruct (Hk1 c cl Hc) as (cl1 & Hc1 & [KH KT KR KS KA KD]).
  destruct (Unsubscribe_run c room w1 a) as (w2 & Hrun2 & Href2 & Hm2 & _ & Hc2 & _); [by rewrite Hb1|].
  rewrite (bind_value _ _ _ _ _ _ Hrun2). cbn [final fst snd].
  exists w2. eexists. exists (without_topic room cl1). split; [done|]. split; [done|].
  split; [by rewrite Hm2|]. split; [by apply Hc2|].
  split; unfold without_topic; cbn; congruence || done.
Qed.

(** C39: a refused rejoin strands a member. In an unrestricted room that refuses
    joins (a full one also refuses the rejoin of its own players), the room.join
    of a client that is in the room fails and takes away the subscription it
    had: it stays a player that no longer sees the room's events, and when it
    disconnects the gateway does not take it out of the room. *)
Theorem refused_rejoin_strands_member cx rid payload w cl a s p r e :
  let c := ctx_ClientID cx in
  let room := "room:" +:+ rid in
  wf (mgr w) → refines id (bus w) a → clients w !! c = Some cl →
  (∀ t, is_Some (default ∅ (a !! t) !! c) → is_Some (Client.topics cl !! t)) →
  Client.Session cl = Some s → ctx_Session cx = Some s → nameable c s.(Session.UserID) →
  Decode payload = Ok (JoinRoomRequest.mk rid) → rid ≠ "" →
  Manager.rooms (mgr w) !! rid = Some p → Manager.heap (mgr w) !! p = Some r →
  (room_Config r).(RoomConfig.SingletonMode) = SingletonAllow → c ∈ members r →
  room_Join (now (ctx_env cx)) c s.(Session.UserID) r = (Ret (Some e), r, []) →
  Client.topics cl !! room = Some tt →
  ∃ w' es, joinRoomHandler cx payload w = (Ret (Err e), w', es) ∧
    Bus.subscribers (bus w') room !! c = None ∧
    Manager.heap (mgr w') !! p = Some r ∧
    value (OnDisconnect c w') = Ret tt ∧
    Manager.heap (mgr (final (OnDisconnect c w'))) !! p = Some r.
Proof.
  intros c room Hm Href Hc Hcov Hcs Hs Hn Hdec Hrid Hp Hr Hmode Hin Hj Ht.
  destruct (refused_join_run cx rid payload w cl a s p r e) as (w1 & es & cl1 & Hrun & Href1 & Hm1 & Hc1 & [_ KT KR KS _ _]);
    try done. fold c room in Hrun, Href1, Hc1, KT, KR, KS.
  exists w1, es. split; [done|].
  split; [rewrite (refines_subscribers id _ _ room Href1), spec_unsubscribe_at; by rewrite decide_True|].
  split; [by rewrite Hm1|].
  destruct (OnDisconnect_run c w1 (spec_unsubscribe id room c a) cl1)
    as (w2 & a2 & es2 & rids & Hdis & _ & _ & Hrids & Hm2 & _).
  - done.
  - by rewrite Hm1.
  - by eapply nameable_id.
  - done.
  - intros t. rewrite spec_unsubscribe_at, KT. cbn. case_decide as Hd; [by intros []|].
    intros Hsome. rewrite lookup_delete_ne; [by apply Hcov|]. intros ->. by apply Hd.
  - rewrite Hdis. split; [done|]. cbn [final fst snd]. rewrite Hm2, Hm1, KS. cbn.
    rewrite Hcs. cbn [left_rooms].
    rewrite (leaves_frame _ c rids rid p); [done|done|by eapply nameable_id|done|].
    rewrite Hrids, KR. cbn. destruct (room_topic rid) as [_ Htr].
    fold room in Htr. rewrite Htr, lookup_delete_eq. by intros [].
Qed.

(** ** Stranded players *)

(** A room in which a connection is not recorded is left alone by its disconnect. *)
Lemma unrecorded_room_stays c w a cl p rid r :
  wf (mgr w) → refines id (bus w) a → clients w !! c = Some cl → covered a c cl → is_id c →
  Client.roomIDs cl !! rid = None →
  Manager.rooms (mgr w) !! rid = Some p → Manager.heap (mgr w) !! p = Some r →
  value (OnDisconnect c w) = Ret tt ∧ Manager.heap (mgr (final (OnDisconnect c w))) !! p = Some r.
Proof.
  intros Hm Href Hc Hcov Hid Hri Hp Hr.
  destruct (OnDisconnect_run c w a cl Href Hm Hid Hc Hcov) as (w2 & a2 & es & rids & Hdis & _ & _ & Hrids & Hm2 & _).
  rewrite Hdis. split; [done|]. cbn [final fst snd]. rewrite Hm2.
  destruct (Client.Session cl) as [s|]; [|done]. cbn [left_rooms].
  rewrite (leaves_frame _ c rids rid p); [done..|]. rewrite Hrids, Hri. by intros [].
Qed.

(** C37: an Unsubscribe of a bare room id strands a player. [Unsubscribe] strips
    the prefix of a room's topic without asking whether it is there. A player of a
    room sends an Unsubscribe message for the id of the room, a name that is no
    room's topic: it is as subscribed to the topic of the room as before, but
    the gateway no longer records that it is in the room, and when it disconnects
    the room is left exactly as it is, with the player in it. *)
Theorem bare_unsubscribe_strands_player commands auth e c msg w cl a rid p r :
  let room := "room:" +:+ rid in
  msg.(ClientMessage.Type_) = MessageUnsubscribe → msg.(ClientMessage.Channel) = rid →
  hasPrefix rid "room:" = false →
  wf (mgr w) → refines id (bus w) a → clients w !! c = Some cl → is_id c →
  (∀ t, is_Some (default ∅ (a !! t) !! c) → is_Some (Client.topics cl !! t)) →
  Manager.rooms (mgr w) !! rid = Some p → Manager.heap (mgr w) !! p = Some r → c ∈ members r →
  ∃ w', Dispatch commands auth e c msg w = (Ret tt, w', []) ∧
    Bus.subscribers (bus w') room !! c = Bus.subscribers (bus w) room !! c ∧
    value (OnDisconnect c w') = Ret tt ∧
    Manager.heap (mgr (final (OnDisconnect c w'))) !! p = Some r.
Proof.
  intros room Hty Hch Hpre Hm Href Hc Hid Hcov Hp Hr _.
  destruct (Unsubscribe_run c rid w a Href) as (w' & Hrun & Href' & Hm' & _ & Hcl' & _).
  exists w'. split; [unfold Dispatch; rewrite Hty, Hch; exact Hrun|].
  assert (trimPrefix rid "room:" = rid) as Htrim by (unfold trimPrefix; by rewrite Hpre).
  split.
  { rewrite (refines_subscribers id _ _ room Href'), (refines_subscribers id _ _ room Href), spec_unsubscribe_at.
    rewrite decide_False; [done|]. intros [Heq _]. destruct (room_topic rid) as [Hyes _].
    fold room in Hyes. congruence. }
  destruct (unrecorded_room_stays c w' (spec_unsubscribe id rid c a) (without_topic rid cl) p rid r) as [Hv Hheap];
    rewrite ?Hm'; try done.
  - by apply Hcl'.
  - intros t. rewrite spec_unsubscribe_at. cbn. case_decide as Hd; [by intros []|].
    intros Hsome. rewrite lookup_delete_ne; [by apply Hcov|]. intros ->. by apply Hd.
  - cbn. rewrite Htrim. apply lookup_delete_eq.
Qed.

(** A join that an unrestricted room accepts. *)
Lemma accepted_join_run cx rid payload w cl a s p r :
  let c := ctx_ClientID cx in
  let room := "room:" +:+ rid in
  let u := s.(Session.UserID) in
  wf (mgr w) → refines id (bus w) a → clients w !! c = Some cl →
  ctx_Session cx = Some s → nameable c u →
  Decode payload = Ok (JoinRoomRequest.mk rid) → rid ≠ "" →
  Manager.rooms (mgr w) !! rid = Some p → Manager.heap (mgr w) !! p = Some r →
  (room_Config r).(RoomConfig.SingletonMode) = SingletonAllow →
  value (room_Join (now (ctx_env cx)) c u r) = Ret None →
  Client.topics cl !! room = None →
  let r' := final (room_Join (now (ctx_env cx)) c u r) in
  ∃ w' es cl', joinRoomHandler cx payload w = (Ret (Ok (Some (RoomInfo.Marshal (info r')))), w', es) ∧
    refines id (bus w') (spec_subscribe id room c a) ∧ clients w' !! c = Some cl' ∧
    Manager.rooms (mgr w') = Manager.rooms (mgr w) ∧
    Manager.heap (mgr w') !! p = Some r' ∧ c ∈ members r'.
Proof.
  intros c room u Hm Href Hc Hs Hn Hdec Hrid Hp Hr Hmode Hj Ht r'.
  unfold joinRoomHandler. rewrite Hdec. cbn [JoinRoomRequest.RoomID].
  rewrite (proj2 (String.eqb_neq _ _) Hrid). fold c room.
  destruct (Subscribe_run c room w cl a Href Hc Ht) as (w1 & Hrun1 & Href1 & Hm1 & _ & Hc1).
  rewrite (bind_value _ _ _ _ _ _ Hrun1). cbn [final fst snd]. unfold userID. rewrite Hs, bind_ret. fold u.
  destruct (wf_heap _ Hm p r Hr) as [Hok _].
  pose proof (JoinRoom_locked_run u c rid (mgr w) p r Hp Hr) as Hl.
  cbv zeta in Hl. rewrite Hmode in Hl. cbn [N.eqb SingletonAllow] in Hl.
  destruct (JoinRoom_plain (now (ctx_env cx)) u c rid _ p r _ _ _ Hl Hr Hok Hn) as [(e' & He & _)|(_ & _ & Hmem & Hrun)].
  { rewrite He in Hj. discriminate. }
  rewrite <- Hm1 in Hrun. destruct (with_mgr_run _ w1 _ _ _ Hrun) as (w2 & es & Hrun2 & Hm2 & Hb2 & _ & Hk2).
  rewrite (bind_value _ _ _ _ _ _ Hrun2). cbn [final fst snd].
  destruct (Hk2 c _ Hc1) as (cl2 & Hc2 & _).
  exists w2. eexists. exists cl2. split; [done|]. split; [by rewrite Hb2|]. split; [done|].
  rewrite Hm2. cbn. rewrite Hm1. split; [done|]. split; [apply lookup_insert_eq|].
  unfold r'. rewrite Hmem. set_solver.
Qed.

(** A reply that fits its frame is sent. *)
Lemma respond_returns c id (p : Marshaler) out w cl :
  clients w !! c = Some cl → p [] = Ret out → fitsLen (length out) = true →
  ∃ w' es, respond c id (Ok (Some p)) w = (Ret tt, w', es) ∧ mgr w' = mgr w ∧ bus w' = bus w.
Proof.
  intros Hc Hp Hfit. set (m := ServerMessage.mk MessageResponse id 0 0 "" "" out).
  assert (reply id (Some (Ok (Some p) : result (option Marshaler))) = Ret m) as Hr by (simpl; by rewrite Hp).
  assert (respond c id (Ok (Some p)) w = SendServerMessage c m w) as ->.
  { rewrite respond_answer. unfold answer. rewrite Hr. by rewrite bind_lift. }
  pose proof (ServerMessage_fits m []) as Hf.
  assert (fits_ServerMessage m = true) as Hm1 by exact Hfit. rewrite Hm1 in Hf.
  destruct (ServerMessage.Marshal m []) as [data|] eqn:Hm; [|done].
  destruct (SendServerMessage_replied c m data w cl Hc Hm) as (cl' & es & Hrun & _).
  by exists (set_clients <[c := cl']> w), es.
Qed.

(** C38: a message that waits when its connection ends can strand a player. The
    read loop of a connection has ended, its cleanup is done, and a room.join is
    still in the queue of the handle loop, whose select may take it ([pick]). If
    the room, one without a singleton mode, accepts, and its info fits a frame,
    the turn makes the connection a player of the room and subscribes it to its
    topic; and in any later state the read loop has ended: no step of the server
    is its end once more, which is what takes players out. *)
Theorem late_join_strands_player commands auth e c msg rest w cl a s rid p r :
  let room := "room:" +:+ rid in
  let r' := final (room_Join (now e) c s.(Session.UserID) r) in
  polite commands → Registry.Get MethodRoomJoin commands = Some joinRoomHandler →
  wf (mgr w) → refines id (bus w) a → clients w !! c = Some cl →
  cl.(Client.done) = true → ended c w → Client.topics cl !! room = None →
  cl.(Client.handles) = msg :: rest → pick cl = true →
  msg.(ClientMessage.Type_) = MessageRequest → msg.(ClientMessage.Op) = MethodRoomJoin →
  Decode msg.(ClientMessage.Payload) = Ok (JoinRoomRequest.mk rid) → rid ≠ "" →
  cl.(Client.Session) = Some s → nameable c s.(Session.UserID) →
  Manager.rooms (mgr w) !! rid = Some p → Manager.heap (mgr w) !! p = Some r →
  (room_Config r).(RoomConfig.SingletonMode) = SingletonAllow →
  value (room_Join (now e) c s.(Session.UserID) r) = Ret None →
  valid (info r') → fitsLen (length (enc (info r'))) = true →
  ∃ w' es, handleLoop_turn commands auth e c w = (Ret Continue, w', es) ∧
    Manager.rooms (mgr w') !! rid = Some p ∧ Manager.heap (mgr w') !! p = Some r' ∧ c ∈ members r' ∧
    Bus.subscribers (bus w') room !! c = Some c ∧
    ∀ st st' w'', rtc (run_step commands auth) (st, w') (st', w'') → ended c w''.
Proof.
  intros room r' Hpol Hget Hm Href Hc Hd Hread Ht Hq Hpick Hty Hop Hdec Hrid Hs Hn Hp Hr Hmode Hj Hv Hfit.
  set (cl0 := Client.set_handles (λ _, rest) cl). set (w0 := set_clients <[c := cl0]> w).
  assert (clients w0 !! c = Some cl0) as Hc0 by apply lookup_insert_eq.
  destruct (accepted_join_run (mkContext e (Some s) c) rid msg.(ClientMessage.Payload) w0 cl0 a s p r)
    as (w1 & es & cl1 & Hrun & Href1 & Hc1 & Hro1 & Hh1 & Hin); try done.
  destruct (respond_returns c msg.(ClientMessage.ID) (RoomInfo.Marshal (info r')) (enc (info r')) w1 cl1)
    as (w2 & es2 & Hresp & Hm2 & Hb2); [done|exact (marshal_enc (info r') [] Hv)|done|].
  assert (handleLoop_turn commands auth e c w = (Ret Continue, w2, (es ++ es2) ++ [])) as Hturn.
  { unfold handleLoop_turn. rewrite (bind_value _ _ _ _ _ _ (client_run c id w cl Hc)). cbn [final fst snd].
    change (@id Client.t cl) with cl. rewrite Hq, Hpick, orb_true_r.
    rewrite (bind_value _ _ _ _ _ _ (update_run c _ w)). cbn [final fst snd].
    rewrite (alter_client c _ w cl Hc). fold cl0 w0.
    assert (Dispatch commands auth e c msg w0 = (Ret tt, w2, es ++ es2)) as Hdis.
    { unfold Dispatch. rewrite Hty. cbn [N.eqb Pos.eqb MessageRequest MessageAuth MessageSubscribe MessageUnsubscribe].
      unfold handleRequest. rewrite Hop, Hget.
      rewrite (bind_value _ _ _ _ _ _ (client_run c Client.Session w0 cl0 Hc0)). cbn [final fst snd].
      change (Client.Session cl0) with (Client.Session cl). rewrite Hs.
      rewrite (bind_value _ _ _ _ _ _ Hrun). cbn [final fst snd].
      exact (f_equal (λ x, (value x, final x, es ++ effects x)) Hresp). }
    by rewrite (bind_value _ _ _ _ _ _ Hdis). }
  exists w2, ((es ++ es2) ++ []). split; [done|]. rewrite Hm2, Hro1, Hh1. split; [done|]. split; [done|].
  split; [done|]. split.
  - rewrite Hb2, (refines_subscribers id _ _ room Href1), spec_subscribe_at. by rewrite decide_True.
  - pose proof (ordered_turn commands auth Hpol c e c w) as Ho. rewrite Hturn in Ho. destruct Ho as [Hcl _ Har Hrd _].
    intros st st' w'' Hrun'. cbn in Hcl, Har, Hrd.
    apply (lt_ended _ _ _ (later_run commands auth Hpol c _ _ _ _ Hrun')); [|unfold ended; by rewrite Har, Hrd].
    destruct (Hcl cl Hc) as (cl' & Hc' & _). rewrite Hc'. by eexists.
Qed.
End handlers.

(** ** Witnesses *)

#[local] Existing Instance always_pick.

(** Alice's requests, on the connection 1 of a server without rooms and then with
    one of a single seat. *)
Definition alice_cx : context := mkContext demo_env (Some (Session.New "u" "alice")) 1.

Definition solo_request : CreateRoomRequest.t := CreateRoomRequest.mk "" "solo" 1 0 [].

Definition solo_payload : bytes := enc solo_request.

Definition solo_room : Any :=
  match value (module_Create (effective plainModule (mgr demo_authenticated) (requested solo_request)).1 "u"
    (effective plainModule (mgr demo_authenticated) (requested solo_request)).2 tt) with
  | Ret r => r
  | Panic _ => numbered 0
  end.

Lemma demo_authenticated_refines : ∃ a, refines id (bus demo_authenticated) a.
Proof.
  destruct (refines_run_ops id [OpSubscribe "client:1" 1%N] Bus.New ∅ (refines_New id)) as (b & Hb & Href).
  assert (b = bus demo_authenticated) as <-; [|by eexists].
  apply (inj Some). rewrite <- Hb. vm_compute. reflexivity.
Qed.

Definition demo_solo : Server Any AnyMod :=
  final (createRoomHandler plainModule alice_cx solo_payload demo_authenticated).

Lemma create_is_all_or_nothing_witness :
  value (createRoomHandler plainModule alice_cx solo_payload demo_authenticated) =
    Ret (Ok (Some (RoomInfo.Marshal (RoomInfo.mk "solo_u" "solo" "solo" 1 1 true 0)))) ∧
  wf (mgr demo_solo).
Proof.
  destruct demo_authenticated_refines as [a Ha].
  assert (module_Create (effective plainModule (mgr demo_authenticated) (requested solo_request)).1 "u"
    (effective plainModule (mgr demo_authenticated) (requested solo_request)).2 tt = (Ret solo_room, tt, [])) as Hcr
    by (vm_compute; reflexivity).
  assert (∀ name, Manager.rooms (mgr demo_authenticated) !! (name +:+ "_" +:+ "u") = None) as Hfresh
    by (intros name; apply lookup_empty).
  assert (Decode solo_payload = Ok solo_request) as Hdec by (vm_compute; reflexivity).
  pose proof (create_is_all_or_nothing plainModule alice_cx solo_request solo_payload demo_authenticated
    (demo_cl demo_authenticated) a (Session.New "u" "alice") wf_new Ha eq_refl eq_refl I Hdec
    ltac:(done) Hfresh) as H.
  change (uuid (ctx_env alice_cx)) with "u" in H. rewrite Hcr in H.
  destruct (H eq_refl eq_refl eq_refl eq_refl eq_refl eq_refl) as (res & w' & es & cl' & Hrun & Hwf & _).
  split; [reflexivity|]. unfold demo_solo. rewrite Hrun. exact Hwf.
Defined.

Definition solo_joined : Any :=
  default solo_room (Manager.heap (mgr demo_solo) !! 0).

Lemma demo_solo_wf : wf (mgr demo_solo).
Proof.
  assert (mgr demo_solo = final (Manager.JoinRoom 0 "alice" 1 "solo_u"
    (final (Manager.Create plainModule "u" (requested solo_request) Manager.NewManager)))) as ->
    by (vm_compute; reflexivity).
  apply (keeps_JoinRoom 0 "alice" 1 "solo_u"); [done|].
  apply keeps_Create; [apply wf_new|done|]. intros name. apply lookup_empty.
Qed.

Lemma demo_solo_refines :
  ∃ a, refines id (bus demo_solo) a ∧
    a = fold_left (flip (spec_op id)) [OpSubscribe "client:1" 1%N; OpSubscribe "room:solo_u" 1%N] ∅.
Proof.
  destruct (refines_run_ops id [OpSubscribe "client:1" 1%N; OpSubscribe "room:solo_u" 1%N] Bus.New ∅
    (refines_New id)) as (b & Hb & Href).
  eexists. split; [|reflexivity].
  assert (b = bus demo_solo) as <-; [|exact Href].
  apply (inj Some). rewrite <- Hb. vm_compute. reflexivity.
Qed.

(** Alice joins her own room again, which is full. *)
Definition rejoin_payload : bytes := enc (JoinRoomRequest.mk "solo_u").

Lemma refused_rejoin_strands_member_witness :
  let w := final (joinRoomHandler alice_cx rejoin_payload demo_solo) in
  Bus.subscribers (bus w) "room:solo_u" !! 1%N = None ∧
  room_members "solo_u" (final (OnDisconnect 1 w)) = Some {[1%N]}.
Proof.
  destruct demo_solo_refines as (a & Ha & Heq).
  destruct (refused_rejoin_strands_member alice_cx "solo_u" rejoin_payload demo_solo (demo_cl demo_solo)
    a (Session.New "u" "alice") 0 solo_joined (ErrSentinel ErrRoomFull))
    as (w' & es & Hrun & Hsub & _ & _ & Hheap).
  - apply demo_solo_wf.
  - exact Ha.
  - vm_compute; reflexivity.
  - intros t Ht. assert (Client.topics (demo_cl demo_solo) =
      (<["room:solo_u" := tt]> {["client:1" := tt]} : gmap string unit)) as -> by (vm_compute; reflexivity).
    destruct (decide (t = "room:solo_u")) as [->|H1]; [by rewrite lookup_insert_eq|].
    rewrite lookup_insert_ne by done.
    destruct (decide (t = "client:1")) as [->|H2]; [by rewrite lookup_singleton_eq|].
    rewrite Heq in Ht. cbn [fold_left flip spec_op] in Ht. rewrite spec_subscribe_at, decide_False in Ht by tauto.
    rewrite spec_subscribe_at, decide_False in Ht by tauto.
    rewrite lookup_empty in Ht. destruct Ht as [x Hx]. discriminate Hx.
  - reflexivity.
  - reflexivity.
  - done.
  - reflexivity.
  - done.
  - reflexivity.
  - reflexivity.
  - reflexivity.
  - vm_compute. done.
  - vm_compute. reflexivity.
  - reflexivity.
  - cbv zeta. split; [by rewrite Hrun|]. vm_compute. reflexivity.
Defined.

(** Alice, in her room, unsubscribes from its bare id. *)
Lemma bare_unsubscribe_strands_player_witness :
  let w := say (message MessageUnsubscribe 0 "" "duel_u" []) demo_in_room in
  Bus.subscribers (bus w) "room:duel_u" !! 1%N = Some 1%N ∧
  room_members "duel_u" (final (OnDisconnect 1 w)) = Some {[1%N]}.
Proof.
  destruct demo_in_room_refines as [a Ha].
  assert (Manager.heap (mgr demo_in_room) !! 0 = Some (default solo_room (Manager.heap (mgr demo_in_room) !! 0)))
    as Hr by (vm_compute; reflexivity).
  destruct (bare_unsubscribe_strands_player demo_commands DevAuth demo_env 1
    (message MessageUnsubscribe 0 "" "duel_u" []) demo_in_room (demo_cl demo_in_room) a "duel_u" 0
    (default solo_room (Manager.heap (mgr demo_in_room) !! 0)) eq_refl eq_refl eq_refl demo_in_room_wf Ha) as (w' & Hrun & Hsub & _ & Hheap).
  - vm_compute; reflexivity.
  - done.
  - by apply demo_covered.
  - vm_compute; reflexivity.
  - exact Hr.
  - vm_compute. done.
  - cbv zeta. split; [|vm_compute; reflexivity]. unfold say. rewrite Hrun.
    transitivity (Bus.subscribers (bus demo_in_room) "room:duel_u" !! 1%N); [exact Hsub|].
    vm_compute. reflexivity.
Defined.

(** Bob, the connection 2, asks to join alice's room and then breaks off; his read
    loop has cleaned up before the handle loop looks at its queue. *)
Definition bob_says (w : Server Any AnyMod) : Server Any AnyMod :=
  let turn w := final (handleLoop_turn demo_commands DevAuth (mkEnv 0 "v" false) 2 w) in
  let read msg w := final (ReadLoop_frame 0 2 true (enc msg) w) in
  read (message MessageRequest MethodRoomJoin "" "" (enc (JoinRoomRequest.mk "duel_u")))
    (turn (read (message MessageAuth 0 "bob" "" []) (final (handleWebSocket demo_tuning w)))).

Definition demo_broken : Server Any AnyMod := final (ReadLoop_exit 2 (bob_says demo_in_room)).

Definition bob_cl : Client.t :=
  default (Client.mk [] 0 [] ∅ ∅ None false false demo_tuning Socket.New) (clients demo_broken !! 2%N).

Lemma demo_broken_refines : ∃ a, refines id (bus demo_broken) a.
Proof.
  destruct (refines_run_ops id [OpSubscribe "client:1" 1%N; OpSubscribe "room:duel_u" 1%N;
    OpSubscribe "client:2" 2%N; OpUnsubscribe "client:2" 2%N] Bus.New ∅ (refines_New id)) as (b & Hb & Href).
  assert (b = bus demo_broken) as <-; [|by eexists].
  apply (inj Some). rewrite <- Hb. vm_compute. reflexivity.
Qed.

Lemma late_join_strands_player_witness :
  let w := final (handleLoop_turn demo_commands DevAuth demo_env 2 demo_broken) in
  room_members "duel_u" demo_broken = Some {[1%N]} ∧
  Bus.subscribers (bus w) "room:duel_u" !! 2%N = Some 2%N ∧
  room_members "duel_u" w = Some {[1%N; 2%N]} ∧
  ∀ st st' w', rtc (run_step demo_commands DevAuth) (st, w) (st', w') → ended 2 w'.
Proof.
  destruct demo_broken_refines as [a Ha].
  assert (mgr demo_broken = mgr demo_in_room) as Hm by (vm_compute; reflexivity).
  assert (clients demo_broken !! 2%N = Some bob_cl) as Hc by (vm_compute; reflexivity).
  assert (Manager.heap (mgr demo_broken) !! 0 = Some (default solo_room (Manager.heap (mgr demo_broken) !! 0)))
    as Hr by (vm_compute; reflexivity).
  destruct (late_join_strands_player demo_commands DevAuth demo_env 2
    (message MessageRequest MethodRoomJoin "" "" (enc (JoinRoomRequest.mk "duel_u"))) [] demo_broken bob_cl a
    (Session.New "v" "bob") "duel_u" 0 (default solo_room (Manager.heap (mgr demo_broken) !! 0)))
    as (w' & es & Hrun & _ & _ & _ & Hsub & Hnever).
  - exact (builtin_polite plainModule demo_config).
  - reflexivity.
  - rewrite Hm. apply demo_in_room_wf.
  - exact Ha.
  - exact Hc.
  - vm_compute; reflexivity.
  - split; vm_compute; reflexivity.
  - vm_compute; reflexivity.
  - vm_compute; reflexivity.
  - reflexivity.
  - reflexivity.
  - reflexivity.
  - vm_compute; reflexivity.
  - done.
  - vm_compute; reflexivity.
  - done.
  - vm_compute; reflexivity.
  - exact Hr.
  - vm_compute; reflexivity.
  - vm_compute; reflexivity.
  - vm_compute; done.
  - vm_compute; reflexivity.
  - cbv zeta. split; [vm_compute; reflexivity|]. rewrite Hrun. split; [exact Hsub|].
    split; [|exact Hnever].
    assert (w' = final (handleLoop_turn demo_commands DevAuth demo_env 2 demo_broken)) as -> by (by rewrite Hrun).
    vm_compute. reflexivity.
Defined.
